(* ===== verification/_CoqProject ===== *)
-Q . S2P
Prelude.v
Float64.v
GoLang.v
Strconv.v
Sha256.v
Json.v
JsonFuel.v
MinHash.v
Merkle.v
Model.v
Calendar.v
Prog.v
Tables.v
Store.v
StoreQuestion.v
StoreEpoch.v
StoreQueries.v
Lifecycle.v
Config.v
Scoring.v
Timer.v
Poll.v
PollIsolation.v
Answer.v
QuestionService.v
RootNet.v
Http.v
Auth.v
Signing.v
HandlersWorker.v
HandlersPublic.v
HandlersAdmin.v
Onchain.v
Settlement.v
Server.v
Pages.v
Secrecy.v
Claims.v
System.v
Shutdown.v
