(* ===== verification/Prelude.v ===== *)
(** * A verification development for the Benchmark Subnet server

    The server ([src/cmd/benchmarkd]) runs a market of benchmark questions.
    Workers, identified by an Ethereum key, submit questions with a reference
    answer and poll for open questions of others; each question is answered by
    a fixed number of workers under a deadline; then it is scored, which decides
    who is paid; once a day an epoch is settled: rewards are computed, added up
    by recipient and put into a Merkle tree, whose root is published on chain
    and whose proofs the public API serves.

    ** How the code is modelled

    A Go function with effects is a program ([Prog.prog]): a tree of database
    statements, transactions, clock readings, operations on the timer table,
    iterations over maps and calls to other services, in the order of the code.
    [Prog.run] executes a program in an environment that fixes the clock, the
    failures, the choices of the database and of map iteration, the replies of
    other services and the interference of other goroutines; [Prog.wp] is its
    rely-guarantee logic, sound for [run], and [Prog.wp_in] the same when the
    clocks show only certain instants, for what depends on a deadline.  The
    shared state is a record of
    tables and a timer table ([Tables]); every SQL statement is a function on
    it with the constraints of the schema.  Integers wrap where the code
    computes with them, [float64] is IEEE binary64 ([Float64]), strings are
    bytes, errors are values of [result].

    ** The files, and the code they model

    - [Prelude], [GoLang], [Float64], [Strconv], [Sha256], [Json], [JsonFuel],
      [Calendar], [Http]: shared lemmas, and what the source uses of Go and its
      standard library.
    - [Prog]: effects and their logic.
    - [Model]: [internal/model], [internal/service/errors.go] (here, [error]).
    - [MinHash]: [internal/minhash].  [Merkle]: [internal/merkle].
    - [Tables], [Store], [StoreQuestion], [StoreEpoch], [StoreQueries]:
      [internal/store] and the schema of [migrations/001_init.sql].
    - [Lifecycle]: the invariant of the tables and the transitions that every
      step of every program respects; no code of its own.
    - [Config], [Scoring], [Timer], [Poll], [Answer], [QuestionService],
      [RootNet], [Onchain], [Settlement]: the files of [internal/service] of
      these names ([question.go] for [QuestionService]).
    - [PollIsolation]: the transaction of [poll.go] again, statement by
      statement, as PostgreSQL interleaves it with others.
    - [Auth], [Signing]: [internal/auth], on the server's and on the client's
      side, and [worker_auth.go] and [middleware.go] of [internal/handler].
      [HandlersWorker], [HandlersPublic], [HandlersAdmin]: its other handlers;
      [Pages]: [frontend.go] and [admin_ui.go].
    - [Server]: [cmd/benchmarkd/main.go]: wiring, start, routes, scheduler's
      loop.  [Shutdown]: its process, from the environment to the exit.
    - [Claims], [Secrecy], [System]: theorems about several components at once.

    Components meet in three interfaces.  [Lifecycle.safe] says that a program
    keeps the invariant and the transitions under any interference that does;
    every operation is shown to be [safe] once ([serve_safe] for all
    requests, [server_entry_safe] with the start and the scheduler), and [System] composes them.
    [Postgres] and [PostgresLaws] state what is used of the database beyond SQL.
    [OnAssignmentCreated], [OnAnswerSubmitted] and the publisher are programs
    passed as arguments, as in the code.

    ** What is shown

    - Money: the final rewards of an epoch never exceed its total
      ([settlement_conserves]); a successful settlement leaves exactly their
      claims, for the recipients that RootNet has answered ([Settle_claims]),
      and the public API serves every paid worker's with the stored root and a
      proof that verifies ([claims_served]); a Merkle proof verifies exactly for leaves
      of the tree, up to hash collisions ([Proof_complete], [Verify_sound]); an
      epoch is marked published only after its root was confirmed on chain
      ([PublishMerkleRoot_sound]).
    - Work, one request at a time: polling, answering and asking are their
      abstract operations, at instants that the clock shows
      ([PollOnline_refines], [SubmitAnswer_refines], [SubmitQuestion_refines]);
      a text is accepted once in a set ([SubmitQuestion_no_duplicate]); scoring computes a reference definition,
      records exactly that, and its values have the types of their columns
      ([score_replies_reference], [ScoreQuestion_spec], [score_replies_typed]);
      time-outs free slots, score when there are enough replies, and suspend
      nobody ([handleTimeout_frees_slot]).
    - Work, all goroutines at once, with failing statements and crashes: the
      invariant of every reachable state ([server_invariant]), replies and
      time-outs exclude each other ([reply_or_timeout]), questions are scored
      once ([question_scored_once]), a start arms the timer of every claim in
      time and times out the others ([RecoverOnStartup_covers]); statement by statement, simultaneous polls
      never overfill a question nor break the invariant ([polls_capacity]),
      and a poll alone is one transaction of these
      ([poll_tx_simulated]).
    - The process: a clean exit has waited for the scoring that answers had
      started, and for the requests ([clean_exit_waits]); with no requests after
      the wait no answer's scoring is lost ([idle_shutdown_loses_nothing]).
    - Access: a request is let through only with the key's signature in time
      ([WorkerAuth_sound], [timestamp_window], [BuildSignMessage_determines]),
      and a client that signs as documented is ([WorkerAuth_complete],
      [SignMessage_verifies]);
      any other request changes nothing ([unauthorized_changes_nothing]); the
      reference answers of open questions stay secret ([answers_stay_secret]).
    - Administration: updates are all or nothing ([UpdateBenchmarkSet_spec]),
      after a change of the configuration every parameter is as documented for
      the table ([HandleUpdateConfig_takes_effect]).
    - Flaws of the code, as theorems on concrete runs: [ScoreQuestion_not_atomic],
      [SubmitAnswer_wrong_row], [SubmitQuestion_race], [repoll_leaks_timer],
      [poll_assigns_scored], [shutdown_loses_scores],
      [unsuspend_race], [BuildSignMessage_ambiguous], [startup_without_config],
      [HandleAdminUpdate_panics], [HandleAdminCreate_partial],
      [unreadable_value_accepted], [six_shares_overshoot],
      [suspension_overflows]; and where the documents say otherwise:
      [SubmitQuestion_ignores_min_score], [handleTimeout_frees_slot].

    ** Bounds and fuel

    [Json.parse] has fuel for every text ([parse_fuel_enough]), so has the
    decoding of UTF-8 ([runes_fuel_enough]); [Merkle.build_levels] has as much
    fuel as there are leaves, and ends with one root ([NewTree_single_root]).
    Other loops are structural.  Theorems about money assume an epoch's total
    below 2^37 and fewer than 2^50 pairs of questions and answers, so that no
    sum reaches 2^63; scoring assumes fewer than 2^53 replies to a question.

    ** Assumptions

    A transaction of a program is atomic for other goroutines: they act before
    it, not between its statements.  For polls [PollIsolation] shows that this
    hides no state; the transaction of a question inserts one row and adds one
    to a counter.  In [PollIsolation] the others commit single statements.  The
    configuration is a snapshot during a request.  go-ethereum's hash, key
    recovery, address conversions, signing and ABI methods are variables;
    RootNet and the chain are replies of the environment.

    ** Not modelled

    The test helpers ([internal/testutil]) connect to a test database and reset
    its schema.  Of [main.go]: what happens inside opening the database and
    listening, and the lines that print.  The JSON text of replies and the texts of instants in
    them: a reply carries the value that is encoded. *)

From Stdlib Require Export ZArith Lia Strings.Byte.
From stdpp Require Export base option sorting gmap strings numbers list.

#[global] Open Scope Z_scope.

(** ** Results of fallible Go functions

    A Go function that returns [(T, error)] returns a [result T] here: the
    [error] it returned, or the value. *)

(** The errors of the program.  [UserError] is [service.UserError]; [Failure]
    is an error that has no value of its own in the program, that is one from
    the database driver, a client library or a plain [fmt.Errorf]; [Wrapped]
    is [fmt.Errorf("...: %w", err)]. *)
Inductive error : Type :=
| UserError (Code Message : string)
| Failure (msg : string)
| Wrapped (msg : string) (err : error).

Inductive result (A : Type) : Type :=
| Ok (a : A)
| Err (e : error).
Arguments Ok {A} a.
Arguments Err {A} e.

(** [errors.As(err, &ue)]: the user error in a chain of wrapped errors. *)
Fixpoint errors_As (e : error) : option (string * string) :=
  match e with
  | UserError c m => Some (c, m)
  | Failure _ => None
  | Wrapped _ e => errors_As e
  end.

(** [err.Error()]. *)
Fixpoint Error (e : error) : string :=
  match e with
  | UserError _ m => m
  | Failure m => m
  | Wrapped m e => (m +:+ ": " +:+ Error e)%string
  end.

Definition wrap_error {A} (msg : string) (r : result A) : result A :=
  match r with Ok a => Ok a | Err e => Err (Wrapped msg e) end.

Definition is_ok {A} (r : result A) : bool :=
  match r with Ok _ => true | Err _ => false end.

#[global] Instance error_eq_dec : EqDecision error.
Proof. solve_decision. Defined.

(** ** Sums *)

(** The sum of [f] over a list. *)
Fixpoint sum_by {A} (f : A -> Z) (l : list A) : Z :=
  match l with
  | [] => 0
  | x :: l => f x + sum_by f l
  end.

Section Sums.
Context {A : Type}.
Implicit Types (f g : A -> Z) (l : list A).

Lemma sum_by_app f l1 l2 : sum_by f (l1 ++ l2) = sum_by f l1 + sum_by f l2.
Proof. induction l1 as [|x l1 IH]; cbn; lia. Qed.

Lemma sum_by_perm f l1 l2 : l1 ≡ₚ l2 -> sum_by f l1 = sum_by f l2.
Proof. induction 1; cbn; lia. Qed.

Lemma sum_by_le f g l : (forall x, x ∈ l -> f x <= g x) -> sum_by f l <= sum_by g l.
Proof.
  induction l as [|x l IH]; intros H; cbn; [lia|].
  pose proof (H x ltac:(left)).
  assert (sum_by f l <= sum_by g l) by (apply IH; intros y Hy; apply H; right; exact Hy). lia.
Qed.

Lemma sum_by_ext f g l : (forall x, x ∈ l -> f x = g x) -> sum_by f l = sum_by g l.
Proof. intros H. apply Z.le_antisymm; apply sum_by_le; intros x Hx; rewrite (H x Hx); lia. Qed.

Lemma sum_by_const c l : sum_by (fun _ => c) l = c * Z.of_nat (length l).
Proof. induction l as [|x l IH]; cbn; lia. Qed.

Lemma sum_by_nonneg f l : (forall x, x ∈ l -> 0 <= f x) -> 0 <= sum_by f l.
Proof. intros H. rewrite <- (Z.mul_0_l (Z.of_nat (length l))), <- sum_by_const. apply sum_by_le, H. Qed.

Lemma sum_by_mul c f l : sum_by (fun x => c * f x) l = c * sum_by f l.
Proof. induction l as [|x l IH]; cbn; lia. Qed.

Lemma sum_by_plus f g l : sum_by (fun x => f x + g x) l = sum_by f l + sum_by g l.
Proof. induction l as [|x l IH]; cbn; lia. Qed.

Lemma sum_by_map {B} f (h : B -> A) (l : list B) : sum_by f (map h l) = sum_by (fun x => f (h x)) l.
Proof. induction l as [|x l IH]; cbn; lia. Qed.

Lemma sum_by_filter_le f (P : A -> Prop) `{!forall x, Decision (P x)} l :
  (forall x, x ∈ l -> 0 <= f x) -> sum_by f (filter P l) <= sum_by f l.
Proof.
  induction l as [|x l IH]; intros Hf; [cbn; lia|].
  assert (sum_by f (filter P l) <= sum_by f l) by (apply IH; intros y Hy; apply Hf; right; exact Hy).
  pose proof (Hf x ltac:(left)). rewrite filter_cons. destruct (decide (P x)); cbn; lia.
Qed.

Lemma sum_by_concat_map {B} f (h : B -> list A) (l : list B) :
  sum_by f (concat (map h l)) = sum_by (fun x => sum_by f (h x)) l.
Proof. induction l as [|x l IH]; cbn; [reflexivity|]. rewrite sum_by_app, IH. reflexivity. Qed.
End Sums.

(** ** Counting *)

(** [SELECT COUNT] over rows: how many satisfy [p]. *)
Definition count_if {A} (p : A -> bool) (l : list A) : Z :=
  Z.of_nat (length (List.filter p l)).
Arguments count_if : simpl never.

Lemma count_if_app {A} (p : A -> bool) l1 l2 :
  count_if p (l1 ++ l2) = count_if p l1 + count_if p l2.
Proof. unfold count_if. rewrite List.filter_app, length_app. lia. Qed.

Lemma count_if_cons {A} (p : A -> bool) x l :
  count_if p (x :: l) = (if p x then 1 else 0) + count_if p l.
Proof. unfold count_if. cbn [List.filter]. destruct (p x); cbn [length]; lia. Qed.

Lemma count_if_nonneg {A} (p : A -> bool) l : 0 <= count_if p l.
Proof. unfold count_if. lia. Qed.

Lemma count_if_le {A} (p q : A -> bool) l :
  (forall x, x ∈ l -> p x = true -> q x = true) -> count_if p l <= count_if q l.
Proof.
  induction l as [|x l IH]; intros H; [apply Z.le_refl|]. rewrite !count_if_cons.
  assert (count_if p l <= count_if q l) by (apply IH; intros y Hy; apply H; right; exact Hy).
  pose proof (H x ltac:(left)) as Hx. destruct (p x), (q x); try lia; discriminate (Hx eq_refl).
Qed.

Lemma count_if_forall2 {A B} (R : A -> B -> Prop) (p : A -> bool) (q : B -> bool) l1 l2 : Forall2 R l1 l2 ->
  (forall a b, R a b -> q b = true -> p a = true) -> count_if q l2 <= count_if p l1.
Proof.
  intros H HR. induction H as [|a b l1 l2 Hab _ IH]; [reflexivity|]. rewrite !count_if_cons.
  specialize (HR a b Hab). destruct (q b); [rewrite HR by reflexivity|]; destruct (p a); lia.
Qed.

Lemma count_if_map {A B} (p : B -> bool) (f : A -> B) l : count_if p (map f l) = count_if (fun x => p (f x)) l.
Proof. induction l as [|x l IH]; [reflexivity|]. cbn [map]. rewrite !count_if_cons, IH. reflexivity. Qed.

Lemma count_if_zero {A} (p : A -> bool) l :
  (forall x, x ∈ l -> p x = false) <-> count_if p l = 0.
Proof.
  induction l as [|x l IH]; [split; [reflexivity|intros _ x Hx; inversion Hx]|].
  rewrite count_if_cons. pose proof (count_if_nonneg p l). split.
  - intros H1. rewrite (H1 x) by left. cut (count_if p l = 0); [lia|].
    apply IH. intros y Hy. apply H1. right. exact Hy.
  - intros H1 y Hy. destruct (p x) eqn:E; [lia|].
    apply elem_of_cons in Hy as [->|Hy]; [exact E|]. apply IH; [lia|exact Hy].
Qed.

Lemma elem_of_map {A B} (f : A -> B) (l : list A) y : y ∈ map f l <-> exists x, y = f x /\ x ∈ l.
Proof. apply (list_elem_of_fmap f l y). Qed.

Lemma list_lookup_map {A B} (f : A -> B) (l : list A) (i : nat) : map f l !! i = f <$> (l !! i).
Proof. apply (list_lookup_fmap f l i). Qed.

Lemma filter_filter {A} (p q : A -> bool) l :
  List.filter p (List.filter q l) = List.filter (fun x => q x && p x) l.
Proof.
  induction l as [|x l IH]; [reflexivity|]. cbn. destruct (q x); cbn; [|exact IH].
  destruct (p x); rewrite IH; reflexivity.
Qed.

Lemma filter_all {A} (p : A -> bool) l : (forall x, x ∈ l -> p x = true) -> List.filter p l = l.
Proof.
  induction l as [|x l IH]; intros H; [reflexivity|]. cbn. rewrite H by left. f_equal.
  apply IH. intros y Hy. apply H. right. exact Hy.
Qed.

Lemma filter_none {A} (p : A -> bool) l : (forall x, x ∈ l -> p x = false) -> List.filter p l = [].
Proof.
  induction l as [|x l IH]; intros H; [reflexivity|]. cbn. rewrite H by left.
  apply IH. intros y Hy. apply H. right. exact Hy.
Qed.

Lemma filter_ext_elem {A} (p q : A -> bool) l : (forall x, x ∈ l -> p x = q x) ->
  List.filter p l = List.filter q l.
Proof. intros H. apply List.filter_ext_in. intros x Hx. apply H, list_elem_of_In, Hx. Qed.

Lemma elem_of_filter_bool {A} (p : A -> bool) l x : x ∈ List.filter p l <-> p x = true /\ x ∈ l.
Proof. rewrite !list_elem_of_In, List.filter_In. tauto. Qed.

Lemma NoDup_filter_bool {A} (p : A -> bool) l : NoDup l -> NoDup (List.filter p l).
Proof.
  induction 1 as [|x l Hx Hl IH]; cbn; [constructor|]. destruct (p x); [|exact IH].
  constructor; [|exact IH]. rewrite elem_of_filter_bool. tauto.
Qed.

#[export] Instance filter_bool_perm {A} (p : A -> bool) : Proper (Permutation ==> Permutation) (List.filter p).
Proof.
  induction 1 as [|x l1 l2 H IH|x y l|l1 l2 l3 _ IH1 _ IH2]; cbn; try reflexivity.
  - destruct (p x); rewrite IH; reflexivity.
  - destruct (p x), (p y); try reflexivity. apply perm_swap.
  - rewrite IH1. exact IH2.
Qed.

Lemma count_if_perm {A} (p : A -> bool) l1 l2 : l1 ≡ₚ l2 -> count_if p l1 = count_if p l2.
Proof. intros H. unfold count_if. rewrite H. reflexivity. Qed.

Lemma count_if_ext {A} (p q : A -> bool) l : (forall x, x ∈ l -> p x = q x) -> count_if p l = count_if q l.
Proof. intros H. unfold count_if. rewrite (filter_ext_elem p q l H). reflexivity. Qed.

Lemma count_if_pos {A} (p : A -> bool) l x : x ∈ l -> p x = true -> 0 < count_if p l.
Proof.
  intros Hx Hp. pose proof (count_if_nonneg p l). destruct (Z.eq_dec (count_if p l) 0) as [E|]; [|lia].
  rewrite (proj2 (count_if_zero p l) E x Hx) in Hp. discriminate.
Qed.

Lemma sum_by_if {A} c (p : A -> bool) l : sum_by (fun x => if p x then c else 0) l = c * count_if p l.
Proof. induction l as [|x l IH]; [unfold count_if; cbn; lia|]. rewrite count_if_cons. cbn. destruct (p x); lia. Qed.

Lemma count_if_le_length {A} (p : A -> bool) l : count_if p l <= Z.of_nat (length l).
Proof. induction l as [|x l IH]; [unfold count_if; cbn; lia|]. rewrite count_if_cons. cbn [length]. destruct (p x); lia. Qed.

Lemma existsb_true {A} (p : A -> bool) l : existsb p l = true <-> exists x, x ∈ l /\ p x = true.
Proof. rewrite existsb_exists. setoid_rewrite list_elem_of_In. reflexivity. Qed.

Lemma existsb_false {A} (p : A -> bool) l : existsb p l = false <-> forall x, x ∈ l -> p x = false.
Proof.
  rewrite <- not_true_iff_false, existsb_true. split.
  - intros H x Hx. destruct (p x) eqn:E; [|reflexivity]. destruct H. eauto.
  - intros H (x & Hx & Hp). rewrite (H x Hx) in Hp. discriminate.
Qed.

Lemma count_if_found {A} (p : A -> bool) l : 0 < count_if p l -> exists x, x ∈ l /\ p x = true.
Proof.
  intros H. destruct (existsb p l) eqn:E; [apply existsb_true, E|].
  rewrite existsb_false in E. apply count_if_zero in E. lia.
Qed.

Lemma forallb_true {A} (p : A -> bool) l : forallb p l = true <-> forall x, x ∈ l -> p x = true.
Proof. rewrite forallb_forall. setoid_rewrite list_elem_of_In. reflexivity. Qed.

Lemma filter_split {A} (p : A -> bool) l : l ≡ₚ List.filter p l ++ List.filter (fun x => negb (p x)) l.
Proof.
  induction l as [|x l IH]; [reflexivity|]. cbn. destruct (p x); cbn.
  - apply perm_skip. exact IH.
  - rewrite <- Permutation_middle. apply perm_skip. exact IH.
Qed.

Lemma map_ext_elem {A B} (f g : A -> B) l : (forall x, x ∈ l -> f x = g x) -> map f l = map g l.
Proof. intros H. apply map_ext_in. intros x Hx. apply H, list_elem_of_In, Hx. Qed.

Lemma NoDup_map_filter {A B} (f : A -> B) (p : A -> bool) l : NoDup (map f l) -> NoDup (map f (List.filter p l)).
Proof.
  induction l as [|x l IH]; cbn; [auto|]. intros H. apply NoDup_cons in H as [Hx H].
  destruct (p x); [|auto]. cbn. apply NoDup_cons. split; [|auto].
  rewrite elem_of_map. intros (y & E & Hy). apply elem_of_filter_bool in Hy as [_ Hy].
  apply Hx, elem_of_map. eauto.
Qed.

Lemma NoDup_map_inv {A B} (f : A -> B) l : NoDup (map f l) -> NoDup l.
Proof. apply NoDup_fmap_1. Qed.

(** ** Automation *)

Create HintDb subnet.
Create Rewrite HintDb subnet.
#[export] Hint Resolve count_if_nonneg : subnet.
#[export] Hint Rewrite @sum_by_app @count_if_app @count_if_cons @length_app : subnet.

(** Case analysis on the first boolean test or match of the goal. *)
Ltac case_goal :=
  match goal with
  | |- context [if ?b then _ else _] => destruct b eqn:?
  | |- context [match ?x with _ => _ end] => destruct x eqn:?
  end.

(** Turn boolean comparisons in the context into propositions. *)
Ltac bool_props :=
  repeat match goal with
  | H : (_ <? _) = true |- _ => apply Z.ltb_lt in H
  | H : (_ <? _) = false |- _ => apply Z.ltb_ge in H
  | H : (_ <=? _) = true |- _ => apply Z.leb_le in H
  | H : (_ <=? _) = false |- _ => apply Z.leb_gt in H
  | H : (_ =? _) = true |- _ => apply Z.eqb_eq in H
  | H : (_ =? _) = false |- _ => apply Z.eqb_neq in H
  | H : (_ && _)%bool = true |- _ => apply andb_true_iff in H; destruct H
  | H : (_ || _)%bool = false |- _ => apply orb_false_iff in H; destruct H
  | H : bool_decide _ = true |- _ => apply bool_decide_eq_true in H
  | H : bool_decide _ = false |- _ => apply bool_decide_eq_false in H
  | H : negb _ = true |- _ => apply negb_true_iff in H
  | H : negb _ = false |- _ => apply negb_false_iff in H
  end.
