(* ===== verification/Float64.v ===== *)
(** * Go's [float64]

    The program computes shares, pass rates, composite scores, rewards and
    similarities in [float64].  The Standard Library's [SpecFloat] gives IEEE
    754 binary64 as executable Gallina functions (round to nearest, ties to
    even), so the model computes the very doubles that the Go code computes.
    This file fixes the format, gives the conversions Go uses ([float64(n)]
    and [int64(x)]), and proves the rounding facts that the rest of the
    library needs: every operation on nonnegative values returns the exact
    value up to half a unit in the last place ([rounds]), never crosses an
    integer below 2^53 ([rounds_le_int], [rounds_ge_int]) and has relative
    error at most 2^-53 ([rounds_rel_err]). *)

From Stdlib Require Import ZArith QArith Qpower Lqa Lia SpecFloat Bool.

(** ** The format and the operations *)

(** A Go [float64]. *)
Abbreviation float64 := spec_float.

Definition prec64 : Z := 53.
Definition emax64 : Z := 1024.

Definition fmul : float64 -> float64 -> float64 := SFmul prec64 emax64.
Definition fdiv : float64 -> float64 -> float64 := SFdiv prec64 emax64.
Definition fadd : float64 -> float64 -> float64 := SFadd prec64 emax64.
Definition fleb : float64 -> float64 -> bool := SFleb.
Definition fltb : float64 -> float64 -> bool := SFltb.

(** [float64(n)] of an integer, and the constant [0]. *)
Definition of_int (n : Z) : float64 := binary_normalize prec64 emax64 n 0 false.
Definition fzero : float64 := S754_zero false.

(** The double nearest to [n/d]: the value of a decimal literal such as
    [0.1] ([of_ratio 1 10]) and of a [NUMERIC] column that is read back. *)
Definition of_ratio (n d : Z) : float64 := fdiv (of_int n) (of_int d).

(** Truncation toward zero. *)
Definition trunc (f : float64) : option Z :=
  match f with
  | S754_zero _ => Some 0
  | S754_finite s m e =>
      let t := if 0 <=? e then Z.pos m * 2 ^ e else Z.pos m / 2 ^ (- e) in
      Some (if s then - t else t)
  | _ => None
  end%Z.

(** [int64(x)]: truncation; for a value that does not fit, Go leaves the
    result to the implementation, and the amd64 instruction yields -2^63. *)
Definition to_int64 (f : float64) : Z :=
  match trunc f with
  | Some t => if ((- 2 ^ 63 <=? t) && (t <? 2 ^ 63))%Z%bool then t else (- 2 ^ 63)%Z
  | None => (- 2 ^ 63)%Z
  end.

(** ** Exact values *)

Local Open Scope Q_scope.

(** 2^e as a rational. *)
Definition p2 (e : Z) : Q := (2 # 1) ^ e.

(** The value of a finite double. *)
Definition fval (f : float64) : Q :=
  match f with
  | S754_finite false m e => inject_Z (Z.pos m) * p2 e
  | S754_finite true m e => - (inject_Z (Z.pos m) * p2 e)
  | _ => 0
  end.

(** The double is finite and its sign is not minus (zeros of both signs
    count). *)
Definition nonneg_finite (f : float64) : Prop :=
  match f with
  | S754_zero _ => True
  | S754_finite false _ _ => True
  | _ => False
  end.

(** [f] is [v] rounded to nearest: a multiple of the unit [p2 E] within half a
    unit, where the unit is that of a 53-bit significand, or [f] is exact. *)
Definition rounds (v : Q) (f : float64) : Prop :=
  nonneg_finite f /\
  exists (k E : Z), (0 <= k)%Z /\ fval f == inject_Z k * p2 E /\
    inject_Z k * p2 E - v <= p2 E * (1 # 2) /\ v - inject_Z k * p2 E <= p2 E * (1 # 2) /\
    (inject_Z k * p2 E == v \/ (E = -1074)%Z \/ p2 (E + 52) <= v).

(** A pair of a truncated significand and its round and sticky bits describes
    the real [x]. *)
Definition inb (r : shr_record) (x : Q) : Prop :=
  let m := inject_Z (shr_m r) in
  match shr_r r, shr_s r with
  | false, false => x == m
  | false, true => m < x /\ x < m + (1 # 2)
  | true, false => x == m + (1 # 2)
  | true, true => m + (1 # 2) < x /\ x < m + 1
  end.

(** ** Powers of two *)

Lemma p2_pos e : 0 < p2 e.
Proof. apply Qpower_0_lt. reflexivity. Qed.

Lemma p2_plus a b : p2 (a + b) == p2 a * p2 b.
Proof. apply Qpower_plus. discriminate. Qed.

Lemma p2_Z e : (0 <= e)%Z -> p2 e == inject_Z (2 ^ e).
Proof. intros He. unfold p2. rewrite Zpower_Qpower by exact He. reflexivity. Qed.

Lemma p2_inv e : p2 e * p2 (- e) == 1.
Proof. rewrite <- p2_plus, Z.add_opp_diag_r. reflexivity. Qed.

Lemma p2_le a b : (a <= b)%Z -> p2 a <= p2 b.
Proof. intros H. apply Qpower_le_compat_l; [exact H | discriminate]. Qed.

Lemma p2_lt_inv a b : p2 a < p2 b -> (a < b)%Z.
Proof. intros H. apply (Qpower_lt_compat_l_inv (2 # 1)); [exact H | reflexivity]. Qed.

Lemma p2_succ e : p2 (e + 1) == 2 * p2 e.
Proof. rewrite p2_plus. change (p2 1) with (2 # 1). ring. Qed.

(** Comparing integers through their images in Q. *)
Lemma inject_Z_double_half a b : inject_Z a <= inject_Z b + (1 # 2) -> (a <= b)%Z.
Proof.
  intros H. unfold inject_Z, Qle, Qplus in H. cbn in H. lia.
Qed.

Lemma inject_Z_lt a b : (a < b)%Z <-> inject_Z a < inject_Z b.
Proof. unfold Qlt, inject_Z. cbn. lia. Qed.

Lemma inject_Z_le a b : (a <= b)%Z <-> inject_Z a <= inject_Z b.
Proof. unfold Qle, inject_Z. cbn. lia. Qed.

(** ** Digits of a significand *)

Lemma digits2_pos_bounds m :
  (2 ^ (Z.pos (digits2_pos m) - 1) <= Z.pos m < 2 ^ Z.pos (digits2_pos m))%Z.
Proof.
  induction m as [m IH|m IH|]; cbn [digits2_pos]; [| |cbn; lia];
    rewrite Pos2Z.inj_succ;
    replace (Z.succ (Z.pos (digits2_pos m)) - 1)%Z with (Z.succ (Z.pos (digits2_pos m) - 1)) by lia;
    rewrite !Z.pow_succ_r by lia; lia.
Qed.

Lemma Zdigits2_bounds m : (0 < m)%Z ->
  (2 ^ (Zdigits2 m - 1) <= m < 2 ^ Zdigits2 m)%Z.
Proof. destruct m as [|m|m]; try lia. intros _. apply digits2_pos_bounds. Qed.

Lemma Zdigits2_nonneg m : (0 <= Zdigits2 m)%Z.
Proof. destruct m; cbn; lia. Qed.

Lemma Zdigits2_ge m d : (0 <= d)%Z -> (2 ^ d <= m)%Z -> (d < Zdigits2 m)%Z.
Proof.
  intros Hd Hm.
  assert (0 < m)%Z as Hpos by (pose proof (Z.pow_pos_nonneg 2 d); lia).
  pose proof (Zdigits2_bounds m Hpos) as [_ Hlt].
  apply (Z.pow_lt_mono_r_iff 2); [lia | apply Zdigits2_nonneg | lia].
Qed.

Lemma Zdigits2_le m d : (0 <= d)%Z -> (0 <= m < 2 ^ d)%Z -> (Zdigits2 m <= d)%Z.
Proof.
  intros Hd Hm. destruct (Z.eq_dec m 0) as [->|Hne]; [exact Hd|].
  destruct (Zdigits2_bounds m ltac:(lia)) as [Hlo _].
  destruct (Z_le_gt_dec (Zdigits2 m) d) as [|Hgt]; [assumption|].
  assert (2 ^ d <= 2 ^ (Zdigits2 m - 1))%Z by (apply Z.pow_le_mono_r; lia). lia.
Qed.

(** The value of a significand lies between the powers of two of its digits. *)
Lemma sig_value_ge m e : (0 < m)%Z -> p2 (Zdigits2 m + e - 1) <= inject_Z m * p2 e.
Proof.
  intros Hm. destruct (Zdigits2_bounds m Hm) as [Hlo _].
  assert (0 < Zdigits2 m)%Z by (destruct m; cbn; lia).
  replace (Zdigits2 m + e - 1)%Z with ((Zdigits2 m - 1) + e)%Z by lia.
  rewrite p2_plus, p2_Z by lia.
  apply Qmult_le_compat_r; [apply (proj1 (inject_Z_le _ _)); exact Hlo | apply Qlt_le_weak, p2_pos].
Qed.

(** ** Shifting and rounding a significand *)

Lemma inb_loc_exact m : inb (shr_record_of_loc m loc_Exact) (inject_Z m).
Proof. reflexivity. Qed.

(** One step of the shift halves the value; the bits that fall off go to the
    round and sticky bits. *)
Lemma shr_1_inb r x : (0 <= shr_m r)%Z -> inb r x ->
  (0 <= shr_m (shr_1 r))%Z /\ inb (shr_1 r) (x * (1 # 2)).
Proof.
  destruct r as [m rb sb]; cbn [shr_m]. intros Hm H.
  assert (forall p, inject_Z (Z.pos p~1) == 2 * inject_Z (Z.pos p) + 1) as E1.
  { intros p. rewrite Pos2Z.inj_xI, inject_Z_plus, inject_Z_mult. reflexivity. }
  assert (forall p, inject_Z (Z.pos p~0) == 2 * inject_Z (Z.pos p)) as E0.
  { intros p. rewrite Pos2Z.inj_xO, inject_Z_mult. reflexivity. }
  destruct m as [|[p|p|]|p]; try lia; (split; [destruct rb, sb; cbn; lia|]);
    destruct rb, sb; unfold inb in *; cbn [shr_1 shr_m shr_r shr_s orb] in *;
    rewrite ?E1, ?E0 in H; try (set (q := inject_Z (Z.pos p)) in *; clearbody q);
    change (inject_Z 0) with 0 in *; change (inject_Z 1) with 1 in *; lra.
Qed.

Lemma iter_shr_inb p : forall r x, (0 <= shr_m r)%Z -> inb r x ->
  (0 <= shr_m (iter_pos shr_1 p r))%Z /\ inb (iter_pos shr_1 p r) (x * p2 (- Z.pos p)).
Proof.
  assert (forall a y : Q, a == y -> forall r, inb r a -> inb r y) as Hcongr.
  { intros a y Hay [m [] []]; unfold inb; cbn; rewrite <- Hay; auto. }
  induction p as [p IH|p IH|]; intros r x Hm H; cbn [iter_pos].
  - destruct (shr_1_inb r x Hm H) as [Hm1 H1].
    destruct (IH _ _ Hm1 H1) as [Hm2 H2]. destruct (IH _ _ Hm2 H2) as [Hm3 H3].
    split; [exact Hm3|]. refine (Hcongr _ _ _ _ H3).
    replace (- Z.pos p~1)%Z with (- Z.pos p + - Z.pos p + -1)%Z by lia.
    rewrite !p2_plus. change (p2 (-1)) with (1 # 2). ring.
  - destruct (IH _ _ Hm H) as [Hm2 H2]. destruct (IH _ _ Hm2 H2) as [Hm3 H3].
    split; [exact Hm3|]. refine (Hcongr _ _ _ _ H3).
    replace (- Z.pos p~0)%Z with (- Z.pos p + - Z.pos p)%Z by lia.
    rewrite !p2_plus. ring.
  - destruct (shr_1_inb r x Hm H) as [Hm1 H1]. split; [exact Hm1|]. exact H1.
Qed.

(** The shift by [n] bits, for any sign of [n]. *)
Lemma shr_inb r x e n : (0 <= shr_m r)%Z -> inb r x ->
  let '(r', e') := shr r e n in
  (0 <= shr_m r')%Z /\ e' = (e + Z.max 0 n)%Z /\ inb r' (x * p2 (- Z.max 0 n)) /\
  ((n <= 0)%Z -> r' = r).
Proof.
  intros Hm H.
  assert (forall y, y == x -> inb r y) as Hcongr.
  { intros y Hy. destruct r as [m [] []]; unfold inb in *; cbn in *; rewrite Hy; auto. }
  destruct n as [|p|p]; cbn [shr Z.max Z.compare].
  - change (p2 (- 0)) with 1. repeat split; try lia; auto. apply Hcongr. ring.
  - destruct (iter_shr_inb p r x Hm H). repeat split; auto. lia.
  - change (p2 (- 0)) with 1. repeat split; try lia; auto. apply Hcongr. ring.
Qed.

(** Rounding to nearest even picks an integer within one half. *)
Lemma round_nearest_even_err r x : (0 <= shr_m r)%Z -> inb r x ->
  let k := round_nearest_even (shr_m r) (loc_of_shr_record r) in
  (0 <= k)%Z /\ (shr_m r <= k <= shr_m r + 1)%Z /\
  inject_Z k - x <= 1 # 2 /\ x - inject_Z k <= 1 # 2.
Proof.
  destruct r as [m rb sb]; cbn [shr_m]. intros Hm H.
  destruct rb, sb; unfold inb in H; cbn in H |- *;
    try (destruct (Z.even m)); rewrite ?inject_Z_plus; change (inject_Z 1) with 1;
    (split; [lia|]); (split; [lia|]); split; lra.
Qed.

Lemma fexp_eq e : fexp prec64 emax64 e = Z.max (e - 53) (-1074).
Proof. reflexivity. Qed.

(** The second normalisation of [binary_round_aux]: a significand of at most
    53 bits, or exactly 2^53, keeps its value. *)
Lemma shr_fexp_exact k E : (0 <= k <= 2 ^ 53)%Z -> (-1074 <= E)%Z ->
  let '(r, e') := shr_fexp prec64 emax64 k E loc_Exact in
  (0 <= shr_m r)%Z /\ inject_Z (shr_m r) * p2 e' == inject_Z k * p2 E /\ (e' <= E + 1)%Z.
Proof.
  intros Hk HE. unfold shr_fexp. rewrite fexp_eq.
  destruct (Z.eq_dec k (2 ^ 53)) as [->|Hne].
  - change (Zdigits2 (2 ^ 53)) with 54%Z.
    replace (Z.max (54 + E - 53) (-1074) - E)%Z with 1%Z by lia.
    cbn [shr]. change (iter_pos shr_1 1 (shr_record_of_loc (2 ^ 53) loc_Exact))
      with {| shr_m := 2 ^ 52; shr_r := false; shr_s := false |}.
    cbn [shr_m]. repeat split; try lia. rewrite p2_succ.
    change (inject_Z (2 ^ 53)) with (inject_Z (2 * 2 ^ 52)). rewrite inject_Z_mult.
    change (inject_Z 2) with (2 # 1). ring.
  - assert (Zdigits2 k <= 53)%Z by (apply Zdigits2_le; lia).
    destruct (Z.max (Zdigits2 k + E - 53) (-1074) - E)%Z eqn:En; cbn [shr shr_record_of_loc shr_m];
      repeat split; try lia; reflexivity.
Qed.

Lemma inb_bounds r x : inb r x -> inject_Z (shr_m r) <= x /\ x < inject_Z (shr_m r) + 1.
Proof. destruct r as [m [] []]; unfold inb; cbn [shr_m shr_r shr_s]; lra. Qed.

Lemma shr_m_of_loc m l : shr_m (shr_record_of_loc m l) = m.
Proof. destruct l as [|[]]; reflexivity. Qed.

(** A truncated significand with [d] digits that is shifted to the 53-bit
    exponent has at most 53 bits. *)
Lemma shifted_sig_bound m l x e E r :
  (0 <= m)%Z -> inb (shr_record_of_loc m l) x ->
  (Zdigits2 m + e - 53 <= E)%Z -> (0 <= shr_m r)%Z ->
  inb r (x * p2 (e - E)) -> (shr_m r < 2 ^ 53)%Z.
Proof.
  intros Hm Hx HE Hr H.
  destruct (inb_bounds _ _ Hx) as [_ Hx1]. rewrite shr_m_of_loc in Hx1.
  destruct (inb_bounds _ _ H) as [Hr1 _].
  apply inject_Z_lt. rewrite <- (p2_Z 53) by lia.
  apply Qle_lt_trans with (1 := Hr1).
  assert (x < p2 (Zdigits2 m)) as Hxd.
  { rewrite p2_Z by apply Zdigits2_nonneg. apply Qlt_le_trans with (1 := Hx1).
    change 1 with (inject_Z 1). rewrite <- inject_Z_plus. apply (proj1 (inject_Z_le _ _)).
    destruct (Z.eq_dec m 0) as [->|]; [cbn; lia|].
    destruct (Zdigits2_bounds m ltac:(lia)). lia. }
  apply Qlt_le_trans with (p2 (Zdigits2 m) * p2 (e - E)).
  - apply Qmult_lt_compat_r; [apply p2_pos | exact Hxd].
  - rewrite <- p2_plus. apply p2_le. lia.
Qed.

(** Scaling the half-unit error of the significand by the unit. *)
Lemma scaled_error k x E : inject_Z k - x <= 1 # 2 -> x - inject_Z k <= 1 # 2 ->
  inject_Z k * p2 E - x * p2 E <= p2 E * (1 # 2) /\
  x * p2 E - inject_Z k * p2 E <= p2 E * (1 # 2).
Proof. intros H1 H2. pose proof (p2_pos E). split; nra. Qed.

Lemma round_aux_spec m e l x :
  (0 <= m)%Z -> inb (shr_record_of_loc m l) x ->
  let e1 := fexp prec64 emax64 (Zdigits2 m + e) in
  let E := Z.max e e1 in
  (E <= 960)%Z ->
  let f := binary_round_aux prec64 emax64 false m e l in
  nonneg_finite f /\
  exists k, (0 <= k)%Z /\ fval f == inject_Z k * p2 E /\
    inject_Z k * p2 E - x * p2 e <= p2 E * (1 # 2) /\
    x * p2 e - inject_Z k * p2 E <= p2 E * (1 # 2) /\
    (l = loc_Exact -> (e1 <= e)%Z -> inject_Z k * p2 E == x * p2 e).
Proof.
  intros Hm Hx e1 E HE f. subst f. unfold binary_round_aux.
  change (shr_fexp prec64 emax64 m e l) with (shr (shr_record_of_loc m l) e (e1 - e)).
  pose proof (shr_inb (shr_record_of_loc m l) x e (e1 - e)) as Hs.
  rewrite shr_m_of_loc in Hs. specialize (Hs Hm Hx).
  destruct (shr (shr_record_of_loc m l) e (e1 - e)) as [r1 E'] eqn:Es.
  destruct Hs as (Hr1 & HE' & Hin & Hnoshift).
  assert (E' = E) as -> by lia. clear HE'.
  replace (- Z.max 0 (e1 - e))%Z with (e - E)%Z in Hin by lia.
  pose proof (shifted_sig_bound m l x e E r1 Hm Hx ltac:(subst E e1; rewrite fexp_eq; lia) Hr1 Hin).
  destruct (round_nearest_even_err r1 _ Hr1 Hin) as (Hk0 & Hk1 & Herr1 & Herr2).
  set (k := round_nearest_even (shr_m r1) (loc_of_shr_record r1)) in *.
  destruct (scaled_error k _ E Herr1 Herr2) as [He1 He2].
  assert (x * p2 (e - E) * p2 E == x * p2 e) as Ev.
  { rewrite <- Qmult_assoc, <- p2_plus. replace (e - E + E)%Z with e by lia. reflexivity. }
  rewrite Ev in He1, He2.
  pose proof (shr_fexp_exact k E ltac:(lia) ltac:(subst E e1; rewrite fexp_eq; lia)) as Hx2.
  destruct (shr_fexp prec64 emax64 k E loc_Exact) as [r2 e2].
  destruct Hx2 as (Hr2 & Hval & He2').
  assert (fval (match shr_m r2 with
                | 0%Z => S754_zero false
                | Z.pos p => if (e2 <=? emax64 - prec64)%Z then S754_finite false p e2
                             else S754_infinity false
                | Z.neg _ => S754_nan end) == inject_Z k * p2 E) as Hf.
  { destruct (shr_m r2) as [|p|p]; [|destruct (Z.leb_spec e2 (emax64 - prec64))|lia];
      cbn [fval]; [change (inject_Z 0) with 0 in Hval; lra | exact Hval |].
    unfold emax64, prec64 in *; lia. }
  split.
  - destruct (shr_m r2) as [|p|p]; [exact I| |lia].
    destruct (Z.leb_spec e2 (emax64 - prec64)); [exact I | unfold emax64, prec64 in *; lia].
  - exists k. do 4 (split; [assumption|]). intros Hl Hle.
    assert (E = e) as -> by lia.
    assert (r1 = shr_record_of_loc m l) as -> by (apply Hnoshift; lia).
    subst l k. unfold inb in Hx. cbn in Hx |- *. rewrite Hx. reflexivity.
Qed.

(** ** The rounding specification of the operations *)

(** What rounding an exact value below 2^900 gives. *)
Lemma round_aux_rounds m e l x :
  (0 <= m)%Z -> inb (shr_record_of_loc m l) x -> x * p2 e < p2 900 ->
  0 < x * p2 e ->
  (l = loc_Exact \/ (e <= fexp prec64 emax64 (Zdigits2 m + e))%Z) ->
  rounds (x * p2 e) (binary_round_aux prec64 emax64 false m e l).
Proof.
  intros Hm Hx Hhi Hpos Hl.
  destruct (inb_bounds _ _ Hx) as [Hmx Hxm]. rewrite shr_m_of_loc in Hmx, Hxm.
  pose proof (p2_pos e) as Hpe.
  assert (0 < m \/ m = 0)%Z as Hcase by lia.
  assert ((0 < m)%Z -> p2 (Zdigits2 m + e - 1) <= x * p2 e) as Hge.
  { intros Hm0. apply Qle_trans with (1 := sig_value_ge m e Hm0). nra. }
  assert ((0 < m)%Z -> (Zdigits2 m + e <= 900)%Z) as Hd.
  { intros Hm0. specialize (Hge Hm0).
    assert (Zdigits2 m + e - 1 < 900)%Z by (apply p2_lt_inv; apply Qle_lt_trans with (1 := Hge); exact Hhi).
    lia. }
  assert (0 < m -> 1 <= Zdigits2 m)%Z as Hd1 by (destruct m; cbn; lia).
  assert (m = 0 -> l = loc_Exact -> False)%Z as Hz.
  { intros -> ->. unfold inb in Hx. cbn in Hx. rewrite Hx in Hpos.
    change (inject_Z 0) with 0 in Hpos. nra. }
  pose proof (round_aux_spec m e l x Hm Hx) as Hspec. cbn zeta in Hspec.
  rewrite fexp_eq in *.
  destruct Hspec as (Hfin & k & Hk & Hv & He1 & He2 & Hexact).
  { destruct Hcase as [Hm0|Hm0]; [specialize (Hd Hm0); specialize (Hd1 Hm0); lia|].
    destruct Hl as [Hl|Hl]; [contradiction (Hz Hm0 Hl)|].
    subst m. cbn [Zdigits2] in *. lia. }
  split; [exact Hfin|].
  exists k, (Z.max e (Z.max (Zdigits2 m + e - 53) (-1074))). do 4 (split; [assumption|]).
  destruct (Z_le_gt_dec (Z.max (Zdigits2 m + e - 53) (-1074)) e) as [Hle|Hgt].
  - destruct Hl as [Hl|Hl]; [left; auto|].
    destruct Hcase as [Hm0|Hm0].
    + specialize (Hge Hm0). destruct (Z_le_gt_dec (-1074) (Zdigits2 m + e - 53)); [|right; left; lia].
      right; right. apply Qle_trans with (2 := Hge). apply p2_le. lia.
    + subst m. cbn [Zdigits2] in *. right; left. lia.
  - right. destruct (Z_le_gt_dec (Zdigits2 m + e - 53) (-1074)); [left; lia|right].
    assert (0 < m)%Z as Hm0 by (destruct Hcase as [|Hm0]; [assumption|subst m; cbn in *; lia]).
    apply Qle_trans with (2 := Hge Hm0). apply p2_le. lia.
Qed.

Lemma rounds_zero s : rounds 0 (S754_zero s).
Proof.
  split; [exact I|]. exists 0%Z, (-1074)%Z. pose proof (p2_pos (-1074)).
  split; [lia|]. change (inject_Z 0) with 0. cbn [fval].
  repeat split; lra.
Qed.

#[export] Instance rounds_proper : Proper (Qeq ==> eq ==> iff) rounds.
Proof.
  intros v w Hvw f _ <-. unfold rounds. split; intros (Hf & k & E & H).
  - split; [exact Hf|]. exists k, E. rewrite <- Hvw. exact H.
  - split; [exact Hf|]. exists k, E. rewrite Hvw. exact H.
Qed.

Lemma iter_xO p n : inject_Z (Z.pos (Pos.iter xO p n)) == inject_Z (Z.pos p) * p2 (Z.pos n).
Proof.
  rewrite p2_Z by lia. rewrite <- inject_Z_mult.
  replace (Z.pos (Pos.iter xO p n)) with (Z.pos p * 2 ^ Z.pos n)%Z; [reflexivity|].
  induction n as [|n IH] using Pos.peano_ind; [cbn; lia|].
  rewrite Pos.iter_succ, Pos2Z.inj_succ, Z.pow_succ_r by lia. lia.
Qed.

Lemma shl_align_value m e e' :
  let '(m', e'') := shl_align m e e' in
  inject_Z (Z.pos m') * p2 e'' == inject_Z (Z.pos m) * p2 e /\ e'' = Z.min e e'.
Proof.
  unfold shl_align. destruct (e' - e)%Z as [|p|p] eqn:E; (split; [|lia]); try reflexivity.
  rewrite iter_xO, <- Qmult_assoc, <- p2_plus.
  replace (Z.pos p + e')%Z with e by lia. reflexivity.
Qed.

Lemma binary_round_rounds m e : inject_Z (Z.pos m) * p2 e < p2 900 ->
  rounds (inject_Z (Z.pos m) * p2 e) (binary_round prec64 emax64 false m e).
Proof.
  intros Hhi. unfold binary_round.
  pose proof (shl_align_value m e (fexp prec64 emax64 (Z.pos (digits2_pos m) + e))) as Hs.
  destruct (shl_align _ _ _) as [mz ez]. destruct Hs as [Hv _].
  rewrite <- Hv in Hhi |- *.
  apply round_aux_rounds; auto using inb_loc_exact; [lia|].
  pose proof (p2_pos ez). assert (0 < inject_Z (Z.pos mz)) by reflexivity. nra.
Qed.

Lemma normalize_rounds m e : (0 <= m)%Z -> inject_Z m * p2 e < p2 900 ->
  rounds (inject_Z m * p2 e) (binary_normalize prec64 emax64 m e false).
Proof.
  intros Hm Hhi. destruct m as [|m|m]; [|apply binary_round_rounds; exact Hhi|lia].
  change (inject_Z 0) with 0. rewrite Qmult_0_l. apply rounds_zero.
Qed.

Lemma fval_nonneg f : nonneg_finite f -> 0 <= fval f.
Proof.
  destruct f as [s|s| |[] m e]; cbn; try lra; try easy. intros _.
  pose proof (p2_pos e). assert (0 < inject_Z (Z.pos m)) by reflexivity. nra.
Qed.

Lemma fmul_rounds a b : nonneg_finite a -> nonneg_finite b ->
  fval a * fval b < p2 900 -> rounds (fval a * fval b) (fmul a b).
Proof.
  destruct a as [sa|sa| |[] ma ea]; destruct b as [sb|sb| |[] mb eb]; cbn [nonneg_finite fval];
    try easy; intros _ _ Hhi;
    try (rewrite ?Qmult_0_l, ?Qmult_0_r; apply rounds_zero).
  assert (inject_Z (Z.pos ma) * p2 ea * (inject_Z (Z.pos mb) * p2 eb)
          == inject_Z (Z.pos (ma * mb)) * p2 (ea + eb)) as Hv.
  { rewrite Pos2Z.inj_mul, inject_Z_mult, p2_plus. ring. }
  rewrite Hv in Hhi |- *. cbn [fmul SFmul xorb].
  apply round_aux_rounds; auto using inb_loc_exact; [lia|].
  pose proof (p2_pos (ea + eb)).
  assert (0 < inject_Z (Z.pos (ma * mb))) by reflexivity. nra.
Qed.

Lemma fadd_rounds a b : nonneg_finite a -> nonneg_finite b ->
  rounds (fval a) a -> rounds (fval b) b ->
  fval a + fval b < p2 900 -> rounds (fval a + fval b) (fadd a b).
Proof.
  destruct a as [sa|sa| |[] ma ea]; destruct b as [sb|sb| |[] mb eb]; cbn [nonneg_finite fval];
    try easy; intros _ _ Ha Hb Hhi.
  - destruct sa, sb; rewrite Qplus_0_l; apply rounds_zero.
  - destruct sa; rewrite Qplus_0_l; exact Hb.
  - destruct sb; rewrite Qplus_0_r; exact Ha.
  - cbn [fadd SFadd cond_Zopp].
    pose proof (shl_align_value ma ea (Z.min ea eb)) as H1.
    pose proof (shl_align_value mb eb (Z.min ea eb)) as H2.
    destruct (shl_align ma ea _) as [m1 e1]. destruct (shl_align mb eb _) as [m2 e2].
    cbn [fst]. destruct H1 as [H1 E1], H2 as [H2 E2].
    replace e1 with (Z.min ea eb) in H1 by lia. replace e2 with (Z.min ea eb) in H2 by lia.
    assert (inject_Z (Z.pos ma) * p2 ea + inject_Z (Z.pos mb) * p2 eb
            == inject_Z (Z.pos m1 + Z.pos m2) * p2 (Z.min ea eb)) as Hv.
    { rewrite inject_Z_plus, <- H1, <- H2. ring. }
    rewrite Hv in Hhi |- *. apply normalize_rounds; [lia | exact Hhi].
Qed.

(** The location that the division computes from its remainder. *)
Lemma new_location_inb q r d : (0 < d)%Z -> (0 <= r < d)%Z ->
  inb (shr_record_of_loc q (new_location d r)) (inject_Z q + inject_Z r / inject_Z d).
Proof.
  intros Hd Hr.
  assert (0 < inject_Z d) as Hd' by (apply (proj1 (inject_Z_lt 0 d)); exact Hd).
  assert (forall t : Q, inject_Z r < inject_Z d * t -> inject_Z r / inject_Z d < t) as Hlt.
  { intros t Ht. apply Qlt_shift_div_r; [exact Hd' | lra]. }
  assert (forall t : Q, inject_Z d * t < inject_Z r -> t < inject_Z r / inject_Z d) as Hgt.
  { intros t Ht. apply Qlt_shift_div_l; [exact Hd' | lra]. }
  assert (inject_Z r / inject_Z d < 1) as H1.
  { apply Hlt. rewrite Qmult_1_r. apply (proj1 (inject_Z_lt r d)). lia. }
  assert (forall a b : Z, (a < b)%Z -> inject_Z a < inject_Z b) as HZ by (intros; apply (proj1 (inject_Z_lt _ _)); assumption).
  assert ((0 < r)%Z -> 0 < inject_Z r / inject_Z d) as H0.
  { intros Hr0. apply Hgt. rewrite Qmult_0_r. apply (HZ 0%Z). exact Hr0. }
  assert ((2 * r < d)%Z -> inject_Z r / inject_Z d < 1 # 2) as Hhalf.
  { intros Hh. apply Hlt. specialize (HZ _ _ Hh). rewrite inject_Z_mult in HZ.
    change (inject_Z 2) with (2 # 1) in HZ. lra. }
  assert ((d < 2 * r)%Z -> (1 # 2) < inject_Z r / inject_Z d) as Hhalf'.
  { intros Hh. apply Hgt. specialize (HZ _ _ Hh). rewrite inject_Z_mult in HZ.
    change (inject_Z 2) with (2 # 1) in HZ. lra. }
  unfold new_location, new_location_even, new_location_odd.
  destruct (Z.even d) eqn:Ev; cbv beta; change (BinNums.IntDef.Z.eqb r 0) with (Z.eqb r 0);
    (destruct (Z.eqb_spec r 0) as [Hr0|Hr0];
      [rewrite Hr0; unfold inb; cbn [shr_record_of_loc shr_m shr_r shr_s];
       change (inject_Z 0) with 0; field; lra|]); specialize (H0 ltac:(lia)).
  - destruct (Z.compare_spec (2 * r) d) as [Heq|Hlt2|Hgt2]; unfold inb;
      cbn [shr_record_of_loc shr_m shr_r shr_s];
      [|specialize (Hhalf ltac:(lia)); lra|specialize (Hhalf' ltac:(lia)); lra].
    subst d. rewrite inject_Z_mult in Hd' |- *. change (inject_Z 2) with (2 # 1) in Hd' |- *.
    field. lra.
  - assert (Z.odd d = true) as Hodd by (rewrite <- Z.negb_even, Ev; reflexivity).
    apply Z.odd_spec in Hodd. destruct Hodd as [h Hh].
    destruct (Z.compare_spec (2 * r + 1) d) as [Heq|Hlt2|Hgt2]; unfold inb;
      cbn [shr_record_of_loc shr_m shr_r shr_s];
      [specialize (Hhalf ltac:(lia)); lra|specialize (Hhalf ltac:(lia)); lra|].
    specialize (Hhalf' ltac:(lia)). lra.
Qed.

(** The digits of a quotient. *)
Lemma Zdigits2_div a b : (0 < a)%Z -> (0 < b)%Z ->
  (Zdigits2 a - Zdigits2 b <= Zdigits2 (a / b))%Z.
Proof.
  intros Ha Hb. destruct (Zdigits2_bounds a Ha) as [Ha1 _]. destruct (Zdigits2_bounds b Hb) as [_ Hb2].
  destruct (Z_le_gt_dec (Zdigits2 a - Zdigits2 b) 0) as [Hle|Hgt].
  - pose proof (Zdigits2_nonneg (a / b)). lia.
  - pose proof (Zdigits2_nonneg b).
    apply Z.lt_pred_le. apply Zdigits2_ge; [lia|].
    apply Z.div_le_lower_bound; [exact Hb|].
    apply Z.le_trans with (2 := Ha1).
    apply Z.le_trans with (2 ^ Zdigits2 b * 2 ^ Z.pred (Zdigits2 a - Zdigits2 b))%Z.
    + apply Z.mul_le_mono_nonneg_r; [apply Z.pow_nonneg; lia | lia].
    + rewrite <- Z.pow_add_r by lia. apply Z.pow_le_mono_r; lia.
Qed.

Lemma fdiv_rounds a b : nonneg_finite a -> nonneg_finite b -> 0 < fval b ->
  fval a / fval b < p2 900 -> rounds (fval a / fval b) (fdiv a b).
Proof.
  destruct a as [sa|sa| |[] ma ea]; destruct b as [sb|sb| |[] mb eb]; cbn [nonneg_finite fval];
    try easy; intros _ _ Hb Hhi; try lra.
  - change (0 / (inject_Z (Z.pos mb) * p2 eb)) with (0 * / (inject_Z (Z.pos mb) * p2 eb)).
    rewrite Qmult_0_l. apply rounds_zero.
  - cbn [fdiv SFdiv xorb]. unfold SFdiv_core_binary.
    set (e' := Z.min _ (ea - eb)). set (s := (ea - eb - e')%Z).
    assert (0 <= s)%Z as Hs by (subst s e'; lia).
    replace (match s with Z0 => Z.pos ma | Z.pos _ => Z.shiftl (Z.pos ma) s | Z.neg _ => 0%Z end)
      with (Z.pos ma * 2 ^ s)%Z
      by (destruct s; [cbn; lia | rewrite Z.shiftl_mul_pow2 by lia; reflexivity | lia]).
    set (m' := (Z.pos ma * 2 ^ s)%Z).
    assert (0 < m')%Z as Hm' by (subst m'; pose proof (Z.pow_pos_nonneg 2 s); lia).
    pose proof (Z.div_mod m' (Z.pos mb) ltac:(lia)) as Hdm.
    pose proof (Z.mod_pos_bound m' (Z.pos mb) ltac:(lia)) as Hmod.
    unfold Z.div, Z.modulo in Hdm, Hmod.
    assert (Z.div m' (Z.pos mb) = fst (Z.div_eucl m' (Z.pos mb))) as Hq
      by (unfold Z.div; destruct (Z.div_eucl _ _); reflexivity).
    pose proof (Z.div_pos m' (Z.pos mb) ltac:(lia) ltac:(lia)) as Hq0.
    destruct (Z.div_eucl m' (Z.pos mb)) as [q r]. cbn [fst] in Hq. rewrite Hq in Hq0.
    pose proof (new_location_inb q r (Z.pos mb) ltac:(lia) Hmod) as Hin.
    assert (inject_Z (Z.pos ma) * p2 ea / (inject_Z (Z.pos mb) * p2 eb)
            == (inject_Z q + inject_Z r / inject_Z (Z.pos mb)) * p2 e') as Hv.
    { assert (0 < inject_Z (Z.pos mb)) by reflexivity. pose proof (p2_pos eb).
      assert (inject_Z m' == inject_Z (Z.pos mb) * inject_Z q + inject_Z r) as Hm2
        by (rewrite <- inject_Z_mult, <- inject_Z_plus, <- Hdm; reflexivity).
      subst m'. rewrite inject_Z_mult, <- p2_Z in Hm2 by exact Hs.
      apply (Qmult_inj_r _ _ (inject_Z (Z.pos mb) * p2 eb)); [nra|].
      replace ea with (s + eb + e')%Z by (subst s; lia). rewrite !p2_plus.
      transitivity (inject_Z (Z.pos ma) * p2 s * p2 eb * p2 e'); [field; lra|].
      rewrite Hm2. field. lra. }
    rewrite Hv in Hhi |- *. apply round_aux_rounds; auto.
    + rewrite <- Hv. unfold Qdiv. apply Qmult_lt_0_compat; [|apply Qinv_lt_0_compat; exact Hb].
      pose proof (p2_pos ea). assert (0 < inject_Z (Z.pos ma)) by reflexivity. nra.
    + right. rewrite fexp_eq.
      pose proof (Zdigits2_div m' (Z.pos mb) Hm' ltac:(lia)) as Hdiv. rewrite Hq in Hdiv.
      assert (Zdigits2 (Z.pos ma) + s <= Zdigits2 m')%Z.
      { assert (0 < Zdigits2 (Z.pos ma))%Z by reflexivity.
        apply Z.lt_pred_le. apply Zdigits2_ge; [lia|]. subst m'.
        destruct (Zdigits2_bounds (Z.pos ma) ltac:(lia)) as [Hlo _].
        replace (Z.pred (Zdigits2 (Z.pos ma) + s)) with (Zdigits2 (Z.pos ma) - 1 + s)%Z by lia.
        rewrite Z.pow_add_r by lia. apply Z.mul_le_mono_nonneg_r; [apply Z.pow_nonneg; lia | exact Hlo]. }
      assert (e' <= Z.max (Zdigits2 (Z.pos ma) + ea - (Zdigits2 (Z.pos mb) + eb) - 53) (-1074))%Z
        by apply Z.le_min_l.
      lia.
Qed.

(** ** Consequences used by the rest of the library *)

Lemma rounds_nonneg v f : rounds v f -> nonneg_finite f.
Proof. intros [H _]. exact H. Qed.

(** An integer is a multiple of every unit up to 1. *)
Lemma integer_in_units u E : (E <= 0)%Z -> inject_Z u == inject_Z (u * 2 ^ (- E)) * p2 E.
Proof.
  intros HE. rewrite inject_Z_mult, <- p2_Z by lia.
  rewrite <- Qmult_assoc, (Qmult_comm (p2 (- E))), p2_inv. ring.
Qed.

(** The unit of a value below 2^53 is at most 1, or the result is exact. *)
Lemma small_unit E v : (E = -1074)%Z \/ p2 (E + 52) <= v -> v < p2 53 -> (E <= 0)%Z.
Proof.
  intros [->|H] Hv; [lia|].
  assert (E + 52 < 53)%Z by (apply p2_lt_inv; apply Qle_lt_trans with (1 := H); exact Hv). lia.
Qed.

(** Rounding never crosses an integer upwards ... *)
Lemma rounds_le_int v f u : rounds v f -> v <= inject_Z u -> (0 <= u < 2 ^ 53)%Z ->
  fval f <= inject_Z u.
Proof.
  intros (_ & k & E & Hk & Hv & He1 & He2 & Hc) Hle Hu. rewrite Hv.
  destruct Hc as [Hx|Hc]; [rewrite Hx; exact Hle|].
  assert (E <= 0)%Z as HE.
  { apply (small_unit E v Hc). apply Qle_lt_trans with (1 := Hle). rewrite p2_Z by lia.
    apply (proj1 (inject_Z_lt _ _)). lia. }
  rewrite (integer_in_units u E HE) in Hle |- *. pose proof (p2_pos E).
  apply Qmult_le_compat_r; [|lra]. apply (proj1 (inject_Z_le _ _)).
  apply inject_Z_double_half. nra.
Qed.

(** ... nor downwards. *)
Lemma rounds_ge_int v f u : rounds v f -> inject_Z u <= v -> v < p2 53 ->
  inject_Z u <= fval f.
Proof.
  intros (_ & k & E & Hk & Hv & He1 & He2 & Hc) Hle Hu. rewrite Hv.
  destruct Hc as [Hx|Hc]; [rewrite Hx; exact Hle|].
  pose proof (small_unit E v Hc Hu) as HE.
  rewrite (integer_in_units u E HE) in Hle |- *. pose proof (p2_pos E).
  apply Qmult_le_compat_r; [|lra]. apply (proj1 (inject_Z_le _ _)).
  apply inject_Z_double_half. nra.
Qed.

Lemma rounds_rel_err v f : rounds v f -> p2 (-1000) <= v ->
  fval f - v <= v * p2 (-53) /\ v - fval f <= v * p2 (-53).
Proof.
  intros (_ & k & E & Hk & Hv & He1 & He2 & Hc) Hlo. rewrite Hv.
  pose proof (p2_pos (-53)). pose proof (p2_pos (-1000)).
  destruct Hc as [Hx|Hc]; [split; nra|].
  assert (p2 E * (1 # 2) <= v * p2 (-53)); [|split; lra].
  change (1 # 2) with (p2 (-1)). rewrite <- p2_plus.
  destruct Hc as [->|Hc].
  - apply Qle_trans with (p2 (-1000) * p2 (-53)); [rewrite <- p2_plus; apply p2_le; lia|nra].
  - apply Qle_trans with (p2 (E + 52) * p2 (-53)); [rewrite <- p2_plus; apply p2_le; lia|nra].
Qed.

Lemma of_int_rounds n : (0 <= n < 2 ^ 53)%Z -> rounds (inject_Z n) (of_int n).
Proof.
  intros Hn. assert (inject_Z n * p2 0 == inject_Z n) as Hv by (change (p2 0) with 1; ring).
  rewrite <- Hv. apply normalize_rounds; [lia|]. rewrite Hv.
  apply Qlt_trans with (p2 53); [|reflexivity].
  rewrite p2_Z by lia. apply (proj1 (inject_Z_lt _ _)). lia.
Qed.

(** [float64(n)] is exact below 2^53. *)
Lemma of_int_exact n : (0 <= n < 2 ^ 53)%Z -> fval (of_int n) == inject_Z n.
Proof.
  intros Hn. pose proof (of_int_rounds n Hn) as H. apply Qle_antisym.
  - apply (rounds_le_int _ _ _ H); [apply Qle_refl | exact Hn].
  - apply (rounds_ge_int _ _ _ H); [apply Qle_refl|].
    rewrite p2_Z by lia. apply (proj1 (inject_Z_lt _ _)). lia.
Qed.

Lemma of_int_nonneg n : (0 <= n < 2 ^ 53)%Z -> nonneg_finite (of_int n).
Proof. intros Hn. apply (rounds_nonneg _ _ (of_int_rounds n Hn)). Qed.

(** A value that is rounded is a double: rounding it again changes nothing. *)
Lemma rounds_self v f : rounds v f -> rounds (fval f) f.
Proof.
  intros (Hf & k & E & Hk & Hv & He1 & He2 & Hc). split; [exact Hf|].
  exists k, E. pose proof (p2_pos E). rewrite <- Hv. repeat split; auto; lra.
Qed.

(** [int64] is the integer part of a nonnegative double that fits. *)
Lemma to_int64_spec f : nonneg_finite f -> fval f < p2 63 ->
  (0 <= to_int64 f)%Z /\ inject_Z (to_int64 f) <= fval f < inject_Z (to_int64 f) + 1.
Proof.
  intros Hf Hlt. destruct f as [s|s| |[] m e]; try easy.
  cbn [fval] in *. unfold to_int64, trunc.
  set (t := if (0 <=? e)%Z then _ else _).
  assert (0 <= t)%Z as Ht0.
  { subst t. destruct (Z.leb_spec 0 e); [apply Z.mul_nonneg_nonneg; [lia|apply Z.pow_nonneg; lia]|].
    apply Z.div_pos; [lia|apply Z.pow_pos_nonneg; lia]. }
  assert (inject_Z t <= inject_Z (Z.pos m) * p2 e < inject_Z t + 1) as Ht.
  { subst t. destruct (Z.leb_spec 0 e) as [He|He].
    - rewrite p2_Z, <- inject_Z_mult by exact He. lra.
    - set (d := (2 ^ (- e))%Z). assert (0 < d)%Z as Hd by (apply Z.pow_pos_nonneg; lia).
      pose proof (Z.div_mod (Z.pos m) d ltac:(lia)) as Hdm.
      pose proof (Z.mod_pos_bound (Z.pos m) d Hd) as Hmod.
      assert (p2 e * inject_Z d == 1) as Hpd
        by (subst d; rewrite <- p2_Z by lia; apply p2_inv).
      pose proof (p2_pos e) as Hp.
      assert (inject_Z (Z.pos m) == inject_Z d * inject_Z (Z.pos m / d) + inject_Z (Z.pos m mod d)) as Hq
        by (rewrite <- inject_Z_mult, <- inject_Z_plus, <- Hdm; reflexivity).
      assert (0 <= inject_Z (Z.pos m mod d)) by (apply (proj1 (inject_Z_le 0 _)); lia).
      assert (inject_Z (Z.pos m mod d) < inject_Z d) by (apply (proj1 (inject_Z_lt _ _)); lia).
      rewrite Hq. set (q := inject_Z (Z.pos m / d)) in *. set (r := inject_Z (Z.pos m mod d)) in *.
      set (x := inject_Z d) in *.
      assert ((x * q + r) * p2 e == q + r * p2 e) as -> by (rewrite Qmult_plus_distr_l;
        rewrite <- (Qmult_comm q), <- Qmult_assoc, (Qmult_comm x), Hpd; ring).
      split; nra. }
  assert (t < 2 ^ 63)%Z as Hbig.
  { apply inject_Z_lt. rewrite <- (p2_Z 63) by lia. lra. }
  destruct (Z.leb_spec (- 2 ^ 63) t); [|lia]. destruct (Z.ltb_spec t (2 ^ 63)); [|lia].
  cbn [andb]. split; assumption.
Qed.

(** ** Ratios, averages and rewards *)

Lemma int_pos d : (0 < d)%Z -> 0 < inject_Z d.
Proof. apply (proj1 (inject_Z_lt 0 d)). Qed.

Lemma int_nonneg d : (0 <= d)%Z -> 0 <= inject_Z d.
Proof. apply (proj1 (inject_Z_le 0 d)). Qed.

Lemma ratio_le n d u : (0 < d)%Z -> (n <= u * d)%Z -> inject_Z n / inject_Z d <= inject_Z u.
Proof.
  intros Hd H. apply Qle_shift_div_r; [apply int_pos; exact Hd|].
  rewrite <- inject_Z_mult. apply (proj1 (inject_Z_le _ _)). exact H.
Qed.

(** The double of an integer ratio is the ratio rounded. *)
Lemma of_ratio_rounds n d : (0 <= n < 2 ^ 53)%Z -> (0 < d < 2 ^ 53)%Z ->
  rounds (inject_Z n / inject_Z d) (of_ratio n d).
Proof.
  intros Hn Hd. pose proof (of_int_exact n Hn) as En. pose proof (of_int_exact d ltac:(lia)) as Ed.
  pose proof (int_pos d ltac:(lia)) as Hd0.
  assert (fval (of_int n) / fval (of_int d) == inject_Z n / inject_Z d) as Hv by (rewrite En, Ed; reflexivity).
  rewrite <- Hv. apply fdiv_rounds; [apply of_int_nonneg; lia..|rewrite Ed; exact Hd0|].
  rewrite Hv. apply Qle_lt_trans with (inject_Z n); [apply ratio_le; nia|].
  apply Qlt_trans with (p2 53); [|reflexivity]. rewrite p2_Z by lia.
  apply (proj1 (inject_Z_lt _ _)). lia.
Qed.

(** An average of scores between 0 and [u] is between 0 and [u]. *)
Lemma of_ratio_bound n d u : (0 <= n < 2 ^ 53)%Z -> (0 < d < 2 ^ 53)%Z ->
  (n <= u * d)%Z -> (0 <= u < 2 ^ 53)%Z ->
  0 <= fval (of_ratio n d) <= inject_Z u.
Proof.
  intros Hn Hd Hle Hu. pose proof (of_ratio_rounds n d Hn Hd) as H. split.
  - apply fval_nonneg, (rounds_nonneg _ _ H).
  - apply (rounds_le_int _ _ _ H); [apply ratio_le; lia | exact Hu].
Qed.

(** [fadd] and [fdiv] keep bounds by integers. *)
Lemma fadd_bound a b u w : rounds (fval a) a -> rounds (fval b) b ->
  fval a <= inject_Z u -> fval b <= inject_Z w -> (0 <= u + w < 2 ^ 53)%Z ->
  rounds (fval a + fval b) (fadd a b) /\ 0 <= fval (fadd a b) <= inject_Z (u + w).
Proof.
  intros Ha Hb Hau Hbw Huw.
  assert (fval a + fval b <= inject_Z (u + w)) as Hle by (rewrite inject_Z_plus; lra).
  assert (rounds (fval a + fval b) (fadd a b)) as H.
  { apply fadd_rounds; try eapply rounds_nonneg; eauto.
    apply Qle_lt_trans with (1 := Hle). apply Qlt_trans with (p2 53); [|reflexivity].
    rewrite p2_Z by lia. apply (proj1 (inject_Z_lt _ _)). lia. }
  split; [exact H|]. split; [apply fval_nonneg, (rounds_nonneg _ _ H)|].
  apply (rounds_le_int _ _ _ H Hle Huw).
Qed.

Lemma fdiv_int_bound a d u : rounds (fval a) a -> (0 < d < 2 ^ 53)%Z ->
  fval a <= inject_Z (u * d) -> (0 <= u < 2 ^ 53)%Z ->
  rounds (fval (fdiv a (of_int d))) (fdiv a (of_int d)) /\ 0 <= fval (fdiv a (of_int d)) <= inject_Z u.
Proof.
  intros Ha Hd Hle Hu. pose proof (of_int_exact d ltac:(lia)) as Ed.
  pose proof (int_pos d ltac:(lia)) as Hd0.
  assert (fval a / fval (of_int d) <= inject_Z u) as Hv.
  { rewrite Ed. apply Qle_shift_div_r; [exact Hd0|]. rewrite <- inject_Z_mult. exact Hle. }
  assert (rounds (fval a / fval (of_int d)) (fdiv a (of_int d))) as H.
  { apply fdiv_rounds; [apply (rounds_nonneg _ _ Ha) | apply of_int_nonneg; lia | rewrite Ed; exact Hd0|].
    apply Qle_lt_trans with (1 := Hv). apply Qlt_trans with (p2 53); [|reflexivity].
    rewrite p2_Z by lia. apply (proj1 (inject_Z_lt _ _)). lia. }
  split; [apply (rounds_self _ _ H)|]. split; [apply fval_nonneg, (rounds_nonneg _ _ H)|].
  apply (rounds_le_int _ _ _ H Hv Hu).
Qed.

(** Paying a fraction that is at most 1 never pays more than the amount. *)
Lemma fraction_le_amount n c : (0 <= n < 2 ^ 53)%Z -> rounds (fval c) c -> fval c <= 1 ->
  (0 <= to_int64 (fmul (of_int n) c) <= n)%Z.
Proof.
  intros Hn Hc Hc1. pose proof (of_int_exact n Hn) as En.
  pose proof (fval_nonneg c (rounds_nonneg _ _ Hc)) as Hc0.
  pose proof (int_nonneg n ltac:(lia)) as Hn0.
  assert (fval (of_int n) * fval c <= inject_Z n) as Hle by (rewrite En; nra).
  assert (rounds (fval (of_int n) * fval c) (fmul (of_int n) c)) as H.
  { apply fmul_rounds; [apply of_int_nonneg; lia | apply (rounds_nonneg _ _ Hc)|].
    apply Qle_lt_trans with (1 := Hle). apply Qlt_trans with (p2 53); [|reflexivity].
    rewrite p2_Z by lia. apply (proj1 (inject_Z_lt _ _)). lia. }
  pose proof (rounds_le_int _ _ _ H Hle Hn) as Hf.
  destruct (to_int64_spec (fmul (of_int n) c) (rounds_nonneg _ _ H)) as (H0 & Hlo & Hhi).
  { apply Qle_lt_trans with (1 := Hf). apply Qlt_trans with (p2 53); [|reflexivity].
    rewrite p2_Z by lia. apply (proj1 (inject_Z_lt _ _)). lia. }
  split; [exact H0|]. apply inject_Z_le. lra.
Qed.

(** The relative error of two roundings is below one part in 2^51. *)
Lemma two_roundings_err (x y z u : Q) : 0 <= x -> u == p2 (-53) ->
  y <= x * (1 + u) -> z <= y * (1 + u) -> z <= x * (1 + p2 (-51)).
Proof.
  intros Hx Hu Hy Hz. assert (p2 (-51) == 4 * u) as -> by (rewrite Hu; reflexivity).
  assert (0 < u) by (rewrite Hu; reflexivity). assert (u <= 1) by (rewrite Hu; discriminate).
  assert (y * (1 + u) <= x * (1 + u) * (1 + u)) by (apply Qmult_le_compat_r; lra).
  assert (0 <= x * u) by nra. assert (x * u * u <= x * u * 1) by nra. lra.
Qed.

(** The final step of [pool_share_le]: an error below one part in 2^51 cannot
    lift the truncated product over the exact one. *)
Lemma truncation_absorbs P k t (f : Q) : (0 <= P * k < 2 ^ 51)%Z -> inject_Z t <= f ->
  f <= inject_Z P * (inject_Z k * (1 # 10000)) * (1 + p2 (-51)) -> (10000 * t <= P * k)%Z.
Proof.
  intros Hpk Hlo Hfin. destruct (Z_le_gt_dec (10000 * t) (P * k)) as [|Hgt]; [assumption|exfalso].
  assert (inject_Z (P * k + 1) <= inject_Z (10000 * t)) as Hz by (apply (proj1 (inject_Z_le _ _)); lia).
  rewrite inject_Z_plus, !inject_Z_mult in Hz. change (inject_Z 10000) with (10000 # 1) in Hz.
  change (inject_Z 1) with 1 in Hz.
  assert (inject_Z P * inject_Z k < p2 51) as Hsmall.
  { rewrite <- inject_Z_mult, p2_Z by lia. apply (proj1 (inject_Z_lt _ _)). lia. }
  assert (p2 51 * p2 (-51) == 1) as Hone by apply (p2_inv 51).
  pose proof (p2_pos (-51)). nra.
Qed.

(** A product that is exactly zero is paid as zero. *)
Lemma zero_share_pays_zero P k : (0 <= P < 2 ^ 37)%Z -> (0 <= k <= 10000)%Z -> (P * k = 0)%Z ->
  to_int64 (fmul (of_int P) (of_ratio k 10000)) = 0%Z.
Proof.
  intros HP Hk Hz. assert (P = 0 \/ k = 0)%Z as Hc by nia.
  pose proof (of_ratio_rounds k 10000 ltac:(lia) ltac:(lia)) as Hs.
  assert (fval (of_int P) * fval (of_ratio k 10000) == 0) as Hv.
  { destruct Hc as [-> | ->]; [rewrite of_int_exact by lia; change (inject_Z 0) with 0; ring|].
    change (fval (of_ratio 0 10000)) with 0. ring. }
  assert (rounds (fval (of_int P) * fval (of_ratio k 10000)) (fmul (of_int P) (of_ratio k 10000))) as H.
  { apply fmul_rounds; [apply of_int_nonneg; lia | apply (rounds_nonneg _ _ Hs)|]. rewrite Hv. reflexivity. }
  assert (fval (fmul (of_int P) (of_ratio k 10000)) <= inject_Z 0) as Hle
    by (apply (rounds_le_int _ _ _ H); [rewrite Hv; apply Qle_refl | lia]).
  destruct (to_int64_spec _ (rounds_nonneg _ _ H)) as (H0 & Hlo & _);
    [apply Qle_lt_trans with (1 := Hle); reflexivity|].
  assert (to_int64 (fmul (of_int P) (of_ratio k 10000)) <= 0)%Z by (apply inject_Z_le; lra). lia.
Qed.

(** The share of [k] ten-thousandths as a double, with its relative error. *)
Lemma share_double k : (0 < k <= 10000)%Z ->
  rounds (fval (of_ratio k 10000)) (of_ratio k 10000) /\
  1 # 20000 <= fval (of_ratio k 10000) <= 1 /\
  fval (of_ratio k 10000) <= inject_Z k * (1 # 10000) * (1 + p2 (-53)).
Proof.
  intros Hk. pose proof (of_ratio_rounds k 10000 ltac:(lia) ltac:(lia)) as Hs.
  destruct (of_ratio_bound k 10000 1 ltac:(lia) ltac:(lia) ltac:(lia) ltac:(lia)) as [Hs0 Hs1].
  change (inject_Z 10000) with (10000 # 1) in Hs. change (inject_Z 1) with 1 in Hs1.
  assert (inject_Z k / (10000 # 1) == inject_Z k * (1 # 10000)) as Hdiv by field.
  rewrite Hdiv in Hs. split; [apply (rounds_self _ _ Hs)|].
  assert (1 <= inject_Z k) as Hk1 by (apply (proj1 (inject_Z_le 1 k)); lia).
  assert (p2 (-1000) <= 1 # 20000) as Hp by discriminate.
  destruct (rounds_rel_err _ _ Hs ltac:(lra)) as [Es1 Es2].
  assert (p2 (-53) <= 1 # 2) as Hu by discriminate. pose proof (p2_pos (-53)) as Hu0.
  split; [split; [nra|exact Hs1] | lra].
Qed.

(** A pool below 2^37 times a stored share of [k] ten-thousandths: the
    truncated product never exceeds the exact [pool * k / 10000], although
    the share and the product are both rounded. *)
Lemma pool_share_le P k : (0 <= P < 2 ^ 37)%Z -> (0 <= k <= 10000)%Z ->
  (0 <= to_int64 (fmul (of_int P) (of_ratio k 10000)))%Z /\
  (10000 * to_int64 (fmul (of_int P) (of_ratio k 10000)) <= P * k)%Z.
Proof.
  intros HP Hk. destruct (Z.eq_dec (P * k) 0) as [Hz|Hnz].
  { rewrite (zero_share_pays_zero P k HP Hk Hz). lia. }
  assert (0 < P /\ 0 < k)%Z as [HP0 Hk0] by nia.
  destruct (share_double k ltac:(lia)) as (Hs & [Hslo Hs1] & Es1).
  pose proof (of_int_exact P ltac:(lia)) as EP.
  set (s := of_ratio k 10000) in *. set (f := fmul (of_int P) s).
  assert (1 <= inject_Z P) as HP1 by (apply (proj1 (inject_Z_le 1 P)); lia).
  assert (0 <= inject_Z k) as Hk1 by (apply (proj1 (inject_Z_le 0 k)); lia).
  assert (fval (of_int P) * fval s <= inject_Z P) as Hle by (rewrite EP; nra).
  assert (inject_Z P < p2 37) as HPlt by (rewrite p2_Z by lia; apply (proj1 (inject_Z_lt _ _)); lia).
  assert (rounds (fval (of_int P) * fval s) f) as H.
  { apply fmul_rounds; [apply of_int_nonneg; lia | apply (rounds_nonneg _ _ Hs)|].
    apply Qle_lt_trans with (1 := Hle). apply Qlt_trans with (1 := HPlt). reflexivity. }
  pose proof (rounds_le_int _ _ P H Hle ltac:(lia)) as Hf.
  destruct (to_int64_spec f (rounds_nonneg _ _ H)) as (H0 & Hlo & _).
  { apply Qle_lt_trans with (1 := Hf). apply Qlt_trans with (1 := HPlt). reflexivity. }
  split; [exact H0|]. apply (truncation_absorbs P k _ (fval f)); [nia|exact Hlo|].
  assert (p2 (-1000) <= 1 # 20000) as Hp by discriminate.
  destruct (rounds_rel_err _ _ H) as [Ef1 _]; [rewrite EP; nra|]. rewrite EP in *.
  apply (two_roundings_err _ (inject_Z P * fval s) _ (p2 (-53))); [nra|reflexivity|nra|nra].
Qed.
