(* ===== verification/GoLang.v ===== *)
(** * The parts of Go and its standard library that the program uses

    Machine integers, byte slices, [encoding/hex], [encoding/binary],
    [math/big], UTF-8 conversion of strings to runes, and the functions of
    package [strings].  A Go [string] is a [string] of bytes, a [[]byte] a
    [list byte], a [rune] an integer. *)

From S2P Require Export Prelude.

#[global] Instance byte_eq_dec : EqDecision byte := Byte.byte_eq_dec.

(** ** Machine integers *)

(** The two's complement value of an [int64] (and of an [int], which has 64
    bits on every platform the server is built for). *)
Definition wrap64 (z : Z) : Z := (z + 2 ^ 63) mod 2 ^ 64 - 2 ^ 63.

(** [uint64] and [uint32] conversion. *)
Definition wrapu64 (z : Z) : Z := z mod 2 ^ 64.
Definition wrapu32 (z : Z) : Z := z mod 2 ^ 32.

(** Go's [/] and [%] on integers truncate toward zero. *)
Definition go_div (a b : Z) : Z := Z.quot a b.
Definition go_rem (a b : Z) : Z := Z.rem a b.

(** ** Bytes *)

Definition byte_val (b : byte) : Z := Z.of_N (Byte.to_N b).
Definition byte_of (z : Z) : byte :=
  match Byte.of_N (Z.to_N (z mod 256)) with Some b => b | None => x00 end.

(** [[]byte(s)] and [string(b)]. *)
Definition bytes_of_string (s : string) : list byte := String.list_byte_of_string s.
Definition string_of_bytes (l : list byte) : string := String.string_of_list_byte l.

(** [len(s)], in bytes. *)
Definition str_len (s : string) : Z := Z.of_nat (String.length s).

(** [copy(buf[off:], src)], which stops at the end of the buffer. *)
Definition copy_into (off : nat) (src buf : list byte) : list byte :=
  take off buf ++ take (length buf - off) src ++ drop (off + length src) buf.

(** [binary.LittleEndian]: the [k] low bytes of [z], least significant first. *)
Fixpoint le_bytes (k : nat) (z : Z) : list byte :=
  match k with
  | O => []
  | S k => byte_of z :: le_bytes k (z / 256)
  end.

Fixpoint le_value (l : list byte) : Z :=
  match l with
  | [] => 0
  | b :: l => byte_val b + 256 * le_value l
  end.

(** [Bytes] of a nonnegative [big.Int]: big endian, as few bytes as
    possible, none for zero. *)
Definition big_len (n : Z) : nat := if n <=? 0 then 0%nat else Z.to_nat ((Z.log2 n + 8) / 8).
Definition big_bytes (n : Z) : list byte := rev (le_bytes (big_len n) n).
Definition be_value (l : list byte) : Z := le_value (rev l).

(** ** Hexadecimal *)

Definition hex_digit (n : Z) : byte :=
  byte_of (if n <? 10 then 48 + n else 87 + n).

Definition hex_value (b : byte) : option Z :=
  let v := byte_val b in
  if (48 <=? v) && (v <=? 57) then Some (v - 48)
  else if (97 <=? v) && (v <=? 102) then Some (v - 87)
  else if (65 <=? v) && (v <=? 70) then Some (v - 55)
  else None.

(** [hex.EncodeToString] (lower case digits), on bytes. *)
Fixpoint hex_encode (l : list byte) : list byte :=
  match l with
  | [] => []
  | b :: l => hex_digit (byte_val b / 16) :: hex_digit (byte_val b mod 16) :: hex_encode l
  end.

(** [hex.DecodeString]: an error for a digit that is not hexadecimal and for
    an odd number of digits. *)
Fixpoint hex_decode (l : list byte) : option (list byte) :=
  match l with
  | [] => Some []
  | a :: b :: l =>
      match hex_value a, hex_value b, hex_decode l with
      | Some x, Some y, Some r => Some (byte_of (16 * x + y) :: r)
      | _, _, _ => None
      end
  | [_] => None
  end.

(** ** Package strings *)

(** [strings.TrimPrefix] on bytes. *)
Fixpoint trim_prefix (p l : list byte) : option (list byte) :=
  match p, l with
  | [], _ => Some l
  | x :: p, y :: l => if Byte.eqb x y then trim_prefix p l else None
  | _ :: _, [] => None
  end.
Definition TrimPrefix (l p : list byte) : list byte :=
  match trim_prefix p l with Some r => r | None => l end.

(** [strings.HasPrefix]. *)
Definition HasPrefix (l p : list byte) : bool :=
  match trim_prefix p l with Some _ => true | None => false end.

(** [strings.Contains]. *)
Fixpoint contains (l p : list byte) : bool :=
  HasPrefix l p || match l with [] => false | _ :: l => contains l p end.
Definition Contains (s substr : string) : bool := contains (bytes_of_string s) (bytes_of_string substr).

(** [strings.ToLower] on ASCII text (addresses and hexadecimal digits); other
    letters do not occur where the program calls it. *)
Definition lower_byte (b : byte) : byte :=
  let v := byte_val b in
  if (65 <=? v) && (v <=? 90) then byte_of (v + 32) else b.
Definition ToLower (s : string) : string :=
  string_of_bytes (map lower_byte (bytes_of_string s)).

(** ** Runes

    [[]rune(s)]: the UTF-8 decoding of Go, which yields U+FFFD for each byte
    that does not start a valid sequence; and [string(runes)]. *)

Definition rune_error : Z := 65533.

(** A continuation byte gives its six bits. *)
Definition continuation (lo hi : Z) (b : byte) : option Z :=
  let v := byte_val b in if (lo <=? v) && (v <=? hi) then Some (v mod 64) else None.

(** The first rune of a byte sequence and the bytes it takes. *)
Definition decode_rune (l : list byte) : Z * nat :=
  match l with
  | [] => (rune_error, 0%nat)
  | b0 :: l1 =>
      let v := byte_val b0 in
      if v <? 128 then (v, 1%nat)
      else if (194 <=? v) && (v <=? 223) then
        match l1 with
        | b1 :: _ => match continuation 128 191 b1 with
                     | Some c1 => ((v mod 32) * 64 + c1, 2%nat)
                     | None => (rune_error, 1%nat) end
        | _ => (rune_error, 1%nat)
        end
      else if (224 <=? v) && (v <=? 239) then
        let lo := if v =? 224 then 160 else 128 in
        let hi := if v =? 237 then 159 else 191 in
        match l1 with
        | b1 :: b2 :: _ =>
            match continuation lo hi b1, continuation 128 191 b2 with
            | Some c1, Some c2 => ((v mod 16) * 4096 + c1 * 64 + c2, 3%nat)
            | _, _ => (rune_error, 1%nat) end
        | _ => (rune_error, 1%nat)
        end
      else if (240 <=? v) && (v <=? 244) then
        let lo := if v =? 240 then 144 else 128 in
        let hi := if v =? 244 then 143 else 191 in
        match l1 with
        | b1 :: b2 :: b3 :: _ =>
            match continuation lo hi b1, continuation 128 191 b2, continuation 128 191 b3 with
            | Some c1, Some c2, Some c3 =>
                ((v mod 8) * 262144 + c1 * 4096 + c2 * 64 + c3, 4%nat)
            | _, _, _ => (rune_error, 1%nat) end
        | _ => (rune_error, 1%nat)
        end
      else (rune_error, 1%nat)
  end.

(** [[]rune(s)]; the fuel is the number of bytes, and every rune takes at
    least one. *)
Fixpoint runes_aux (fuel : nat) (l : list byte) : list Z :=
  match fuel, l with
  | S fuel, _ :: _ => let '(r, n) := decode_rune l in r :: runes_aux fuel (drop n l)
  | _, _ => []
  end.
Definition runes (l : list byte) : list Z := runes_aux (length l) l.

(** The UTF-8 encoding of a rune; what is not a Unicode scalar value becomes
    U+FFFD. *)
Definition encode_rune (r : Z) : list byte :=
  if (0 <=? r) && (r <? 128) then [byte_of r]
  else if (128 <=? r) && (r <? 2048) then
    [byte_of (192 + r / 64); byte_of (128 + r mod 64)]
  else if ((2048 <=? r) && (r <? 55296)) || ((57344 <=? r) && (r <? 65536)) then
    [byte_of (224 + r / 4096); byte_of (128 + (r / 64) mod 64); byte_of (128 + r mod 64)]
  else if (65536 <=? r) && (r <? 1114112) then
    [byte_of (240 + r / 262144); byte_of (128 + (r / 4096) mod 64);
     byte_of (128 + (r / 64) mod 64); byte_of (128 + r mod 64)]
  else [byte_of 239; byte_of 191; byte_of 189].

Definition string_of_runes (l : list Z) : list byte := concat (map encode_rune l).

(** A Unicode scalar value. *)
Definition is_scalar (r : Z) : bool :=
  ((0 <=? r) && (r <? 55296)) || ((57344 <=? r) && (r <? 1114112)).

(** ** Lemmas on bytes *)

Lemma byte_val_bound b : 0 <= byte_val b < 256.
Proof. unfold byte_val. pose proof (Byte.to_N_bounded b). lia. Qed.

Lemma byte_val_of z : byte_val (byte_of z) = z mod 256.
Proof.
  unfold byte_of, byte_val. pose proof (Z.mod_pos_bound z 256 ltac:(lia)) as Hb.
  destruct (Byte.of_N (Z.to_N (z mod 256))) as [b|] eqn:E.
  - apply Byte.to_of_N in E. rewrite E. lia.
  - apply Byte.of_N_None_iff in E. lia.
Qed.

Lemma byte_of_val b : byte_of (byte_val b) = b.
Proof.
  unfold byte_of. rewrite Z.mod_small by apply byte_val_bound.
  unfold byte_val. rewrite N2Z.id, Byte.of_to_N. reflexivity.
Qed.

Lemma byte_val_inj a b : byte_val a = byte_val b -> a = b.
Proof. intros H. rewrite <- (byte_of_val a), H. apply byte_of_val. Qed.

Lemma length_le_bytes k z : length (le_bytes k z) = k.
Proof. revert z. induction k as [|k IH]; intros z; cbn; [reflexivity|]. rewrite IH. reflexivity. Qed.

Lemma le_value_bytes k z : le_value (le_bytes k z) = z mod 256 ^ Z.of_nat k.
Proof.
  revert z. induction k as [|k IH]; intros z; [cbn; rewrite Z.mod_1_r; reflexivity|].
  cbn [le_bytes le_value]. rewrite IH, byte_val_of, Nat2Z.inj_succ, Z.pow_succ_r by lia.
  rewrite Z.rem_mul_r; [lia | lia | pose proof (Z.pow_pos_nonneg 256 (Z.of_nat k)); lia].
Qed.

Lemma le_bytes_value l : le_bytes (length l) (le_value l) = l.
Proof.
  induction l as [|b l IH]; [reflexivity|]. cbn [length le_bytes le_value].
  pose proof (byte_val_bound b). f_equal.
  - rewrite <- (byte_of_val b) at 2. apply byte_val_inj. rewrite !byte_val_of.
    rewrite Z.mul_comm, Z.mod_add by lia. reflexivity.
  - rewrite Z.mul_comm, Z.div_add, Z.div_small by lia. exact IH.
Qed.

Lemma le_value_app l1 l2 : le_value (l1 ++ l2) = le_value l1 + 256 ^ Z.of_nat (length l1) * le_value l2.
Proof.
  induction l1 as [|b l1 IH]; cbn [app le_value length]; [lia|].
  rewrite IH, Nat2Z.inj_succ, Z.pow_succ_r by lia. lia.
Qed.

Lemma le_value_zeros k l : le_value (l ++ replicate k x00) = le_value l.
Proof.
  rewrite le_value_app. enough (le_value (replicate k x00) = 0) as -> by lia.
  induction k as [|k IH]; [reflexivity|]. cbn [replicate le_value]. rewrite IH. reflexivity.
Qed.

Lemma big_len_bound n k : 0 <= n < 256 ^ Z.of_nat k -> (big_len n <= k)%nat.
Proof.
  intros Hn. unfold big_len. destruct (Z.leb_spec n 0) as [|Hpos]; [lia|].
  assert (Z.log2 n < 8 * Z.of_nat k).
  { apply Z.log2_lt_pow2; [exact Hpos|]. rewrite Z.pow_mul_r by lia. apply Hn. }
  enough ((Z.log2 n + 8) / 8 <= Z.of_nat k) by lia.
  pose proof (Z.div_lt_upper_bound (Z.log2 n + 8) 8 (Z.of_nat k + 1)). lia.
Qed.

Lemma big_len_enough n : 0 <= n -> n < 256 ^ Z.of_nat (big_len n).
Proof.
  intros Hn. unfold big_len. destruct (Z.leb_spec n 0) as [|Hpos]; [cbn; lia|].
  destruct (Z.log2_spec n Hpos) as [_ Hlt]. pose proof (Z.log2_nonneg n).
  pose proof (Z.div_mod (Z.log2 n + 8) 8 ltac:(lia)).
  pose proof (Z.mod_pos_bound (Z.log2 n + 8) 8 ltac:(lia)).
  rewrite Z2Nat.id by lia. change 256 with (2 ^ 8). rewrite <- Z.pow_mul_r by lia.
  apply Z.lt_le_trans with (1 := Hlt). apply Z.pow_le_mono_r; lia.
Qed.

Lemma be_value_big_bytes n : 0 <= n -> be_value (big_bytes n) = n.
Proof.
  intros Hn. unfold be_value, big_bytes. rewrite rev_involutive, le_value_bytes.
  apply Z.mod_small. split; [exact Hn | apply big_len_enough; exact Hn].
Qed.

Lemma length_big_bytes n : length (big_bytes n) = big_len n.
Proof. unfold big_bytes. rewrite length_rev, length_le_bytes. reflexivity. Qed.

Lemma length_copy_into off src buf : (off <= length buf)%nat -> length (copy_into off src buf) = length buf.
Proof. intros H. unfold copy_into. rewrite !length_app, !length_take, length_drop. lia. Qed.

(** ** Lemmas on hexadecimal text *)

Lemma hex_value_digit n : 0 <= n < 16 -> hex_value (hex_digit n) = Some n.
Proof.
  intros Hn. assert (n ∈ seqZ 0 16) as Hin by (apply elem_of_seqZ; lia).
  revert n Hn Hin. enough (Forall (fun n => hex_value (hex_digit n) = Some n) (seqZ 0 16)) as H.
  { intros n _ Hin. rewrite Forall_forall in H. apply H, Hin. }
  cbn. repeat constructor.
Qed.

(** Decoding what was encoded gives the bytes back. *)
Lemma hex_decode_encode l : hex_decode (hex_encode l) = Some l.
Proof.
  induction l as [|b l IH]; [reflexivity|]. cbn [hex_encode hex_decode].
  pose proof (byte_val_bound b). rewrite !hex_value_digit, IH.
  - do 2 f_equal. rewrite <- Z.div_mod by lia. apply byte_of_val.
  - apply Z.mod_pos_bound. lia.
  - split; [apply Z.div_pos; lia | apply Z.div_lt_upper_bound; lia].
Qed.

Lemma length_hex_encode l : length (hex_encode l) = (2 * length l)%nat.
Proof. induction l as [|b l IH]; cbn [hex_encode length]; lia. Qed.

Lemma trim_prefix_app p l : trim_prefix p (p ++ l) = Some l.
Proof.
  induction p as [|x p IH]; [reflexivity|]. cbn [trim_prefix app].
  replace (Byte.eqb x x) with true; [exact IH|].
  symmetry. apply Byte.byte_dec_lb. reflexivity.
Qed.

Lemma TrimPrefix_app p l : TrimPrefix (p ++ l) p = l.
Proof. unfold TrimPrefix. rewrite trim_prefix_app. reflexivity. Qed.

Lemma bytes_of_string_of_bytes l : bytes_of_string (string_of_bytes l) = l.
Proof. apply String.list_byte_of_string_of_list_byte. Qed.

Lemma string_of_bytes_of_string s : string_of_bytes (bytes_of_string s) = s.
Proof. apply String.string_of_list_byte_of_string. Qed.

Lemma length_bytes_of_string s : length (bytes_of_string s) = String.length s.
Proof. unfold bytes_of_string, String.list_byte_of_string. rewrite length_map. induction s; cbn; auto. Qed.

Lemma bytes_of_string_app s t : bytes_of_string (s +:+ t) = bytes_of_string s ++ bytes_of_string t.
Proof.
  unfold bytes_of_string, String.list_byte_of_string. rewrite <- map_app. f_equal.
  induction s as [|c s IH]; [reflexivity|]. change (String c s +:+ t) with (String c (s +:+ t)). cbn. rewrite IH. reflexivity.
Qed.

Lemma length_string_of_bytes l : String.length (string_of_bytes l) = length l.
Proof. rewrite <- length_bytes_of_string, bytes_of_string_of_bytes. reflexivity. Qed.

#[export] Hint Rewrite byte_of_val byte_val_of length_le_bytes length_big_bytes
  hex_decode_encode bytes_of_string_of_bytes string_of_bytes_of_string : subnet.
#[export] Hint Resolve byte_val_bound : subnet.
