(* ===== verification/Sha256.v ===== *)
(** * SHA-256

    [crypto/sha256], of which the server uses [Sum256] for the hash of a request
    body: the padding, the message schedule and the compression function, on
    32-bit words as integers.  The constants are computed from the primes
    they come from.  Executable; checked on the test vectors of the standard. *)

From S2P Require Import Prelude GoLang.

Definition word (z : Z) : Z := wrapu32 z.
Definition rotr (n x : Z) : Z := Z.lor (Z.shiftr x n) (word (Z.shiftl x (32 - n))).
Definition not32 (x : Z) : Z := 2 ^ 32 - 1 - x.

Definition sha_ch (x y z : Z) : Z := Z.lxor (Z.land x y) (Z.land (not32 x) z).
Definition sha_maj (x y z : Z) : Z := Z.lxor (Z.lxor (Z.land x y) (Z.land x z)) (Z.land y z).
Definition big_sigma0 (x : Z) : Z := Z.lxor (Z.lxor (rotr 2 x) (rotr 13 x)) (rotr 22 x).
Definition big_sigma1 (x : Z) : Z := Z.lxor (Z.lxor (rotr 6 x) (rotr 11 x)) (rotr 25 x).
Definition small_sigma0 (x : Z) : Z := Z.lxor (Z.lxor (rotr 7 x) (rotr 18 x)) (Z.shiftr x 3).
Definition small_sigma1 (x : Z) : Z := Z.lxor (Z.lxor (rotr 17 x) (rotr 19 x)) (Z.shiftr x 10).

(** The constants are the first 32 bits of the fractional parts of the square
    roots of the first 8 primes, and of the cube roots of the first 64. *)
Definition prime (n : Z) : bool := forallb (fun d => negb (n mod d =? 0)) (seqZ 2 (n - 2)).
Definition primes : list Z := List.filter prime (seqZ 2 310).

(** The integer cube root below 2^36, bit by bit. *)
Definition cbrt (n : Z) : Z :=
  fold_left (fun r i => let r' := r + 2 ^ i in if r' ^ 3 <=? n then r' else r) (rev (seqZ 0 36)) 0.

Definition sha_init : list Z := Eval vm_compute in map (fun p => word (Z.sqrt (p * 2 ^ 64))) (take 8 primes).
Definition sha_k : list Z := Eval vm_compute in map (fun p => word (cbrt (p * 2 ^ 96))) primes.

(** The big-endian words of a block, and back to bytes. *)
Fixpoint words (l : list byte) : list Z :=
  match l with
  | a :: b :: c :: d :: l => be_value [a; b; c; d] :: words l
  | _ => []
  end.
Definition word_bytes (w : Z) : list byte := rev (le_bytes 4 w).

(** The schedule, newest word first, from the 16 words of the block. *)
Fixpoint schedule (n : nat) (w : list Z) : list Z :=
  match n with
  | O => w
  | S n =>
      let at_ i := nth i w 0 in
      schedule n (word (small_sigma1 (at_ 1%nat) + at_ 6%nat + small_sigma0 (at_ 14%nat) + at_ 15%nat) :: w)
  end.

Definition sha_round (h : list Z) (kw : Z * Z) : list Z :=
  match h with
  | [a; b; c; d; e; f; g; h] =>
      let t1 := h + big_sigma1 e + sha_ch e f g + fst kw + snd kw in
      let t2 := big_sigma0 a + sha_maj a b c in
      [word (t1 + t2); a; b; c; word (d + t1); e; f; g]
  | _ => h
  end.

Definition compress (h : list Z) (block : list byte) : list Z :=
  let w := rev (schedule 48 (rev (words block))) in
  zip_with (fun x y => word (x + y)) h (fold_left sha_round (combine sha_k w) h).

(** A one bit, zeros, and the length in bits as eight bytes, up to a multiple
    of 64 bytes. *)
Definition sha_pad (m : list byte) : list byte :=
  let n := Z.of_nat (length m) in
  m ++ x80 :: replicate (Z.to_nat ((55 - n) mod 64)) x00 ++ rev (le_bytes 8 (8 * n)).

(** Block by block; a block takes 64 bytes, so that the number of bytes is
    enough fuel. *)
Fixpoint sha_blocks (fuel : nat) (h : list Z) (l : list byte) : list Z :=
  match fuel, l with
  | S fuel, _ :: _ => sha_blocks fuel (compress h (take 64 l)) (drop 64 l)
  | _, _ => h
  end.

(** [sha256.Sum256]. *)
Definition Sum256 (m : list byte) : list byte :=
  let p := sha_pad m in concat (map word_bytes (sha_blocks (length p) sha_init p)).

Example Sum256_abc : string_of_bytes (hex_encode (Sum256 (bytes_of_string "abc"))) =
  "ba7816bf8f01cfea414140de5dae2223b00361a396177a9cb410ff61f20015ad"%string.
Proof. vm_compute. reflexivity. Qed.

Example Sum256_two_blocks : string_of_bytes (hex_encode (Sum256
  (bytes_of_string "abcdbcdecdefdefgefghfghighijhijkijkljklmklmnlmnomnopnopq"))) =
  "248d6a61d20638b8e5c026930c3e6039a33ce45964ff2167f6ecedd419db06c1"%string.
Proof. vm_compute. reflexivity. Qed.

(** ** The length of a digest *)

Lemma length_word_bytes w : length (word_bytes w) = 4%nat.
Proof. unfold word_bytes. rewrite length_rev. apply length_le_bytes. Qed.

Lemma length_sha_round h kw : length h = 8%nat -> length (sha_round h kw) = 8%nat.
Proof. intros H. destruct h as [|? [|? [|? [|? [|? [|? [|? [|? [|]]]]]]]]]; try discriminate H. reflexivity. Qed.

Lemma length_sha_rounds kws : forall h, length h = 8%nat -> length (fold_left sha_round kws h) = 8%nat.
Proof. induction kws as [|kw kws IH]; intros h H; [exact H|]. apply IH, length_sha_round, H. Qed.

Lemma length_sha_blocks fuel : forall h l, length h = 8%nat -> length (sha_blocks fuel h l) = 8%nat.
Proof.
  induction fuel as [|fuel IH]; intros h l H; [exact H|]. destruct l as [|b l]; [exact H|]. apply IH.
  unfold compress. rewrite length_zip_with, length_sha_rounds, H by exact H. reflexivity.
Qed.

Lemma length_Sum256 m : length (Sum256 m) = 32%nat.
Proof.
  unfold Sum256. pose proof (length_sha_blocks (length (sha_pad m)) sha_init (sha_pad m) eq_refl) as H.
  destruct (sha_blocks _ _ _) as [|? [|? [|? [|? [|? [|? [|? [|? [|]]]]]]]]]; try discriminate H.
  cbn [map concat]. rewrite !length_app, !length_word_bytes. reflexivity.
Qed.
