(* ===== verification/Json.v ===== *)
(** * JSON request bodies

    What the handlers use of [encoding/json]: [json.NewDecoder(r.Body).Decode]
    and [json.Unmarshal] into structs of strings, integers and booleans, into a
    slice of structs, and into a [map[string]any].

    [parse] reads the first JSON value of a text, as the decoder does: what
    follows the value is not looked at.  A struct takes its fields by name,
    without regard to case; unknown members are skipped, null leaves a field as
    it is, the last member of a name counts, and any mismatch of types makes the
    whole call fail.  (The limit of 10000 nested values is left out.)

    The fuel of [parse] is twice the length of the text and two more, which is
    enough ([JsonFuel.parse_fuel_enough]). *)

From S2P Require Import Prelude Float64 GoLang Strconv.

Inductive json : Type :=
| JNull
| JBool (b : bool)
| JNumber (literal : list byte)
| JString (s : list byte)
| JArray (l : list json)
| JObject (members : list (list byte * json)).

(** ** Lexical elements *)

Definition is_space (b : byte) : bool :=
  let v := byte_val b in (v =? 32) || (v =? 9) || (v =? 13) || (v =? 10).

Fixpoint skip_ws (l : list byte) : list byte :=
  match l with
  | b :: l' => if is_space b then skip_ws l' else l
  | [] => []
  end.

(** Four hexadecimal digits. *)
Definition hex4 (l : list byte) : option (Z * list byte) :=
  match l with
  | a :: b :: c :: d :: l =>
      match hex_value a, hex_value b, hex_value c, hex_value d with
      | Some a, Some b, Some c, Some d => Some (((a * 16 + b) * 16 + c) * 16 + d, l)
      | _, _, _, _ => None
      end
  | _ => None
  end.

Definition simple_escape (b : byte) : option byte :=
  match b with
  | x22 | x5c | x2f => Some b
  | x62 => Some x08
  | x66 => Some x0c
  | x6e => Some x0a
  | x72 => Some x0d
  | x74 => Some x09
  | _ => None
  end.

Definition is_high (r : Z) : bool := (55296 <=? r) && (r <? 56320).
Definition is_low (r : Z) : bool := (56320 <=? r) && (r <? 57344).

(** A unicode escape after its u: two surrogates in a row make one rune, a
    single one is replaced. *)
Definition unicode_escape (l : list byte) : option (list byte * list byte) :=
  match hex4 l with
  | None => None
  | Some (r, l) =>
      if is_high r then
        match l with
        | x5c :: x75 :: l2 =>
            match hex4 l2 with
            | Some (r2, l2) =>
                if is_low r2 then Some (encode_rune (65536 + (r - 55296) * 1024 + (r2 - 56320)), l2)
                else Some (encode_rune rune_error, l)
            | None => Some (encode_rune rune_error, l)
            end
        | _ => Some (encode_rune rune_error, l)
        end
      else Some (encode_rune r, l)
  end.

(** The contents of a string after its quote: no control characters; bytes that
    are no UTF-8 are replaced. *)
Fixpoint string_lit (fuel : nat) (l : list byte) : option (list byte * list byte) :=
  match fuel, l with
  | S fuel, x22 :: l => Some ([], l)
  | S fuel, x5c :: x75 :: l =>
      match unicode_escape l with
      | Some (c, l) => match string_lit fuel l with Some (s, l) => Some (c ++ s, l) | None => None end
      | None => None
      end
  | S fuel, x5c :: b :: l =>
      match simple_escape b with
      | Some c => match string_lit fuel l with Some (s, l) => Some (c :: s, l) | None => None end
      | None => None
      end
  | S fuel, b :: _ =>
      if byte_val b <? 32 then None
      else
        let '(r, n) := decode_rune l in
        match string_lit fuel (drop n l) with Some (s, l) => Some (encode_rune r ++ s, l) | None => None end
  | _, _ => None
  end.

(** Decimal digits: how many, and the rest. *)
Fixpoint digits (l : list byte) : list byte * list byte :=
  match l with
  | b :: l' => match digit_value b with
               | Some _ => let '(ds, rest) := digits l' in (b :: ds, rest)
               | None => ([], l)
               end
  | [] => ([], [])
  end.

(** A number: sign, integer part without leading zeros, fraction, exponent. *)
Definition number_lit (l : list byte) : option (list byte * list byte) :=
  let '(sign, l) := match l with x2d :: l => ([x2d], l) | _ => ([], l) end in
  let int := match l with
             | x30 :: l => Some ([x30], l)
             | _ => match digits l with ([], _) => None | r => Some r end
             end in
  match int with
  | None => None
  | Some (int, l) =>
      let frac := match l with
                  | x2e :: l' => match digits l' with ([], _) => None | (ds, l) => Some (x2e :: ds, l) end
                  | _ => Some ([], l)
                  end in
      match frac with
      | None => None
      | Some (frac, l) =>
          let exp := match l with
                     | (x65 | x45) as e :: l' =>
                         let '(sg, l'') := match l' with (x2b | x2d) as s :: l'' => ([s], l'') | _ => ([], l') end in
                         match digits l'' with ([], _) => None | (ds, l) => Some (e :: sg ++ ds, l) end
                     | _ => Some ([], l)
                     end in
          match exp with
          | None => None
          | Some (exp, l) => Some (sign ++ int ++ frac ++ exp, l)
          end
      end
  end.

(** ** Values *)

Fixpoint value (fuel : nat) (l : list byte) : option (json * list byte) :=
  match fuel with
  | O => None
  | S fuel =>
      match skip_ws l with
      | x22 :: l => match string_lit (S (length l)) l with Some (s, l) => Some (JString s, l) | None => None end
      | x7b :: l =>
          match skip_ws l with
          | x7d :: l => Some (JObject [], l)
          | l => match members fuel l with Some (ms, l) => Some (JObject ms, l) | None => None end
          end
      | x5b :: l =>
          match skip_ws l with
          | x5d :: l => Some (JArray [], l)
          | l => match elements fuel l with Some (vs, l) => Some (JArray vs, l) | None => None end
          end
      | l =>
          match trim_prefix (bytes_of_string "null") l, trim_prefix (bytes_of_string "true") l,
                trim_prefix (bytes_of_string "false") l with
          | Some l, _, _ => Some (JNull, l)
          | _, Some l, _ => Some (JBool true, l)
          | _, _, Some l => Some (JBool false, l)
          | _, _, _ => match number_lit l with Some (n, l) => Some (JNumber n, l) | None => None end
          end
      end
  end
with members (fuel : nat) (l : list byte) : option (list (list byte * json) * list byte) :=
  match fuel with
  | O => None
  | S fuel =>
      match skip_ws l with
      | x22 :: l =>
          match string_lit (S (length l)) l with
          | None => None
          | Some (key, l) =>
              match skip_ws l with
              | x3a :: l =>
                  match value fuel l with
                  | None => None
                  | Some (v, l) =>
                      match skip_ws l with
                      | x7d :: l => Some ([(key, v)], l)
                      | x2c :: l => match members fuel l with Some (ms, l) => Some ((key, v) :: ms, l) | None => None end
                      | _ => None
                      end
                  end
              | _ => None
              end
          end
      | _ => None
      end
  end
with elements (fuel : nat) (l : list byte) : option (list json * list byte) :=
  match fuel with
  | O => None
  | S fuel =>
      match value fuel l with
      | None => None
      | Some (v, l) =>
          match skip_ws l with
          | x5d :: l => Some ([v], l)
          | x2c :: l => match elements fuel l with Some (vs, l) => Some (v :: vs, l) | None => None end
          | _ => None
          end
      end
  end.

Definition parse (text : list byte) : option json := fst <$> value (2 * length text + 2) text.

(** ** Decoding into Go values *)

(** Names are compared by their letters' simple folding; of the runes that are
    not ASCII only the long s and the Kelvin sign fold to ASCII letters. *)
Definition fold_rune (r : Z) : Z :=
  if (65 <=? r) && (r <=? 90) then r + 32
  else if r =? 383 then 115
  else if r =? 8490 then 107
  else r.
Definition fold_name (s : list byte) : list Z := map fold_rune (runes s).
Definition names (field : string) (key : list byte) : bool :=
  bool_decide (fold_name key = fold_name (bytes_of_string field)).

(** A struct's members: null is an empty object, other values are refused. *)
Definition struct_members (v : json) : option (list (list byte * json)) :=
  match v with
  | JObject ms => Some ms
  | JNull => Some []
  | _ => None
  end.

(** A field: the last member of its name that is not null, if all of them have
    the right type. *)
Definition field {T} (dec : json -> option T) (zero : T) (name : string) (ms : list (list byte * json)) : option T :=
  fold_left (fun acc m =>
    if names name (fst m) then
      match snd m with
      | JNull => acc
      | v => match acc, dec v with Some _, Some t => Some t | _, _ => None end
      end
    else acc) ms (Some zero).

Definition as_string (v : json) : option string :=
  match v with JString s => Some (string_of_bytes s) | _ => None end.
Definition as_int (v : json) : option Z :=
  match v with JNumber n => ParseInt n | _ => None end.
Definition as_bool (v : json) : option bool :=
  match v with JBool b => Some b | _ => None end.

Definition string_field := field as_string ""%string.
Definition int_field := field as_int 0.
Definition bool_field := field as_bool false.

(** A text with double quotes for single ones, for examples. *)
Definition quoted (s : string) : list byte := map (fun b => if Byte.eqb b x27 then x22 else b) (bytes_of_string s).

Example parse_answer :
  parse (quoted " { 'question_id' : 12, 'valid': true, 'x': [null, {'y': -1.5e3}], 'answer': '4\u00e9\n' } rest") =
  Some (JObject [(bytes_of_string "question_id", JNumber (bytes_of_string "12")); (bytes_of_string "valid", JBool true);
    (bytes_of_string "x", JArray [JNull; JObject [(bytes_of_string "y", JNumber (bytes_of_string "-1.5e3"))]]);
    (bytes_of_string "answer", JString [x34; xc3; xa9; x0a])]).
Proof. vm_compute. reflexivity. Qed.

Example parse_refuses : map (fun s => parse (quoted s)) ["{'a': 1,}"; "{'a' 1}"; "[1 2]"; "'x"; "tru"; "{'a': .5}"]%string =
  [None; None; None; None; None; None].
Proof. vm_compute. reflexivity. Qed.
