(* ===== verification/JsonFuel.v ===== *)
(** * The JSON parser terminates with an answer

    [Json.parse] gives its recursion twice the length of the text and two units
    of fuel.  Here: every parser takes at least one byte off the text
    ([parsers_shorter]), so that the fuel never runs out and any larger amount
    reads the same value ([parse_fuel_enough]); likewise for [GoLang.runes]
    ([runes_fuel_enough]). *)

From S2P Require Import Prelude Float64 GoLang Strconv Json.

Lemma length_skip_ws l : (length (skip_ws l) <= length l)%nat.
Proof. induction l as [|b l IH]; cbn; [lia|]. destruct (is_space b); cbn; lia. Qed.

Lemma decode_rune_pos b l : (1 <= snd (decode_rune (b :: l)))%nat.
Proof. unfold decode_rune. repeat (case_match; try (cbn; lia)). Qed.

Lemma length_hex4 l r l' : hex4 l = Some (r, l') -> (length l' < length l)%nat.
Proof. unfold hex4. repeat (case_match; try discriminate). intros [= _ <-]. subst. cbn. lia. Qed.

Lemma length_unicode_escape l c l' : unicode_escape l = Some (c, l') -> (length l' < length l)%nat.
Proof.
  unfold unicode_escape. destruct (hex4 l) as [[r l1]|] eqn:E; [|discriminate]. apply length_hex4 in E.
  destruct (is_high r); [|intros [= _ <-]; lia].
  assert (forall c0 (l0 : list byte), Some (c0, l1) = Some (c, l0) -> (length l0 < length l)%nat) as Hstop
    by (intros c0 l0 [= _ <-]; exact E).
  destruct l1 as [|b1 l1]; [apply Hstop|]. destruct b1; try apply Hstop.
  destruct l1 as [|b2 l2]; [apply Hstop|]. destruct b2; try apply Hstop.
  destruct (hex4 l2) as [[r2 l3]|] eqn:E2; [|apply Hstop]. apply length_hex4 in E2.
  destruct (is_low r2); [|apply Hstop]. intros [= _ <-]. cbn in E. lia.
Qed.

(** A string's contents: one step of the loop is an escape, a rune, or the end. *)
Inductive string_step (l : list byte) : option (list byte * list byte) -> bool -> Prop :=
| step_end r : (length r < length l)%nat -> string_step l (Some ([], r)) true
| step_fails : string_step l None true
| step_more c r : (length r < length l)%nat -> string_step l (Some (c, r)) false.

(** What [string_lit] does first, apart from the fuel. *)
Lemma string_lit_step l : exists out stop, string_step l out stop /\
  forall fuel, string_lit (S fuel) l =
    match out with
    | None => None
    | Some (c, r) => if stop : bool then Some ([], r)
                     else match string_lit fuel r with Some (s, r) => Some (c ++ s, r) | None => None end
    end.
Proof.
  destruct l as [|b l]; [exists None, true; split; [constructor|reflexivity]|].
  assert (forall b, exists out stop, string_step (b :: l) out stop /\
    forall fuel, (if byte_val b <? 32 then None
      else let '(r, n) := decode_rune (b :: l) in
        match string_lit fuel (drop n (b :: l)) with Some (s, l) => Some (encode_rune r ++ s, l) | None => None end) =
    match out with
    | None => None
    | Some (c, r) => if stop : bool then Some ([], r)
                     else match string_lit fuel r with Some (s, r) => Some (c ++ s, r) | None => None end
    end) as Hrune.
  { intros b'. destruct (byte_val b' <? 32); [exists None, true; split; [constructor|reflexivity]|].
    pose proof (decode_rune_pos b' l) as Hn. destruct (decode_rune (b' :: l)) as [r n]. cbn [snd] in Hn.
    exists (Some (encode_rune r, drop n (b' :: l))), false. split; [|reflexivity].
    constructor. rewrite length_drop. cbn [length]. lia. }
  destruct b; try (apply Hrune).
  - exists (Some ([], l)), true. split; [constructor; cbn; lia|reflexivity].
  - destruct l as [|b l]; [apply Hrune|]. clear Hrune.
    destruct b;
      [ .. ] ;
      try (cbn [string_lit]; match goal with |- context [simple_escape ?b] => destruct (simple_escape b) as [c|] end;
           [exists (Some ([c], l)), false|exists None, true]; split; [constructor; cbn; lia|reflexivity|constructor|reflexivity]).
    cbn [string_lit]. destruct (unicode_escape l) as [[c r]|] eqn:E; [|exists None, true; split; [constructor|reflexivity]].
    exists (Some (c, r)), false. apply length_unicode_escape in E. split; [constructor; cbn; lia|reflexivity].
Qed.

Lemma string_lit_shorter fuel : forall l s r, string_lit fuel l = Some (s, r) -> (length r < length l)%nat.
Proof.
  induction fuel as [|fuel IH]; intros l s r; [discriminate|].
  destruct (string_lit_step l) as (out & stop & Hstep & ->). destruct Hstep as [r0 H| |c r0 H]; [|discriminate|].
  - intros [= _ <-]. exact H.
  - destruct (string_lit fuel r0) as [[s1 r1]|] eqn:E; [|discriminate]. apply IH in E. intros [= _ <-]. lia.
Qed.

(** One unit of fuel more than bytes is as good as any. *)
Lemma string_lit_enough fuel : forall more l, (length l < fuel)%nat -> string_lit (more + fuel) l = string_lit fuel l.
Proof.
  induction fuel as [|fuel IH]; intros more l Hl; [lia|]. rewrite Nat.add_succ_r.
  destruct (string_lit_step l) as (out & stop & Hstep & Heq). rewrite !Heq. destruct Hstep as [r H| |c r H]; [reflexivity..|].
  rewrite IH by lia. reflexivity.
Qed.

Lemma digits_shorter l : (length (snd (digits l)) + length (fst (digits l)) = length l)%nat.
Proof.
  induction l as [|b l IH]; [reflexivity|]. cbn [digits]. destruct (digit_value b); [|cbn; lia].
  destruct (digits l) as [ds rest]. cbn in *. lia.
Qed.

Lemma digits_some l ds r : digits l = (ds, r) -> ds <> [] -> (length r < length l)%nat.
Proof. intros E Hne. pose proof (digits_shorter l) as H. rewrite E in H. destruct ds; [congruence|]. cbn in H. lia. Qed.

Lemma digits_le l ds r : digits l = (ds, r) -> (length r <= length l)%nat.
Proof. intros E. pose proof (digits_shorter l) as H. rewrite E in H. cbn in H. lia. Qed.

Lemma number_lit_shorter l n r : number_lit l = Some (n, r) -> (length r < length l)%nat.
Proof.
  unfold number_lit.
  destruct (match l with x2d :: l => ([x2d], l) | _ => ([], l) end) as [sign l1] eqn:E1.
  assert (length l1 <= length l)%nat as H1
    by (destruct l as [|b l]; [|destruct b]; injection E1 as _ <-; cbn; lia). clear E1.
  destruct (match l1 with x30 :: l => _ | _ => _ end) as [[int l2]|] eqn:E2; [|discriminate].
  assert (length l2 < length l1)%nat as H2.
  { assert (match digits l1 with ([], _) => None | r => Some r end = Some (int, l2) -> (length l2 < length l1)%nat) as Hd.
    { destruct (digits l1) as [[|d ds] r0] eqn:Ed; [discriminate|]. intros [= _ <-]. eapply digits_some; [exact Ed|congruence]. }
    destruct l1 as [|b l1]; [exact (Hd E2)|]. destruct b; try exact (Hd E2). injection E2 as _ <-. cbn. lia. }
  clear E2. destruct (match l2 with x2e :: l' => _ | _ => _ end) as [[frac l3]|] eqn:E3; [|discriminate].
  assert (length l3 <= length l2)%nat as H3.
  { destruct l2 as [|b l2]; [injection E3 as _ <-; cbn; lia|]. destruct b; try (injection E3 as _ <-; cbn; lia).
    destruct (digits l2) as [[|d ds] r0] eqn:Ed; [discriminate|]. injection E3 as _ <-. apply digits_le in Ed. cbn. lia. }
  clear E3. destruct (match l3 with (x65 | x45) as e :: l' => _ | _ => _ end) as [[exp l4]|] eqn:E4; [|discriminate].
  assert (length l4 <= length l3)%nat as H4.
  { assert (forall e l', (let '(sg, l'') := match l' with (x2b | x2d) as s :: l'' => ([s], l'') | _ => ([], l') end in
        match digits l'' with ([], _) => None | (ds, l) => Some ((e : byte) :: sg ++ ds, l) end) = Some (exp, l4) ->
        (length l4 <= length l')%nat) as Hexp.
    { intros e l'. destruct (match l' with (x2b | x2d) as s :: l'' => _ | _ => _ end) as [sg l''] eqn:Es.
      assert (length l'' <= length l')%nat as Hs by (destruct l' as [|b l']; [|destruct b]; injection Es as _ <-; cbn; lia).
      destruct (digits l'') as [[|d ds] r0] eqn:Ed; [discriminate|]. intros [= _ <-]. apply digits_le in Ed. lia. }
    destruct l3 as [|b l3]; [injection E4 as _ <-; cbn; lia|].
    destruct b; try (injection E4 as _ <-; cbn; lia); apply Hexp in E4; cbn; lia. }
  intros [= _ <-]. lia.
Qed.


Lemma trim_prefix_shorter x p l r : trim_prefix (x :: p) l = Some r -> (length r < length l)%nat.
Proof.
  assert (forall p l r, trim_prefix p l = Some r -> (length r <= length l)%nat) as Hle.
  { intros p0. induction p0 as [|y p0 IH]; intros l0 r0; cbn; [intros [= <-]; lia|].
    destruct l0 as [|z l0]; [discriminate|]. destruct (Byte.eqb y z); [|discriminate]. intros H%IH. cbn. lia. }
  destruct l as [|y l]; cbn; [discriminate|]. destruct (Byte.eqb x y); [|discriminate]. intros H%Hle. lia.
Qed.

(** What follows a member or an element: its closing bracket, a comma, or an
    error. *)
Inductive separator (l : list byte) : option (bool * list byte) -> Prop :=
| sep_none : separator l None
| sep_some closed r : (length r < length l)%nat -> separator l (Some (closed, r)).

Lemma member_separator l : exists out, separator l out /\
  forall A (stop more : list byte -> option A),
    match skip_ws l with x7d :: l => stop l | x2c :: l => more l | _ => None end =
    match out with None => None | Some (closed, r) => if closed : bool then stop r else more r end.
Proof.
  pose proof (length_skip_ws l) as H. destruct (skip_ws l) as [|b r]; [exists None; split; [constructor|reflexivity]|].
  cbn in H. destruct b; try (exists None; split; [constructor|reflexivity]);
    [exists (Some (false, r))|exists (Some (true, r))]; (split; [constructor; lia|reflexivity]).
Qed.

Lemma element_separator l : exists out, separator l out /\
  forall A (stop more : list byte -> option A),
    match skip_ws l with x5d :: l => stop l | x2c :: l => more l | _ => None end =
    match out with None => None | Some (closed, r) => if closed : bool then stop r else more r end.
Proof.
  pose proof (length_skip_ws l) as H. destruct (skip_ws l) as [|b r]; [exists None; split; [constructor|reflexivity]|].
  cbn in H. destruct b; try (exists None; split; [constructor|reflexivity]);
    [exists (Some (false, r))|exists (Some (true, r))]; (split; [constructor; lia|reflexivity]).
Qed.

(** What a value is: complete without fuel, or an object or an array whose
    contents come next. *)
Inductive value_shape (l : list byte) : Prop :=
| shape_done (out : option (json * list byte)) (Hout : forall v r, out = Some (v, r) -> (length r < length l)%nat)
    (Heq : forall fuel, value (S fuel) l = out)
| shape_object (r : list byte) (Hr : (length r < length l)%nat)
    (Heq : forall fuel, value (S fuel) l = match members fuel r with Some (ms, l) => Some (JObject ms, l) | None => None end)
| shape_array (r : list byte) (Hr : (length r < length l)%nat)
    (Heq : forall fuel, value (S fuel) l = match elements fuel r with Some (vs, l) => Some (JArray vs, l) | None => None end).

Definition plain_value (l : list byte) : option (json * list byte) :=
  match trim_prefix (bytes_of_string "null") l, trim_prefix (bytes_of_string "true") l,
        trim_prefix (bytes_of_string "false") l with
  | Some l, _, _ => Some (JNull, l)
  | _, Some l, _ => Some (JBool true, l)
  | _, _, Some l => Some (JBool false, l)
  | _, _, _ => match number_lit l with Some (n, l) => Some (JNumber n, l) | None => None end
  end.

Lemma plain_value_shorter l v r : plain_value l = Some (v, r) -> (length r < length l)%nat.
Proof.
  unfold plain_value.
  destruct (trim_prefix (bytes_of_string "null") l) eqn:E1; [intros [= _ <-]; eapply trim_prefix_shorter, E1|].
  destruct (trim_prefix (bytes_of_string "true") l) eqn:E2; [intros [= _ <-]; eapply trim_prefix_shorter, E2|].
  destruct (trim_prefix (bytes_of_string "false") l) eqn:E3; [intros [= _ <-]; eapply trim_prefix_shorter, E3|].
  destruct (number_lit l) as [[n r0]|] eqn:E4; [|discriminate]. intros [= _ <-]. eapply number_lit_shorter, E4.
Qed.

(** The bytes that begin something else than a plain value. *)
Definition opening (b : byte) : bool := match b with x22 | x7b | x5b => true | _ => false end.

Lemma value_plain fuel l : match skip_ws l with b :: _ => opening b = false | [] => True end ->
  value (S fuel) l = plain_value (skip_ws l).
Proof. intros H. cbn [value]. destruct (skip_ws l) as [|b r]; [reflexivity|]. destruct b; first [discriminate H|reflexivity]. Qed.

Lemma value_string fuel l r : skip_ws l = x22 :: r ->
  value (S fuel) l = match string_lit (S (length r)) r with Some (s, l) => Some (JString s, l) | None => None end.
Proof. intros H. cbn [value]. rewrite H. reflexivity. Qed.

Lemma value_object fuel l r : skip_ws l = x7b :: r ->
  value (S fuel) l = match skip_ws r with
    | x7d :: l => Some (JObject [], l)
    | l => match members fuel l with Some (ms, l) => Some (JObject ms, l) | None => None end
    end.
Proof. intros H. cbn [value]. rewrite H. reflexivity. Qed.

Lemma value_array fuel l r : skip_ws l = x5b :: r ->
  value (S fuel) l = match skip_ws r with
    | x5d :: l => Some (JArray [], l)
    | l => match elements fuel l with Some (vs, l) => Some (JArray vs, l) | None => None end
    end.
Proof. intros H. cbn [value]. rewrite H. reflexivity. Qed.

Lemma value_shape_of l : value_shape l.
Proof.
  pose proof (length_skip_ws l) as Hl. destruct (skip_ws l) as [|b r] eqn:E.
  { apply (shape_done l (plain_value [])); [discriminate|]. intros fuel. rewrite value_plain; rewrite E; [reflexivity|exact I]. }
  cbn in Hl. destruct (opening b) eqn:Eb.
  2: { apply (shape_done l (plain_value (b :: r))); [intros v r' H%plain_value_shorter; cbn in H; lia|].
       intros fuel. rewrite value_plain; rewrite E; [reflexivity|exact Eb]. }
  assert (b = x22 \/ b = x7b \/ b = x5b) as [->|[-> | ->]] by (destruct b; first [discriminate Eb|auto]).
  - apply (shape_done l (match string_lit (S (length r)) r with Some (s, l) => Some (JString s, l) | None => None end)).
    + intros v r'. destruct (string_lit _ r) as [[s r0]|] eqn:Es; [|discriminate]. apply string_lit_shorter in Es.
      intros [= _ <-]. lia.
    + intros fuel. apply value_string, E.
  - pose proof (length_skip_ws r) as Hr. pose proof (fun fuel => value_object fuel l r E) as Hv.
    destruct (skip_ws r) as [|b r'] eqn:Er; [apply (shape_object l []); [cbn; lia|exact Hv]|]. cbn in Hr.
    destruct (Byte.eqb b x7d) eqn:Ec.
    + apply Byte.byte_dec_bl in Ec as ->. apply (shape_done l (Some (JObject [], r'))); [|exact Hv]. intros v r0 [= _ <-]. lia.
    + apply (shape_object l (b :: r')); [cbn; lia|]. intros fuel. rewrite Hv. destruct b; first [reflexivity|discriminate Ec].
  - pose proof (length_skip_ws r) as Hr. pose proof (fun fuel => value_array fuel l r E) as Hv.
    destruct (skip_ws r) as [|b r'] eqn:Er; [apply (shape_array l []); [cbn; lia|exact Hv]|]. cbn in Hr.
    destruct (Byte.eqb b x5d) eqn:Ec.
    + apply Byte.byte_dec_bl in Ec as ->. apply (shape_done l (Some (JArray [], r'))); [|exact Hv]. intros v r0 [= _ <-]. lia.
    + apply (shape_array l (b :: r')); [cbn; lia|]. intros fuel. rewrite Hv. destruct b; first [reflexivity|discriminate Ec].
Qed.

(** A member: its name and colon, then a value and a separator. *)
Lemma members_shape l : (forall fuel, members (S fuel) l = None) \/
  exists key r, (length r + 2 <= length l)%nat /\ forall fuel, members (S fuel) l =
    match value fuel r with
    | None => None
    | Some (v, l) => match skip_ws l with
                     | x7d :: l => Some ([(key, v)], l)
                     | x2c :: l => match members fuel l with Some (ms, l) => Some ((key, v) :: ms, l) | None => None end
                     | _ => None
                     end
    end.
Proof.
  pose proof (length_skip_ws l) as Hl. destruct (skip_ws l) as [|b r] eqn:E; [left; intros fuel; cbn [members]; rewrite E; reflexivity|].
  destruct (Byte.eqb b x22) eqn:Eb.
  2: { left. intros fuel. cbn [members]. rewrite E. destruct b; first [reflexivity|discriminate Eb]. }
  apply Byte.byte_dec_bl in Eb as ->. cbn in Hl.
  destruct (string_lit (S (length r)) r) as [[key r1]|] eqn:Es; [|left; intros fuel; cbn [members]; rewrite E, Es; reflexivity].
  apply string_lit_shorter in Es as Hr1. pose proof (length_skip_ws r1) as Hr2.
  destruct (skip_ws r1) as [|c r2] eqn:E2; [left; intros fuel; cbn [members]; rewrite E, Es, E2; reflexivity|].
  destruct (Byte.eqb c x3a) eqn:Ec.
  2: { left. intros fuel. cbn [members]. rewrite E, Es, E2. destruct c; first [reflexivity|discriminate Ec]. }
  apply Byte.byte_dec_bl in Ec as ->. right. exists key, r2. cbn in Hr2. split; [lia|].
  intros fuel. cbn [members]. rewrite E, Es, E2. reflexivity.
Qed.

Lemma elements_shape fuel l : elements (S fuel) l =
  match value fuel l with
  | None => None
  | Some (v, l) => match skip_ws l with
                   | x5d :: l => Some ([v], l)
                   | x2c :: l => match elements fuel l with Some (vs, l) => Some (v :: vs, l) | None => None end
                   | _ => None
                   end
  end.
Proof. reflexivity. Qed.

(** Every parser takes bytes off the text. *)
Lemma parsers_shorter fuel :
  (forall l v r, value fuel l = Some (v, r) -> (length r < length l)%nat) /\
  (forall l v r, members fuel l = Some (v, r) -> (length r < length l)%nat) /\
  (forall l v r, elements fuel l = Some (v, r) -> (length r < length l)%nat).
Proof.
  induction fuel as [|fuel (IHv & IHm & IHe)]; [repeat split; discriminate|]. split; [|split]; intros l v r.
  - destruct (value_shape_of l) as [out Hout Heq|r0 Hr Heq|r0 Hr Heq]; rewrite Heq.
    + apply Hout.
    + destruct (members fuel r0) as [[ms r1]|] eqn:E; [|discriminate]. apply IHm in E. intros [= _ <-]. lia.
    + destruct (elements fuel r0) as [[vs r1]|] eqn:E; [|discriminate]. apply IHe in E. intros [= _ <-]. lia.
  - destruct (members_shape l) as [H|(key & r0 & Hr & Heq)]; [rewrite H; discriminate|]. rewrite Heq.
    destruct (value fuel r0) as [[v0 r1]|] eqn:E; [|discriminate]. apply IHv in E.
    destruct (member_separator r1) as (out & Hsep & ->). destruct Hsep as [|[] r2 H2]; [discriminate|intros [= _ <-]; lia|].
    destruct (members fuel r2) as [[ms r3]|] eqn:E2; [|discriminate]. apply IHm in E2. intros [= _ <-]. lia.
  - rewrite elements_shape. destruct (value fuel l) as [[v0 r1]|] eqn:E; [|discriminate]. apply IHv in E.
    destruct (element_separator r1) as (out & Hsep & ->). destruct Hsep as [|[] r2 H2]; [discriminate|intros [= _ <-]; lia|].
    destruct (elements fuel r2) as [[ms r3]|] eqn:E2; [|discriminate]. apply IHe in E2. intros [= _ <-]. lia.
Qed.

(** From twice the length and two on, more fuel changes nothing. *)
Lemma parsers_enough fuel :
  (forall l, (2 * length l + 2 <= fuel)%nat -> value (S fuel) l = value fuel l) /\
  (forall l, (2 * length l + 3 <= fuel)%nat -> members (S fuel) l = members fuel l) /\
  (forall l, (2 * length l + 3 <= fuel)%nat -> elements (S fuel) l = elements fuel l).
Proof.
  induction fuel as [|fuel (IHv & IHm & IHe)]; [repeat split; lia|]. split; [|split]; intros l Hl.
  - destruct (value_shape_of l) as [out Hout Heq|r0 Hr Heq|r0 Hr Heq]; rewrite !Heq; [reflexivity|..].
    + rewrite IHm by lia. reflexivity.
    + rewrite IHe by lia. reflexivity.
  - destruct (members_shape l) as [H|(key & r0 & Hr & Heq)]; [rewrite !H; reflexivity|]. rewrite !Heq, IHv by lia.
    destruct (value fuel r0) as [[v0 r1]|] eqn:E; [|reflexivity]. apply (parsers_shorter fuel) in E.
    destruct (member_separator r1) as (out & Hsep & Hs). rewrite !Hs. destruct Hsep as [|[] r2 H2]; [reflexivity..|].
    rewrite IHm by lia. reflexivity.
  - rewrite (elements_shape (S fuel)), (elements_shape fuel), IHv by lia.
    destruct (value fuel l) as [[v0 r1]|] eqn:E; [|reflexivity]. apply (parsers_shorter fuel) in E.
    destruct (element_separator r1) as (out & Hsep & Hs). rewrite !Hs. destruct Hsep as [|[] r2 H2]; [reflexivity..|].
    rewrite IHe by lia. reflexivity.
Qed.

(** The fuel of [parse] is enough: any larger fuel gives the same reading. *)
Theorem parse_fuel_enough more text : fst <$> value (more + (2 * length text + 2)) text = parse text.
Proof.
  unfold parse. f_equal. induction more as [|more IH]; [reflexivity|]. rewrite <- IH. apply parsers_enough. lia.
Qed.

(** Decoding a string into runes never runs out of fuel either. *)
Lemma runes_fuel_enough l : forall more, runes_aux (more + length l) l = runes l.
Proof.
  assert (forall n f l, (length l <= n)%nat -> (n <= f)%nat -> runes_aux f l = runes_aux n l) as H.
  { intros n. induction n as [|n IH]; intros f l0 Hl Hf.
    - destruct l0; [|cbn in Hl; lia]. destruct f; reflexivity.
    - destruct f as [|f]; [lia|]. destruct l0 as [|b l0]; [reflexivity|]. cbn [runes_aux].
      pose proof (decode_rune_pos b l0) as Hn. destruct (decode_rune (b :: l0)) as [r k]. cbn [snd] in Hn. f_equal.
      apply IH; [rewrite length_drop; cbn [length] in *; lia|lia]. }
  intros more. apply H; lia.
Qed.
