(* ===== verification/MinHash.v ===== *)
(** * MinHash signatures of question texts

    Models [src/internal/minhash/minhash.go]: the character 3-grams of a text,
    the seeded FNV-1a hash in wrap-around [uint64] arithmetic, the signature
    of 128 minima, its serialisation to the 1024 bytes of the [minhash]
    column, and the Jaccard estimate in [float64].

    Theorems: the signature is the pointwise minimum of the hashes and depends
    only on the set of 3-grams of the text; the serialisation round-trips; the
    estimate is symmetric, is the exact fraction of equal entries, and at the
    default threshold 0.85 flags a question exactly when 109 of 128 entries
    agree. *)

From Stdlib Require Import SpecFloat QArith Qfield Lqa.
From S2P Require Import Float64 Prelude GoLang.
Open Scope Z_scope.

(** ** Definitions *)

Definition NumHashes : nat := 128.
Definition NGramSize : nat := 3.
Definition SignatureSize : nat := NumHashes * 8.

(** [math.MaxUint64]. *)
Definition MaxUint64 : Z := 2 ^ 64 - 1.

(** [Signature] is [[NumHashes]uint64]. *)
Abbreviation Signature := (list Z).

(** One step of FNV-1a: xor the byte, multiply by the prime modulo 2^64. *)
Definition fnv_step (h : Z) (b : byte) : Z :=
  wrapu64 (Z.lxor h (byte_val b) * 1099511628211).

Definition hashWithSeed (data : list byte) (seed : Z) : Z :=
  fold_left fnv_step data (Z.lxor 14695981039346656037 seed).

(** The n-grams of a text, as UTF-8 strings; a text of one or two runes is its
    own only gram, the empty text has none. *)
Definition extractNGrams (text : list byte) (n : nat) : list (list byte) :=
  let rs := runes text in
  if (length rs <? n)%nat then
    match rs with
    | [] => []
    | _ => [string_of_runes rs]
    end
  else map (fun i => string_of_runes (take n (drop i rs))) (seq 0 (length rs - n + 1)).

(** The inner loop of [Generate]: every entry is lowered to the gram's hash
    under its index as the seed. *)
Definition lower_signature (sig : Signature) (ng : list byte) : Signature :=
  imap (fun i s => let val := hashWithSeed ng (Z.of_nat i) in if val <? s then val else s) sig.

Definition Generate (text : string) : Signature :=
  let ngrams := extractNGrams (bytes_of_string text) NGramSize in
  let sig := replicate NumHashes MaxUint64 in
  match ngrams with
  | [] => sig
  | _ => fold_left lower_signature ngrams sig
  end.

(** The number of indices at which two signatures agree. *)
Fixpoint matches (a b : Signature) : Z :=
  match a, b with
  | x :: a, y :: b => (if x =? y then 1 else 0) + matches a b
  | _, _ => 0
  end.

Definition Jaccard (a b : Signature) : float64 :=
  fdiv (of_int (matches a b)) (of_int (Z.of_nat NumHashes)).

Definition ToBytes (s : Signature) : list byte := concat (map (le_bytes 8) s).

(** Anything shorter than a signature reads as the zero signature. *)
Definition FromBytes (data : list byte) : Signature :=
  if (length data <? SignatureSize)%nat then replicate NumHashes 0
  else map (fun i => le_value (take 8 (drop (8 * i) data))) (seq 0 NumHashes).

(** A well-formed signature: an array of 128 [uint64]. *)
Definition wf_signature (s : Signature) : Prop :=
  length s = NumHashes /\ Forall (fun v => 0 <= v < 2 ^ 64) s.

(** ** Bounds *)

Lemma lxor_bound n a b : 0 <= n -> 0 <= a < 2 ^ n -> 0 <= b < 2 ^ n -> 0 <= Z.lxor a b < 2 ^ n.
Proof.
  intros Hn Ha Hb. assert (0 <= Z.lxor a b) as H0 by (apply Z.lxor_nonneg; lia).
  split; [exact H0|]. destruct (Z.eq_dec (Z.lxor a b) 0) as [->|Hne]; [apply Z.pow_pos_nonneg; lia|].
  apply Z.log2_lt_pow2; [lia|]. apply Z.le_lt_trans with (1 := Z.log2_lxor a b ltac:(lia) ltac:(lia)).
  assert (0 < n) by (destruct (Z.eq_dec n 0) as [->|]; [|lia]; assert (a = 0 /\ b = 0) as [-> ->] by lia; now cbn in Hne).
  apply Z.max_lub_lt.
  - destruct (Z.eq_dec a 0) as [->|]; [exact H|]. apply Z.log2_lt_pow2; lia.
  - destruct (Z.eq_dec b 0) as [->|]; [exact H|]. apply Z.log2_lt_pow2; lia.
Qed.

Lemma wrapu64_bound z : 0 <= wrapu64 z < 2 ^ 64.
Proof. apply Z.mod_pos_bound. lia. Qed.

Lemma fnv_fold_bound data h : 0 <= h < 2 ^ 64 -> 0 <= fold_left fnv_step data h < 2 ^ 64.
Proof.
  revert h. induction data as [|b data IH]; intros h Hh; [exact Hh|].
  cbn [fold_left]. apply IH. apply wrapu64_bound.
Qed.

(** The hash is a [uint64] for every seed that is one. *)
Lemma hashWithSeed_bound data seed : 0 <= seed < 2 ^ 64 -> 0 <= hashWithSeed data seed < 2 ^ 64.
Proof. intros Hs. apply fnv_fold_bound, lxor_bound; lia. Qed.

(** ** The signature as a pointwise minimum *)

(** The minimum of a list of values, at most [m]. *)
Definition min_from (m : Z) (l : list Z) : Z := fold_left Z.min l m.

Lemma min_from_le m l : min_from m l <= m.
Proof.
  unfold min_from. revert m. induction l as [|x l IH]; intros m; cbn [fold_left]; [lia|].
  specialize (IH (Z.min m x)). lia.
Qed.

Lemma min_from_le_in m l x : x ∈ l -> min_from m l <= x.
Proof.
  unfold min_from. revert m. induction l as [|y l IH]; intros m Hx; [inversion Hx|].
  apply elem_of_cons in Hx as [->|Hx]; cbn [fold_left]; [|apply IH, Hx].
  pose proof (min_from_le (Z.min m y) l). unfold min_from in *. lia.
Qed.

Lemma min_from_attained m l : min_from m l = m \/ min_from m l ∈ l.
Proof.
  unfold min_from. revert m. induction l as [|x l IH]; intros m; cbn [fold_left]; [left; reflexivity|].
  destruct (IH (Z.min m x)) as [->|H]; [|right; right; exact H].
  destruct (Z.min_spec m x) as [[_ ->]|[_ ->]]; [left; reflexivity | right; left].
Qed.

(** Equal sets of values have equal minima. *)
Lemma min_from_set m l1 l2 : (forall x, x ∈ l1 <-> x ∈ l2) -> min_from m l1 = min_from m l2.
Proof.
  intros H. apply Z.le_antisymm.
  - destruct (min_from_attained m l2) as [E|Hin]; [rewrite E; apply min_from_le|].
    apply min_from_le_in, H, Hin.
  - destruct (min_from_attained m l1) as [E|Hin]; [rewrite E; apply min_from_le|].
    apply min_from_le_in, H, Hin.
Qed.

Lemma lower_fold_lookup ngs sig i :
  fold_left lower_signature ngs sig !! i =
  (fun s => min_from s (map (fun ng => hashWithSeed ng (Z.of_nat i)) ngs)) <$> (sig !! i).
Proof.
  revert sig. induction ngs as [|ng ngs IH]; intros sig; cbn [fold_left map].
  - destruct (sig !! i); reflexivity.
  - rewrite IH. unfold lower_signature at 1. rewrite list_lookup_imap.
    destruct (sig !! i) as [s|]; [|reflexivity]. cbn. f_equal. unfold min_from. cbn [fold_left].
    f_equal. destruct (Z.ltb_spec (hashWithSeed ng (Z.of_nat i)) s); lia.
Qed.

(** The entries of [Generate]. *)
Lemma Generate_lookup text i : (i < NumHashes)%nat ->
  Generate text !! i =
  Some (min_from MaxUint64
    (map (fun ng => hashWithSeed ng (Z.of_nat i)) (extractNGrams (bytes_of_string text) NGramSize))).
Proof.
  intros Hi. unfold Generate. destruct (extractNGrams _ _) as [|ng ngs].
  - rewrite lookup_replicate_2 by exact Hi. reflexivity.
  - rewrite lower_fold_lookup, lookup_replicate_2 by exact Hi. reflexivity.
Qed.

Lemma length_lower_fold ngs sig : length (fold_left lower_signature ngs sig) = length sig.
Proof.
  revert sig. induction ngs as [|ng ngs IH]; intros sig; [reflexivity|].
  cbn [fold_left]. rewrite IH. apply length_imap.
Qed.

Lemma length_Generate text : length (Generate text) = NumHashes.
Proof.
  unfold Generate. destruct (extractNGrams _ _); [apply length_replicate|].
  rewrite length_lower_fold. apply length_replicate.
Qed.

(** ** Serialisation *)

Lemma length_ToBytes s : length (ToBytes s) = (8 * length s)%nat.
Proof.
  induction s as [|v s IH]; [reflexivity|].
  change (ToBytes (v :: s)) with (le_bytes 8 v ++ ToBytes s).
  rewrite length_app, IH, length_le_bytes. cbn [length]. lia.
Qed.

Lemma ToBytes_chunk s i v : s !! i = Some v -> take 8 (drop (8 * i) (ToBytes s)) = le_bytes 8 v.
Proof.
  revert i. induction s as [|w s IH]; intros i Hi; [discriminate|].
  change (ToBytes (w :: s)) with (le_bytes 8 w ++ ToBytes s).
  destruct i as [|i]; cbn [lookup list_lookup] in Hi.
  - injection Hi as ->. rewrite Nat.mul_0_r, drop_0. apply take_app_length'. reflexivity.
  - replace (8 * S i)%nat with (length (le_bytes 8 w) + 8 * i)%nat by (rewrite length_le_bytes; lia).
    rewrite drop_app_add. apply IH. exact Hi.
Qed.

(** ** The Jaccard estimate *)

Lemma matches_sym a b : matches a b = matches b a.
Proof.
  revert b. induction a as [|x a IH]; intros [|y b]; cbn; try reflexivity.
  rewrite IH, Z.eqb_sym. reflexivity.
Qed.

Lemma matches_bound a b : 0 <= matches a b <= Z.of_nat (length a).
Proof.
  revert b. induction a as [|x a IH]; intros [|y b]; cbn [matches length]; try lia.
  specialize (IH b). destruct (x =? y); lia.
Qed.

Lemma matches_full a b : length a = length b -> matches a b = Z.of_nat (length a) <-> a = b.
Proof.
  revert b. induction a as [|x a IH]; intros [|y b] Hl; cbn [matches length] in *; try discriminate.
  - split; reflexivity.
  - injection Hl as Hl. pose proof (matches_bound a b). specialize (IH b Hl).
    destruct (Z.eqb_spec x y) as [->|Hne].
    + split; [intros H1; f_equal; apply IH; lia | intros [= ->]; rewrite (proj2 IH eq_refl); lia].
    + split; [lia|]. intros [= -> ->]. congruence.
Qed.

(** A question text is flagged as a duplicate at threshold [t] when the
    estimate is at least [t] (the test of [SubmitQuestion]). *)
Definition flagged (t : float64) (a b : Signature) : bool := fleb t (Jaccard a b).

(** The 129 values the estimate can take, against the default threshold. *)
Lemma flagged_table :
  forallb (fun m => Bool.eqb (fleb (of_ratio 85 100) (fdiv (of_int m) (of_int 128))) (109 <=? m))
    (seqZ 0 129) = true.
Proof. vm_compute. reflexivity. Qed.

Lemma estimate_table :
  forallb (fun m => Qeq_bool (fval (fdiv (of_int m) (of_int 128))) (inject_Z m / inject_Z 128))
    (seqZ 0 129) = true.
Proof. vm_compute. reflexivity. Qed.

(** The value of an entry: MaxUint64 or the hash of a gram; a uint64. *)
Lemma Generate_entry text i v : Generate text !! i = Some v ->
  (i < NumHashes)%nat /\ 0 <= v < 2 ^ 64 /\
  v = min_from MaxUint64 (map (fun ng => hashWithSeed ng (Z.of_nat i))
        (extractNGrams (bytes_of_string text) NGramSize)).
Proof.
  intros Hv. pose proof (lookup_lt_Some _ _ _ Hv) as Hi. rewrite length_Generate in Hi.
  rewrite Generate_lookup in Hv by exact Hi. injection Hv as <-.
  split; [exact Hi|]. split; [|reflexivity].
  assert (0 <= Z.of_nat i < 2 ^ 64) as Hs by (unfold NumHashes in Hi; lia).
  destruct (min_from_attained MaxUint64 (map (fun ng => hashWithSeed ng (Z.of_nat i))
    (extractNGrams (bytes_of_string text) NGramSize))) as [->|Hin]; [unfold MaxUint64; lia|].
  apply elem_of_map in Hin as (ng & -> & _). apply hashWithSeed_bound, Hs.
Qed.

Lemma Generate_wf text : wf_signature (Generate text).
Proof.
  split; [apply length_Generate|]. apply Forall_forall. intros v Hv.
  apply list_elem_of_lookup in Hv as [i Hi]. apply (Generate_entry _ _ _ Hi).
Qed.

(** ** Properties *)

(** C39: the entry at index i of a signature is the least of MaxUint64 and the
    seeded hashes of the text's 3-grams, and it is a uint64: the loops of
    Generate compute the minima, with wrap-around hashing. *)
Theorem Generate_is_minimum text i v :
  Generate text !! i = Some v ->
  0 <= v < 2 ^ 64 /\ (i < NumHashes)%nat /\
  (forall ng, ng ∈ extractNGrams (bytes_of_string text) NGramSize -> v <= hashWithSeed ng (Z.of_nat i)) /\
  (v = MaxUint64 \/
   exists ng, ng ∈ extractNGrams (bytes_of_string text) NGramSize /\ v = hashWithSeed ng (Z.of_nat i)).
Proof.
  intros Hv. destruct (Generate_entry text i v Hv) as (Hi & Hb & ->).
  set (grams := extractNGrams _ _). set (hs := map _ grams).
  split; [exact Hb|]. split; [exact Hi|]. split.
  - intros ng Hng. apply min_from_le_in, elem_of_map. exists ng. auto.
  - destruct (min_from_attained MaxUint64 hs) as [->|Hin]; [left; reflexivity|].
    apply elem_of_map in Hin as (ng & E & Hng). right. exists ng. auto.
Qed.

Lemma Generate_is_minimum_witness :
  exists v, Generate "abcd" !! 7%nat = Some v /\ 0 <= v < 2 ^ 64.
Proof.
  exists (match Generate "abcd" !! 7%nat with Some v => v | None => 0 end).
  split; [vm_compute; reflexivity|]. apply (Generate_is_minimum "abcd" 7%nat). vm_compute. reflexivity.
Defined.

(** Two texts with the same set of 3-grams have the same signature: the
    order and the multiplicity of the grams do not matter. *)
Theorem Generate_set_determined t1 t2 :
  (forall ng, ng ∈ extractNGrams (bytes_of_string t1) NGramSize <->
              ng ∈ extractNGrams (bytes_of_string t2) NGramSize) ->
  Generate t1 = Generate t2.
Proof.
  intros H. apply list_eq. intros i. destruct (decide (i < NumHashes)%nat) as [Hi|Hi].
  - rewrite !Generate_lookup by exact Hi. f_equal. apply min_from_set.
    intros x. rewrite !elem_of_map. setoid_rewrite H. reflexivity.
  - rewrite !lookup_ge_None_2 by (rewrite length_Generate; lia). reflexivity.
Qed.

(** Twelve and fifteen letters of the same period have the same six grams. *)
Lemma Generate_set_determined_witness :
  Generate "abcabcabcabc" = Generate "abcabcabcabcabc".
Proof.
  apply Generate_set_determined. intros ng.
  assert (forall l1 l2 : list (list byte), forallb (fun x => bool_decide (x ∈ l2)) l1 = true ->
    ng ∈ l1 -> ng ∈ l2) as Hsub.
  { intros l1 l2 H Hin. rewrite forallb_forall in H.
    eapply bool_decide_eq_true_1, H, list_elem_of_In, Hin. }
  split; apply Hsub; vm_compute; reflexivity.
Defined.

Lemma stored_signature s : wf_signature s -> FromBytes (ToBytes s) = s.
Proof.
  intros [Hl Hb]. unfold FromBytes. rewrite length_ToBytes, Hl.
  replace (8 * NumHashes <? SignatureSize)%nat with false by reflexivity.
  apply list_eq. intros i. rewrite list_lookup_map.
  destruct (decide (i < NumHashes)%nat) as [Hi|Hi].
  - rewrite lookup_seq_lt by exact Hi. cbn [fmap option_fmap option_map Nat.add].
    destruct (lookup_lt_is_Some_2 s i ltac:(lia)) as [v Hv]. rewrite Hv. f_equal.
    rewrite (ToBytes_chunk s i v Hv), le_value_bytes.
    rewrite Forall_forall in Hb. apply Z.mod_small. apply Hb, list_elem_of_lookup. eauto.
  - rewrite lookup_seq_ge by lia. rewrite lookup_ge_None_2 by lia. reflexivity.
Qed.

(** A signature is as similar to itself as can be. *)
Lemma Jaccard_self a : length a = NumHashes -> Jaccard a a = of_ratio 1 1.
Proof.
  intros Hl. unfold Jaccard. rewrite (proj2 (matches_full a a eq_refl) eq_refl), Hl. vm_compute. reflexivity.
Qed.

(** A signature that is stored with ToBytes and read back with FromBytes
    is the same signature, and the stored form has 1024 bytes. *)
Theorem FromBytes_ToBytes s : wf_signature s ->
  FromBytes (ToBytes s) = s /\ length (ToBytes s) = SignatureSize.
Proof.
  intros Hs. split; [apply stored_signature, Hs|]. rewrite length_ToBytes, (proj1 Hs). reflexivity.
Qed.

Lemma FromBytes_ToBytes_witness :
  wf_signature (Generate "What is 2 + 2?") /\
  FromBytes (ToBytes (Generate "What is 2 + 2?")) = Generate "What is 2 + 2?".
Proof.
  split; [apply Generate_wf | apply (FromBytes_ToBytes _ (Generate_wf _))].
Defined.

(** The Jaccard estimate of two signatures is the exact fraction of equal
    entries; it is symmetric, it is 1 exactly for equal signatures, and with
    the default threshold 0.85 two questions count as duplicates exactly when
    at least 109 of the 128 entries agree. *)
Theorem Jaccard_spec a b : length a = NumHashes -> length b = NumHashes ->
  (fval (Jaccard a b) == inject_Z (matches a b) / inject_Z 128)%Q /\
  Jaccard a b = Jaccard b a /\
  ((fval (Jaccard a b) == 1)%Q <-> a = b) /\
  flagged (of_ratio 85 100) a b = (109 <=? matches a b).
Proof.
  intros Ha Hb. pose proof (matches_bound a b) as Hm. rewrite Ha in Hm. unfold NumHashes in Hm.
  assert (matches a b ∈ seqZ 0 129) as Hin by (apply elem_of_seqZ; lia).
  assert (fval (Jaccard a b) == inject_Z (matches a b) / inject_Z 128)%Q as Hv.
  { pose proof estimate_table as T. rewrite forallb_forall in T.
    apply Qeq_bool_iff. apply T, list_elem_of_In, Hin. }
  split; [exact Hv|]. split; [unfold Jaccard; rewrite matches_sym; reflexivity|]. split.
  - rewrite Hv, <- (matches_full a b) by congruence. rewrite Ha. unfold NumHashes.
    split; intros H.
    + assert (inject_Z (matches a b) == inject_Z 128)%Q as H1
        by (rewrite <- (Qmult_1_l (inject_Z 128)), <- H; field; discriminate).
      unfold Qeq in H1. cbn in H1. lia.
    + rewrite H. reflexivity.
  - pose proof flagged_table as T. rewrite forallb_forall in T.
    apply Bool.eqb_prop. apply T, list_elem_of_In, Hin.
Qed.

Lemma Jaccard_spec_witness :
  flagged (of_ratio 85 100) (Generate "What is 2 + 2?") (Generate "What is 2 + 2 ?")
    = (109 <=? matches (Generate "What is 2 + 2?") (Generate "What is 2 + 2 ?")).
Proof. apply (Jaccard_spec _ _ (length_Generate _) (length_Generate _)). Defined.
