(* ===== verification/Merkle.v ===== *)
(** * The Merkle tree of reward claims

    Models [src/internal/merkle/tree.go]: leaf encoding and double hashing,
    the hash of a sorted pair, the bottom-up construction over the sorted leaf
    hashes with promotion of an odd last node, the proof of a leaf, its
    verification, and the hexadecimal forms that the store keeps.

    [crypto.Keccak256] and the conversion [common.BytesToHash] are code of
    go-ethereum: they are the section variables [Keccak256] and [BytesToHash],
    of which the code relies only on the length of a digest and on the
    conversion leaving 32 bytes alone.

    Theorems: the loop of [NewTree] ends with one root; the proof of every
    leaf exists and verifies against the root (also with an odd number of
    nodes at any level); the root does not depend on the order of the leaves;
    whatever verifies is an encoding of a leaf of the tree or exhibits a
    collision of the hash among the inputs that were hashed; hashes and
    proofs survive their hexadecimal form. *)

From S2P Require Import Prelude GoLang.

(** ** Definitions *)

(** [common.Hash] and [common.Address] are arrays of 32 and 20 bytes. *)
Abbreviation Hash := (list byte).
Abbreviation Address := (list byte).

(** Leaf: an address and a [*big.Int], of which [Bytes()] gives the absolute
    value. *)
Record LeafT := Leaf { Address_ : Address; Amount : Z }.

(** Tree: the leaves, and the hashes level by level, leaves first. *)
Record TreeT := Tree { Leaves : list LeafT; Hashes : list (list Hash) }.

(** [abi.encode(address, amount)]: the address right-aligned in the first
    word, the amount right-aligned in the second.  (An amount of more than 64
    bytes would make the slice expression panic; the program only builds
    leaves from [int64] amounts.) *)
Definition encodeLeaf (leaf : LeafT) : list byte :=
  let encoded := replicate 64 x00 in
  let encoded := copy_into 12 (Address_ leaf) (take 32 encoded) ++ drop 32 encoded in
  let amountBytes := big_bytes (Z.abs (Amount leaf)) in
  copy_into (64 - length amountBytes) amountBytes encoded.

(** Byte-wise comparison of the first [n] positions, as -1, 0 or 1.  (Hashes
    have 32 bytes; the cases of a list that ends early complete the function
    to an order and do not occur.) *)
Fixpoint compareBytes (n : nat) (a b : Hash) : Z :=
  match n with
  | O => 0
  | S n =>
      match a, b with
      | x :: a, y :: b =>
          if byte_val x <? byte_val y then -1
          else if byte_val x >? byte_val y then 1
          else compareBytes n a b
      | [], [] => 0
      | [], _ :: _ => -1
      | _ :: _, [] => 1
      end
  end.
Definition compareHashes (a b : Hash) : Z := compareBytes 32 a b.

(** The order by which [sort.Slice] sorts: not greater. *)
Definition hash_le (a b : Hash) : Prop := compareHashes a b <= 0.
#[export] Instance hash_le_dec a b : Decision (hash_le a b).
Proof. unfold hash_le. apply _. Defined.

(** The input of the hash of a pair: the smaller hash first. *)
Definition pairInput (a b : Hash) : list byte :=
  if compareHashes a b >? 0 then b ++ a else a ++ b.

(** [HashToHex], [ProofToHex]. *)
Definition hex_prefix : list byte := [x30; x78].
Definition HashToHex (h : Hash) : string := string_of_bytes (hex_prefix ++ hex_encode h).
Definition ProofToHex (proof : list Hash) : list string := map HashToHex proof.

(** The hash that the zero value [common.Hash{}] holds. *)
Definition zeroHash : Hash := replicate 32 x00.

(** The index of the first hash equal to the target. *)
Fixpoint find_index (target : Hash) (l : list Hash) : option nat :=
  match l with
  | [] => None
  | h :: l => if decide (h = target) then Some 0%nat else S <$> find_index target l
  end.

(** [t.Root()]. *)
Definition Root (t : TreeT) : Hash :=
  match last (Hashes t) with
  | Some (h :: _) => h
  | _ => zeroHash
  end.

(** The loop of [Proof]: at every level below the top, the sibling of the
    node at the index, if there is one, then the parent's index. *)
Fixpoint proof_loop (levels : list (list Hash)) (idx : nat) : list Hash :=
  match levels with
  | layer :: ((_ :: _) as rest) =>
      (if Nat.even idx then
         match layer !! (idx + 1)%nat with Some s => [s] | None => [] end
       else match layer !! (idx - 1)%nat with Some s => [s] | None => [] end)
      ++ proof_loop rest (idx / 2)
  | _ => []
  end.

Section Keccak.
Variable Keccak256 : list byte -> list byte.
Variable BytesToHash : list byte -> Hash.

Definition hashPair (a b : Hash) : Hash := BytesToHash (Keccak256 (pairInput a b)).

Definition HashLeaf (leaf : LeafT) : Hash :=
  BytesToHash (Keccak256 (Keccak256 (encodeLeaf leaf))).

(** One round of the construction: pairs are hashed, an odd last node is
    promoted. *)
Fixpoint next_level (current : list Hash) : list Hash :=
  match current with
  | a :: b :: rest => hashPair a b :: next_level rest
  | _ => current
  end.

(** The loop [for len(current) > 1]; every round at least halves the level
    (rounding up), so the number of leaves is enough fuel. *)
Fixpoint build_levels (fuel : nat) (current : list Hash) : list (list Hash) :=
  match fuel, current with
  | S fuel, _ :: _ :: _ => let next := next_level current in next :: build_levels fuel next
  | _, _ => []
  end.

Definition NewTree (leaves : list LeafT) : result TreeT :=
  match leaves with
  | [] => Err (Failure "empty leaves")
  | _ =>
      let leafHashes := merge_sort hash_le (map HashLeaf leaves) in
      Ok (Tree leaves (leafHashes :: build_levels (length leafHashes) leafHashes))
  end.

(** [t.Proof(leaf)] indexes [t.Hashes[0]], which [NewTree] always sets. *)
Definition Proof (t : TreeT) (leaf : LeafT) : result (list Hash) :=
  match Hashes t with
  | [] => Err (Failure "leaf not found in tree")
  | layer0 :: _ =>
      match find_index (HashLeaf leaf) layer0 with
      | None => Err (Failure "leaf not found in tree")
      | Some idx => Ok (proof_loop (Hashes t) idx)
      end
  end.

Definition Verify (proof : list Hash) (root leaf : Hash) : bool :=
  bool_decide (fold_left hashPair proof leaf = root).

(** [HexToHash]. *)
Definition HexToHash (s : string) : result Hash :=
  match hex_decode (TrimPrefix (bytes_of_string s) hex_prefix) with
  | Some b => Ok (BytesToHash b)
  | None => Err (Failure "encoding/hex")
  end.

(** The inputs that the construction of the tree and a verification hash. *)
Definition leaf_inputs (leaf : LeafT) : list (list byte) :=
  [encodeLeaf leaf; Keccak256 (encodeLeaf leaf)].

Fixpoint level_inputs (current : list Hash) : list (list byte) :=
  match current with
  | a :: b :: rest => pairInput a b :: level_inputs rest
  | _ => []
  end.

Definition tree_inputs (t : TreeT) : list (list byte) :=
  concat (map leaf_inputs (Leaves t)) ++ concat (map level_inputs (Hashes t)).

Fixpoint chain_inputs (proof : list Hash) (h : Hash) : list (list byte) :=
  match proof with
  | [] => []
  | p :: proof => pairInput h p :: chain_inputs proof (hashPair h p)
  end.

Definition verify_inputs (proof : list Hash) (leaf : LeafT) : list (list byte) :=
  leaf_inputs leaf ++ chain_inputs proof (HashLeaf leaf).

(** A collision of the hash between inputs of two lists. *)
Definition collision (xs ys : list (list byte)) : Prop :=
  exists x y, x ∈ xs /\ y ∈ ys /\ x <> y /\ Keccak256 x = Keccak256 y.
End Keccak.

(** A leaf the program builds: a 20-byte address, a 256-bit amount. *)
Definition wf_leaf (leaf : LeafT) : Prop :=
  length (Address_ leaf) = 20%nat /\ 0 <= Amount leaf < 2 ^ 256.

(** ** The order of hashes *)

Lemma compareBytes_antisym n a b : compareBytes n b a = - compareBytes n a b.
Proof.
  revert a b. induction n as [|n IH]; intros [|x a] [|y b]; cbn [compareBytes]; try reflexivity.
  rewrite !Z.gtb_ltb. destruct (Z.ltb_spec (byte_val x) (byte_val y)), (Z.ltb_spec (byte_val y) (byte_val x));
    try lia. apply IH.
Qed.

Lemma compareBytes_eq n a b : length a = n -> length b = n -> compareBytes n a b = 0 -> a = b.
Proof.
  revert a b. induction n as [|n IH]; intros [|x a] [|y b] Ha Hb H; try discriminate; [reflexivity|].
  cbn [compareBytes] in H. rewrite Z.gtb_ltb in H.
  destruct (Z.ltb_spec (byte_val x) (byte_val y)), (Z.ltb_spec (byte_val y) (byte_val x)); try lia.
  f_equal; [apply byte_val_inj; lia | apply IH; auto].
Qed.

Lemma compareBytes_trans n a b c :
  compareBytes n a b <= 0 -> compareBytes n b c <= 0 -> compareBytes n a c <= 0.
Proof.
  revert a b c. induction n as [|n IH]; intros [|x a] [|y b] [|z c]; cbn [compareBytes]; try lia.
  rewrite !Z.gtb_ltb.
  destruct (Z.ltb_spec (byte_val x) (byte_val y)), (Z.ltb_spec (byte_val y) (byte_val x)),
    (Z.ltb_spec (byte_val y) (byte_val z)), (Z.ltb_spec (byte_val z) (byte_val y)),
    (Z.ltb_spec (byte_val x) (byte_val z)), (Z.ltb_spec (byte_val z) (byte_val x)); try lia.
  apply IH.
Qed.

#[export] Instance hash_le_trans : Transitive hash_le.
Proof. intros a b c. apply compareBytes_trans. Qed.

#[export] Instance hash_le_total : Total hash_le.
Proof.
  intros a b. unfold hash_le, compareHashes. rewrite (compareBytes_antisym 32 a b).
  destruct (Z.le_ge_cases (compareBytes 32 a b) 0); [left|right]; lia.
Qed.

Lemma hash_le_antisym a b : length a = 32%nat -> length b = 32%nat -> hash_le a b -> hash_le b a -> a = b.
Proof.
  unfold hash_le, compareHashes. rewrite (compareBytes_antisym 32 a b). intros Ha Hb H1 H2.
  apply (compareBytes_eq 32); auto. lia.
Qed.

(** Sorting forgets the order of the input. *)
Lemma sorted_hashes_unique l1 l2 : Forall (fun h => length h = 32%nat) l1 -> l1 ≡ₚ l2 ->
  merge_sort hash_le l1 = merge_sort hash_le l2.
Proof.
  intros Hl Hp. apply (Sorted_unique_strong hash_le); [|apply Sorted_merge_sort, _..|].
  - intros x y Hx Hy. rewrite merge_sort_Permutation in Hx, Hy. rewrite <- Hp in Hy.
    rewrite Forall_forall in Hl. apply hash_le_antisym; apply Hl; assumption.
  - rewrite !merge_sort_Permutation. exact Hp.
Qed.

Lemma pairInput_comm a b : length a = 32%nat -> length b = 32%nat -> pairInput a b = pairInput b a.
Proof.
  intros Ha Hb. unfold pairInput. pose proof (compareBytes_antisym 32 a b) as Hc. unfold compareHashes.
  rewrite !Z.gtb_ltb. destruct (Z.ltb_spec 0 (compareBytes 32 a b)), (Z.ltb_spec 0 (compareBytes 32 b a));
    try lia; try reflexivity.
  rewrite (compareBytes_eq 32 a b) by (auto; lia). reflexivity.
Qed.

(** The two halves of a pair's input, up to their order. *)
Lemma pairInput_inj a b c d : length a = 32%nat -> length b = 32%nat ->
  length c = 32%nat -> length d = 32%nat -> pairInput a b = pairInput c d ->
  (c = a /\ d = b) \/ (c = b /\ d = a).
Proof.
  intros Ha Hb Hc Hd. unfold pairInput.
  destruct (compareHashes a b >? 0), (compareHashes c d >? 0); intros H;
    apply app_inj_1 in H as [-> ->]; auto; congruence.
Qed.

Lemma length_pairInput a b : length a = 32%nat -> length b = 32%nat -> length (pairInput a b) = 64%nat.
Proof. intros Ha Hb. unfold pairInput. destruct (_ >? 0); rewrite length_app, Ha, Hb; reflexivity. Qed.

(** ** Leaf encoding *)

Lemma be_value_zeros k l : be_value (replicate k x00 ++ l) = be_value l.
Proof.
  unfold be_value. rewrite rev_app_distr.
  replace (rev (replicate k x00)) with (replicate k x00); [apply le_value_zeros|].
  induction k as [|k IH]; [reflexivity|]. cbn [replicate rev]. rewrite <- IH.
  apply (replicate_cons_app k x00).
Qed.

Lemma amount_bytes_bound leaf : wf_leaf leaf -> (big_len (Amount leaf) <= 32)%nat.
Proof. intros [_ Ha]. apply big_len_bound. exact Ha. Qed.

(** The two words of the encoding. *)
Lemma encodeLeaf_words leaf : wf_leaf leaf ->
  encodeLeaf leaf =
  (replicate 12 x00 ++ Address_ leaf) ++
  (replicate (32 - big_len (Amount leaf)) x00 ++ big_bytes (Amount leaf)).
Proof.
  intros Hwf. pose proof (amount_bytes_bound leaf Hwf) as Hn. destruct Hwf as [Hl Ha].
  unfold encodeLeaf. rewrite Z.abs_eq, length_big_bytes by tauto.
  assert (copy_into 12 (Address_ leaf) (take 32 (replicate 64 x00)) = replicate 12 x00 ++ Address_ leaf) as ->.
  { unfold copy_into. rewrite Hl, (take_ge (Address_ leaf)) by (rewrite Hl; cbn; lia).
    cbn [Nat.add]. rewrite (drop_ge _ 32) by (cbn; lia). rewrite app_nil_r. reflexivity. }
  change (drop 32 (replicate 64 x00)) with (replicate 32 x00).
  unfold copy_into. rewrite !length_app, !length_replicate, Hl, length_big_bytes.
  rewrite take_app_ge by (rewrite length_app, length_replicate; lia).
  rewrite length_app, length_replicate, Hl.
  rewrite (take_ge (big_bytes _)) by (rewrite length_big_bytes; lia).
  rewrite (drop_ge (_ ++ replicate 32 x00)) by (rewrite !length_app, !length_replicate; lia).
  rewrite app_nil_r, <- app_assoc. f_equal. f_equal.
  rewrite take_replicate. f_equal. lia.
Qed.

Lemma length_encodeLeaf leaf : wf_leaf leaf -> length (encodeLeaf leaf) = 64%nat.
Proof.
  intros Hwf. rewrite (encodeLeaf_words leaf Hwf). pose proof (amount_bytes_bound leaf Hwf).
  destruct Hwf as [Hl _]. rewrite !length_app, !length_replicate, length_big_bytes, Hl. lia.
Qed.

(** Different leaves have different encodings. *)
Lemma encodeLeaf_inj l1 l2 : wf_leaf l1 -> wf_leaf l2 -> encodeLeaf l1 = encodeLeaf l2 -> l1 = l2.
Proof.
  intros H1 H2. rewrite (encodeLeaf_words _ H1), (encodeLeaf_words _ H2). intros H.
  destruct H1 as [Ha1 Hn1], H2 as [Ha2 Hn2].
  apply app_inj_1 in H as [Hw1 Hw2]; [|rewrite !length_app, !length_replicate, Ha1, Ha2; reflexivity].
  apply app_inv_head in Hw1. apply (f_equal be_value) in Hw2.
  rewrite !be_value_zeros, !be_value_big_bytes in Hw2 by lia.
  destruct l1, l2. cbn in *. congruence.
Qed.

(** ** Properties of the tree *)

Section KeccakFacts.
Variable Keccak256 : list byte -> list byte.
Variable BytesToHash : list byte -> Hash.
Hypothesis Keccak256_length : forall x, length (Keccak256 x) = 32%nat.
Hypothesis BytesToHash_id : forall b, length b = 32%nat -> BytesToHash b = b.

Local Abbreviation hashPair := (hashPair Keccak256 BytesToHash).
Local Abbreviation HashLeaf := (HashLeaf Keccak256 BytesToHash).
Local Abbreviation next_level := (next_level Keccak256 BytesToHash).
Local Abbreviation build_levels := (build_levels Keccak256 BytesToHash).
Local Abbreviation NewTree := (NewTree Keccak256 BytesToHash).
Local Abbreviation h32 := (fun h : Hash => length h = 32%nat).

Lemma hashPair_keccak a b : hashPair a b = Keccak256 (pairInput a b).
Proof using BytesToHash_id Keccak256_length. apply BytesToHash_id, Keccak256_length. Qed.

Lemma HashLeaf_keccak leaf : HashLeaf leaf = Keccak256 (Keccak256 (encodeLeaf leaf)).
Proof using BytesToHash_id Keccak256_length. apply BytesToHash_id, Keccak256_length. Qed.

Lemma length_hashPair a b : length (hashPair a b) = 32%nat.
Proof using BytesToHash_id Keccak256_length. rewrite hashPair_keccak. apply Keccak256_length. Qed.

Lemma length_HashLeaf leaf : length (HashLeaf leaf) = 32%nat.
Proof using BytesToHash_id Keccak256_length. rewrite HashLeaf_keccak. apply Keccak256_length. Qed.

(** Induction over a list by pairs. *)
Lemma pairs_ind {A} (P : list A -> Prop) :
  P [] -> (forall a, P [a]) -> (forall a b l, P l -> P (a :: b :: l)) -> forall l, P l.
Proof using.
  intros H0 H1 H2 l. enough (P l /\ forall a, P (a :: l)) as [H _] by exact H.
  induction l as [|x l [IH1 IH2]]; split; auto.
Qed.

Lemma length_next_level l : length (next_level l) = ((length l + 1) / 2)%nat.
Proof using.
  induction l as [|a|a b l IH] using pairs_ind; [reflexivity..|].
  cbn [next_level Merkle.next_level length]. rewrite IH.
  replace (S (S (length l)) + 1)%nat with (length l + 1 + 1 * 2)%nat by lia.
  rewrite Nat.div_add by lia. lia.
Qed.

Lemma next_level_h32 l : Forall h32 l -> Forall h32 (next_level l).
Proof using BytesToHash_id Keccak256_length.
  induction l as [|a|a b l IH] using pairs_ind; intros H; cbn; auto.
  inversion H as [|? ? _ H']; subst. inversion H'; subst. constructor; [apply length_hashPair | auto].
Qed.

(** The parent of a node: the hash with its sibling, or the node itself when
    it has none. *)
Lemma next_level_even l i h : l !! (2 * i)%nat = Some h ->
  next_level l !! i = Some (match l !! (2 * i + 1)%nat with Some s => hashPair h s | None => h end).
Proof using.
  revert i. induction l as [|a|a b l IH] using pairs_ind; intros i Hi.
  - discriminate.
  - destruct i as [|i]; [|replace (2 * S i)%nat with (S (S (2 * i))) in Hi by lia; discriminate].
    cbn in Hi |- *. congruence.
  - destruct i as [|i].
    + cbn in Hi |- *. congruence.
    + replace (2 * S i)%nat with (S (S (2 * i))) in * by lia.
      change (next_level (a :: b :: l) !! S i) with (next_level l !! i).
      change ((a :: b :: l) !! (S (S (2 * i)) + 1)%nat) with (l !! (2 * i + 1)%nat).
      apply IH, Hi.
Qed.

Lemma next_level_odd l i s h : l !! (2 * i)%nat = Some s -> l !! (2 * i + 1)%nat = Some h ->
  next_level l !! i = Some (hashPair s h).
Proof using. intros Hs Hh. rewrite (next_level_even l i s Hs), Hh. reflexivity. Qed.

(** Every level above a nonempty level is nonempty, and with enough fuel the
    last one is a singleton. *)
Lemma build_levels_top fuel cur : cur <> [] -> (length cur <= S fuel)%nat ->
  exists r, last (cur :: build_levels fuel cur) = Some [r].
Proof using.
  revert cur. induction fuel as [|fuel IH]; intros [|a [|b cur]] Hne Hl; try congruence; cbn in Hl; try lia.
  - exists a. reflexivity.
  - exists a. reflexivity.
  - cbn [build_levels Merkle.build_levels]. rewrite last_cons_cons.
    apply IH; [discriminate|]. rewrite length_next_level. cbn [length].
    apply Nat.lt_succ_r, Nat.Div0.div_lt_upper_bound. lia.
Qed.

(** The root of the levels above [cur]. *)
Lemma proof_loop_verifies fuel : forall cur idx h r,
  Forall h32 cur -> cur !! idx = Some h -> (length cur <= S fuel)%nat ->
  last (cur :: build_levels fuel cur) = Some [r] ->
  fold_left hashPair (proof_loop (cur :: build_levels fuel cur) idx) h = r.
Proof using BytesToHash_id Keccak256_length.
  induction fuel as [|fuel IH]; intros cur idx h r H32 Hidx Hl Hr.
  - destruct cur as [|a [|b cur]]; [discriminate| |cbn in Hl; lia].
    destruct idx as [|idx]; [|discriminate]. cbn in *. congruence.
  - destruct cur as [|a [|b cur]]; [discriminate| |].
    + destruct idx as [|idx]; [|discriminate]. cbn in *. congruence.
    + set (c := a :: b :: cur) in *. set (nx := next_level c).
      change (build_levels (S fuel) c) with (nx :: build_levels fuel nx) in *.
      rewrite last_cons_cons in Hr.
      change (proof_loop (c :: nx :: build_levels fuel nx) idx) with
        ((if Nat.even idx then match c !! (idx + 1)%nat with Some s => [s] | None => [] end
          else match c !! (idx - 1)%nat with Some s => [s] | None => [] end)
         ++ proof_loop (nx :: build_levels fuel nx) (idx / 2)).
      rewrite fold_left_app.
      assert (length nx <= S fuel)%nat as Hln.
      { subst nx. rewrite length_next_level. apply Nat.lt_succ_r, Nat.Div0.div_lt_upper_bound. subst c. cbn in *. lia. }
      pose proof (next_level_h32 c H32) as Hn32.
      apply IH; auto. destruct (Nat.Even_or_Odd idx) as [[i ->]|[i ->]].
      * rewrite Nat.even_mul, Nat.mul_comm, Nat.div_mul by lia. rewrite (Nat.mul_comm i 2). cbn [orb Nat.even].
        subst nx. rewrite (next_level_even c i h Hidx). destruct (c !! (2 * i + 1)%nat); reflexivity.
      * rewrite Nat.even_add, Nat.even_mul. cbn [orb Nat.even Bool.eqb].
        replace ((2 * i + 1) / 2)%nat with i
          by (symmetry; rewrite Nat.add_comm, Nat.mul_comm, Nat.div_add by lia; reflexivity).
        replace (2 * i + 1 - 1)%nat with (2 * i)%nat by lia.
        destruct (lookup_lt_is_Some_2 c (2 * i)) as [s Hs]; [apply lookup_lt_Some in Hidx; lia|].
        rewrite Hs. subst nx. rewrite (next_level_odd c i s h Hs Hidx). cbn [fold_left].
        rewrite !hashPair_keccak, pairInput_comm; [reflexivity| |];
          rewrite Forall_forall in H32; apply H32, list_elem_of_lookup; eauto.
Qed.

Lemma find_index_spec target l i : find_index target l = Some i -> l !! i = Some target.
Proof using.
  revert i. induction l as [|h l IH]; intros i H; [discriminate|]. cbn in H.
  destruct (decide (h = target)) as [->|Hne]; [injection H as <-; reflexivity|].
  destruct (find_index target l) as [j|]; [|discriminate]. injection H as <-. apply IH. reflexivity.
Qed.

Lemma find_index_in target l : target ∈ l -> exists i, find_index target l = Some i.
Proof using.
  induction l as [|h l IH]; intros H; [inversion H|]. cbn.
  destruct (decide (h = target)) as [_|Hne]; [eauto|]. apply elem_of_cons in H as [E|H]; [congruence|].
  destruct (IH H) as [i ->]. eauto.
Qed.

(** The shape of a successful construction. *)
Lemma NewTree_inv leaves t : NewTree leaves = Ok t ->
  let hs := merge_sort hash_le (map HashLeaf leaves) in
  Leaves t = leaves /\ Hashes t = hs :: build_levels (length hs) hs /\
  hs <> [] /\ Forall h32 hs /\ (forall leaf, leaf ∈ leaves -> HashLeaf leaf ∈ hs).
Proof using BytesToHash_id Keccak256_length.
  unfold Merkle.NewTree. destruct leaves as [|l0 leaves]; [discriminate|]. intros H. injection H as <-.
  cbv zeta. set (hs := merge_sort _ _).
  assert (hs ≡ₚ map HashLeaf (l0 :: leaves)) as Hp by apply merge_sort_Permutation.
  split; [reflexivity|]. split; [reflexivity|]. split; [|split].
  - intros E. rewrite E in Hp. apply Permutation_nil_l in Hp. discriminate.
  - rewrite Forall_forall. intros h Hh. rewrite Hp in Hh. apply elem_of_map in Hh as (l & -> & _).
    apply length_HashLeaf.
  - intros leaf Hl. rewrite Hp. apply elem_of_map. eauto.
Qed.

(** The tree's root is the single node of the last level. *)
Lemma Root_last hs leaves r :
  last (hs :: build_levels (length hs) hs) = Some [r] ->
  Root (Tree leaves (hs :: build_levels (length hs) hs)) = r.
Proof using. intros H. unfold Root. cbn [Hashes]. rewrite H. reflexivity. Qed.

(** Every level has half as many hashes as the one below, rounded up. *)
Lemma build_levels_halve fuel : forall cur i a b,
  (cur :: build_levels fuel cur) !! i = Some a -> (cur :: build_levels fuel cur) !! S i = Some b ->
  (1 < length a)%nat /\ length b = ((length a + 1) / 2)%nat.
Proof using.
  induction fuel as [|fuel IH]; intros cur i a b Ha Hb.
  - destruct i; discriminate.
  - destruct cur as [|x [|y cur]]; [destruct i; discriminate..|].
    cbn [build_levels Merkle.build_levels] in *.
    destruct i as [|i]; [|exact (IH _ i a b Ha Hb)].
    injection Ha as <-.
    assert (b = next_level (x :: y :: cur)) as -> by (cbn in Hb |- *; congruence).
    rewrite length_next_level. cbn. lia.
Qed.

(** C35: the loop of NewTree terminates with a single root: the fuel (the
    number of leaves) is enough, every level halves the one below, and the
    top level has exactly one hash. *)
Theorem NewTree_single_root leaves : leaves <> [] ->
  exists t r, NewTree leaves = Ok t /\ last (Hashes t) = Some [r] /\ Root t = r /\
    length (Hashes t !!! 0%nat) = length leaves /\
    (forall i a b, Hashes t !! i = Some a -> Hashes t !! S i = Some b ->
       (1 < length a)%nat /\ length b = ((length a + 1) / 2)%nat).
Proof using.
  intros Hne. destruct leaves as [|l0 leaves]; [congruence|]. set (ls := l0 :: leaves) in *.
  set (hs := merge_sort hash_le (map HashLeaf ls)).
  assert (length hs = length ls) as Hlen.
  { subst hs. rewrite merge_sort_Permutation. apply length_map. }
  assert (hs <> []) as Hhs by (intros E; rewrite E in Hlen; discriminate).
  destruct (build_levels_top (length hs) hs Hhs ltac:(lia)) as [r Hr].
  exists (Tree ls (hs :: build_levels (length hs) hs)), r.
  split; [reflexivity|]. split; [exact Hr|]. split; [apply Root_last, Hr|]. split; [exact Hlen|].
  apply build_levels_halve.
Qed.

(** A proof that is handed out verifies. *)
Lemma Proof_verifies leaves t leaf proof : NewTree leaves = Ok t -> Proof Keccak256 BytesToHash t leaf = Ok proof ->
  Verify Keccak256 BytesToHash proof (Root t) (HashLeaf leaf) = true.
Proof using BytesToHash_id Keccak256_length.
  intros Ht Hp. destruct (NewTree_inv leaves t Ht) as (_ & Hhs & Hne & H32 & _).
  set (hs := merge_sort hash_le (map HashLeaf leaves)) in *.
  unfold Merkle.Proof in Hp. rewrite Hhs in Hp. destruct (find_index (HashLeaf leaf) hs) as [idx|] eqn:Hidx; [|discriminate].
  injection Hp as <-. destruct (build_levels_top (length hs) hs Hne ltac:(lia)) as [r Hr].
  destruct t as [ls hss]. cbn [Hashes Leaves] in *. subst hss. rewrite (Root_last hs ls r Hr).
  apply bool_decide_eq_true_2.
  apply proof_loop_verifies; auto. apply find_index_spec, Hidx.
Qed.

(** C23: every leaf of a tree has a proof, and the proof verifies against the
    root: whatever reward the settlement puts in the tree can be claimed. *)
Theorem Proof_complete leaves t leaf :
  NewTree leaves = Ok t -> leaf ∈ leaves ->
  exists proof, Proof Keccak256 BytesToHash t leaf = Ok proof /\
    Verify Keccak256 BytesToHash proof (Root t) (HashLeaf leaf) = true.
Proof using BytesToHash_id Keccak256_length.
  intros Ht Hin. destruct (NewTree_inv leaves t Ht) as (_ & Hhs & _ & _ & Hmem).
  set (hs := merge_sort hash_le (map HashLeaf leaves)) in *.
  destruct (find_index_in (HashLeaf leaf) hs (Hmem leaf Hin)) as [idx Hidx].
  assert (Proof Keccak256 BytesToHash t leaf = Ok (proof_loop (Hashes t) idx)) as Hp
    by (unfold Merkle.Proof; rewrite Hhs, Hidx; reflexivity).
  exists (proof_loop (Hashes t) idx). split; [exact Hp|]. exact (Proof_verifies leaves t leaf _ Ht Hp).
Qed.

(** C34: the root does not depend on the order in which the leaves are given,
    so the random iteration order of the reward map cannot change it. *)
Theorem Root_order_independent l1 l2 t1 t2 :
  l1 ≡ₚ l2 -> NewTree l1 = Ok t1 -> NewTree l2 = Ok t2 ->
  Hashes t1 = Hashes t2 /\ Root t1 = Root t2.
Proof using BytesToHash_id Keccak256_length.
  intros Hp H1 H2. destruct (NewTree_inv _ _ H1) as (_ & Hh1 & _). destruct (NewTree_inv _ _ H2) as (_ & Hh2 & _).
  assert (merge_sort hash_le (map HashLeaf l1) = merge_sort hash_le (map HashLeaf l2)) as E.
  { apply sorted_hashes_unique; [|apply Permutation_map, Hp].
    apply Forall_forall. intros h Hh. apply elem_of_map in Hh as (l & -> & _). apply length_HashLeaf. }
  rewrite E in Hh1. assert (Hashes t1 = Hashes t2) as EH by congruence.
  split; [exact EH|]. unfold Root. rewrite EH. reflexivity.
Qed.

(** ** Soundness of proofs *)

(** A node of the tree: a leaf's hash or the hash of two nodes, with the
    hashed input among [ins]. *)
Inductive node (leaves : list LeafT) (ins : list (list byte)) : Hash -> Prop :=
| node_leaf leaf : leaf ∈ leaves -> node leaves ins (HashLeaf leaf)
| node_pair a b : node leaves ins a -> node leaves ins b -> pairInput a b ∈ ins ->
    node leaves ins (hashPair a b).

Lemma node_h32 leaves ins h : node leaves ins h -> length h = 32%nat.
Proof using BytesToHash_id Keccak256_length.
  destruct 1; [apply length_HashLeaf | apply length_hashPair].
Qed.

Lemma next_level_nodes leaves ins l :
  (forall x, x ∈ level_inputs l -> x ∈ ins) ->
  Forall (node leaves ins) l -> Forall (node leaves ins) (next_level l).
Proof using.
  induction l as [|a|a b l IH] using pairs_ind; intros Hins H; cbn; auto.
  inversion H as [|? ? Ha H']; subst. inversion H' as [|? ? Hb H'']; subst.
  constructor.
  - apply node_pair; auto. apply Hins. left.
  - apply IH; [|exact H'']. intros x Hx. apply Hins. right. exact Hx.
Qed.

Lemma build_levels_nodes leaves ins fuel : forall cur,
  (forall l x, l ∈ cur :: build_levels fuel cur -> x ∈ level_inputs l -> x ∈ ins) ->
  Forall (node leaves ins) cur ->
  forall l, l ∈ cur :: build_levels fuel cur -> Forall (node leaves ins) l.
Proof using.
  induction fuel as [|fuel IH]; intros cur Hins Hc l Hl.
  - apply list_elem_of_singleton in Hl as ->. exact Hc.
  - apply elem_of_cons in Hl as [->|Hl]; [exact Hc|].
    destruct cur as [|a [|b cur]]; [inversion Hl..|].
    refine (IH (next_level (a :: b :: cur)) _ _ l Hl).
    + intros l' x Hl' Hx. apply (Hins l'); [right; exact Hl' | exact Hx].
    + apply next_level_nodes; [|exact Hc]. intros x. apply Hins. left.
Qed.

(** The root is a node. *)
Lemma Root_node leaves t : NewTree leaves = Ok t ->
  node leaves (tree_inputs Keccak256 t) (Root t).
Proof using BytesToHash_id Keccak256_length.
  intros Ht. destruct (NewTree_inv leaves t Ht) as (_ & Hhs & Hne & _).
  set (hs := merge_sort hash_le (map HashLeaf leaves)) in *.
  destruct (build_levels_top (length hs) hs Hne ltac:(lia)) as [r Hr].
  assert (Forall (node leaves (tree_inputs Keccak256 t)) [r]) as H.
  { apply (build_levels_nodes leaves _ (length hs) hs).
    - intros l x Hl Hx. unfold tree_inputs. apply elem_of_app. right.
      apply list_elem_of_In, in_concat. exists (level_inputs l).
      split; [apply in_map, list_elem_of_In; rewrite Hhs; exact Hl | apply list_elem_of_In, Hx].
    - apply Forall_forall. intros h Hh. subst hs. rewrite merge_sort_Permutation in Hh.
      apply elem_of_map in Hh as (l & -> & Hl). apply node_leaf, Hl.
    - apply last_Some_elem_of, Hr. }
  unfold Root. rewrite Hhs, Hr. inversion H; assumption.
Qed.

(** One step back along the verified chain. *)
Lemma verify_step leaves ins ys c p :
  length c = 32%nat -> length p = 32%nat -> pairInput c p ∈ ys ->
  (forall leaf, leaf ∈ leaves -> Keccak256 (encodeLeaf leaf) ∈ ins) ->
  node leaves ins (hashPair c p) ->
  node leaves ins c \/ collision Keccak256 ins ys.
Proof using BytesToHash_id Keccak256_length.
  intros Hc Hp Hys Hleaf Hn. inversion Hn as [leaf Hl E|a b Ha Hb Hin E].
  - right. exists (Keccak256 (encodeLeaf leaf)), (pairInput c p). split; [apply Hleaf, Hl|]. split; [exact Hys|].
    rewrite HashLeaf_keccak, hashPair_keccak in E. split; [|exact E].
    intros E'. apply (f_equal length) in E'. rewrite Keccak256_length, length_pairInput in E' by assumption. lia.
  - rewrite !hashPair_keccak in E. destruct (decide (pairInput a b = pairInput c p)) as [Ei|Hne].
    + left. apply pairInput_inj in Ei as [[-> _]|[-> _]]; eauto using node_h32.
    + right. exists (pairInput a b), (pairInput c p). auto.
Qed.

Lemma verify_chain leaves ins ys proof : forall c,
  length c = 32%nat -> Forall h32 proof ->
  (forall x, x ∈ chain_inputs Keccak256 BytesToHash proof c -> x ∈ ys) ->
  (forall leaf, leaf ∈ leaves -> Keccak256 (encodeLeaf leaf) ∈ ins) ->
  node leaves ins (fold_left hashPair proof c) ->
  node leaves ins c \/ collision Keccak256 ins ys.
Proof using BytesToHash_id Keccak256_length.
  induction proof as [|p proof IH]; intros c Hc Hp Hys Hleaf Hn; [left; exact Hn|].
  inversion Hp as [|? ? Hp1 Hp2]; subst. cbn [fold_left chain_inputs] in *.
  destruct (IH (hashPair c p)) as [H|H]; auto using length_hashPair.
  - intros x Hx. apply Hys. right. exact Hx.
  - apply (verify_step leaves ins ys c p); auto. apply Hys. left.
Qed.

(** C22: a proof is sound: if a claim (a well-formed leaf with any list of
    32-byte siblings) verifies against the root of a tree of well-formed
    leaves, then it is one of the leaves, or the hashes computed to build the
    tree and to verify the claim contain an explicit collision of Keccak256.
    Neither a forged amount nor an inner node passed off as a leaf is
    accepted. *)
Theorem Verify_sound leaves t leaf proof :
  NewTree leaves = Ok t -> Forall wf_leaf leaves -> wf_leaf leaf ->
  Forall (fun h => length h = 32%nat) proof ->
  Verify Keccak256 BytesToHash proof (Root t) (HashLeaf leaf) = true ->
  leaf ∈ leaves \/
  collision Keccak256 (tree_inputs Keccak256 t) (verify_inputs Keccak256 BytesToHash proof leaf).
Proof using BytesToHash_id Keccak256_length.
  intros Ht Hwf Hl Hp Hv. apply bool_decide_eq_true_1 in Hv.
  destruct (NewTree_inv leaves t Ht) as (Hls & _).
  set (ins := tree_inputs Keccak256 t). set (ys := verify_inputs Keccak256 BytesToHash proof leaf).
  assert (forall l x, l ∈ leaves -> x ∈ leaf_inputs Keccak256 l -> x ∈ ins) as Hleaf.
  { intros l x Hin Hx. apply elem_of_app. left. apply list_elem_of_In, in_concat.
    exists (leaf_inputs Keccak256 l). split; [rewrite Hls; apply in_map, list_elem_of_In, Hin | apply list_elem_of_In, Hx]. }
  destruct (verify_chain leaves ins ys proof (HashLeaf leaf)) as [Hn|Hc]; auto using length_HashLeaf.
  - intros x Hx. apply elem_of_app. right. exact Hx.
  - intros l Hin. apply (Hleaf l _ Hin). right. left.
  - rewrite Hv. apply Root_node, Ht.
  - inversion Hn as [l Hin E|a b Ha Hb Hin E].
    + rewrite !HashLeaf_keccak in E. rewrite Forall_forall in Hwf.
      destruct (decide (encodeLeaf l = encodeLeaf leaf)) as [Ee|Hne].
      { left. rewrite <- (encodeLeaf_inj l leaf); auto. }
      right. destruct (decide (Keccak256 (encodeLeaf l) = Keccak256 (encodeLeaf leaf))) as [Ek|Hnk].
      * exists (encodeLeaf l), (encodeLeaf leaf). repeat split; auto; [apply (Hleaf l _ Hin); left|].
        apply elem_of_app. left. left.
      * exists (Keccak256 (encodeLeaf l)), (Keccak256 (encodeLeaf leaf)).
        repeat split; auto; [apply (Hleaf l _ Hin); right; left|]. apply elem_of_app. left. right. left.
    + right. exists (pairInput a b), (Keccak256 (encodeLeaf leaf)). split; [exact Hin|].
      split; [apply elem_of_app; left; right; left|]. rewrite hashPair_keccak, HashLeaf_keccak in E.
      split; [|exact E]. intros E'. apply (f_equal length) in E'.
      rewrite Keccak256_length, length_pairInput in E' by eauto using node_h32. lia.
Qed.

(** A hash survives its hexadecimal form: what the store keeps as text
    parses back to the same 32 bytes, with the 0x prefix. *)
Theorem HexToHash_HashToHex h : length h = 32%nat ->
  HexToHash BytesToHash (HashToHex h) = Ok h.
Proof using BytesToHash_id.
  intros Hh. unfold HexToHash, HashToHex.
  rewrite bytes_of_string_of_bytes, TrimPrefix_app, hex_decode_encode, BytesToHash_id by exact Hh. reflexivity.
Qed.
End KeccakFacts.

(** ** Witnesses: a concrete hash and three leaves *)

(** A stand-in for the hash: the last 32 bytes, reversed, padded. *)
Definition toy_hash (x : list byte) : list byte := take 32 (rev x ++ replicate 32 x00).

Lemma toy_hash_length x : length (toy_hash x) = 32%nat.
Proof. unfold toy_hash. rewrite length_take, length_app, length_replicate. lia. Qed.

Definition toy_leaf (n amount : Z) : LeafT := Leaf (replicate 19 x00 ++ [byte_of n]) amount.
Definition toy_leaves : list LeafT := [toy_leaf 1 700; toy_leaf 2 30; toy_leaf 3 70000].
Definition toy_tree : TreeT :=
  match NewTree toy_hash id toy_leaves with Ok t => t | Err _ => Tree [] [] end.
Definition toy_proof : list Hash :=
  match Proof toy_hash id toy_tree (toy_leaf 2 30) with Ok p => p | Err _ => [] end.

Lemma toy_tree_built : NewTree toy_hash id toy_leaves = Ok toy_tree.
Proof. vm_compute. reflexivity. Qed.

Lemma NewTree_single_root_witness : exists t r,
  NewTree toy_hash id toy_leaves = Ok t /\ last (Hashes t) = Some [r] /\ length (Hashes t) = 3%nat.
Proof.
  destruct (NewTree_single_root toy_hash id toy_leaves ltac:(discriminate)) as (t & r & H & Hl & _).
  exists t, r. split; [exact H|]. split; [exact Hl|].
  assert (t = toy_tree) as -> by (pose proof toy_tree_built; congruence). vm_compute. reflexivity.
Defined.

Lemma Proof_complete_witness : exists proof, proof <> [] /\
  Proof toy_hash id toy_tree (toy_leaf 2 30) = Ok proof /\
  Verify toy_hash id proof (Root toy_tree) (HashLeaf toy_hash id (toy_leaf 2 30)) = true.
Proof.
  assert (toy_leaf 2 30 ∈ toy_leaves) as Hin by (right; left).
  destruct (Proof_complete toy_hash id toy_hash_length ltac:(reflexivity) toy_leaves toy_tree (toy_leaf 2 30)
    toy_tree_built Hin) as (proof & Hp & Hv).
  exists proof. split; [|auto]. intros ->. vm_compute in Hp. discriminate.
Defined.

Lemma Root_order_independent_witness :
  toy_leaves <> rev toy_leaves /\
  exists t, NewTree toy_hash id (rev toy_leaves) = Ok t /\ Root toy_tree = Root t.
Proof.
  split; [vm_compute; discriminate|].
  destruct (NewTree toy_hash id (rev toy_leaves)) as [t|e] eqn:E; [|discriminate].
  exists t. split; [reflexivity|].
  refine (proj2 (Root_order_independent toy_hash id toy_hash_length ltac:(reflexivity)
    toy_leaves (rev toy_leaves) toy_tree t _ toy_tree_built E)).
  apply Permutation_rev.
Defined.

Lemma Verify_sound_witness :
  toy_leaf 2 30 ∈ toy_leaves \/
  collision toy_hash (tree_inputs toy_hash toy_tree) (verify_inputs toy_hash id toy_proof (toy_leaf 2 30)).
Proof.
  refine (Verify_sound toy_hash id toy_hash_length ltac:(reflexivity) toy_leaves toy_tree (toy_leaf 2 30)
    toy_proof toy_tree_built _ _ _ _).
  - repeat constructor; vm_compute; congruence.
  - repeat constructor; vm_compute; congruence.
  - repeat (constructor; [vm_compute; reflexivity|]). constructor.
  - vm_compute. reflexivity.
Defined.

Lemma HexToHash_HashToHex_witness :
  HexToHash id (HashToHex (Root toy_tree)) = Ok (Root toy_tree).
Proof. apply (HexToHash_HashToHex id); reflexivity. Defined.
