(* ===== verification/Model.v ===== *)
(** * The data of the program

    Models [src/internal/model/model.go]: the status values, the rows the
    store returns.  ([service.UserError] is in [Prelude].)

    An instant ([time.Time]) is the number of nanoseconds since the Unix epoch,
    as a [Z]; an epoch date is the instant of its midnight (UTC).  A pointer to
    a time, a boolean or a string is an [option].  An [int] or [int64] is a [Z]
    with its wrap-around written where the code computes.  A status is a Go
    string restricted by a CHECK constraint of the schema to a few values: it
    is an inductive type here, with its string.

    The legal transitions of an assignment form a preorder ([status_le]). *)

From S2P Require Import Prelude Float64 GoLang.

(** Question status constants. *)
Inductive QuestionStatus : Set :=
| QuestionStatusSubmitted
| QuestionStatusScored.

(** Assignment status constants. *)
Inductive AssignmentStatus : Set :=
| AssignmentStatusClaimed
| AssignmentStatusReplied
| AssignmentStatusScored
| AssignmentStatusTimedOut.

(** BenchmarkSet status constants. *)
Inductive BSStatus : Set :=
| BSStatusActive
| BSStatusInactive.

#[export] Instance QuestionStatus_eq_dec : EqDecision QuestionStatus.
Proof. solve_decision. Defined.
#[export] Instance AssignmentStatus_eq_dec : EqDecision AssignmentStatus.
Proof. solve_decision. Defined.
#[export] Instance BSStatus_eq_dec : EqDecision BSStatus.
Proof. solve_decision. Defined.

Definition question_status_string (s : QuestionStatus) : string :=
  match s with
  | QuestionStatusSubmitted => "submitted"
  | QuestionStatusScored => "scored"
  end.

Definition assignment_status_string (s : AssignmentStatus) : string :=
  match s with
  | AssignmentStatusClaimed => "claimed"
  | AssignmentStatusReplied => "replied"
  | AssignmentStatusScored => "scored"
  | AssignmentStatusTimedOut => "timed-out"
  end.

Definition bs_status_string (s : BSStatus) : string :=
  match s with
  | BSStatusActive => "active"
  | BSStatusInactive => "inactive"
  end.

Record Worker := mkWorker {
  w_Address : string;
  w_SuspendedUntil : option Z;
  w_EpochViolations : Z;
  w_LastPollAt : option Z;
  w_CreatedAt : Z
}.

(** [w.IsSuspended()], at the instant [now] that [time.Now()] returns. *)
Definition IsSuspended (now : Z) (w : Worker) : bool :=
  match w_SuspendedUntil w with
  | Some until => now <? until
  | None => false
  end.

Record BenchmarkSet := mkBenchmarkSet {
  bs_SetID : string;
  bs_Description : string;
  bs_QuestionRequirements : string;
  bs_AnswerRequirements : string;
  bs_QuestionMaxLen : Z;
  bs_AnswerMaxLen : Z;
  bs_AnswerCheckMethod : string;
  bs_Status : BSStatus;
  bs_TotalQuestions : Z;
  bs_QualifiedQuestions : Z;
  bs_CreatedAt : Z
}.

Record Question := mkQuestion {
  q_QuestionID : Z;
  q_BSID : string;
  q_Questioner : string;
  q_Question : string;
  q_Answer : string;
  q_Status : QuestionStatus;
  q_Share : float64;
  q_Score : Z;
  q_PassRate : float64;
  q_Benchmark : bool;
  q_MinHash : option (list byte);
  q_CreatedAt : Z;
  q_ScoredAt : option Z
}.

Record Assignment := mkAssignment {
  a_AssignmentID : Z;
  a_QuestionID : Z;
  a_Worker : string;
  a_Status : AssignmentStatus;
  a_ReplyDDL : Z;
  a_ReplyValid : option bool;
  a_ReplyAnswer : option string;
  a_RepliedAt : option Z;
  a_Share : float64;
  a_Score : Z;
  a_CreatedAt : Z
}.

Record Epoch := mkEpoch {
  e_EpochDate : Z;
  e_TotalReward : Z;
  e_TotalScored : Z;
  e_SettledAt : option Z;
  e_MerkleRoot : option string;
  e_PublishedAt : option Z
}.

Record WorkerEpochReward := mkWorkerEpochReward {
  r_EpochDate : Z;
  r_WorkerAddress : string;
  r_Recipient : option string;
  r_ScoredAsks : Z;
  r_ScoredAnswers : Z;
  r_TimedOutAnswers : Z;
  r_AskScoreSum : Z;
  r_AnswerScoreSum : Z;
  r_RawReward : Z;
  r_CompositeScore : float64;
  r_FinalReward : Z
}.

(** ** Durations *)

Definition Second : Z := 1000000000.
Definition Minute : Z := 60 * Second.
Definition Hour : Z := 60 * Minute.

(** [t.Sub(u)]: the difference as a [time.Duration], saturated to the int64
    range. *)
Definition time_Sub (t u : Z) : Z :=
  Z.max (- 2 ^ 63) (Z.min (2 ^ 63 - 1) (t - u)).

(** [t.After(u)]. *)
Definition After (t u : Z) : bool := u <? t.

(** The DATE of an instant. *)
Definition date_of (t : Z) : Z := 24 * Hour * (t / (24 * Hour)).

(** ** The life of an assignment

    Claimed, then replied or timed out; replied, then scored. *)
Definition status_rank (s : AssignmentStatus) : Z :=
  match s with
  | AssignmentStatusClaimed => 0
  | AssignmentStatusReplied => 1
  | AssignmentStatusTimedOut => 1
  | AssignmentStatusScored => 2
  end.

Definition status_step (s t : AssignmentStatus) : bool :=
  match s, t with
  | AssignmentStatusClaimed, _ => true
  | AssignmentStatusReplied, AssignmentStatusReplied => true
  | AssignmentStatusReplied, AssignmentStatusScored => true
  | AssignmentStatusScored, AssignmentStatusScored => true
  | AssignmentStatusTimedOut, AssignmentStatusTimedOut => true
  | _, _ => false
  end.

(** The order "may become", as a preorder on statuses. *)
Definition status_le (s t : AssignmentStatus) : Prop := status_step s t = true.

#[export] Instance status_le_preorder : PreOrder status_le.
Proof. split; [intros []; reflexivity | intros [] [] []; cbv; congruence]. Qed.

(** [deref(s)] of the scoring service. *)
Definition deref (s : option string) : string :=
  match s with None => "" | Some s => s end.
