(* ===== verification/Calendar.v ===== *)
(** * Dates and times as text

    What the program uses of Go's package [time] beyond durations: the civil
    date of an instant, the layouts "2006-01-02" and RFC 3339, and
    [time.Unix].  An instant is the number of nanoseconds since the Unix epoch;
    [time.Parse] fails with [None].

    Lemma [ParseDate_FormatDate]: a date that the server prints is read back as
    the same day. *)

From S2P Require Import Prelude GoLang Strconv Model.

(** ** Calendar

    [t.Date()] in UTC: the civil date of a day number (days since
    1970-01-01), in the proleptic Gregorian calendar.  Years start in March
    here, so that the leap day is the last of its year. *)
Definition day_number (t : Z) : Z := t / (24 * Hour).

Definition civil (days : Z) : Z * Z * Z :=
  let z := days + 719468 in
  let era := z / 146097 in
  let doe := z mod 146097 in
  let yoe := (doe - doe / 1460 + doe / 36524 - doe / 146096) / 365 in
  let doy := doe - (365 * yoe + yoe / 4 - yoe / 100) in
  let mp := (5 * doy + 2) / 153 in
  let d := doy - (153 * mp + 2) / 5 + 1 in
  let m := if mp <? 10 then mp + 3 else mp - 9 in
  let y := yoe + era * 400 + (if m <=? 2 then 1 else 0) in
  (y, m, d).

(** The day number of a date. *)
Definition days_of (y m d : Z) : Z :=
  let y' := if m <=? 2 then y - 1 else y in
  let mp := (m + 9) mod 12 in
  let doy := (153 * mp + 2) / 5 + d - 1 in
  let yoe := y' mod 400 in
  y' / 400 * 146097 + (yoe * 365 + yoe / 4 - yoe / 100 + doy) - 719468.

(** ** Layouts *)

Definition is_leap (y : Z) : bool := (y mod 4 =? 0) && (negb (y mod 100 =? 0) || (y mod 400 =? 0)).

Definition daysIn (m y : Z) : Z :=
  if m =? 2 then (if is_leap y then 29 else 28)
  else if (m =? 4) || (m =? 6) || (m =? 9) || (m =? 11) then 30 else 31.

(** [appendInt]: decimal, padded with zeros to a width. *)
Definition appendInt (x : Z) (width : nat) : list byte :=
  let ds := decimal (Z.abs x) in
  (if x <? 0 then [x2d] else []) ++ replicate (width - length ds) x30 ++ ds.

(** [t.Format("2006-01-02")], in UTC. *)
Definition FormatDate (t : Z) : string :=
  let '(y, m, d) := civil (day_number t) in
  string_of_bytes (appendInt y 4 ++ x2d :: appendInt m 2 ++ x2d :: appendInt d 2).

(** [getnum]: one or two digits, exactly two if [fixed]. *)
Definition getnum (fixed : bool) (l : list byte) : option (Z * list byte) :=
  match l with
  | [] => None
  | a :: l =>
      x ← digit_value a;
      match l with
      | [] => if fixed then None else Some (x, [])
      | b :: l' =>
          match digit_value b with
          | Some y => Some (10 * x + y, l')
          | None => if fixed then None else Some (x, l)
          end
      end
  end.

(** A literal byte of the layout. *)
Definition skip (b : byte) (l : list byte) : option (list byte) :=
  match l with
  | c :: l => if Byte.eqb b c then Some l else None
  | [] => None
  end.

(** The chunk 2006: four digits. *)
Definition year4 (l : list byte) : option (Z * list byte) :=
  match l with
  | a :: b :: c :: d :: l => y ← unsigned [a; b; c; d]; Some (y, l)
  | _ => None
  end.

(** The chunks 2006-01-02.  The month is checked where it is read; the day only
    at the end, when year and month are known. *)
Definition date_chunks (l : list byte) : option (Z * Z * Z * list byte) :=
  '(y, l) ← year4 l;
  l ← skip x2d l;
  '(m, l) ← getnum true l;
  if (m <=? 0) || (12 <? m) then None
  else
    l ← skip x2d l;
    '(d, l) ← getnum true l;
    Some (y, m, d, l).

(** [time.Parse("2006-01-02", s)]. *)
Definition ParseDate (s : string) : option Z :=
  '(y, m, d, rest) ← date_chunks (bytes_of_string s);
  match rest with
  | [] => if (d <? 1) || (daysIn m y <? d) then None else Some (days_of y m d * (24 * Hour))
  | _ => None
  end.

(** A fraction of a second after the seconds, which the layout need not show:
    a period or comma and digits, of which nine count. *)
Fixpoint fraction_digits (scale acc : Z) (l : list byte) : Z * list byte :=
  match l with
  | b :: l' => match digit_value b with
               | Some v => fraction_digits (scale / 10) (acc + v * scale) l'
               | None => (acc, l)
               end
  | [] => (acc, [])
  end.

Definition fraction (l : list byte) : Z * list byte :=
  match l with
  | p :: b :: _ =>
      if (Byte.eqb p x2e || Byte.eqb p x2c) && bool_decide (is_Some (digit_value b))
      then fraction_digits 100000000 0 (tail l) else (0, l)
  | _ => (0, l)
  end.

(** The chunk Z07:00: the offset in seconds. *)
Definition zone (l : list byte) : option (Z * list byte) :=
  match l with
  | x5a :: l => Some (0, l)
  | s :: h1 :: h2 :: c :: m1 :: m2 :: l =>
      if Byte.eqb c x3a then
        '(hr, _) ← getnum true [h1; h2];
        '(mm, _) ← getnum true [m1; m2];
        if (24 <? hr) || (60 <? mm) then None
        else if Byte.eqb s x2b then Some ((hr * 60 + mm) * 60, l)
        else if Byte.eqb s x2d then Some (- ((hr * 60 + mm) * 60), l)
        else None
      else None
  | _ => None
  end.

(** [time.Parse(time.RFC3339, s)]. *)
Definition ParseRFC3339 (s : string) : option Z :=
  '(y, m, d, l) ← date_chunks (bytes_of_string s);
  l ← skip x54 l;
  '(hour, l) ← getnum false l;
  if 24 <=? hour then None else
  l ← skip x3a l;
  '(min, l) ← getnum true l;
  if 60 <=? min then None else
  l ← skip x3a l;
  '(sec, l) ← getnum true l;
  if 60 <=? sec then None else
  let '(nsec, l) := fraction l in
  '(offset, l) ← zone l;
  match l with
  | [] =>
      if (d <? 1) || (daysIn m y <? d) then None
      else Some (days_of y m d * (24 * Hour) + hour * Hour + min * Minute + (sec - offset) * Second + nsec)
  | _ => None
  end.

(** [time.Unix(ts, 0)]: the seconds are kept relative to the year 1, with
    wrap-around. *)
Definition unixToInternal : Z := 62135596800.
Definition time_Unix (ts : Z) : Z := (wrap64 (ts + unixToInternal) - unixToInternal) * Second.

Example ParseRFC3339_offset : ParseRFC3339 "2024-10-04T02:30:00.5+01:30" = Some (20000 * (24 * Hour) + Hour + 500000000).
Proof. vm_compute. reflexivity. Qed.

Example ParseDate_leap : (ParseDate "2024-02-29", ParseDate "2023-02-29", ParseDate "2024-2-29") =
  (Some (19782 * (24 * Hour)), None, None).
Proof. vm_compute. reflexivity. Qed.

(** ** The civil date of a day *)

(** The year of a 400-year era that a day belongs to (years begin in March). *)
Lemma year_of_era doe : 0 <= doe < 146097 ->
  let yoe := (doe - doe / 1460 + doe / 36524 - doe / 146096) / 365 in
  0 <= yoe < 400 /\ 0 <= doe - (365 * yoe + yoe / 4 - yoe / 100) <= 365.
Proof. intros H yoe. subst yoe. Z.to_euclidean_division_equations. lia. Qed.

(** Month and day of a day of the year. *)
Lemma month_of_year doy : 0 <= doy <= 365 ->
  let mp := (5 * doy + 2) / 153 in
  let m := if mp <? 10 then mp + 3 else mp - 9 in
  let d := doy - (153 * mp + 2) / 5 + 1 in
  1 <= m <= 12 /\ 1 <= d <= 31 /\ (m + 9) mod 12 = mp.
Proof.
  intros H. cbv zeta. assert (0 <= (5 * doy + 2) / 153 <= 11) as Hmp by (Z.to_euclidean_division_equations; lia).
  pose proof (Z.div_mod (5 * doy + 2) 153 ltac:(lia)) as E. pose proof (Z.mod_pos_bound (5 * doy + 2) 153 ltac:(lia)).
  set (mp := (5 * doy + 2) / 153) in *.
  assert (mp = 0 \/ mp = 1 \/ mp = 2 \/ mp = 3 \/ mp = 4 \/ mp = 5 \/ mp = 6 \/ mp = 7 \/ mp = 8 \/ mp = 9 \/ mp = 10 \/ mp = 11)
    as Hcases by lia.
  assert (1 <= doy - (153 * mp + 2) / 5 + 1 <= 31) as Hd.
  { clearbody mp. repeat destruct Hcases as [->|Hcases]; [..|rewrite Hcases in *];
      match goal with |- context [?x / 5] => let v := eval vm_compute in (x / 5) in change (x / 5) with v end; lia. }
  clear Hcases. split; [destruct (Z.ltb_spec mp 10); lia|]. split; [exact Hd|].
  destruct (Z.ltb_spec mp 10).
  - replace (mp + 3 + 9) with (mp + 1 * 12) by lia. rewrite Z.mod_add by lia. apply Z.mod_small. lia.
  - replace (mp - 9 + 9) with mp by lia. apply Z.mod_small. lia.
Qed.

Lemma civil_spec days : let '(y, m, d) := civil days in
  1 <= m <= 12 /\ 1 <= d <= 31 /\ days_of y m d = days /\
  400 * ((days + 719468) / 146097) <= y <= 400 * ((days + 719468) / 146097) + 400.
Proof.
  unfold civil. pose proof (Z.mod_pos_bound (days + 719468) 146097 ltac:(lia)) as Hdoe.
  pose proof (Z.div_mod (days + 719468) 146097 ltac:(lia)) as Hz.
  set (era := (days + 719468) / 146097) in *. set (doe := (days + 719468) mod 146097) in *.
  pose proof (year_of_era doe Hdoe) as [Hyoe Hdoy]. set (yoe := (doe - doe / 1460 + doe / 36524 - doe / 146096) / 365) in *.
  pose proof (month_of_year _ Hdoy) as (Hm & Hd & Hmod). set (doy := doe - (365 * yoe + yoe / 4 - yoe / 100)) in *. set (mp := (5 * doy + 2) / 153) in *.
  set (m := if mp <? 10 then mp + 3 else mp - 9) in *.
  clearbody m mp. split; [exact Hm|]. split; [exact Hd|]. split; [|destruct (m <=? 2); lia].
  unfold days_of. replace (if m <=? 2 then yoe + era * 400 + (if m <=? 2 then 1 else 0) - 1
    else yoe + era * 400 + (if m <=? 2 then 1 else 0)) with (yoe + era * 400) by (destruct (m <=? 2); lia).
  rewrite Hmod, Z.div_add, Z.mod_add, (Z.div_small yoe 400), (Z.mod_small yoe 400) by lia. lia.
Qed.

(** The first day of the year 10000. *)
Definition year_10000 : Z := 2932897 * (24 * Hour).


(** The day of the month exists: checked for all the days of a 400-year era. *)
Definition real_day (doe : Z) : bool :=
  let '(y, m, d) := civil (doe - 719468) in
  (d <=? daysIn m y) && (0 <=? y) && (y <=? (if doe <? 146037 then 399 else 400)).

(** A test of all integers from [z] on. *)
Fixpoint all_from (p : Z -> bool) (n : nat) (z : Z) : bool :=
  match n with
  | O => true
  | S n => if p z then all_from p n (z + 1) else false
  end.

Lemma all_from_spec p n : forall z x, all_from p n z = true -> z <= x < z + Z.of_nat n -> p x = true.
Proof.
  induction n as [|n IH]; intros z x H Hx; [lia|]. cbn in H. destruct (p z) eqn:E; [|discriminate].
  destruct (Z.eq_dec x z) as [->|]; [exact E|]. apply (IH (z + 1)); [exact H|lia].
Qed.

Lemma era_days_real : all_from real_day (Z.to_nat 146097) 0 = true.
Proof. vm_compute. reflexivity. Qed.

Lemma daysIn_era m y k : daysIn m (y + 400 * k) = daysIn m y.
Proof.
  unfold daysIn, is_leap. replace (y + 400 * k) with (y + (100 * k) * 4) by lia. rewrite Z.mod_add by lia.
  replace (y + 100 * k * 4) with (y + (4 * k) * 100) by lia. rewrite Z.mod_add by lia.
  replace (y + 4 * k * 100) with (y + k * 400) by lia. rewrite Z.mod_add by lia. reflexivity.
Qed.

Lemma civil_era days k : civil (days + 146097 * k) = let '(y, m, d) := civil days in (y + 400 * k, m, d).
Proof.
  unfold civil. replace (days + 146097 * k + 719468) with (days + 719468 + k * 146097) by lia.
  rewrite Z.div_add, Z.mod_add by lia. cbv zeta. f_equal. f_equal. lia.
Qed.

Lemma civil_real days : let '(y, m, d) := civil days in
  d <= daysIn m y /\ (0 <= days < 2932897 -> 0 <= y <= 9999).
Proof.
  pose proof (Z.div_mod (days + 719468) 146097 ltac:(lia)) as E.
  pose proof (Z.mod_pos_bound (days + 719468) 146097 ltac:(lia)) as Hb.
  set (doe := (days + 719468) mod 146097) in *. set (era := (days + 719468) / 146097) in *.
  replace days with (doe - 719468 + 146097 * era) by lia. rewrite civil_era.
  pose proof (all_from_spec _ _ 0 doe era_days_real ltac:(lia)) as H. unfold real_day in H.
  destruct (civil (doe - 719468)) as [[y m] d]. rewrite daysIn_era. bool_props. split; [assumption|].
  intros Hd. destruct (Z.ltb_spec doe 146037); lia.
Qed.

(** What is printed is read back: the fields one by one. *)
Lemma year4_printed y l : 0 <= y <= 9999 -> year4 (appendInt y 4 ++ l) = Some (y, l).
Proof.
  assert (all_from (fun y => bool_decide (length (appendInt y 4) = 4%nat) &&
    bool_decide (unsigned (appendInt y 4) = Some y)) (Z.to_nat 10000) 0 = true) as H by (vm_compute; reflexivity).
  intros Hy. apply (all_from_spec _ _ _ y) in H; [|lia].
  apply andb_true_iff in H as [H1 H2]. apply bool_decide_eq_true_1 in H1, H2.
  destruct (appendInt y 4) as [|a [|b [|c [|d [|]]]]]; try discriminate H1. cbn [app year4]. rewrite H2. reflexivity.
Qed.

Lemma getnum_printed x l : 0 <= x < 100 -> getnum true (appendInt x 2 ++ l) = Some (x, l).
Proof.
  assert (all_from (fun x => bool_decide (length (appendInt x 2) = 2%nat) &&
    bool_decide (getnum true (appendInt x 2) = Some (x, []))) (Z.to_nat 100) 0 = true) as H by (vm_compute; reflexivity).
  intros Hx. apply (all_from_spec _ _ _ x) in H; [|lia].
  apply andb_true_iff in H as [H1 H2]. apply bool_decide_eq_true_1 in H1, H2.
  destruct (appendInt x 2) as [|a [|b [|]]]; try discriminate H1. cbn [app getnum] in *.
  destruct (digit_value a) as [v|]; [|discriminate]. cbn in *. destruct (digit_value b); [|discriminate].
  injection H2 as ->. reflexivity.
Qed.

Lemma skip_same b l : skip b (b :: l) = Some l.
Proof. cbn. rewrite (Byte.byte_dec_lb (eq_refl b)). reflexivity. Qed.

(** The days from 1970 to 9999. *)
Definition common_day (t : Z) : Prop := 0 <= t < year_10000.

Lemma common_civil t : common_day t -> let '(y, m, d) := civil (day_number t) in
  0 <= y <= 9999 /\ 1 <= m <= 12 /\ 1 <= d <= daysIn m y /\ d <= 31 /\ days_of y m d = day_number t.
Proof.
  intros Ht. assert (0 <= day_number t < 2932897) as Hday.
  { unfold common_day, year_10000, day_number in *. split; [apply Z.div_pos; lia|apply Z.div_lt_upper_bound; lia]. }
  pose proof (civil_spec (day_number t)) as Hs. pose proof (civil_real (day_number t)) as Hr.
  destruct (civil (day_number t)) as [[y m] d]. destruct Hs as (Hm & Hd & Hdays & _), Hr as [Hr Hy]. lia.
Qed.

(** A date that the server prints in an URL or a reply is read back as the
    same day, for every day from 1970 to 9999. *)
Theorem ParseDate_FormatDate t : common_day t -> ParseDate (FormatDate t) = Some (date_of t).
Proof.
  intros Ht. pose proof (common_civil t Ht) as H. unfold ParseDate, FormatDate.
  destruct (civil (day_number t)) as [[y m] d]. destruct H as (Hy & Hm & Hd & Hd31 & Hdays).
  rewrite bytes_of_string_of_bytes. unfold date_chunks, mbind, option_bind. rewrite year4_printed by exact Hy.
  cbn iota beta. rewrite skip_same, getnum_printed by lia.
  destruct (Z.leb_spec m 0); [lia|]. destruct (Z.ltb_spec 12 m); [lia|]. cbn [orb]. rewrite skip_same.
  replace (appendInt d 2) with (appendInt d 2 ++ []) by apply app_nil_r.
  rewrite getnum_printed by lia. destruct (Z.ltb_spec d 1); [lia|]. destruct (Z.ltb_spec (daysIn m y) d); [lia|].
  cbn [orb]. rewrite Hdays. f_equal. unfold day_number, date_of. lia.
Qed.

(** Only the day counts. *)
Lemma day_of_date t : day_number (date_of t) = day_number t.
Proof.
  unfold day_number, date_of. rewrite Z.mul_comm, Z.div_mul; [reflexivity|discriminate].
Qed.

Lemma FormatDate_day t : FormatDate (date_of t) = FormatDate t.
Proof. unfold FormatDate. rewrite day_of_date. reflexivity. Qed.

Lemma date_of_idem t : date_of (date_of t) = date_of t.
Proof. pose proof (day_of_date t) as H. unfold day_number in H. unfold date_of at 1. rewrite H. reflexivity. Qed.

Example ParseDate_2024 : ParseDate (FormatDate (20000 * (24 * Hour) + 5 * Hour)) = ParseDate "2024-10-04".
Proof. vm_compute. reflexivity. Qed.
