(* ===== verification/Prog.v ===== *)
(** * Effects: programs, their runs, and how to reason about them

    The handlers and services of the program are sequences of database
    statements, clock readings, operations on the in-memory timer table and
    calls to other services, run by many goroutines at once.  A Go function
    with effects is a [prog A] here: a tree whose nodes are the effects in the
    order the code performs them and whose branches are the continuations.

    - [run] executes a program in an environment [Env] that fixes, effect by
      effect, what the clock shows, which statements fail, the random choices
      of the database and of the iteration over Go maps, the replies of other
      services, and what other goroutines do to the shared state between two
      effects ([interfere]).  It is executable.
    - [wp R G p Q s] is the weakest precondition of [p] for a rely [R] and a
      guarantee [G]: whatever the clock, the failures, the choices and the
      replies are, and whatever the others do as long as each of their steps is
      in [R], every atomic step of [p] is in [G] and [Q] holds at the end.

    - [wp_in] is [wp] for clocks that show only certain instants ([Clocks]):
      the form in which a deadline test is tied to the time of the run.

    Theorems: [wp] is sound for [run] ([run_wp], [run_wp_in]), compositional ([wp_bind]) and
    monotone ([wp_mono]).

    A transaction is modelled as atomic for the other goroutines: they act
    before it begins, not between its statements; it ends in a commit or
    restores the state it began with.  After a failed statement the database
    refuses the transaction's other statements and its commit. *)

From S2P Require Import Prelude.

(** What a statement reads from the database server: its clock, and the
    choices it makes where SQL leaves them open. *)
Record SqlEnv := mkSqlEnv { sql_now : Z; sql_random : nat }.

(** What the clocks may show, the program's and the database server's (with the
    choices that it makes). *)
Record Clocks := mkClocks { go_time : Z -> Prop; sql_time : SqlEnv -> Prop }.
Definition any_time : Clocks := mkClocks (fun _ => True) (fun _ => True).

(** Both clocks between two instants. *)
Definition during (lo hi : Z) : Clocks :=
  mkClocks (fun t => lo <= t <= hi) (fun env => lo <= sql_now env <= hi).

Section Programs.
Context {DB Mem Req : Type} {Resp : Req -> Type}.

(** The shared state: the database, and the process' memory. *)
Record State := mkState { db : DB; mem : Mem }.

(** A statement: a result or an error, and the database after it. *)
Definition stmt (X : Type) : Type := SqlEnv -> DB -> result X * DB.

Inductive prog (A : Type) : Type :=
| Ret (a : A)
| Now (k : Z -> prog A)                                  (* time.Now() *)
| Range {X : Type} (l : list X) (k : list X -> prog A)     (* order of a range over a map *)
| Sql {X : Type} (s : stmt X) (k : result X -> prog A)
| Tx {X : Type} (body : prog (result X)) (k : result X -> prog A)
| Atomic {X : Type} (f : Mem -> X * Mem) (k : X -> prog A)  (* an operation on shared memory *)
| Call (req : Req) (k : Resp req -> prog A).                 (* a call to another service *)
Arguments Ret {A} a.
Arguments Now {A} k.
Arguments Range {A X} l k.
Arguments Sql {A X} s k.
Arguments Tx {A X} body k.
Arguments Atomic {A X} f k.
Arguments Call {A} req k.

Fixpoint bind {A B} (p : prog A) (f : A -> prog B) : prog B :=
  match p with
  | Ret a => f a
  | Now k => Now (fun t => bind (k t) f)
  | Range l k => Range l (fun l => bind (k l) f)
  | Sql s k => Sql s (fun r => bind (k r) f)
  | Tx body k => Tx body (fun r => bind (k r) f)
  | Atomic g k => Atomic g (fun x => bind (k x) f)
  | Call req k => Call req (fun r => bind (k r) f)
  end.

(** [if err != nil { return err }]. *)
Definition bind_ok {A B} (p : prog (result A)) (f : A -> prog (result B)) : prog (result B) :=
  bind p (fun r => match r with Ok a => f a | Err e => Ret (Err e) end).

(** [fmt.Errorf("msg: %w", err)] around an error. *)
Definition wrapped {A} (msg : string) (p : prog (result A)) : prog (result A) :=
  bind p (fun r => Ret (wrap_error msg r)).

(** [for _, x := range l { if err := f(x); err != nil { return err } }]. *)
Fixpoint for_each {X} (l : list X) (f : X -> prog (result unit)) : prog (result unit) :=
  match l with
  | [] => Ret (Ok tt)
  | x :: l => bind_ok (f x) (fun _ => for_each l f)
  end.

(** The same loop with a body that cannot fail. *)
Fixpoint for_all {X} (l : list X) (f : X -> prog unit) : prog unit :=
  match l with
  | [] => Ret tt
  | x :: l => bind (f x) (fun _ => for_all l f)
  end.

(** A program without operations on memory. *)
Fixpoint no_atomic {A} (p : prog A) : Prop :=
  match p with
  | Ret _ => True
  | Now k => forall t, no_atomic (k t)
  | Range l k => forall l', no_atomic (k l')
  | Sql _ k => forall r, no_atomic (k r)
  | Tx body k => no_atomic body /\ forall r, no_atomic (k r)
  | Atomic _ _ => False
  | Call req k => forall r, no_atomic (k r)
  end.

Lemma no_atomic_bind {A B} (p : prog A) (f : A -> prog B) :
  no_atomic p -> (forall a, no_atomic (f a)) -> no_atomic (bind p f).
Proof using. induction p; cbn; try tauto; auto. intros [Hb Hk] Hf. auto. Qed.

Lemma no_atomic_bind_ok {A B} (p : prog (result A)) (f : A -> prog (result B)) :
  no_atomic p -> (forall a, no_atomic (f a)) -> no_atomic (bind_ok p f).
Proof using. intros Hp Hf. apply no_atomic_bind; [exact Hp|]. intros [a|e]; [apply Hf|exact I]. Qed.

Lemma no_atomic_wrapped {A} msg (p : prog (result A)) : no_atomic p -> no_atomic (wrapped msg p).
Proof using. intros Hp. apply no_atomic_bind; [exact Hp|]. intros r. exact I. Qed.

Lemma no_atomic_for_each {X} (l : list X) f : (forall x, no_atomic (f x)) -> no_atomic (for_each l f).
Proof using. intros H. induction l as [|x l IH]; [exact I|]. apply no_atomic_bind_ok; auto. Qed.

Lemma no_atomic_for_all {X} (l : list X) f : (forall x, no_atomic (f x)) -> no_atomic (for_all l f).
Proof using. intros H. induction l as [|x l IH]; [exact I|]. apply no_atomic_bind; auto. Qed.

(** A program that only reads: no operation on memory, no transaction, and
    every statement is a query. *)
Fixpoint read_only {A} (p : prog A) : Prop :=
  match p with
  | Ret _ => True
  | Now k => forall t, read_only (k t)
  | Range l k => forall l', read_only (k l')
  | Sql st k => (forall env d, snd (st env d) = d) /\ forall r, read_only (k r)
  | Tx _ _ => False
  | Atomic _ _ => False
  | Call req k => forall r, read_only (k r)
  end.

Lemma read_only_bind {A B} (p : prog A) (f : A -> prog B) :
  read_only p -> (forall a, read_only (f a)) -> read_only (bind p f).
Proof using. induction p; cbn; try tauto; auto. intros [Hb Hk] Hf. auto. Qed.

Lemma read_only_bind_ok {A B} (p : prog (result A)) (f : A -> prog (result B)) :
  read_only p -> (forall a, read_only (f a)) -> read_only (bind_ok p f).
Proof using. intros Hp Hf. apply read_only_bind; [exact Hp|]. intros [a|e]; [apply Hf|exact I]. Qed.

Lemma read_only_for_all {X} (l : list X) f : (forall x, read_only (f x)) -> read_only (for_all l f).
Proof using. intros H. induction l as [|x l IH]; [exact I|]. apply read_only_bind; auto. Qed.

(** Every result that a program can return satisfies [Q]. *)
Fixpoint returns {A} (Q : A -> Prop) (p : prog A) : Prop :=
  match p with
  | Ret a => Q a
  | Now k => forall t, returns Q (k t)
  | Range l k => forall l', returns Q (k l')
  | Sql _ k => forall r, returns Q (k r)
  | Tx _ k => forall r, returns Q (k r)
  | Atomic _ k => forall x, returns Q (k x)
  | Call req k => forall r, returns Q (k r)
  end.

Lemma returns_bind {A B} (Q : B -> Prop) (p : prog A) (f : A -> prog B) : (forall a, returns Q (f a)) -> returns Q (bind p f).
Proof using. intros Hf. induction p; cbn; auto. Qed.

(** ** Runs *)

(** Choose from a list by position. *)
Fixpoint pick_nth {X} (n : nat) (l : list X) : option (X * list X) :=
  match l with
  | [] => None
  | x :: l =>
      match n with
      | O => Some (x, l)
      | S n => match pick_nth n l with
               | Some (y, rest) => Some (y, x :: rest)
               | None => Some (x, l)
               end
      end
  end.

(** A permutation of a list, chosen by a code. *)
Fixpoint permute {X} (code : list nat) (l : list X) : list X :=
  match code with
  | [] => l
  | n :: code => match pick_nth n l with
                 | Some (x, rest) => x :: permute code rest
                 | None => []
                 end
  end.

(** What the environment does at each effect, by the number of the effect. *)
Record Env := mkEnv {
  clock : nat -> Z;
  sql_env : nat -> SqlEnv;
  fault : nat -> option string;
  map_order : nat -> list nat;
  reply : nat -> forall req, Resp req;
  interfere : nat -> State -> State
}.

(** The same environment, the others at rest. *)
Definition quiet (E : Env) : Env := {| E with interfere := fun _ s => s |}.

(** A run's position: how many effects have happened, and whether a
    transaction's statement has failed. *)
Record Pos := mkPos { tick : nat; aborted : bool }.
Definition next_pos (p : Pos) : Pos := {| p with tick := S (tick p) |}.

(** One statement. *)
Definition run_stmt {X} (E : Env) (in_tx : bool) (s : stmt X) (pos : Pos) (d : DB) : result X * DB * Pos :=
  let pos' := next_pos pos in
  let failed := fun (msg : string) => (Err (Failure msg), d, {| pos' with aborted := in_tx |}) in
  if aborted pos then failed "current transaction is aborted"
  else match fault E (tick pos) with
       | Some msg => failed msg
       | None => match s (sql_env E (tick pos)) d with
                 | (Ok x, d') => (Ok x, d', pos')
                 | (Err e, d') => (Err e, d', {| pos' with aborted := in_tx |})
                 end
       end.

Fixpoint run {A} (E : Env) (in_tx : bool) (p : prog A) (pos : Pos) (s : State) : A * State * Pos :=
  match p with
  | Ret a => (a, s, pos)
  | Now k => run E in_tx (k (clock E (tick pos))) (next_pos pos) s
  | Range l k => run E in_tx (k (permute (map_order E (tick pos)) l)) (next_pos pos) s
  | Sql st k =>
      let s := interfere E (tick pos) s in
      let '(r, d, pos) := run_stmt E in_tx st pos (db s) in
      run E in_tx (k r) pos {| s with db := d |}
  | Tx body k =>
      let s0 := interfere E (tick pos) s in
      match fault E (tick pos) with
      | Some msg => run E in_tx (k (Err (Wrapped "begin tx" (Failure msg)))) (next_pos pos) s0
      | None =>
          let '(r, s1, pos) := run (quiet E) true body (next_pos pos) s0 in
          let rolled_back := {| s1 with db := db s0 |} in
          let pos' := mkPos (S (tick pos)) false in
          match r with
          | Err e => run E in_tx (k (Err e)) pos' rolled_back
          | Ok x =>
              match (if aborted pos then Some "failed transaction"%string else fault E (tick pos)) with
              | Some msg => run E in_tx (k (Err (Failure msg))) pos' rolled_back
              | None => run E in_tx (k (Ok x)) pos' s1
              end
          end
      end
  | Atomic f k =>
      let s := interfere E (tick pos) s in
      let '(x, m) := f (mem s) in
      run E in_tx (k x) (next_pos pos) {| s with mem := m |}
  | Call req k => run E in_tx (k (reply E (tick pos) req)) (next_pos pos) s
  end.

(** A run from the first effect, outside any transaction. *)
Definition run_top {A} (E : Env) (p : prog A) (s : State) : A * State :=
  fst (run E false p (mkPos 0 false) s).

(** A run of a sequence is the run of its parts, one after the other. *)
Lemma run_bind {A B} (E : Env) (p : prog A) (f : A -> prog B) : forall in_tx pos s,
  run E in_tx (bind p f) pos s = let '(a, s', pos') := run E in_tx p pos s in run E in_tx (f a) pos' s'.
Proof using.
  induction p as [A a|A k IH|A X l k IH|A X st k IH|A X body _ k IH|A X g k IH|A req k IH];
    intros in_tx pos s; cbn [bind run]; auto.
  - destruct (run_stmt _ _ _ _ _) as [[r d] pos']. apply IH.
  - destruct (fault E (tick pos)); [apply IH|]. destruct (run _ _ body _ _) as [[r s1] pos1].
    destruct r as [x|e]; [|apply IH]. destruct (if aborted pos1 then _ else _); apply IH.
  - destruct (g _) as [x m]. apply IH.
Qed.

Lemma run_returns {A} (Q : A -> Prop) (E : Env) (p : prog A) : returns Q p -> forall in_tx pos s,
  let '(a, _, _) := run E in_tx p pos s in Q a.
Proof using.
  induction p as [A a|A k IH|A X l k IH|A X st k IH|A X body _ k IH|A X g k IH|A req k IH];
    cbn [returns]; intros H in_tx pos s; cbn [run]; auto; try (apply IH; auto).
  - destruct (run_stmt _ _ _ _ _) as [[r d] pos']. apply IH, H.
  - destruct (fault E (tick pos)); [apply IH, H|]. destruct (run _ _ body _ _) as [[r s1] pos1].
    destruct r as [x|e]; [|apply IH, H]. destruct (if aborted pos1 then _ else _); apply IH, H.
  - destruct (g _) as [x m]. apply IH, H.
Qed.

(** ** Weakest preconditions

    [C]: what the clocks may show; [Fault msg]: a statement may fail with [msg]; [Reply req resp]: a service
    may answer [resp] to [req].  [ab] tells whether a statement of the enclosing
    transaction has failed. *)

Section Wp.
Context {C : Clocks}.
Variable Fault : string -> Prop.
Variable Reply : forall req, Resp req -> Prop.

Fixpoint wp_in {A} (in_tx : bool) (R G : State -> State -> Prop) (p : prog A)
    (Q : A -> bool -> State -> Prop) (ab : bool) (s : State) : Prop :=
  match p with
  | Ret a => Q a ab s
  | Now k => forall t, go_time C t -> wp_in in_tx R G (k t) Q ab s
  | Range l k => forall l', l' ≡ₚ l -> wp_in in_tx R G (k l') Q ab s
  | Sql st k => forall s', R s s' ->
      if ab then wp_in in_tx R G (k (Err (Failure "current transaction is aborted"))) Q in_tx s'
      else
        (forall msg, Fault msg -> wp_in in_tx R G (k (Err (Failure msg))) Q in_tx s') /\
        (forall env, sql_time C env -> G s' {| s' with db := snd (st env (db s')) |} /\
           wp_in in_tx R G (k (fst (st env (db s')))) Q (in_tx && negb (is_ok (fst (st env (db s')))))
             {| s' with db := snd (st env (db s')) |})
  | Tx body k => forall s', R s s' ->
      (forall msg, Fault msg -> wp_in in_tx R G (k (Err (Wrapped "begin tx" (Failure msg)))) Q ab s') /\
      wp_in true eq (fun _ _ => True) body (fun r ab1 s1 =>
        mem s1 = mem s' /\
        match r with
        | Err e => wp_in in_tx R G (k (Err e)) Q false s'
        | Ok x =>
            if ab1 then wp_in in_tx R G (k (Err (Failure "failed transaction"))) Q false s'
            else (forall msg, Fault msg -> wp_in in_tx R G (k (Err (Failure msg))) Q false s') /\
                 G s' s1 /\ wp_in in_tx R G (k (Ok x)) Q false s1
        end) ab s'
  | Atomic f k => forall s', R s s' ->
      G s' {| s' with mem := snd (f (mem s')) |} /\
      wp_in in_tx R G (k (fst (f (mem s')))) Q ab {| s' with mem := snd (f (mem s')) |}
  | Call req k => forall resp, Reply req resp -> wp_in in_tx R G (k resp) Q ab s
  end.

(** *** Structural rules *)

Lemma wp_mono {A} in_tx R G (p : prog A) : forall (Q1 Q2 : A -> bool -> State -> Prop) ab s,
  (forall a b s', Q1 a b s' -> Q2 a b s') -> wp_in in_tx R G p Q1 ab s -> wp_in in_tx R G p Q2 ab s.
Proof using.
  revert in_tx R G. induction p as [A a|A k IH|A X l k IH|A X st k IH|A X body IHb k IH|A X f k IH|A req k IH];
    intros in_tx R G Q1 Q2 ab s HQ; cbn [wp_in]; intros H; auto.
  - intros t Ht. eauto.
  - intros l' Hl. eauto.
  - intros s' Hs. specialize (H s' Hs). destruct ab; [eauto|].
    destruct H as [Hf Hn]. split; [eauto|]. intros env Henv. destruct (Hn env Henv). eauto.
  - intros s' Hs. destruct (H s' Hs) as (Hb & Hbody). split; [eauto|].
    eapply IHb; [|exact Hbody]. intros [x|e] ab1 s1; cbn; intros [Hm Hr]; (split; [exact Hm|]); [|eauto].
    destruct ab1; [eauto|]. destruct Hr as (H1 & H2 & H3). split; [eauto|split; eauto].
  - intros s' Hs. destruct (H s' Hs). eauto.
  - intros resp Hr. eauto.
Qed.

Lemma wp_bind {A B} in_tx R G (p : prog A) (f : A -> prog B) : forall Q ab s,
  wp_in in_tx R G (bind p f) Q ab s <-> wp_in in_tx R G p (fun a ab' s' => wp_in in_tx R G (f a) Q ab' s') ab s.
Proof using.
  induction p as [A a|A k IH|A X l k IH|A X st k IH|A X body IHb k IH|A X g k IH|A req k IH];
    intros Q ab s; cbn [bind wp_in]; try tauto.
  - setoid_rewrite IH. tauto.
  - setoid_rewrite IH. tauto.
  - destruct ab; setoid_rewrite IH; tauto.
  - setoid_rewrite IH. split; intros H s' Hs; destruct (H s' Hs) as (H1 & H3);
      (split; [exact H1|]); (eapply wp_mono; [|exact H3]);
      intros [x|e] [] s1; cbn; setoid_rewrite IH; tauto.
  - setoid_rewrite IH. tauto.
  - setoid_rewrite IH. tauto.
Qed.

(** A guarantee may be weakened and a rely strengthened. *)
Lemma wp_weaken {A} in_tx (R1 R2 G1 G2 : State -> State -> Prop) (p : prog A) : forall Q ab s,
  (forall a b, R2 a b -> R1 a b) -> (forall a b, G1 a b -> G2 a b) ->
  wp_in in_tx R1 G1 p Q ab s -> wp_in in_tx R2 G2 p Q ab s.
Proof using.
  induction p as [A a|A k IH|A X l k IH|A X st k IH|A X body IHb k IH|A X f k IH|A req k IH];
    intros Q ab s HR HG; cbn [wp_in]; intros H; auto.
  - intros s' Hs. specialize (H s' (HR _ _ Hs)). destruct ab; [eauto|].
    destruct H as [Hf Hn]. split; [eauto|]. intros env Henv. destruct (Hn env Henv). eauto.
  - intros s' Hs. destruct (H s' (HR _ _ Hs)) as (Hb & Hbody). split; [eauto|].
    eapply wp_mono; [|exact Hbody]. intros [x|e] ab1 s1; cbn; intros [Hm Hr]; (split; [exact Hm|]); [|eauto].
    destruct ab1; [eauto|]. destruct Hr as (H1 & H2 & H3). split; [eauto|split; eauto].
  - intros s' Hs. destruct (H s' (HR _ _ Hs)). eauto.
Qed.

Lemma wp_bind_ok {A B} in_tx R G (p : prog (result A)) (f : A -> prog (result B)) Q ab s :
  wp_in in_tx R G (bind_ok p f) Q ab s <->
  wp_in in_tx R G p (fun r ab' s' =>
    match r with Ok a => wp_in in_tx R G (f a) Q ab' s' | Err e => Q (Err e) ab' s' end) ab s.
Proof using.
  unfold bind_ok. rewrite wp_bind. split; apply wp_mono; intros [a|e] ab' s'; exact id.
Qed.

Lemma wp_wrapped {A} in_tx R G msg (p : prog (result A)) Q ab s :
  wp_in in_tx R G (wrapped msg p) Q ab s <-> wp_in in_tx R G p (fun r ab' s' => Q (wrap_error msg r) ab' s') ab s.
Proof using. unfold wrapped. rewrite wp_bind. reflexivity. Qed.

Lemma wp_Ret {A} in_tx R G (a : A) Q ab s : wp_in in_tx R G (Ret a) Q ab s <-> Q a ab s.
Proof using. reflexivity. Qed.

Lemma wp_in_Now {A} in_tx R G (k : Z -> prog A) Q ab s :
  wp_in in_tx R G (Now k) Q ab s <-> forall t, go_time C t -> wp_in in_tx R G (k t) Q ab s.
Proof using. reflexivity. Qed.

Lemma wp_Range {A X} in_tx R G (l : list X) (k : list X -> prog A) Q ab s :
  wp_in in_tx R G (Range l k) Q ab s <-> forall l', l' ≡ₚ l -> wp_in in_tx R G (k l') Q ab s.
Proof using. reflexivity. Qed.

Lemma wp_Atomic {A X} in_tx R G (f : Mem -> X * Mem) (k : X -> prog A) Q ab s :
  wp_in in_tx R G (Atomic f k) Q ab s <-> forall s', R s s' ->
    G s' {| s' with mem := snd (f (mem s')) |} /\
    wp_in in_tx R G (k (fst (f (mem s')))) Q ab {| s' with mem := snd (f (mem s')) |}.
Proof using. reflexivity. Qed.

Lemma wp_Call {A} in_tx R G req (k : Resp req -> prog A) Q ab s :
  wp_in in_tx R G (Call req k) Q ab s <-> forall resp, Reply req resp -> wp_in in_tx R G (k resp) Q ab s.
Proof using. reflexivity. Qed.

Lemma wp_Tx {A X} in_tx R G (body : prog (result X)) (k : result X -> prog A) Q ab s :
  wp_in in_tx R G (Tx body k) Q ab s <-> forall s', R s s' ->
    (forall msg, Fault msg -> wp_in in_tx R G (k (Err (Wrapped "begin tx" (Failure msg)))) Q ab s') /\
    wp_in true eq (fun _ _ => True) body (fun r ab1 s1 =>
      mem s1 = mem s' /\
      match r with
      | Err e => wp_in in_tx R G (k (Err e)) Q false s'
      | Ok x =>
          if ab1 then wp_in in_tx R G (k (Err (Failure "failed transaction"))) Q false s'
          else (forall msg, Fault msg -> wp_in in_tx R G (k (Err (Failure msg))) Q false s') /\
               G s' s1 /\ wp_in in_tx R G (k (Ok x)) Q false s1
      end) ab s'.
Proof using. reflexivity. Qed.

(** The others may act before the first step. *)
Lemma wp_rely {A} in_tx (R G : State -> State -> Prop) (p : prog A) : forall Q ab s s',
  (forall s1 s2 s3, R s1 s2 -> R s2 s3 -> R s1 s3) ->
  (forall a b s1 s2, Q a b s1 -> R s1 s2 -> Q a b s2) ->
  R s s' -> wp_in in_tx R G p Q ab s -> wp_in in_tx R G p Q ab s'.
Proof using.
  induction p as [A a|A k IH|A X l k IH|A X st k IH|A X body IHb k IH|A X f k IH|A req k IH];
    intros Q ab s s' HR HQ Hs; cbn [wp_in]; intros H.
  - exact (HQ _ _ _ _ H Hs).
  - intros t Ht. exact (IH t Q ab s s' HR HQ Hs (H t Ht)).
  - intros l' Hl. exact (IH l' Q ab s s' HR HQ Hs (H l' Hl)).
  - intros s2 H2. exact (H s2 (HR _ _ _ Hs H2)).
  - intros s2 H2. exact (H s2 (HR _ _ _ Hs H2)).
  - intros s2 H2. exact (H s2 (HR _ _ _ Hs H2)).
  - intros resp Hr. exact (IH resp Q ab s s' HR HQ Hs (H resp Hr)).
Qed.

(** A program without operations on memory leaves it alone. *)
Lemma wp_memory {A} in_tx (p : prog A) : forall ab s, no_atomic p ->
  wp_in in_tx eq (fun _ _ => True) p (fun _ b s' => mem s' = mem s /\ (in_tx = false -> ab = false -> b = false)) ab s.
Proof using.
  revert in_tx. induction p as [A a|A k IH|A X l k IH|A X st k IH|A X body IHb k IH|A X f k IH|A req k IH];
    intros in_tx ab s Hp; cbn [wp_in no_atomic] in *; auto.
  - intros s' <-. destruct ab.
    + eapply wp_mono; [|apply IH, Hp]. cbn. intros a b s1 [H1 _]. split; [exact H1|]. intros _ H. discriminate H.
    + assert (forall r b0 d, (in_tx = false -> b0 = false) ->
        wp_in in_tx eq (fun _ _ => True) (k r) (fun _ b s' => mem s' = mem s /\ (in_tx = false -> false = false -> b = false))
          b0 {| s with db := d |}) as Hk.
      { intros r b0 d Hb0. eapply wp_mono; [|apply (IH r in_tx b0 {| s with db := d |}), Hp].
        cbn. intros a b s1 [H1 H2]. auto. }
      split.
      * intros msg _. destruct s as [d m]. apply (Hk (Err (Failure msg)) in_tx d). auto.
      * intros env _. split; [exact I|]. apply Hk. intros ->. reflexivity.
  - destruct Hp as [Hb Hk]. intros s' <-. split; [auto|]. eapply wp_mono; [|apply (IHb true ab s Hb)].
    intros r ab1 s1 [Hm _]. split; [exact Hm|].
    assert (forall r0 s2, mem s2 = mem s -> wp_in in_tx eq (fun _ _ => True) (k r0)
      (fun _ b s' => mem s' = mem s /\ (in_tx = false -> ab = false -> b = false)) false s2) as Hend.
    { intros r0 s2 H2. eapply wp_mono; [|apply (IH r0 in_tx false s2), Hk]. cbn. intros a b s3 [H3 H4].
      split; [congruence|auto]. }
    destruct r as [x|e]; [|auto]. destruct ab1; auto.
  - destruct Hp.
Qed.

(** A program that only reads leaves the state as it finds it. *)
Lemma wp_read_only {A} (p : prog A) (G : State -> State -> Prop) : (forall s, G s s) -> read_only p ->
  forall s, wp_in false eq G p (fun _ ab s' => ab = false /\ s' = s) false s.
Proof using.
  intros HG. induction p as [A a|A k IH|A X l k IH|A X st k IH|A X body IHb k IH|A X f k IH|A req k IH];
    cbn [wp_in read_only]; intros Hp s; auto; try contradiction.
  destruct Hp as [Hst Hk]. intros s' <-. split; [intros msg _; apply IH, Hk|].
  intros env _. rewrite Hst. assert ({| s with db := db s |} = s) as -> by (destruct s; reflexivity).
  split; [apply HG|]. apply IH, Hk.
Qed.

(** *** Loops (outside a transaction) *)

(** The rule of a loop that may stop with an error: [I] of the part of the
    list that is done, [Qe] where it stops. *)
Lemma wp_for_each {X} R G (f : X -> prog (result unit)) (I : list X -> State -> Prop) (Qe : error -> State -> Prop) l :
  (forall pre x post s, l = pre ++ x :: post -> I pre s ->
     wp_in false R G (f x) (fun r ab s' =>
       match r with Ok _ => ab = false /\ I (pre ++ [x]) s' | Err e => Qe e s' end) false s) ->
  forall s, I [] s ->
  wp_in false R G (for_each l f) (fun r ab s' =>
    match r with Ok _ => ab = false /\ I l s' | Err e => Qe e s' end) false s.
Proof using.
  intros Hstep. cut (forall post pre s, l = pre ++ post -> I pre s ->
    wp_in false R G (for_each post f) (fun r ab s' =>
      match r with Ok _ => ab = false /\ I l s' | Err e => Qe e s' end) false s).
  { intros H s Hs. apply (H l []); auto. }
  induction post as [|x post IH]; intros pre s Hl Hs; cbn [for_each].
  - rewrite app_nil_r in Hl. subst pre. split; [reflexivity|exact Hs].
  - rewrite wp_bind_ok. eapply wp_mono; [|exact (Hstep pre x post s Hl Hs)].
    intros [u|e] ab s' H; [|exact H]. destruct H as [-> H].
    apply (IH (pre ++ [x])); [|exact H]. rewrite <- app_assoc. exact Hl.
Qed.

Lemma wp_for_all {X} R G (f : X -> prog unit) (I : list X -> State -> Prop) l :
  (forall pre x post s, l = pre ++ x :: post -> I pre s ->
     wp_in false R G (f x) (fun _ ab s' => ab = false /\ I (pre ++ [x]) s') false s) ->
  forall s, I [] s -> wp_in false R G (for_all l f) (fun _ ab s' => ab = false /\ I l s') false s.
Proof using.
  intros Hstep. cut (forall post pre s, l = pre ++ post -> I pre s ->
    wp_in false R G (for_all post f) (fun _ ab s' => ab = false /\ I l s') false s).
  { intros H s Hs. apply (H l []); auto. }
  induction post as [|x post IH]; intros pre s Hl Hs; cbn [for_all].
  - rewrite app_nil_r in Hl. subst pre. split; [reflexivity|exact Hs].
  - rewrite wp_bind. eapply wp_mono; [|exact (Hstep pre x post s Hl Hs)].
    intros u ab s' [-> H]. apply (IH (pre ++ [x])); [|exact H]. rewrite <- app_assoc. exact Hl.
Qed.

(** The iteration order over a map is a permutation of its entries. *)
Lemma pick_nth_perm {X} n : forall (l : list X) x rest, pick_nth n l = Some (x, rest) -> l ≡ₚ x :: rest.
Proof using.
  induction n as [|n IH]; intros [|y l] x rest; cbn; try discriminate.
  - intros [= -> ->]. reflexivity.
  - destruct (pick_nth n l) as [[z rest']|] eqn:E; intros [= <- <-]; [|reflexivity].
    rewrite (IH _ _ _ E). apply perm_swap.
Qed.

Lemma permute_perm {X} code : forall l : list X, permute code l ≡ₚ l.
Proof using.
  induction code as [|n code IH]; intros l; cbn; [reflexivity|].
  destruct (pick_nth n l) as [[x rest]|] eqn:E.
  - rewrite (pick_nth_perm _ _ _ _ E). rewrite IH. reflexivity.
  - destruct l as [|x l], n as [|n]; cbn in E; try discriminate; [reflexivity..|].
    destruct (pick_nth n l) as [[]|]; discriminate.
Qed.

(** *** Soundness *)

(** An environment in which the others respect [R], statements fail only with
    a [Fault] and the services answer as they document. *)
Definition respects (R : State -> State -> Prop) (E : Env) : Prop :=
  (forall t s, R s (interfere E t s)) /\
  (forall t msg, fault E t = Some msg -> Fault msg) /\
  (forall t req, Reply req (reply E t req)).

(** An environment whose clocks show nothing else than [C] allows. *)
Definition keeps_time (E : Env) : Prop := (forall n, go_time C (clock E n)) /\ (forall n, sql_time C (sql_env E n)).

Lemma respects_quiet R E : respects R E -> respects eq (quiet E).
Proof using. intros (_ & H). split; [reflexivity | exact H]. Qed.

Lemma run_stmt_wp {X} in_tx G E (st : stmt X) pos (s : State) (K : result X -> bool -> State -> Prop) :
  (forall t msg, fault E t = Some msg -> Fault msg) -> keeps_time E ->
  (if aborted pos then K (Err (Failure "current transaction is aborted")) in_tx s
   else (forall msg, Fault msg -> K (Err (Failure msg)) in_tx s) /\
        (forall env, sql_time C env -> G s {| s with db := snd (st env (db s)) |} /\
           K (fst (st env (db s))) (in_tx && negb (is_ok (fst (st env (db s)))))
             {| s with db := snd (st env (db s)) |})) ->
  let '(r, d, pos') := run_stmt E in_tx st pos (db s) in K r (aborted pos') {| s with db := d |}.
Proof using.
  intros HE Ht H. assert (s = {| s with db := db s |}) as Es by (destruct s; reflexivity).
  unfold run_stmt. destruct (aborted pos) eqn:Ea.
  - rewrite <- Es. exact H.
  - destruct H as [Hf Hn]. destruct (fault E (tick pos)) as [msg|] eqn:Ef.
    + rewrite <- Es. apply Hf, (HE _ _ Ef).
    + destruct (Hn (sql_env E (tick pos)) (proj2 Ht _)) as [_ Hw].
      destruct (st (sql_env E (tick pos)) (db s)) as [[x|e] d'] eqn:Est; cbn in Hw |- *.
      * rewrite andb_false_r in Hw. rewrite Ea. exact Hw.
      * rewrite andb_true_r in Hw. exact Hw.
Qed.

Lemma wp_in_run_from {A} R G E (p : prog A) : forall in_tx Q pos s,
  respects R E -> keeps_time E -> wp_in in_tx R G p Q (aborted pos) s ->
  let '(a, s', pos') := run E in_tx p pos s in Q a (aborted pos') s'.
Proof using.
  revert R G E.
  induction p as [A a|A k IH|A X l k IH|A X st k IH|A X body IHb k IH|A X f k IH|A req k IH];
    intros R G E in_tx Q pos s HE Ht H; cbn [run wp_in] in *.
  - exact H.
  - eapply IH; [exact HE|exact Ht|]. apply H, (proj1 Ht).
  - eapply IH; [exact HE|exact Ht|]. apply H, permute_perm.
  - specialize (H _ (proj1 HE (tick pos) s)). set (s' := interfere E (tick pos) s) in *.
    pose proof (run_stmt_wp in_tx G E st pos s' (fun r ab s1 => wp_in in_tx R G (k r) Q ab s1) (proj1 (proj2 HE)) Ht H) as H1.
    destruct (run_stmt E in_tx st pos (db s')) as [[r d] pos'].
    eapply IH; [exact HE|exact Ht|exact H1].
  - destruct (H _ (proj1 HE (tick pos) s)) as (Hb & Hbody). clear H.
    set (s' := interfere E (tick pos) s) in *.
    destruct (fault E (tick pos)) as [msg|] eqn:Ef;
      [eapply IH; [exact HE|exact Ht|]; apply Hb, (proj1 (proj2 HE) _ _ Ef)|].
    specialize (IHb eq (fun _ _ => True) (quiet E) true _ (next_pos pos) s' (respects_quiet R E HE) Ht Hbody).
    destruct (run (quiet E) true body (next_pos pos) s') as [[r s1] pos1]. destruct IHb as [Hm Hr].
    assert ({| s1 with db := db s' |} = s') as Es by (destruct s1, s'; cbn in *; congruence).
    destruct r as [x|e]; [|eapply IH; [exact HE|exact Ht|]; rewrite Es; exact Hr].
    destruct (aborted pos1); [eapply IH; [exact HE|exact Ht|]; rewrite Es; exact Hr|].
    destruct Hr as (Hc & _ & Hr). destruct (fault E (tick pos1)) as [msg|] eqn:Ef1; (eapply IH; [exact HE|exact Ht|]).
    + rewrite Es. apply Hc, (proj1 (proj2 HE) _ _ Ef1).
    + exact Hr.
  - destruct (H _ (proj1 HE (tick pos) s)) as [_ Hn]. set (s' := interfere E (tick pos) s) in *.
    destruct (f (mem s')) as [x m]. eapply IH; [exact HE|exact Ht|]. exact Hn.
  - eapply IH; [exact HE|exact Ht|]. apply H, (proj2 (proj2 HE)).
Qed.

Lemma run_wp_in {A} R G E (p : prog A) Q s a s' :
  respects R E -> keeps_time E -> wp_in false R G p (fun a _ s' => Q a s') false s -> run_top E p s = (a, s') -> Q a s'.
Proof using.
  intros HE Ht H Hr. pose proof (wp_in_run_from R G E p false (fun a _ s' => Q a s') (mkPos 0 false) s HE Ht H) as H'.
  unfold run_top in Hr. destruct (run E false p (mkPos 0 false) s) as [[a1 s1] pos].
  cbn in Hr. congruence.
Qed.

End Wp.

(** *** Any clock *)

(** Most properties hold whatever the clocks show. *)
Abbreviation wp := (wp_in (C := any_time)).

Section AnyTime.
Variable Fault : string -> Prop.
Variable Reply : forall req, Resp req -> Prop.

Lemma any_time_kept E : keeps_time (C := any_time) E.
Proof using. split; intros n; exact I. Qed.

Lemma wp_Now {A} in_tx R G (k : Z -> prog A) Q ab s :
  wp Fault Reply in_tx R G (Now k) Q ab s <-> forall t, wp Fault Reply in_tx R G (k t) Q ab s.
Proof using. split; intros H t; [|intros _]; apply H. exact I. Qed.

Lemma wp_run_from {A} R G E (p : prog A) in_tx Q pos s :
  respects Fault Reply R E -> wp Fault Reply in_tx R G p Q (aborted pos) s ->
  let '(a, s', pos') := run E in_tx p pos s in Q a (aborted pos') s'.
Proof using. intros HE. apply (wp_in_run_from Fault Reply R G E p in_tx Q pos s HE (any_time_kept E)). Qed.

Lemma run_wp {A} R G E (p : prog A) Q s a s' :
  respects Fault Reply R E -> wp Fault Reply false R G p (fun a _ s' => Q a s') false s -> run_top E p s = (a, s') -> Q a s'.
Proof using. intros HE. apply (run_wp_in Fault Reply R G E p Q s a s' HE (any_time_kept E)). Qed.

(** Of the final state. *)
Lemma run_state_wp {A} R G E (p : prog A) (Post : State -> Prop) s :
  respects Fault Reply R E -> wp Fault Reply false R G p (fun _ _ s' => Post s') false s -> Post (snd (run_top E p s)).
Proof using.
  intros HE H. destruct (run_top E p s) as [a s'] eqn:Er.
  exact (run_wp R G E p (fun _ s' => Post s') s a s' HE H Er).
Qed.
End AnyTime.
End Programs.

Arguments prog {DB Mem Req Resp} A.
Arguments State DB Mem : clear implicits.
Arguments Env DB Mem Req Resp : clear implicits.
Arguments wp_in {DB Mem Req Resp C} Fault Reply {A} in_tx R G p Q ab s : simpl never.
Arguments keeps_time {DB Mem Req Resp} C E.
Abbreviation wp := (wp_in (C := any_time)).
Arguments for_each {DB Mem Req Resp X} l f : simpl never.
Arguments for_all {DB Mem Req Resp X} l f : simpl never.
Arguments respects {DB Mem Req Resp} Fault Reply R E.
Arguments Ret {DB Mem Req Resp A} a.
Arguments Now {DB Mem Req Resp A} k.
Arguments Range {DB Mem Req Resp A X} l k.
Arguments Sql {DB Mem Req Resp A X} s k.
Arguments Tx {DB Mem Req Resp A X} body k.
Arguments Atomic {DB Mem Req Resp A X} f k.
Arguments Call {DB Mem Req Resp A} req k.

Declare Scope prog_scope.
Delimit Scope prog_scope with prog.

Notation "'let*' x ':=' p 'in' q" := (bind p (fun x => q))
  (at level 10, x name, p at level 100, q at level 200) : prog_scope.
Notation "'let?' x ':=' p 'in' q" := (bind_ok p (fun x => q))
  (at level 10, x name, p at level 100, q at level 200) : prog_scope.
Notation "p ';;?' q" := (bind_ok p (fun _ => q)) (at level 199, right associativity) : prog_scope.
