(* ===== verification/Tables.v ===== *)
(** * The shared state: database tables, timers, other services

    The schema of [src/migrations/001_init.sql] as a record of tables, the
    rows that [src/internal/store] adds to those of [Model], the in-memory
    timer table of [src/internal/service/timer.go], and the requests the
    program makes to other services.  [Prog]'s programs are instantiated with
    these.

    A table is the list of its rows in physical order, which SQL leaves
    unspecified: nothing is assumed of it.  What the program relies on of
    PostgreSQL beyond SQL's reading of its statements is the class [Postgres]:
    the precision of TIMESTAMPTZ, the rounding of NUMERIC(5,4) and the text of an
    INT parameter.

    Theorems: an UPDATE keeps the keys of a table; the laws of [Postgres] hold
    of a concrete instance; a share that the program computes is stored as the
    nearest multiple of 1/10000. *)

From Stdlib Require Import QArith Lqa Floats.SpecFloat.
From S2P Require Import Prelude Float64 GoLang Strconv Model Prog.
#[local] Open Scope Z_scope.

(** MerkleProofRow represents a stored merkle proof record. *)
Record MerkleProofRow := mkMerkleProofRow {
  m_EpochDate : Z;
  m_Recipient : string;
  m_Amount : Z;
  m_LeafHash : string;
  m_Proof : list string;
  m_Claimed : bool
}.

Record ConfigEntry := mkConfigEntry {
  c_Key : string;
  c_Value : string;
  c_Description : string;
  c_UpdatedAt : Z
}.

(** The tables, and the state of the two identity sequences. *)
Record DB := mkDB {
  workers : list Worker;
  benchmark_sets : list BenchmarkSet;
  questions : list Question;
  assignments : list Assignment;
  epochs : list Epoch;
  worker_epoch_rewards : list WorkerEpochReward;
  merkle_proofs : list MerkleProofRow;
  system_config : list ConfigEntry;
  next_question_id : Z;
  next_assignment_id : Z
}.

(** A pending [time.AfterFunc] or a started goroutine of the timer manager:
    the call [handleTimeout(assignmentID, questionID, worker)] or
    [TryScore(questionID)]. *)
Inductive Task :=
| HandleTimeout (assignmentID questionID : Z) (worker : string)
| TryScoreTask (questionID : Z).

(** The timer manager's memory: [timers] maps an assignment to its timer's
    number, [pending] the numbers of armed timers to their tasks, and
    [spawned] lists the goroutines started so far, newest first. *)
Record Timers := mkTimers {
  timers : gmap Z nat;
  pending : gmap nat (Z * Task);
  next_timer : nat;
  spawned : list Task
}.

(** Calls to other services: the RootNet API (the reply carries the status
    code and the decoded body), and an EVM node through go-ethereum's client. *)
Inductive Request :=
| HttpCheck (url : string)
| HttpUser (url : string)
| DialContext (url : string)
| PendingNonceAt (account : list byte)
| SuggestGasPrice
| SendTransaction (nonce gasPrice : Z) (to : list byte) (data : list byte)
| TransactionReceipts.

Record addressCheckResponse := mkAddressCheckResponse {
  ac_IsRegistered : bool;
  ac_BoundTo : string;
  ac_Recipient : string;
  ac_IsRegisteredUser : bool;
  ac_IsRegisteredAgent : bool
}.

Record userResponse := mkUserResponse {
  u_UserAddress : string;
  u_RecipientAddress : string
}.

(** An HTTP reply: the transport's error, or the status code and the body,
    decoded or not. *)
Definition HttpReply (T : Type) : Type := result (Z * result T).

Definition Response (req : Request) : Type :=
  match req with
  | HttpCheck _ => HttpReply addressCheckResponse
  | HttpUser _ => HttpReply userResponse
  | DialContext _ => result unit
  | PendingNonceAt _ => result Z
  | SuggestGasPrice => result Z
  | SendTransaction _ _ _ _ => result unit
  | TransactionReceipts => list (result bool)
  end.

Abbreviation St := (State DB Timers).
Abbreviation Prg := (@prog DB Timers Request Response).
Abbreviation ServerEnv := (Env DB Timers Request Response).

(** ** SQL *)

(** UPDATE: the number of rows that satisfy the WHERE clause, and the table
    with those rows changed. *)
Definition update_rows {X} (p : X -> bool) (u : X -> X) (l : list X) : list X :=
  map (fun x => if p x then u x else x) l.
Arguments update_rows : simpl never.

(** ORDER BY an integer key, ascending or descending. *)
Definition key_le {X} (key : X -> Z) (x y : X) : Prop := key x <= key y.
#[export] Instance key_le_dec {X} (key : X -> Z) x y : Decision (key_le key x y).
Proof. unfold key_le. apply _. Defined.
#[export] Instance key_le_trans {X} (key : X -> Z) : Transitive (key_le key).
Proof. unfold key_le. intros x y z. lia. Qed.
#[export] Instance key_le_total {X} (key : X -> Z) : Total (key_le key).
Proof. unfold key_le. intros x y. lia. Qed.

Definition order_by {X} (key : X -> Z) (l : list X) : list X := merge_sort (key_le key) l.
Definition order_by_desc {X} (key : X -> Z) (l : list X) : list X := order_by (fun x => - key x) l.

(** ORDER BY two keys. *)
Definition keys_le {X} (k1 k2 : X -> Z) (x y : X) : Prop := k1 x < k1 y \/ (k1 x = k1 y /\ k2 x <= k2 y).
#[export] Instance keys_le_dec {X} (k1 k2 : X -> Z) x y : Decision (keys_le k1 k2 x y).
Proof. unfold keys_le. apply _. Defined.

Definition order_by2 {X} (k1 k2 : X -> Z) (l : list X) : list X := merge_sort (keys_le k1 k2) l.

(** The row a query without ORDER BY returns first: any. *)
Definition any_row {X} (n : nat) (l : list X) : option X := l !! (n mod length l)%nat.

(** The range of an INT column. *)
Definition int4 (z : Z) : bool := (- 2 ^ 31 <=? z) && (z <? 2 ^ 31).

Class Postgres := {
  pg_timestamp : Z -> Z;
  pg_numeric_5_4 : float64 -> option Z;
  pg_int4 : string -> option Z
}.

(** A NUMERIC(5,4) value k/10000 as [Scan] reads it into a float64. *)
Definition of_numeric (k : Z) : float64 := of_ratio k 10000.

(** A float64 as the column holds it, by the float64 that is read back. *)
Definition stored `{Postgres} (f : float64) : option float64 := of_numeric <$> pg_numeric_5_4 f.

(** A column error. *)
Definition violates {X} (what : string) : result X := Err (Failure what).

(** What the program relies on: a TIMESTAMPTZ keeps microseconds, a
    NUMERIC(5,4) keeps the nearest ten-thousandth (a double is sent as its
    shortest decimal, which may move a value that lies within 2^-30 of a tie),
    and the empty share is exact. *)
Class PostgresLaws (P : Postgres) : Prop := {
  timestamp_near t : Z.abs (pg_timestamp t - t) < 1000;
  timestamp_mono t u : t <= u -> pg_timestamp t <= pg_timestamp u;
  numeric_near f : nonneg_finite f -> (fval f <= 1)%Q -> exists k, pg_numeric_5_4 f = Some k /\
    (inject_Z k - (10000 # 1) * fval f <= (1 # 2) + p2 (-30))%Q /\
    ((10000 # 1) * fval f - inject_Z k <= (1 # 2) + p2 (-30))%Q
}.

(** ** A concrete PostgreSQL: nearest microsecond, nearest ten-thousandth *)

Definition round_numeric (f : float64) : option Z :=
  match f with
  | S754_zero _ => Some 0
  | S754_finite false m e =>
      let k := if 0 <=? e then 10000 * (Z.pos m * 2 ^ e)
               else (20000 * Z.pos m + 2 ^ (- e)) / (2 * 2 ^ (- e)) in
      if k <? 100000 then Some k else None
  | _ => None
  end.

#[export] Instance pg_example : Postgres := {|
  pg_timestamp := fun t => 1000 * ((t + 500) / 1000);
  pg_numeric_5_4 := round_numeric;
  pg_int4 := fun s => match Atoi s with Some z => if int4 z then Some z else None | None => None end
|}.

Lemma nearest_division n d : 0 < d -> 
  (inject_Z ((2 * n + d) / (2 * d)) * inject_Z d - inject_Z n <= inject_Z d * (1 # 2))%Q /\
  (inject_Z n - inject_Z ((2 * n + d) / (2 * d)) * inject_Z d <= inject_Z d * (1 # 2))%Q.
Proof.
  intros Hd. set (k := (2 * n + d) / (2 * d)).
  pose proof (Z.div_mod (2 * n + d) (2 * d) ltac:(lia)) as H. fold k in H.
  pose proof (Z.mod_pos_bound (2 * n + d) (2 * d) ltac:(lia)).
  split; unfold Qle, Qminus, Qplus, Qmult, Qopp, inject_Z; cbn; nia.
Qed.

Lemma round_numeric_near f : nonneg_finite f -> (fval f <= 1)%Q -> exists k, round_numeric f = Some k /\
  (inject_Z k - (10000 # 1) * fval f <= (1 # 2))%Q /\ ((10000 # 1) * fval f - inject_Z k <= (1 # 2))%Q.
Proof.
  intros Hf H1. destruct f as [s|s| |[] m e]; try easy; [exists 0; split; [reflexivity|]; split; discriminate|].
  cbn [fval round_numeric] in *.
  set (k := if 0 <=? e then _ else _).
  assert ((inject_Z k - (10000 # 1) * (inject_Z (Z.pos m) * p2 e) <= (1 # 2))%Q /\
    ((10000 # 1) * (inject_Z (Z.pos m) * p2 e) - inject_Z k <= (1 # 2))%Q) as [Ha Hb].
  { subst k. destruct (Z.leb_spec 0 e) as [He|He].
    - rewrite !inject_Z_mult, <- p2_Z by exact He. change (inject_Z 10000) with (10000 # 1)%Q. split; lra.
    - pose proof (p2_Z (- e) ltac:(lia)) as Hp. pose proof (p2_inv e) as Hi. pose proof (p2_pos e) as Hpos.
      set (d := 2 ^ (- e)) in *. assert (0 < d) as Hd by (apply Z.pow_pos_nonneg; lia).
      pose proof (nearest_division (10000 * Z.pos m) d Hd) as [H2 H3].
      replace (2 * (10000 * Z.pos m)) with (20000 * Z.pos m) in * by lia.
      set (k := (20000 * Z.pos m + d) / (2 * d)) in *.
      rewrite inject_Z_mult in *. change (inject_Z 10000) with (10000 # 1)%Q in *.
      rewrite Hp in Hi. set (kq := inject_Z k) in *. set (x := inject_Z d) in *. set (mq := inject_Z (Z.pos m)) in *.
      set (pe := p2 e) in *.
      assert (kq == kq * (pe * x))%Q as Ek by (rewrite Hi; ring).
      assert ((1 # 2) == (1 # 2) * (pe * x))%Q as Eh by (rewrite Hi; ring). split; nra. }
  assert (k < 100000) as Hk.
  { apply inject_Z_lt. change (inject_Z 100000) with (100000 # 1)%Q. lra. }
  exists k. destruct (Z.ltb_spec k 100000); [auto|lia].
Qed.

#[export] Instance pg_example_laws : PostgresLaws pg_example.
Proof.
  split.
  - intros t. cbn. pose proof (Z.div_mod (t + 500) 1000 ltac:(lia)).
    pose proof (Z.mod_pos_bound (t + 500) 1000 ltac:(lia)). lia.
  - intros t u H. cbn. pose proof (Z.div_le_mono (t + 500) (u + 500) 1000 ltac:(lia) ltac:(lia)). lia.
  - intros f Hf H1. destruct (round_numeric_near f Hf H1) as (k & Hk & Ha & Hb). exists k.
    pose proof (p2_pos (-30)). split; [exact Hk|]. split; lra.
Qed.

(** ** Consequences *)

Section Laws.
Context {P : Postgres} {L : PostgresLaws P}.

(** The ten-thousandths that a double in [0, 1] is stored as, when it is not
    close to a tie. *)
Lemma numeric_unique f k : nonneg_finite f -> (fval f <= 1)%Q ->
  (inject_Z k - (10000 # 1) * fval f <= (49 # 100))%Q -> ((10000 # 1) * fval f - inject_Z k <= (49 # 100))%Q ->
  pg_numeric_5_4 f = Some k.
Proof using L.
  intros Hf H1 Ha Hb. destruct (numeric_near f Hf H1) as (k' & Hk & Ha' & Hb').
  rewrite Hk. f_equal. assert (p2 (-30) < 1 # 100)%Q as Hp by reflexivity.
  assert (inject_Z k' < inject_Z (k + 1))%Q as H2 by (rewrite inject_Z_plus; change (inject_Z 1) with 1%Q; lra).
  assert (inject_Z k < inject_Z (k' + 1))%Q as H3 by (rewrite inject_Z_plus; change (inject_Z 1) with 1%Q; lra).
  apply inject_Z_lt in H2, H3. lia.
Qed.

(** Decided by computation on a concrete double. *)
Definition near_units (f : float64) (k : Z) : bool :=
  (match f with S754_zero _ => true | S754_finite false _ _ => true | _ => false end) &&
  Qle_bool (fval f) 1 && Qle_bool (inject_Z k - (10000 # 1) * fval f) (49 # 100) &&
  Qle_bool ((10000 # 1) * fval f - inject_Z k) (49 # 100).

Lemma numeric_computed f k : near_units f k = true -> pg_numeric_5_4 f = Some k.
Proof using L.
  unfold near_units. rewrite !andb_true_iff, !Qle_bool_iff. intros [[[Hf H1] Ha] Hb].
  apply numeric_unique; auto. destruct f as [| | |[]]; easy.
Qed.

(** A pass rate or an equal share is stored between 0 and 1. *)
Lemma numeric_bounds f : nonneg_finite f -> (fval f <= 1)%Q ->
  exists k, pg_numeric_5_4 f = Some k /\ 0 <= k <= 10000.
Proof using L.
  intros Hf H1. destruct (numeric_near f Hf H1) as (k & Hk & Ha & Hb). exists k. split; [exact Hk|].
  pose proof (fval_nonneg f Hf). assert (p2 (-30) < 1 # 100)%Q as Hp by reflexivity.
  assert (inject_Z (-1) < inject_Z k)%Q as H2 by (change (inject_Z (-1)) with (-1 # 1)%Q; lra).
  assert (inject_Z k < inject_Z 10001)%Q as H3 by (change (inject_Z 10001) with (10001 # 1)%Q; lra).
  apply inject_Z_lt in H2, H3. lia.
Qed.
End Laws.

(** ** Lemmas on tables *)

Section Rows.
Context {X : Type}.
Implicit Types (p : X -> bool) (u : X -> X) (l : list X).

Lemma length_update_rows p u l : length (update_rows p u l) = length l.
Proof using. apply length_map. Qed.

(** An UPDATE that does not touch a column keeps that column. *)
Lemma update_rows_keys {K} (key : X -> K) p u l :
  (forall x, key (u x) = key x) -> map key (update_rows p u l) = map key l.
Proof using.
  intros H. unfold update_rows. rewrite map_map. apply map_ext. intros x. destruct (p x); auto.
Qed.

Lemma update_rows_none p u l : count_if p l = 0 -> update_rows p u l = l.
Proof using.
  rewrite <- count_if_zero. intros H. unfold update_rows. induction l as [|x l IH]; [reflexivity|].
  cbn. rewrite H by left. f_equal. apply IH. intros y Hy. apply H. right. exact Hy.
Qed.

Lemma elem_of_update_rows p u l y :
  y ∈ update_rows p u l <-> exists x, x ∈ l /\ y = (if p x then u x else x).
Proof using. unfold update_rows. rewrite elem_of_map. split; intros (x & H1 & H2); eauto. Qed.

Lemma update_rows_lookup p u l i : update_rows p u l !! i = (fun x => if p x then u x else x) <$> l !! i.
Proof using. apply list_lookup_map. Qed.

Lemma order_by_perm key l : order_by key l ≡ₚ l.
Proof using. apply merge_sort_Permutation. Qed.

Lemma elem_of_order_by key l x : x ∈ order_by key l <-> x ∈ l.
Proof using. rewrite (order_by_perm key l). reflexivity. Qed.

Lemma order_by2_perm k1 k2 l : order_by2 k1 k2 l ≡ₚ l.
Proof using. apply merge_sort_Permutation. Qed.

Lemma elem_of_order_by2 k1 k2 l x : x ∈ order_by2 k1 k2 l <-> x ∈ l.
Proof using. rewrite (order_by2_perm k1 k2 l). reflexivity. Qed.

Lemma any_row_in n l x : any_row n l = Some x -> x ∈ l.
Proof using. apply list_elem_of_lookup_2. Qed.

Lemma any_row_none n l : any_row n l = None <-> l = [].
Proof using.
  unfold any_row. destruct l as [|x l]; [split; reflexivity|].
  split; [|discriminate]. intros H. apply lookup_ge_None in H.
  pose proof (Nat.mod_upper_bound n (length (x :: l)) ltac:(discriminate)). lia.
Qed.

(** A row found by its unique key. *)
Lemma nodup_key_unique {K} (key : X -> K) l x y :
  NoDup (map key l) -> x ∈ l -> y ∈ l -> key x = key y -> x = y.
Proof using.
  induction l as [|z l IH]; intros Hn Hx Hy E; [inversion Hx|].
  cbn in Hn. apply NoDup_cons in Hn as [Hz Hn].
  assert (forall a, a ∈ l -> key a = key z -> False) as Hno.
  { intros a Ha Ea. apply Hz. apply elem_of_map. exists a. auto. }
  apply elem_of_cons in Hx as [->|Hx]; apply elem_of_cons in Hy as [->|Hy]; auto; exfalso; eauto.
Qed.
End Rows.

(** Counting one row. *)
Lemma count_if_unique {X K} (key : X -> K) (p : X -> bool) l x : NoDup (map key l) -> x ∈ l -> p x = true ->
  (forall y, p y = true -> key y = key x) -> count_if p l = 1.
Proof.
  induction l as [|z l IH]; intros Hn Hx Hp Hk; [inversion Hx|].
  cbn in Hn. apply NoDup_cons in Hn as [Hz Hn]. rewrite count_if_cons.
  destruct (p z) eqn:Hpz.
  - assert (count_if p l = 0) as ->; [|lia]. apply count_if_zero. intros y Hy. destruct (p y) eqn:Hpy; [|reflexivity].
    destruct Hz. apply elem_of_map. exists y. split; [|exact Hy]. rewrite (Hk y Hpy), (Hk z Hpz). reflexivity.
  - apply elem_of_cons in Hx as [->|Hx]; [congruence|]. rewrite (IH Hn Hx Hp Hk). reflexivity.
Qed.

(** An UPDATE whose new rows are outside of [q]. *)
Lemma count_if_update_out {X} (q p : X -> bool) (u : X -> X) l : (forall x, q (u x) = false) ->
  count_if q (update_rows p u l) = count_if q l - count_if (fun x => p x && q x) l.
Proof.
  intros Hu. unfold update_rows. induction l as [|x l IH]; [reflexivity|].
  cbn [map]. rewrite !count_if_cons, IH. destruct (p x); cbn [andb]; [rewrite Hu; destruct (q x)|]; lia.
Qed.

#[export] Hint Rewrite @elem_of_update_rows @elem_of_order_by @elem_of_order_by2 @elem_of_filter_bool : subnet.

(** ** Environments

    Statements may fail or not; the services may answer anything; the other
    goroutines are at rest or do as [R] says. *)
Definition any_fault (msg : string) : Prop := True.
Definition no_fault (msg : string) : Prop := False.
Definition any_reply (req : Request) (resp : Response req) : Prop := True.
Definition any_step (s s' : St) : Prop := True.

(** An environment without interference: one request served alone. *)
Abbreviation alone := (respects any_fault any_reply (@eq St)).
(** The same, and no statement fails. *)
Abbreviation undisturbed := (respects no_fault any_reply (@eq St)).

(** A concrete environment for witnesses: the clock shows [t], nothing fails,
    nobody interferes; RootNet and the chain answer as given. *)
Definition still_env (t : Z) (rnd : nat) (answer : forall req, Response req) : ServerEnv :=
  mkEnv (fun _ => t) (fun _ => mkSqlEnv t rnd) (fun _ => None) (fun _ => []) (fun _ => answer) (fun _ s => s).

Definition refuse (req : Request) : Response req :=
  match req with
  | HttpCheck _ => Err (Failure "refused")
  | HttpUser _ => Err (Failure "refused")
  | DialContext _ => Err (Failure "refused")
  | PendingNonceAt _ => Err (Failure "refused")
  | SuggestGasPrice => Err (Failure "refused")
  | SendTransaction _ _ _ _ => Err (Failure "refused")
  | TransactionReceipts => []
  end.

Lemma still_undisturbed t rnd answer : undisturbed (still_env t rnd answer).
Proof. repeat split; cbn; discriminate. Qed.

Lemma undisturbed_alone E : undisturbed E -> alone E.
Proof. intros (H1 & H2 & H3). repeat split; auto. Qed.

Lemma alone_still (E : ServerEnv) : alone E -> forall t s, interfere E t s = s.
Proof. intros [H _] t s. symmetry. apply H. Qed.

Lemma undisturbed_no_fault (E : ServerEnv) : undisturbed E -> forall n, fault E n = None.
Proof. intros (_ & H & _) n. destruct (fault E n) eqn:F; [destruct (H _ _ F)|reflexivity]. Qed.

Definition no_timers : Timers := mkTimers ∅ ∅ 0 [].

(** A set and a question for examples. *)
Definition toy_question : Question :=
  mkQuestion 1 "bs" "asker" "2+2?" "4" QuestionStatusSubmitted fzero 0 fzero false None 0 None.
Definition toy_bs : BenchmarkSet :=
  mkBenchmarkSet "bs" "" "" "" 1000 1000 "exact" BSStatusActive 1 0 0.

(** An environment in which the n-th effect fails. *)
Definition failing_at (n : nat) : ServerEnv :=
  mkEnv (fun _ => 0) (fun _ => mkSqlEnv 0 0) (fun t => if (t =? n)%nat then Some "connection lost"%string else None)
    (fun _ => []) (fun _ => refuse) (fun _ s => s).

Lemma failing_alone n : alone (failing_at n).
Proof. repeat split. Qed.

(** A goal on the final state of a run becomes one on the program's rule. *)
Ltac by_wp Fault HE :=
  match goal with
  | |- context [snd (run_top ?E ?p ?s)] =>
      pattern (snd (run_top E p s)); apply (run_state_wp Fault any_reply eq any_step E p _ s HE)
  end.
