(* ===== verification/Store.v ===== *)
(** * The store: SQL statements on the shared state

    Models [src/internal/store] ([store.go], [worker.go], [assignment.go],
    [question.go], [benchmark_set.go], [epoch.go], [merkle.go], [config.go]).
    A store function is a program with one SQL statement: a query returns rows
    and leaves the database alone, an UPDATE, INSERT or DELETE returns what the
    driver reports ([RowsAffected], the RETURNING row) and the new database,
    constraint violations of the schema included.  The text of the error that a
    function wraps around the driver's error is kept.

    [store.Store.Tx] is [Prog.Tx].  The columns that the program never reads
    back are kept all the same.

    The lemmas give the rule of a statement for [wp] and for [run]; what the
    statements keep of the tables is in [Lifecycle]. *)

From S2P Require Import Prelude Float64 GoLang Model Prog Tables.
#[local] Open Scope prog_scope.

(** A query: its result, and no change. *)
Definition query {X} (msg : string) (f : SqlEnv -> DB -> result X) : Prg (result X) :=
  Sql (fun env d => (f env d, d)) (fun r => Ret (wrap_error msg r)).

(** A statement that changes the database. *)
Definition exec {X} (msg : string) (f : SqlEnv -> DB -> result X * DB) : Prg (result X) :=
  Sql f (fun r => Ret (wrap_error msg r)).

(** The first row of a query, or [nil] when there is none
    ([sql.ErrNoRows]). *)
Definition first_row {X} (l : list X) : option X := head l.

(** The rules of the two, outside a transaction. *)
Section Rules.
Context {C : Clocks}.
Variable Fault : string -> Prop.
Variable Reply : forall req, Response req -> Prop.
Abbreviation wp_in := (wp_in (C := C) Fault Reply).

Lemma wp_in_query {X} R G msg (f : SqlEnv -> DB -> result X) Q (s : St) :
  wp_in false R G (query msg f) Q false s <->
  forall s', R s s' ->
    (forall m, Fault m -> Q (Err (Wrapped msg (Failure m))) false s') /\
    (forall env, sql_time C env -> G s' s' /\ Q (wrap_error msg (f env (db s'))) false s').
Proof using.
  unfold query, Prog.wp_in. cbn. split; intros H s' Hs; destruct (H s' Hs) as [Hf Hn]; (split; [exact Hf|]);
    intros env Henv; destruct (Hn env Henv); destruct s'; auto.
Qed.

Lemma wp_in_exec {X} R G msg (f : SqlEnv -> DB -> result X * DB) Q (s : St) :
  wp_in false R G (exec msg f) Q false s <->
  forall s', R s s' ->
    (forall m, Fault m -> Q (Err (Wrapped msg (Failure m))) false s') /\
    (forall env, sql_time C env -> G s' {| s' with db := snd (f env (db s')) |} /\
       Q (wrap_error msg (fst (f env (db s')))) false {| s' with db := snd (f env (db s')) |}).
Proof using. reflexivity. Qed.

(** Inside a transaction nobody interferes; after a failure every statement
    fails. *)
Lemma wp_in_query_tx {X} G msg (f : SqlEnv -> DB -> result X) Q ab (s : St) :
  wp_in true eq G (query msg f) Q ab s <->
  if ab then Q (Err (Wrapped msg (Failure "current transaction is aborted"))) true s
  else (forall m, Fault m -> Q (Err (Wrapped msg (Failure m))) true s) /\
       (forall env, sql_time C env -> G s s /\ Q (wrap_error msg (f env (db s))) (negb (is_ok (f env (db s)))) s).
Proof using.
  unfold query, Prog.wp_in. cbn. split.
  - intros H. specialize (H s eq_refl). destruct ab, s; exact H.
  - intros H s' <-. destruct ab, s; exact H.
Qed.

Lemma wp_in_exec_tx {X} G msg (f : SqlEnv -> DB -> result X * DB) Q ab (s : St) :
  wp_in true eq G (exec msg f) Q ab s <->
  if ab then Q (Err (Wrapped msg (Failure "current transaction is aborted"))) true s
  else (forall m, Fault m -> Q (Err (Wrapped msg (Failure m))) true s) /\
       (forall env, sql_time C env -> G s {| s with db := snd (f env (db s)) |} /\
          Q (wrap_error msg (fst (f env (db s)))) (negb (is_ok (fst (f env (db s)))))
            {| s with db := snd (f env (db s)) |}).
Proof using.
  unfold exec, Prog.wp_in. cbn. split.
  - intros H. exact (H s eq_refl).
  - intros H s' <-. exact H.
Qed.
End Rules.

(** The same where the clocks may show anything. *)
Section AnyTime.
Variable Fault : string -> Prop.
Variable Reply : forall req, Response req -> Prop.
Abbreviation wp := (wp Fault Reply).

Lemma any_time_forall (Q : SqlEnv -> Prop) : (forall env, sql_time any_time env -> Q env) <-> forall env, Q env.
Proof using. split; intros H env; [apply H; exact I|intros _; apply H]. Qed.

Lemma wp_query {X} R G msg (f : SqlEnv -> DB -> result X) Q (s : St) :
  wp false R G (query msg f) Q false s <->
  forall s', R s s' ->
    (forall m, Fault m -> Q (Err (Wrapped msg (Failure m))) false s') /\
    (forall env, G s' s' /\ Q (wrap_error msg (f env (db s'))) false s').
Proof using. rewrite wp_in_query. setoid_rewrite any_time_forall. reflexivity. Qed.

Lemma wp_exec {X} R G msg (f : SqlEnv -> DB -> result X * DB) Q (s : St) :
  wp false R G (exec msg f) Q false s <->
  forall s', R s s' ->
    (forall m, Fault m -> Q (Err (Wrapped msg (Failure m))) false s') /\
    (forall env, G s' {| s' with db := snd (f env (db s')) |} /\
       Q (wrap_error msg (fst (f env (db s')))) false {| s' with db := snd (f env (db s')) |}).
Proof using. rewrite wp_in_exec. setoid_rewrite any_time_forall. reflexivity. Qed.

Lemma wp_query_tx {X} G msg (f : SqlEnv -> DB -> result X) Q ab (s : St) :
  wp true eq G (query msg f) Q ab s <->
  if ab then Q (Err (Wrapped msg (Failure "current transaction is aborted"))) true s
  else (forall m, Fault m -> Q (Err (Wrapped msg (Failure m))) true s) /\
       (forall env, G s s /\ Q (wrap_error msg (f env (db s))) (negb (is_ok (f env (db s)))) s).
Proof using. rewrite wp_in_query_tx. destruct ab; [reflexivity|]. rewrite any_time_forall. reflexivity. Qed.

Lemma wp_exec_tx {X} G msg (f : SqlEnv -> DB -> result X * DB) Q ab (s : St) :
  wp true eq G (exec msg f) Q ab s <->
  if ab then Q (Err (Wrapped msg (Failure "current transaction is aborted"))) true s
  else (forall m, Fault m -> Q (Err (Wrapped msg (Failure m))) true s) /\
       (forall env, G s {| s with db := snd (f env (db s)) |} /\
          Q (wrap_error msg (fst (f env (db s)))) (negb (is_ok (fst (f env (db s)))))
            {| s with db := snd (f env (db s)) |}).
Proof using. rewrite wp_in_exec_tx. destruct ab; [reflexivity|]. rewrite any_time_forall. reflexivity. Qed.
End AnyTime.

(** A query, or a statement that changes the database, run alone. *)
Lemma run_query {X} (E : ServerEnv) msg (f : SqlEnv -> DB -> result X) n (s : St) : (forall t s, interfere E t s = s) ->
  run E false (query msg f) (mkPos n false) s =
  (match fault E n with Some m => Err (Wrapped msg (Failure m)) | None => wrap_error msg (f (sql_env E n) (db s)) end,
   s, mkPos (S n) false).
Proof.
  intros Hi. unfold query. cbn [run]. rewrite Hi. unfold run_stmt. cbn.
  destruct s as [d m], (fault E n); cbn; [reflexivity|]. destruct (f _ _); reflexivity.
Qed.

Lemma run_exec {X} (E : ServerEnv) msg (f : SqlEnv -> DB -> result X * DB) n (s : St) : (forall t s, interfere E t s = s) ->
  run E false (exec msg f) (mkPos n false) s =
  (match fault E n with Some m => Err (Wrapped msg (Failure m)) | None => wrap_error msg (fst (f (sql_env E n) (db s))) end,
   {| s with db := match fault E n with Some _ => db s | None => snd (f (sql_env E n) (db s)) end |}, mkPos (S n) false).
Proof.
  intros Hi. unfold exec. cbn [run]. rewrite Hi. unfold run_stmt. cbn.
  destruct (fault E n); cbn; [reflexivity|]. destruct (f _ _) as [[x|e] d']; reflexivity.
Qed.

(** A query, its error wrapped, and what follows, when nothing fails. *)
Lemma run_bind_query {X Y} (E : ServerEnv) msg msg2 (f : SqlEnv -> DB -> result X) (k : X -> Prg (result Y)) n (s : St) :
  (forall t, fault E t = None) -> (forall t s, interfere E t s = s) ->
  run E false (bind_ok (wrapped msg2 (query msg f)) k) (mkPos n false) s =
  match f (sql_env E n) (db s) with
  | Ok x => run E false (k x) (mkPos (S n) false) s
  | Err e => (Err (Wrapped msg2 (Wrapped msg e)), s, mkPos (S n) false)
  end.
Proof.
  intros Hf Hi. unfold bind_ok, wrapped. rewrite !run_bind, run_query, Hf by exact Hi.
  destruct (f _ _); reflexivity.
Qed.

Section Store.
Context {P : Postgres}.

(** ** store.go *)

(** What a [Store] runs its statements on: the connection pool, or a
    transaction. The statements below are the same on both. *)
Inductive DBTX := OnDB | OnTx.

(** [New]. *)
Definition New : DBTX := OnDB.

(** [s.Tx(fn)]: [fn] gets a store on the transaction; a store that is on one
    already runs [fn] in it. *)
Definition Store_Tx {X} (db : DBTX) (fn : DBTX -> Prg (result X)) : Prg (result X) :=
  match db with
  | OnTx => fn OnTx
  | OnDB => Tx (fn OnTx) Ret
  end.

(** ** worker.go *)

Definition find_worker (address : string) (d : DB) : option Worker :=
  List.find (fun w => bool_decide (w_Address w = address)) (workers d).

Definition GetWorker (address : string) : Prg (result (option Worker)) :=
  query "get miner" (fun _ d => Ok (find_worker address d)).

(** INSERT ... ON CONFLICT DO NOTHING RETURNING: a row when it was inserted. *)
Definition insert_worker (address : string) (env : SqlEnv) (d : DB) : result (option Worker) * DB :=
  match find_worker address d with
  | Some _ => (Ok None, d)
  | None =>
      let w := mkWorker address None 0 None (sql_now env) in
      (Ok (Some w), {| d with workers := workers d ++ [w] |})
  end.

Definition CreateWorker (address : string) : Prg (result (option Worker)) :=
  let? w := exec "create worker" (insert_worker address) in
  match w with
  | None => GetWorker address
  | Some w => Ret (Ok (Some w))
  end.

Definition update_worker (address : string) (u : Worker -> Worker) (d : DB) : DB :=
  {| d with workers := update_rows (fun w => bool_decide (w_Address w = address)) u (workers d) |}.

Definition UpdateWorkerLastPollAt (address : string) (t : Z) : Prg (result unit) :=
  exec "update last_poll_at" (fun _ d =>
    (Ok tt, update_worker address (fun w => {| w with w_LastPollAt := Some (pg_timestamp t) |}) d)).

Definition SuspendWorker (address : string) (until violations : Z) : Prg (result unit) :=
  exec "suspend miner" (fun _ d =>
    if int4 violations
    then (Ok tt, update_worker address
                   (fun w => {| w with w_SuspendedUntil := Some (pg_timestamp until);
                                       w_EpochViolations := violations |}) d)
    else (violates "integer out of range", d)).

Definition UnsuspendWorker (address : string) : Prg (result unit) :=
  exec "unsuspend miner" (fun _ d =>
    (Ok tt, update_worker address (fun w => {| w with w_SuspendedUntil := None |}) d)).

(** ** assignment.go *)

Definition find_assignment (id : Z) (d : DB) : option Assignment :=
  List.find (fun a => a_AssignmentID a =? id) (assignments d).

Definition is_claimed (a : Assignment) : bool := bool_decide (a_Status a = AssignmentStatusClaimed).
Definition is_replied (a : Assignment) : bool := bool_decide (a_Status a = AssignmentStatusReplied).
Definition is_scored (a : Assignment) : bool := bool_decide (a_Status a = AssignmentStatusScored).
Definition is_timed_out (a : Assignment) : bool := bool_decide (a_Status a = AssignmentStatusTimedOut).
Definition of_worker (worker : string) (a : Assignment) : bool := bool_decide (a_Worker a = worker).
Definition on_question (q : Z) (a : Assignment) : bool := a_QuestionID a =? q.

(** INSERT INTO assignments: the foreign keys, and the unique index on the
    worker of a claimed assignment.  The identity sequence may skip values. *)
Definition insert_assignment (questionID : Z) (worker : string) (replyDDL : Z)
    (env : SqlEnv) (d : DB) : result Assignment * DB :=
  if negb (existsb (fun q => q_QuestionID q =? questionID) (questions d)) then
    (violates "assignments_question_id_fkey", d)
  else match find_worker worker d with
  | None => (violates "assignments_worker_fkey", d)
  | Some _ =>
      if existsb (fun a => is_claimed a && of_worker worker a) (assignments d) then
        (violates "idx_assignments_one_per_worker", d)
      else
        let id := next_assignment_id d + Z.of_nat (sql_random env) in
        let a := mkAssignment id questionID worker AssignmentStatusClaimed (pg_timestamp replyDDL)
                   None None None fzero 0 (sql_now env) in
        (Ok a, {| d with assignments := assignments d ++ [a]; next_assignment_id := id + 1 |})
  end.

Definition CreateAssignment (questionID : Z) (worker : string) (replyDDL : Z) : Prg (result Assignment) :=
  exec "create assignment" (insert_assignment questionID worker replyDDL).

Definition GetAssignment (id : Z) : Prg (result (option Assignment)) :=
  query "get assignment" (fun _ d => Ok (find_assignment id d)).

(** No ORDER BY: with several rows, any of them. *)
Definition GetAssignmentByWorker (questionID : Z) (worker : string) : Prg (result (option Assignment)) :=
  query "get assignment by miner" (fun env d =>
    Ok (any_row (sql_random env)
          (List.filter (fun a => on_question questionID a && of_worker worker a) (assignments d)))).

Definition FindClaimedAssignment (miner : string) : Prg (result (option Assignment)) :=
  query "find claimed assignment" (fun _ d =>
    Ok (first_row (order_by_desc a_CreatedAt
          (List.filter (fun a => of_worker miner a && is_claimed a) (assignments d))))).

Definition ListAssignmentsByQuestion (questionID : Z) : Prg (result (list Assignment)) :=
  query "list assignments" (fun _ d =>
    Ok (order_by a_CreatedAt (List.filter (on_question questionID) (assignments d)))).

(** An UPDATE of assignments: the affected rows, and the database. *)
Definition update_assignments (p : Assignment -> bool) (u : Assignment -> Assignment) (d : DB) : Z * DB :=
  (count_if p (assignments d), {| d with assignments := update_rows p u (assignments d) |}).

Definition claimed_with_id (id : Z) (a : Assignment) : bool := (a_AssignmentID a =? id) && is_claimed a.

Definition with_reply (valid : bool) (answer : string) (now : Z) (a : Assignment) : Assignment :=
  {| a with a_Status := AssignmentStatusReplied; a_ReplyValid := Some valid;
            a_ReplyAnswer := Some answer; a_RepliedAt := Some now |}.

Definition SetAssignmentReply (id : Z) (valid : bool) (answer : string) : Prg (result unit) :=
  let? n := exec "set assignment reply" (fun env d =>
    let '(n, d') := update_assignments (claimed_with_id id) (with_reply valid answer (sql_now env)) d in
    (Ok n, d')) in
  if n =? 0 then Ret (Err (Failure "set assignment reply: not found or not claimed"))
  else Ret (Ok tt).

Definition with_score (status : AssignmentStatus) (score : Z) (share : float64) (a : Assignment) : Assignment :=
  {| a with a_Status := status; a_Score := score; a_Share := share |}.

(** UPDATE assignments SET status, score, share WHERE assignment_id: there is
    no test of the status. *)
Definition SetAssignmentScore (id : Z) (status : AssignmentStatus) (score : Z) (share : float64) : Prg (result unit) :=
  exec "set assignment score" (fun _ d =>
    if int4 score then
      match stored share with
      | Some s => (Ok tt, snd (update_assignments (fun a => a_AssignmentID a =? id) (with_score status score s) d))
      | None => (violates "numeric field overflow", d)
      end
    else (violates "integer out of range", d)).

(** AssignmentFilter; an empty worker is still compared. *)
Record AssignmentFilter := mkAssignmentFilter {
  af_Worker : string;
  af_Status : string;
  af_From : option Z;
  af_To : option Z
}.

Definition in_range (from to : option Z) (t : Z) : bool :=
  match from with Some f => f <=? t | None => true end &&
  match to with Some u => t <? u | None => true end.

Definition ListAssignmentsByFilter (f : AssignmentFilter) : Prg (result (list Assignment)) :=
  query "list assignments by filter" (fun _ d =>
    Ok (order_by_desc a_CreatedAt (List.filter (fun a =>
      of_worker (af_Worker f) a &&
      (bool_decide (af_Status f = ""%string) || bool_decide (assignment_status_string (a_Status a) = af_Status f)) &&
      in_range (pg_timestamp <$> af_From f) (pg_timestamp <$> af_To f) (a_CreatedAt a)) (assignments d)))).

(** A claimed or replied assignment holds a slot of its question. *)
Definition is_active (a : Assignment) : bool := is_claimed a || is_replied a.

Definition active_count (questionID : Z) (d : DB) : Z :=
  count_if (fun a => on_question questionID a && is_active a) (assignments d).

Definition CountActiveAssignments (questionID : Z) : Prg (result Z) :=
  query "count active assignments" (fun _ d => Ok (active_count questionID d)).

Definition timed_out (a : Assignment) : Assignment :=
  {| a with a_Status := AssignmentStatusTimedOut; a_Score := 0; a_Share := fzero |}.

Definition TimeoutAssignment (id : Z) : Prg (result bool) :=
  let? n := exec "timeout assignment" (fun _ d =>
    let '(n, d') := update_assignments (claimed_with_id id) timed_out d in (Ok n, d')) in
  Ret (Ok (0 <? n)).
End Store.

(** Symbolic execution of a request served alone: one statement of the
    program. *)
Ltac wp_norm := repeat (first [rewrite wp_bind | rewrite wp_bind_ok | rewrite wp_wrapped | rewrite wp_Ret]; cbn beta iota).

Ltac wp_statement :=
  wp_norm; first [rewrite wp_query | rewrite wp_exec];
  intros ? <-; split; [intros ? ? | intros ?; split; [exact I|]]; cbn [wrap_error fst snd].

(** The same in a transaction. *)
Ltac tx_statement := wp_norm; first [rewrite wp_query_tx | rewrite wp_exec_tx];
  split; [intros ? _ | intros ?; split; [exact I|]]; cbn [wrap_error fst snd].

(** The same where it matters what the clocks show: [H] is what is known of
    the statement's [env]. *)
Ltac wp_statement_at env H :=
  wp_norm; first [rewrite wp_in_query | rewrite wp_in_exec];
  intros ? <-; split; [intros ? ? | intros env H; split; [exact I|]]; cbn [wrap_error fst snd].
Ltac tx_statement_at env H :=
  wp_norm; first [rewrite wp_in_query_tx | rewrite wp_in_exec_tx];
  split; [intros ? ? | intros env H; split; [exact I|]]; cbn [wrap_error fst snd].

(** One rule of [no_atomic], or a case analysis of the program. *)
Ltac no_atomic_step :=
  lazymatch goal with
  | |- no_atomic (bind_ok _ _) => apply no_atomic_bind_ok; [|intros ?]
  | |- no_atomic (bind _ _) => apply no_atomic_bind; [|intros ?]
  | |- no_atomic (wrapped _ _) => apply no_atomic_wrapped
  | |- no_atomic (for_each _ _) => apply no_atomic_for_each; intros ?
  | |- no_atomic (for_all _ _) => apply no_atomic_for_all; intros ?
  | |- no_atomic (Ret _) => exact I
  | |- no_atomic (Now _) => intros ?
  | |- no_atomic (Range _ _) => intros ?
  | |- no_atomic (Tx _ _) => split; [|intros ?]
  | |- no_atomic (Call _ _) => intros ?
  | |- no_atomic (query _ _) => intros ?; exact I
  | |- no_atomic (exec _ _) => intros ?; exact I
  | |- no_atomic (if ?b then _ else _) => destruct b
  | |- no_atomic (match ?x with _ => _ end) => destruct x
  end.

(** The same for [read_only]. *)
Ltac read_only_step :=
  lazymatch goal with
  | |- read_only (bind_ok _ _) => apply read_only_bind_ok; [|intros ?]
  | |- read_only (bind _ _) => apply read_only_bind; [|intros ?]
  | |- read_only (for_all _ _) => apply read_only_for_all; intros ?
  | |- read_only (Ret _) => exact I
  | |- read_only (Now _) => intros ?
  | |- read_only (Range _ _) => intros ?
  | |- read_only (Call _ _) => intros ?
  | |- read_only (query _ _) => split; [intros ? ?; reflexivity | intros ?; exact I]
  | |- read_only (if ?b then _ else _) => destruct b
  | |- read_only (match ?x with _ => _ end) => destruct x
  | |- read_only (let _ := _ in _) => cbv zeta
  end.

(** ** Frames: what a part of a program leaves alone *)

Definition set_workers (ws : list Worker) (d : DB) : DB := {| d with workers := ws |}.
Definition set_assignments (l : list Assignment) (d : DB) : DB := {| d with assignments := l |}.

Definition only_workers (s s' : St) : Prop :=
  exists ws, s' = {| s with db := set_workers ws (db s) |}.

#[export] Instance only_workers_preorder : PreOrder only_workers.
Proof.
  split.
  - intros [d m]. exists (workers d). destruct d. reflexivity.
  - intros s1 s2 s3 [w1 ->] [w2 ->]. exists w2. reflexivity.
Qed.

Lemma first_row_in {X} (l : list X) x : first_row l = Some x -> x ∈ l.
Proof. destruct l; [discriminate|]. intros [= ->]. left. Qed.

Lemma first_row_none {X} (l : list X) : first_row l = None <-> l = [].
Proof. destruct l; split; intros H; (reflexivity || discriminate). Qed.

(** A search by key. *)
Lemma find_some_elem {X} (p : X -> bool) l x : List.find p l = Some x -> x ∈ l /\ p x = true.
Proof. rewrite list_elem_of_In. apply List.find_some. Qed.

Lemma find_none_elem {X} (p : X -> bool) l : List.find p l = None <-> forall x, x ∈ l -> p x = false.
Proof.
  split.
  - intros H x Hx. apply (List.find_none p l H), list_elem_of_In, Hx.
  - intros H. destruct (List.find p l) as [x|] eqn:E; [|reflexivity].
    apply find_some_elem in E as [Hx Hp]. rewrite (H x Hx) in Hp. discriminate.
Qed.

Lemma find_app {X} (p : X -> bool) l1 l2 :
  List.find p (l1 ++ l2) = match List.find p l1 with Some x => Some x | None => List.find p l2 end.
Proof. induction l1 as [|x l1 IH]; cbn; [reflexivity|]. destruct (p x); [reflexivity | exact IH]. Qed.

(** With unique keys, a search by key finds the row. *)
Lemma find_unique {X K} (key : X -> K) (p : X -> bool) l x : NoDup (map key l) -> x ∈ l -> p x = true ->
  (forall y, p y = true -> key y = key x) -> List.find p l = Some x.
Proof.
  intros Hn Hx Hp Hk. destruct (List.find p l) as [y|] eqn:E.
  - apply find_some_elem in E as [Hy Hpy]. f_equal. apply (nodup_key_unique key l); auto.
  - rewrite (proj1 (find_none_elem p l) E x Hx) in Hp. discriminate.
Qed.
