(* ===== verification/StoreQuestion.v ===== *)
(** * The store: questions, benchmark sets and configuration

    Models [question.go], [benchmark_set.go] and [config.go] of
    [src/internal/store], in the way of [Store].

    The statements are used in [Poll] (the question that is picked is open to
    the worker and has a free slot), [QuestionService], [Scoring] (one caller
    only scores a question) and [HandlersAdmin] (updates of a set). *)

From S2P Require Import Prelude Float64 GoLang Model Prog Tables Store.
#[local] Open Scope prog_scope.

Section StoreQuestion.
Context {P : Postgres}.

(** ** question.go *)

Definition find_question (id : Z) (d : DB) : option Question :=
  List.find (fun q => q_QuestionID q =? id) (questions d).

Definition is_submitted (q : Question) : bool := bool_decide (q_Status q = QuestionStatusSubmitted).
Definition question_scored (q : Question) : bool := bool_decide (q_Status q = QuestionStatusScored).

Definition find_benchmark_set (setID : string) (d : DB) : option BenchmarkSet :=
  List.find (fun b => bool_decide (bs_SetID b = setID)) (benchmark_sets d).

Definition insert_question (bsID questioner question answer : string) (minhash : list byte)
    (env : SqlEnv) (d : DB) : result Question * DB :=
  match find_benchmark_set bsID d, find_worker questioner d with
  | None, _ => (violates "questions_bs_id_fkey", d)
  | _, None => (violates "questions_questioner_fkey", d)
  | Some _, Some _ =>
      let id := next_question_id d + Z.of_nat (sql_random env) in
      let q := mkQuestion id bsID questioner question answer QuestionStatusSubmitted
                 fzero 0 fzero false (Some minhash) (sql_now env) None in
      (Ok q, {| d with questions := questions d ++ [q]; next_question_id := id + 1 |})
  end.

Definition CreateQuestion (bsID questioner question answer : string) (minhash : list byte) : Prg (result Question) :=
  exec "create question" (insert_question bsID questioner question answer minhash).

Definition GetQuestion (id : Z) : Prg (result (option Question)) :=
  query "get question" (fun _ d => Ok (find_question id d)).

(** SELECT minhash ... WHERE minhash IS NOT NULL. *)
Definition minhashes (p : Question -> bool) (d : DB) : list (list byte) :=
  omap q_MinHash (List.filter p (questions d)).

Definition ListQuestionMinHashes (bsID : string) (minScore : Z) : Prg (result (list (list byte))) :=
  query "list question minhashes" (fun _ d =>
    Ok (minhashes (fun q => bool_decide (q_BSID q = bsID) && (minScore <=? q_Score q)) d)).

Definition ListAllQuestionMinHashes (bsID : string) : Prg (result (list (list byte))) :=
  query "list question minhashes" (fun _ d => Ok (minhashes (fun q => bool_decide (q_BSID q = bsID)) d)).

Definition GetLastQuestionTime (questioner : string) : Prg (result (option Z)) :=
  query "get last question time" (fun _ d =>
    Ok (q_CreatedAt <$> first_row (order_by_desc q_CreatedAt
          (List.filter (fun q => bool_decide (q_Questioner q = questioner)) (questions d))))).

Definition scored_as (score : Z) (share passRate : float64) (scoredAt : Z) (q : Question) : Question :=
  {| q with q_Status := QuestionStatusScored; q_Score := score; q_Share := share;
            q_PassRate := passRate; q_ScoredAt := Some scoredAt |}.

Definition submitted_with_id (id : Z) (q : Question) : bool := (q_QuestionID q =? id) && is_submitted q.

(** The UPDATE of [ScoreQuestion]: it tests that the question is still
    submitted. *)
Definition score_question_stmt (id score : Z) (share passRate : float64) (scoredAt : Z) (d : DB) : result Z * DB :=
  if int4 score then
    match stored share, stored passRate with
    | Some s, Some pr =>
        (Ok (count_if (submitted_with_id id) (questions d)),
         {| d with questions := update_rows (submitted_with_id id)
                                  (scored_as score s pr (pg_timestamp scoredAt)) (questions d) |})
    | _, _ => (violates "numeric field overflow", d)
    end
  else (violates "integer out of range", d).

Definition ScoreQuestionRow (id score : Z) (share passRate : float64) (scoredAt : Z) : Prg (result bool) :=
  let? n := exec "score question" (fun _ d => score_question_stmt id score share passRate scoredAt d) in
  Ret (Ok (0 <? n)).

(** The WHERE clause of the candidates. *)
Definition open_to (worker : string) (requiredAnswers : Z) (d : DB) (q : Question) : bool :=
  is_submitted q &&
  negb (bool_decide (q_Questioner q = worker)) &&
  negb (existsb (fun a => on_question (q_QuestionID q) a && of_worker worker a &&
                          (is_claimed a || is_replied a || is_scored a)) (assignments d)) &&
  (count_if (fun a => on_question (q_QuestionID q) a && of_worker worker a && is_timed_out a) (assignments d) <? 2) &&
  (active_count (q_QuestionID q) d <? requiredAnswers).

Definition candidates (worker : string) (requiredAnswers : Z) (d : DB) : list Question :=
  take 100 (order_by q_CreatedAt (List.filter (open_to worker requiredAnswers d) (questions d))).

(** ORDER BY random() FOR UPDATE SKIP LOCKED LIMIT 1: any candidate, or none
    when all of them are locked (a random number past the candidates). *)
Definition PickQuestionForWorker (worker : string) (requiredAnswers : Z) : Prg (result (option Question)) :=
  query "pick question for miner" (fun env d => Ok (candidates worker requiredAnswers d !! sql_random env)).

Record QuestionFilter := mkQuestionFilter {
  qf_Questioner : string;
  qf_Status : string;
  qf_From : option Z;
  qf_To : option Z
}.

Definition ListQuestionsByFilter (f : QuestionFilter) : Prg (result (list Question)) :=
  query "list questions by filter" (fun _ d =>
    Ok (order_by_desc q_CreatedAt (List.filter (fun q =>
      bool_decide (q_Questioner q = qf_Questioner f) &&
      (bool_decide (qf_Status f = ""%string) || bool_decide (question_status_string (q_Status q) = qf_Status f)) &&
      in_range (pg_timestamp <$> qf_From f) (pg_timestamp <$> qf_To f) (q_CreatedAt q)) (questions d)))).

(** UPDATE benchmark_sets: an error when the new row breaks a column's range. *)
Definition update_bs (setID : string) (u : BenchmarkSet -> BenchmarkSet) (ok : BenchmarkSet -> bool) (d : DB) : result unit * DB :=
  let p := fun b => bool_decide (bs_SetID b = setID) in
  if forallb (fun b => ok (u b)) (List.filter p (benchmark_sets d))
  then (Ok tt, {| d with benchmark_sets := update_rows p u (benchmark_sets d) |})
  else (violates "integer out of range", d).

Definition IncrementBSTotalQuestions (bsID : string) : Prg (result unit) :=
  exec "increment bs total_questions" (fun _ d =>
    update_bs bsID (fun b => {| b with bs_TotalQuestions := bs_TotalQuestions b + 1 |})
      (fun b => int4 (bs_TotalQuestions b)) d).

(** ** benchmark_set.go *)

Definition bs_ok (b : BenchmarkSet) : bool :=
  bool_decide (bs_AnswerCheckMethod b = "exact"%string) && int4 (bs_QuestionMaxLen b) && int4 (bs_AnswerMaxLen b).

(** The status column has the CHECK constraint: the parameter is the text, and
    a text that is no status is refused. *)
Definition parse_bs_status (s : string) : option BSStatus :=
  if bool_decide (s = "active"%string) then Some BSStatusActive
  else if bool_decide (s = "inactive"%string) then Some BSStatusInactive
  else None.

Definition insert_bs (setID description questionReq answerReq : string) (questionMaxLen answerMaxLen : Z)
    (checkMethod status : string) (env : SqlEnv) (d : DB) : result BenchmarkSet * DB :=
  match parse_bs_status status with
  | None => (violates "bs_status_check", d)
  | Some st =>
      let b := mkBenchmarkSet setID description questionReq answerReq questionMaxLen answerMaxLen
                 checkMethod st 0 0 (sql_now env) in
      if negb (bs_ok b) then (violates "bs_check_method_check", d)
      else match find_benchmark_set setID d with
      | Some _ => (violates "duplicate key value violates unique constraint benchmark_sets_pkey", d)
      | None => (Ok b, {| d with benchmark_sets := benchmark_sets d ++ [b] |})
      end
  end.

Definition CreateBenchmarkSet (setID description questionReq answerReq : string) (questionMaxLen answerMaxLen : Z)
    (checkMethod status : string) : Prg (result BenchmarkSet) :=
  exec "create benchmark set" (insert_bs setID description questionReq answerReq questionMaxLen answerMaxLen checkMethod status).

Definition GetBenchmarkSet (setID : string) : Prg (result (option BenchmarkSet)) :=
  query "get benchmark set" (fun _ d => Ok (find_benchmark_set setID d)).

Definition ListBenchmarkSets (status : string) : Prg (result (list BenchmarkSet)) :=
  query "list benchmark sets" (fun _ d =>
    Ok (order_by bs_CreatedAt (List.filter (fun b =>
      bool_decide (status = ""%string) || bool_decide (bs_status_string (bs_Status b) = status)) (benchmark_sets d)))).

(** The values of a [map[string]any] as lib/pq sends them: text, NULL, or the
    error for an array or an object. *)
Inductive any :=
| AnyText (s : string)
| AnyNull
| AnyComposite.

(** allowedBSFields; fields and columns have the same names. *)
Definition allowedBSFields : list string :=
  ["description"; "question_requirements"; "answer_requirements"; "question_maxlen"; "answer_maxlen";
   "answer_check_method"; "status"]%string.

(** An INT parameter is converted when it is bound, before any row is looked
    at. *)
Definition convertible (field : string * any) : bool :=
  match field with
  | (_, AnyComposite) => false
  | (col, AnyText s) =>
      if bool_decide (col = "question_maxlen"%string) || bool_decide (col = "answer_maxlen"%string)
      then bool_decide (is_Some (pg_int4 s)) else true
  | (_, AnyNull) => true
  end.

(** One SET clause on a row: NOT NULL and the CHECK constraints. *)
Definition set_column (field : string * any) (b : BenchmarkSet) : result BenchmarkSet :=
  let '(col, v) := field in
  match v with
  | AnyNull => violates "null value in column violates not-null constraint"
  | AnyComposite => violates "unsupported type"
  | AnyText s =>
      if bool_decide (col = "description"%string) then Ok {| b with bs_Description := s |}
      else if bool_decide (col = "question_requirements"%string) then Ok {| b with bs_QuestionRequirements := s |}
      else if bool_decide (col = "answer_requirements"%string) then Ok {| b with bs_AnswerRequirements := s |}
      else if bool_decide (col = "question_maxlen"%string) then Ok {| b with bs_QuestionMaxLen := default 0 (pg_int4 s) |}
      else if bool_decide (col = "answer_maxlen"%string) then Ok {| b with bs_AnswerMaxLen := default 0 (pg_int4 s) |}
      else if bool_decide (col = "answer_check_method"%string) then
        if bool_decide (s = "exact"%string) then Ok {| b with bs_AnswerCheckMethod := s |}
        else violates "bs_check_method_check"
      else
        match parse_bs_status s with
        | Some st => Ok {| b with bs_Status := st |}
        | None => violates "bs_status_check"
        end
  end.

Fixpoint set_columns (fields : list (string * any)) (b : BenchmarkSet) : result BenchmarkSet :=
  match fields with
  | [] => Ok b
  | f :: fields => match set_column f b with Ok b => set_columns fields b | Err e => Err e end
  end.

(** The UPDATE with its RETURNING row, if any. *)
Definition update_fields (setID : string) (fields : list (string * any)) (d : DB) : result (option BenchmarkSet) * DB :=
  if negb (forallb convertible fields) then (violates "invalid input", d)
  else
    match find_benchmark_set setID d with
    | None => (Ok None, d)
    | Some b =>
        match set_columns fields b with
        | Err e => (Err e, d)
        | Ok b' => (Ok (Some b'), {| d with benchmark_sets :=
            update_rows (fun b => bool_decide (bs_SetID b = setID)) (fun _ => b') (benchmark_sets d) |})
        end
    end.

(** [fields] lists the entries of the map. *)
Definition UpdateBenchmarkSet (setID : string) (fields : list (string * any)) : Prg (result (option BenchmarkSet)) :=
  match fields with
  | [] => GetBenchmarkSet setID
  | _ =>
      Range fields (fun fields =>
      match List.find (fun f => negb (existsb (fun a => bool_decide (a = fst f)) allowedBSFields)) fields with
      | Some (key, _) => Ret (Err (Failure ("update benchmark set: unknown field " +:+ key)))
      | None =>
          let? row := exec "update benchmark set" (fun _ d => update_fields setID fields d) in
          match row with
          | None => Ret (Err (Failure "update benchmark set: not found"))
          | Some b => Ret (Ok (Some b))
          end
      end)
  end.

(** ** config.go *)

Definition find_config (key : string) (d : DB) : option ConfigEntry :=
  List.find (fun c => bool_decide (c_Key c = key)) (system_config d).

Definition GetConfig (key : string) : Prg (result string) :=
  query ("get config " +:+ key) (fun _ d =>
    Ok (match find_config key d with Some c => c_Value c | None => ""%string end)).

Definition SetConfig (key value : string) : Prg (result unit) :=
  let? n := exec ("set config " +:+ key) (fun env d =>
    let p := fun c => bool_decide (c_Key c = key) in
    (Ok (count_if p (system_config d)),
     {| d with system_config :=
          update_rows p (fun c => {| c with c_Value := value; c_UpdatedAt := sql_now env |}) (system_config d) |})) in
  if n =? 0 then Ret (Err (Failure "config key not found")) else Ret (Ok tt).

(** ORDER BY key. *)
Definition string_le (s t : string) : Prop := String.leb s t = true.
#[local] Instance string_le_dec s t : Decision (string_le s t).
Proof. unfold string_le. apply _. Defined.

Definition ListConfig : Prg (result (list ConfigEntry)) :=
  query "list config" (fun _ d =>
    Ok (merge_sort (fun c1 c2 => string_le (c_Key c1) (c_Key c2)) (system_config d))).
End StoreQuestion.
