(* ===== verification/StoreEpoch.v ===== *)
(** * The store: epochs, rewards and Merkle proofs

    Models [epoch.go] and [merkle.go] of [src/internal/store], in the way of
    [Store].

    A batch of [BatchSaveWorkerEpochRewards] inserts all of its rows or none;
    what a settlement leaves in these tables is in [Claims]. *)

From S2P Require Import Prelude Float64 GoLang Model Prog Tables Store StoreQuestion.
#[local] Open Scope prog_scope.

Section StoreEpoch.
Context {P : Postgres}.

(** ** epoch.go *)

Definition find_epoch (epochDate : Z) (d : DB) : option Epoch :=
  List.find (fun e => e_EpochDate e =? date_of epochDate) (epochs d).

Definition update_epochs (epochDate : Z) (u : Epoch -> Epoch) (d : DB) : DB :=
  {| d with epochs := update_rows (fun e => e_EpochDate e =? date_of epochDate) u (epochs d) |}.

(** INSERT ... ON CONFLICT (epoch_date) DO UPDATE SET ... RETURNING. *)
Definition upsert_epoch (epochDate totalReward : Z) (d : DB) : result Epoch * DB :=
  let fresh := mkEpoch (date_of epochDate) totalReward 0 None None None in
  match find_epoch epochDate d with
  | None => (Ok fresh, {| d with epochs := epochs d ++ [fresh] |})
  | Some e => (Ok fresh, update_epochs epochDate (fun _ => fresh) d)
  end.

Definition CreateOrResetEpoch (epochDate totalReward : Z) : Prg (result Epoch) :=
  exec "create or reset epoch" (fun _ d => upsert_epoch epochDate totalReward d).

Definition DeleteEpochRewards (epochDate : Z) : Prg (result unit) :=
  exec "delete epoch rewards" (fun _ d =>
    (Ok tt, {| d with worker_epoch_rewards :=
       List.filter (fun r => negb (r_EpochDate r =? date_of epochDate)) (worker_epoch_rewards d) |})).

Definition DeleteEpochMerkleProofs (epochDate : Z) : Prg (result unit) :=
  exec "delete epoch merkle proofs" (fun _ d =>
    (Ok tt, {| d with merkle_proofs :=
       List.filter (fun m => negb (m_EpochDate m =? date_of epochDate)) (merkle_proofs d) |})).

(** WHERE status = 'scored' AND scored_at >= start AND scored_at < end (a NULL
    scored_at satisfies no comparison). *)
Definition scored_in (start stop : Z) (q : Question) : bool :=
  question_scored q &&
  match q_ScoredAt q with
  | Some t => (pg_timestamp start <=? t) && (t <? pg_timestamp stop)
  | None => false
  end.

Definition ResetBenchmarkFlags (start stop : Z) : Prg (result unit) :=
  exec "reset benchmark flags" (fun _ d =>
    (Ok tt, {| d with questions :=
       update_rows (fun q => scored_in start stop q && q_Benchmark q)
         (fun q => {| q with q_Benchmark := false |}) (questions d) |})).

Definition FinishEpoch (epochDate totalScored : Z) : Prg (result unit) :=
  exec "finish epoch" (fun env d =>
    if int4 totalScored
    then (Ok tt, update_epochs epochDate
           (fun e => {| e with e_TotalScored := totalScored; e_SettledAt := Some (sql_now env) |}) d)
    else (violates "integer out of range", d)).

Definition scored_questions_in (start stop : Z) (d : DB) : list Question :=
  order_by (fun q => default 0 (q_ScoredAt q)) (List.filter (scored_in start stop) (questions d)).

Definition ListScoredQuestionsInRange (start stop : Z) : Prg (result (list Question)) :=
  query "list scored questions" (fun _ d => Ok (scored_questions_in start stop d)).

Definition finished (a : Assignment) : bool := is_scored a || is_timed_out a.

Definition scored_assignments_for (questionIDs : list Z) (d : DB) : list Assignment :=
  order_by2 a_QuestionID a_CreatedAt
    (List.filter (fun a => bool_decide (a_QuestionID a ∈ questionIDs) && finished a) (assignments d)).

Definition ListScoredAssignmentsForQuestions (questionIDs : list Z) : Prg (result (list Assignment)) :=
  match questionIDs with
  | [] => Ret (Ok [])
  | _ => query "list scored assignments" (fun _ d => Ok (scored_assignments_for questionIDs d))
  end.

Definition invalid_report (questionID : Z) (a : Assignment) : bool :=
  on_question questionID a && is_scored a && bool_decide (a_ReplyValid a = Some false).

Definition CountInvalidReports (questionID : Z) : Prg (result Z) :=
  query "count invalid reports" (fun _ d => Ok (count_if (invalid_report questionID) (assignments d))).

Definition MarkBenchmark (questionID : Z) (bsID : string) : Prg (result unit) :=
  exec "mark benchmark" (fun _ d =>
    (Ok tt, {| d with questions :=
       update_rows (fun q => q_QuestionID q =? questionID) (fun q => {| q with q_Benchmark := true |}) (questions d) |})) ;;?
  exec "increment qualified" (fun _ d =>
    update_bs bsID (fun b => {| b with bs_QualifiedQuestions := bs_QualifiedQuestions b + 1 |})
      (fun b => int4 (bs_QualifiedQuestions b)) d).

(** A row of the INSERT: the DATE, the NUMERIC, the INT columns. *)
Definition reward_row (r : WorkerEpochReward) : option WorkerEpochReward :=
  c ← stored (r_CompositeScore r);
  guard (int4 (r_ScoredAsks r) && int4 (r_ScoredAnswers r) && int4 (r_TimedOutAnswers r) &&
         int4 (r_AskScoreSum r) && int4 (r_AnswerScoreSum r) = true);;
  Some {| r with r_EpochDate := date_of (r_EpochDate r); r_CompositeScore := c |}.

Definition same_reward (r s : WorkerEpochReward) : bool :=
  (r_EpochDate r =? r_EpochDate s) && bool_decide (r_WorkerAddress r = r_WorkerAddress s).

(** One row: foreign keys, primary key. *)
Definition insert_reward (r : WorkerEpochReward) (d : DB) : result DB :=
  match reward_row r with
  | None => violates "out of range"
  | Some r =>
      match find_epoch (r_EpochDate r) d, find_worker (r_WorkerAddress r) d with
      | Some _, Some _ =>
          if existsb (same_reward r) (worker_epoch_rewards d) then violates "worker_epoch_rewards_pkey"
          else Ok {| d with worker_epoch_rewards := worker_epoch_rewards d ++ [r] |}
      | _, _ => violates "worker_epoch_rewards_fkey"
      end
  end.

(** A multi-row INSERT: all rows or none. *)
Fixpoint insert_rewards (rs : list WorkerEpochReward) (d : DB) : result DB :=
  match rs with
  | [] => Ok d
  | r :: rs => match insert_reward r d with Ok d => insert_rewards rs d | Err e => Err e end
  end.

Definition insert_rewards_stmt (rs : list WorkerEpochReward) (d : DB) : result unit * DB :=
  match insert_rewards rs d with Ok d' => (Ok tt, d') | Err e => (Err e, d) end.

Definition SaveWorkerEpochReward (r : WorkerEpochReward) : Prg (result unit) :=
  exec "save miner epoch reward" (fun _ d => insert_rewards_stmt [r] d).

(** The batches of at most 100 rows; every round drops at least one row, so
    the number of rows is enough fuel. *)
Definition batchSize : nat := 100.

Fixpoint batches_aux {X} (fuel : nat) (l : list X) : list (list X) :=
  match fuel, l with
  | S fuel, _ :: _ => take batchSize l :: batches_aux fuel (drop batchSize l)
  | _, _ => []
  end.
Definition batches {X} (l : list X) : list (list X) := batches_aux (length l) l.

Definition BatchSaveWorkerEpochRewards (rewards : list WorkerEpochReward) : Prg (result unit) :=
  for_each (batches rewards) (fun batch =>
    exec "batch save worker epoch rewards" (fun _ d => insert_rewards_stmt batch d)).

Definition ListWorkerEpochRewards (workerAddress : string) : Prg (result (list WorkerEpochReward)) :=
  query "list miner epoch rewards" (fun _ d =>
    Ok (order_by_desc r_EpochDate
          (List.filter (fun r => bool_decide (r_WorkerAddress r = workerAddress)) (worker_epoch_rewards d)))).

(** ORDER BY epoch_date DESC, worker_address. *)
Definition reward_le (r s : WorkerEpochReward) : Prop :=
  r_EpochDate s < r_EpochDate r \/
  (r_EpochDate s = r_EpochDate r /\ String.leb (r_WorkerAddress r) (r_WorkerAddress s) = true).
#[local] Instance reward_le_dec r s : Decision (reward_le r s).
Proof using. unfold reward_le. apply _. Defined.

Definition ListRecipientEpochRewards (recipient : string) : Prg (result (list WorkerEpochReward)) :=
  query "list recipient epoch rewards" (fun _ d =>
    Ok (merge_sort reward_le
          (List.filter (fun r => bool_decide (r_Recipient r = Some recipient)) (worker_epoch_rewards d)))).

Definition GetWorkerEpochReward (workerAddress : string) (epochDate : Z) : Prg (result (option WorkerEpochReward)) :=
  query "get miner epoch reward" (fun _ d =>
    Ok (List.find (fun r => bool_decide (r_WorkerAddress r = workerAddress) && (r_EpochDate r =? date_of epochDate))
          (worker_epoch_rewards d))).

Definition SetWorkerEpochRecipient (epochDate : Z) (workerAddress recipient : string) : Prg (result unit) :=
  exec "set miner epoch recipient" (fun _ d =>
    (Ok tt, {| d with worker_epoch_rewards :=
       update_rows (fun r => (r_EpochDate r =? date_of epochDate) && bool_decide (r_WorkerAddress r = workerAddress))
         (fun r => {| r with r_Recipient := Some recipient |}) (worker_epoch_rewards d) |})).

Definition ResetAllEpochViolations : Prg (result unit) :=
  exec "reset epoch violations" (fun _ d =>
    (Ok tt, {| d with workers := map (fun w => {| w with w_EpochViolations := 0 |}) (workers d) |})).

(** ** merkle.go *)

Definition SetEpochMerkleRoot (epochDate : Z) (root : string) : Prg (result unit) :=
  exec "set merkle root" (fun _ d =>
    (Ok tt, update_epochs epochDate (fun e => {| e with e_MerkleRoot := Some root |}) d)).

Definition SetEpochPublished (epochDate : Z) : Prg (result unit) :=
  exec "set epoch published" (fun env d =>
    (Ok tt, update_epochs epochDate (fun e => {| e with e_PublishedAt := Some (sql_now env) |}) d)).

Definition same_proof (epochDate : Z) (recipient : string) (m : MerkleProofRow) : bool :=
  (m_EpochDate m =? date_of epochDate) && bool_decide (m_Recipient m = recipient).

Definition insert_proof (p : MerkleProofRow) (d : DB) : result unit * DB :=
  match find_epoch (m_EpochDate p) d with
  | None => (violates "merkle_proofs_epoch_date_fkey", d)
  | Some _ =>
      if existsb (same_proof (m_EpochDate p) (m_Recipient p)) (merkle_proofs d)
      then (violates "merkle_proofs_pkey", d)
      else (Ok tt, {| d with merkle_proofs := merkle_proofs d ++
                        [{| p with m_EpochDate := date_of (m_EpochDate p); m_Claimed := false |}] |})
  end.

Definition SaveMerkleProof (p : MerkleProofRow) : Prg (result unit) :=
  exec "save merkle proof" (fun _ d => insert_proof p d).

Definition GetMerkleProof (epochDate : Z) (recipientAddr : string) : Prg (result (option MerkleProofRow)) :=
  query "get merkle proof" (fun _ d => Ok (List.find (same_proof epochDate recipientAddr) (merkle_proofs d))).

Definition ListMerkleProofsByRecipient (recipientAddr : string) : Prg (result (list MerkleProofRow)) :=
  query "list merkle proofs" (fun _ d =>
    Ok (order_by_desc m_EpochDate
          (List.filter (fun m => bool_decide (m_Recipient m = recipientAddr)) (merkle_proofs d)))).

(** A missing epoch and a NULL root both read as the empty string. *)
Definition GetEpochMerkleRoot (epochDate : Z) : Prg (result string) :=
  query "get epoch merkle root" (fun _ d =>
    Ok (match find_epoch epochDate d with Some e => default ""%string (e_MerkleRoot e) | None => ""%string end)).
End StoreEpoch.
