(* ===== verification/StoreQueries.v ===== *)
(** * The store: listings for the pages

    Models [src/internal/store/admin_queries.go] and
    [src/internal/store/public_queries.go]: queries of the administrator's and
    the public pages.

    What PostgreSQL's averages and quotients of NUMERIC values are as doubles
    (at least 16 digits are computed, the driver reads the nearest double) is
    the class [PostgresNumeric]; sums are exact.  A timestamp that the code
    scans into a string is left as the instant.

    Lemma [estimatedTotal_enough]: the estimate of the number of questions of
    today is never below the number so far, so that today's reward never
    divides by zero. *)

From Stdlib Require Export QArith.QArith.
From S2P Require Import Prelude Float64 GoLang Strconv Model Calendar Prog Tables Store StoreQuestion.
#[local] Open Scope Z_scope.
#[local] Open Scope prog_scope.

Class PostgresNumeric := { pg_float : Q -> float64 }.

(** [avg(x)]: NULL of no rows. *)
Definition sql_avg {X} (f : X -> Z) (l : list X) : option Q :=
  match l with
  | [] => None
  | _ => Some (inject_Z (sum_by f l) / inject_Z (Z.of_nat (length l)))%Q
  end.

(** A sum of a NUMERIC or BIGINT column, scanned into an int64. *)
Definition scan_int64 (z : Z) : result Z := if in_int64 z then Ok z else violates "value out of range".

(** LIMIT with the clamp of the code. *)
Definition clamp_limit (limit : Z) : nat := Z.to_nat (if (limit <=? 0) || (100 <? limit) then 20 else limit).

Section StoreQueries.
Context {P : Postgres} {N : PostgresNumeric}.

(** ** admin_queries.go *)

(** ORDER BY last_poll_at DESC NULLS LAST. *)
Definition ListWorkers : Prg (result (list Worker)) :=
  query "list miners" (fun _ d =>
    Ok (order_by2 (fun w => match w_LastPollAt w with Some _ => 0 | None => 1 end)
          (fun w => match w_LastPollAt w with Some t => - t | None => 0 end) (workers d))).

Definition ListAllQuestions (status : string) (limit : Z) : Prg (result (list Question)) :=
  query "list all questions" (fun _ d =>
    let rows := order_by_desc q_CreatedAt (List.filter (fun q =>
      bool_decide (status = ""%string) || bool_decide (question_status_string (q_Status q) = status)) (questions d)) in
    Ok (if 0 <? limit then take (Z.to_nat limit) rows else rows)).

Definition ListAllAssignments (questionID : Z) : Prg (result (list Assignment)) := ListAssignmentsByQuestion questionID.

Definition ListEpochs : Prg (result (list Epoch)) :=
  query "list epochs" (fun _ d => Ok (order_by_desc e_EpochDate (epochs d))).

Definition GetEpoch (epochDate : Z) : Prg (result (option Epoch)) :=
  query "get epoch" (fun _ d => Ok (List.find (fun e => e_EpochDate e =? date_of epochDate) (epochs d))).

(** ** public_queries.go *)

Record ProtocolStats := mkProtocolStats {
  ps_WorkerCount : Z;
  ps_QuestionCount : Z;
  ps_ScoredCount : Z;
  ps_EpochCount : Z;
  ps_TotalReward : Z
}.

Definition GetProtocolStats : Prg (result ProtocolStats) :=
  query "get protocol stats" (fun _ d =>
    match scan_int64 (sum_by e_TotalReward (epochs d)) with
    | Err e => Err e
    | Ok total =>
        Ok (mkProtocolStats (Z.of_nat (length (workers d))) (Z.of_nat (length (questions d)))
              (count_if question_scored (questions d)) (Z.of_nat (length (epochs d))) total)
    end).

Record LeaderboardEntry := mkLeaderboardEntry {
  le_Address : string;
  le_QuestionCount : Z;
  le_AnswerCount : Z;
  le_AvgScore : float64;
  le_TotalReward : float64
}.

(** A row of the query before its columns are scanned. *)
Record leader := mkLeader { ld_address : string; ld_questions : Z; ld_answers : Z; ld_avg : Q; ld_total : Z }.

Definition leader_of (d : DB) (w : Worker) : leader :=
  let qs := List.filter (fun q => question_scored q && bool_decide (q_Questioner q = w_Address w)) (questions d) in
  let as_ := List.filter (fun a => is_scored a && of_worker (w_Address w) a) (assignments d) in
  let rs := List.filter (fun r => bool_decide (r_WorkerAddress r = w_Address w)) (worker_epoch_rewards d) in
  let q_avg := sql_avg q_Score qs in
  let a_avg := sql_avg a_Score as_ in
  let n := (match q_avg with Some _ => 1 | None => 0 end) + (match a_avg with Some _ => 1 | None => 0 end) in
  mkLeader (w_Address w) (Z.of_nat (length qs)) (Z.of_nat (length as_))
    (if n =? 0 then 0%Q else (default 0%Q q_avg + default 0%Q a_avg) / inject_Z n)%Q
    (sum_by r_FinalReward rs).

(** ORDER BY total_reward DESC, avg_score DESC. *)
Definition leader_before (x y : leader) : Prop :=
  (ld_total x >? ld_total y) || ((ld_total x =? ld_total y) && Qle_bool (ld_avg y) (ld_avg x)) = true.
#[local] Instance leader_before_dec x y : Decision (leader_before x y).
Proof. unfold leader_before. apply _. Defined.

Definition GetLeaderboard (limit : Z) : Prg (result (list LeaderboardEntry)) :=
  query "get leaderboard" (fun _ d =>
    Ok (map (fun l => mkLeaderboardEntry (ld_address l) (ld_questions l) (ld_answers l) (pg_float (ld_avg l)) (of_int (ld_total l)))
         (take (clamp_limit limit) (merge_sort leader_before (map (leader_of d) (workers d)))))).

Record WorkerAggregateStats := mkWorkerAggregateStats {
  ws_TotalQuestions : Z;
  ws_ScoredQuestions : Z;
  ws_TotalAssignments : Z;
  ws_ScoredAssignments : Z;
  ws_TotalReward : Z
}.

Definition GetWorkerAggregateStats (address : string) : Prg (result WorkerAggregateStats) :=
  query "get miner aggregate stats" (fun _ d =>
    let asked := fun q => bool_decide (q_Questioner q = address) in
    match scan_int64 (sum_by r_FinalReward
            (List.filter (fun r => bool_decide (r_WorkerAddress r = address)) (worker_epoch_rewards d))) with
    | Err e => Err e
    | Ok total =>
        Ok (mkWorkerAggregateStats (count_if asked (questions d))
              (count_if (fun q => asked q && question_scored q) (questions d))
              (count_if (of_worker address) (assignments d))
              (count_if (fun a => of_worker address a && is_scored a) (assignments d)) total)
    end).

Record PublicQuestion := mkPublicQuestion {
  pq_QuestionID : Z;
  pq_BSID : string;
  pq_Questioner : string;
  pq_Question : string;
  pq_Answer : option string;
  pq_Status : string;
  pq_Score : Z;
  pq_PassRate : float64;
  pq_Benchmark : bool;
  pq_CreatedAt : Z;
  pq_ScoredAt : option Z
}.

Definition public_question (q : Question) : PublicQuestion :=
  mkPublicQuestion (q_QuestionID q) (q_BSID q) (q_Questioner q) (q_Question q) (Some (q_Answer q))
    (question_status_string (q_Status q)) (q_Score q) (q_PassRate q) (q_Benchmark q) (q_CreatedAt q) (q_ScoredAt q).

(** ORDER BY scored_at DESC puts NULLs first. *)
Definition GetRecentQuestions (questioner : string) (limit : Z) : Prg (result (list PublicQuestion)) :=
  query "get recent questions" (fun _ d =>
    Ok (map public_question (take (clamp_limit limit)
      (order_by2 (fun q => match q_ScoredAt q with None => 0 | Some _ => 1 end)
         (fun q => match q_ScoredAt q with None => 0 | Some t => - t end)
         (List.filter (fun q => question_scored q &&
            (bool_decide (questioner = ""%string) || bool_decide (q_Questioner q = questioner))) (questions d)))))).

Record PublicAssignment := mkPublicAssignment {
  pa_AssignmentID : Z;
  pa_QuestionID : Z;
  pa_Worker : string;
  pa_ReplyValid : option bool;
  pa_ReplyAnswer : option string;
  pa_Score : Z;
  pa_Share : float64
}.

Definition public_assignment (a : Assignment) : PublicAssignment :=
  mkPublicAssignment (a_AssignmentID a) (a_QuestionID a) (a_Worker a) (a_ReplyValid a) (a_ReplyAnswer a) (a_Score a) (a_Share a).

Record PublicAssignmentFilter := mkPublicAssignmentFilter {
  pf_QuestionID : Z;
  pf_Worker : string;
  pf_Limit : Z
}.

(** The join with a scored question. *)
Definition question_is_scored (d : DB) (a : Assignment) : bool :=
  existsb (fun q => (q_QuestionID q =? a_QuestionID a) && question_scored q) (questions d).

Definition ListPublicAssignments (f : PublicAssignmentFilter) : Prg (result (list PublicAssignment)) :=
  query "list public assignments" (fun _ d =>
    Ok (map public_assignment (take (clamp_limit (pf_Limit f))
      (order_by_desc a_CreatedAt (List.filter (fun a =>
         question_is_scored d a && is_scored a &&
         ((pf_QuestionID f <=? 0) || on_question (pf_QuestionID f) a) &&
         (bool_decide (pf_Worker f = ""%string) || of_worker (pf_Worker f) a)) (assignments d)))))).

Record WorkerTodayStats := mkWorkerTodayStats {
  ts_Address : string;
  ts_QuestionsAsked : Z;
  ts_AvgAskScore : float64;
  ts_QuestionsAnswered : Z;
  ts_TimedOut : Z;
  ts_AvgAnswerScore : float64;
  ts_CompositeScore : float64;
  ts_RawReward : Z;
  ts_EstimatedReward : Z
}.

(** The questions scored from [start] until before [end_]. *)
Definition scored_between (start end_ : Z) (q : Question) : bool :=
  question_scored q &&
  match q_ScoredAt q with Some t => (pg_timestamp start <=? t) && (t <? pg_timestamp end_) | None => false end.

(** [sum(share)] as a double: the column holds ten-thousandths. *)
Definition share_sum (l : list float64) : float64 :=
  of_numeric (sum_by (fun f => default 0 (pg_numeric_5_4 f)) l).

(** The three queries. *)
Definition ask_stats (address : string) (start end_ : Z) (d : DB) : Z * float64 * float64 :=
  let qs := List.filter (fun q => bool_decide (q_Questioner q = address) && scored_between start end_ q) (questions d) in
  (Z.of_nat (length qs), pg_float (default 0%Q (sql_avg q_Score qs)), share_sum (map q_Share qs)).

Definition count_today (start end_ : Z) (d : DB) : Z := count_if (scored_between start end_) (questions d).

Definition answer_stats (address : string) (start end_ : Z) (d : DB) : Z * Z * float64 * float64 :=
  let rows := List.filter (fun a => of_worker address a &&
    existsb (fun q => (q_QuestionID q =? a_QuestionID a) && scored_between start end_ q) (questions d)) (assignments d) in
  let scored := List.filter is_scored rows in
  let late := List.filter is_timed_out rows in
  (Z.of_nat (length scored), Z.of_nat (length late),
   pg_float (default 0%Q (sql_avg a_Score (List.filter (fun a => is_scored a || is_timed_out a) rows))),
   share_sum (map a_Share scored)).

(** [d.Seconds()]. *)
Definition Seconds (d : Z) : float64 :=
  fadd (of_int (go_div d Second)) (fdiv (of_int (go_rem d Second)) (of_int Second)).

(** The estimated number of questions of the whole day. *)
Definition estimatedTotal (now todayStart totalQuestionsToday : Z) : Z :=
  let elapsed := Seconds (time_Sub now todayStart) in
  let elapsed := if fltb elapsed (of_int 60) then of_int 60 else elapsed in
  let dayFraction := fdiv elapsed (of_int 86400) in
  let estimated := to_int64 (fdiv (of_int totalQuestionsToday) dayFraction) in
  if estimated <? totalQuestionsToday then totalQuestionsToday else estimated.

Definition today_composite (asked answered late : Z) (avgAsk avgAnswer : float64) : float64 :=
  let hasAsks := 0 <? asked in
  let hasAnswers := 0 <? answered + late in
  if hasAsks && hasAnswers then fdiv (fadd avgAsk avgAnswer) (of_int 10)
  else if hasAsks then fdiv avgAsk (of_int 10)
  else if hasAnswers then fdiv avgAnswer (of_int 10)
  else fzero.

Definition today_raw (totalReward estimated : Z) (askShare ansShare : float64) : Z :=
  let baseReward := go_div totalReward estimated in
  let askPool := go_div baseReward 3 in
  let ansPool := wrap64 (baseReward - askPool) in
  wrap64 (to_int64 (fmul (of_int askPool) askShare) + to_int64 (fmul (of_int ansPool) ansShare)).

Definition GetWorkerTodayStats (address : string) (totalReward minTasks : Z) : Prg (result WorkerTodayStats) :=
  Now (fun now =>
  let todayStart := date_of now in
  let todayEnd := todayStart + 24 * Hour in
  let? ask := query "query ask stats" (fun _ d => Ok (ask_stats address todayStart todayEnd d)) in
  let '(asked, avgAsk, askShare) := ask in
  let? total := query "count today questions" (fun _ d => Ok (count_today todayStart todayEnd d)) in
  let? ans := query "query answer stats" (fun _ d => Ok (answer_stats address todayStart todayEnd d)) in
  let '(answered, late, avgAnswer, ansShare) := ans in
  let composite := today_composite asked answered late avgAsk avgAnswer in
  let rawReward := if 0 <? total then today_raw totalReward (estimatedTotal now todayStart total) askShare ansShare else 0 in
  let estimatedReward := if minTasks <=? asked + answered then to_int64 (fmul (of_int rawReward) composite) else 0 in
  Ret (Ok (mkWorkerTodayStats address asked avgAsk answered late avgAnswer composite rawReward estimatedReward))).
End StoreQueries.

(** ** The estimate never divides by zero *)

Lemma estimatedTotal_enough now todayStart total : total <= estimatedTotal now todayStart total.
Proof.
  unfold estimatedTotal. cbv zeta. match goal with |- context [?e <? total] => destruct (Z.ltb_spec e total) end; lia.
Qed.
