(* ===== verification/Lifecycle.v ===== *)
(** * The life of questions and assignments, under any interleaving

    The program has no lock around a question or an assignment: requests,
    timers and scoring goroutines run at the same time, and the only protection
    are the WHERE clauses of the UPDATEs.  This file states what every atomic
    step of every program keeps ([rg]): rows persist and their identity is
    immutable, an assignment moves only from claimed to replied or timed out
    and from replied to scored, a reply is written once, a question is scored
    once, and the schema's invariant [inv] holds (unique ids, at most one
    claimed assignment per worker, every reply has a judgment).  It is both the
    rely and the guarantee of every program ([safe]), which a program inherits
    from its statements by the rules collected in the hint database [safe].

    Theorems: [rg] is a preorder; the statements that test the old status are
    steps of it unconditionally, [SetAssignmentScore] where the assignment is
    replied; the rules of [safe]. *)

From S2P Require Import Prelude Float64 GoLang Model Prog Tables Store StoreQuestion StoreEpoch.
#[local] Open Scope prog_scope.

(** ** One row *)

(** [b] is a later state of the assignment [a]. *)
Definition assignment_le (a b : Assignment) : Prop :=
  a_AssignmentID b = a_AssignmentID a /\ a_QuestionID b = a_QuestionID a /\ a_Worker b = a_Worker a /\
  a_ReplyDDL b = a_ReplyDDL a /\ a_CreatedAt b = a_CreatedAt a /\
  status_le (a_Status a) (a_Status b) /\
  (a_Status a <> AssignmentStatusClaimed ->
     a_ReplyValid b = a_ReplyValid a /\ a_ReplyAnswer b = a_ReplyAnswer a /\ a_RepliedAt b = a_RepliedAt a).

(** [r] is a later state of the question [q]. *)
Definition question_le (q r : Question) : Prop :=
  q_QuestionID r = q_QuestionID q /\ q_BSID r = q_BSID q /\ q_Questioner r = q_Questioner q /\
  q_Question r = q_Question q /\ q_Answer r = q_Answer q /\ q_MinHash r = q_MinHash q /\ q_CreatedAt r = q_CreatedAt q /\
  (q_Status q = QuestionStatusScored ->
     q_Status r = QuestionStatusScored /\ q_Share r = q_Share q /\ q_Score r = q_Score q /\
     q_PassRate r = q_PassRate q /\ q_ScoredAt r = q_ScoredAt q).

#[export] Instance assignment_le_preorder : PreOrder assignment_le.
Proof.
  split.
  - intros a. repeat split; try reflexivity.
  - intros a b c (H1 & H2 & H3 & H4 & H5 & H6 & H7) (K1 & K2 & K3 & K4 & K5 & K6 & K7).
    repeat split; try congruence; [etransitivity; eassumption|..];
      assert (a_Status b <> AssignmentStatusClaimed) as Hb
        by (intros E; rewrite E in H6; destruct (a_Status a); cbv in H6; congruence);
      destruct (H7 H) as (? & ? & ?), (K7 Hb) as (? & ? & ?); congruence.
Qed.

#[export] Instance question_le_preorder : PreOrder question_le.
Proof.
  split.
  - intros q. repeat split; try reflexivity. exact H.
  - intros a b c (H1 & H2 & H3 & H4 & H5 & H6 & H7 & H8) (K1 & K2 & K3 & K4 & K5 & K6 & K7 & K8).
    split; [congruence|]. split; [congruence|]. split; [congruence|]. split; [congruence|].
    split; [congruence|]. split; [congruence|]. split; [congruence|].
    intros E. destruct (H8 E) as (E1 & ? & ? & ? & ?), (K8 E1) as (? & ? & ? & ? & ?). repeat split; congruence.
Qed.

(** ** The tables *)

(** Searching a table by its id column. *)
Definition find_id {X} (key : X -> Z) (id : Z) (l : list X) : option X := List.find (fun x => key x =? id) l.

(** Every row of [l] is still in [l'], in a later state. *)
Definition table_le {X} (key : X -> Z) (le : X -> X -> Prop) (l l' : list X) : Prop :=
  forall id x, find_id key id l = Some x -> exists y, find_id key id l' = Some y /\ le x y.

#[export] Instance table_le_preorder {X} (key : X -> Z) (le : X -> X -> Prop) :
  PreOrder le -> PreOrder (table_le key le).
Proof.
  intros [Hr Ht]. split.
  - intros l id x H. exists x. split; [exact H|apply Hr].
  - intros l1 l2 l3 H12 H23 id x H. destruct (H12 id x H) as (y & Hy & Hxy).
    destruct (H23 id y Hy) as (z & Hz & Hyz). exists z. split; [exact Hz|]. eapply Ht; eassumption.
Qed.

Definition evolves (d d' : DB) : Prop :=
  table_le a_AssignmentID assignment_le (assignments d) (assignments d') /\
  table_le q_QuestionID question_le (questions d) (questions d').

#[export] Instance evolves_preorder : PreOrder evolves.
Proof.
  split.
  - intros d. split; reflexivity.
  - intros d1 d2 d3 [H1 H2] [K1 K2]. split; etransitivity; eassumption.
Qed.

(** The question of an assignment has been scored. *)
Definition of_scored_question (a : Assignment) (d : DB) : Prop :=
  exists q, find_question (a_QuestionID a) d = Some q /\ question_scored q = true.

(** The invariant of the schema and of the reply protocol. *)
Definition inv (d : DB) : Prop :=
  NoDup (map a_AssignmentID (assignments d)) /\
  (forall a, a ∈ assignments d -> a_AssignmentID a < next_assignment_id d) /\
  NoDup (map q_QuestionID (questions d)) /\
  (forall q, q ∈ questions d -> q_QuestionID q < next_question_id d) /\
  (forall w, count_if (fun a => is_claimed a && of_worker w a) (assignments d) <= 1) /\
  (forall a, a ∈ assignments d -> is_replied a = true -> is_Some (a_ReplyValid a)) /\
  (forall a, a ∈ assignments d -> is_scored a = true -> of_scored_question a d).

Definition rg (d d' : DB) : Prop := evolves d d' /\ (inv d -> inv d').

#[export] Instance rg_preorder : PreOrder rg.
Proof.
  split.
  - intros d. split; [reflexivity|auto].
  - intros d1 d2 d3 [H1 H2] [K1 K2]. split; [etransitivity; eassumption|auto].
Qed.

(** On the whole state: memory is free. *)
Definition RG (s s' : St) : Prop := rg (db s) (db s').

#[export] Instance RG_preorder : PreOrder RG.
Proof. split; [intros s; unfold RG; reflexivity | intros s1 s2 s3 H K; unfold RG in *; etransitivity; eassumption]. Qed.

(** ** UPDATE and INSERT as steps *)

Section TableSteps.
Context {X : Type} (key : X -> Z) (le : X -> X -> Prop).
Hypothesis le_refl : forall x, le x x.

Lemma find_id_app id l1 l2 x : find_id key id l1 = Some x -> find_id key id (l1 ++ l2) = Some x.
Proof using. unfold find_id. rewrite find_app. intros ->. reflexivity. Qed.

Lemma table_le_app l l2 : table_le key le l (l ++ l2).
Proof using le_refl. intros id x H. exists x. split; [apply find_id_app, H | apply le_refl]. Qed.

(** An UPDATE is a step when it moves each row that it changes (and that is
    found by its id) forward. *)
Lemma table_le_update (p : X -> bool) (u : X -> X) l :
  (forall x, key (u x) = key x) ->
  (forall x, find_id key (key x) l = Some x -> p x = true -> le x (u x)) ->
  table_le key le l (update_rows p u l).
Proof using le_refl.
  intros Hk Hle id x H.
  assert (forall l0, find_id key id l0 = Some x ->
    find_id key id (update_rows p u l0) = Some (if p x then u x else x)) as Hf.
  { clear H. induction l0 as [|y l0 IH]; [discriminate|]. unfold find_id, update_rows in *. cbn.
    assert (key (if p y then u y else y) = key y) as -> by (destruct (p y); auto).
    destruct (key y =? id); [intros [= ->]; reflexivity | exact IH]. }
  eexists. split; [apply Hf, H|]. destruct (p x) eqn:Hp; [|apply le_refl].
  apply Hle; [|exact Hp]. unfold find_id in *. pose proof (find_some_elem _ _ _ H) as [_ E].
  apply Z.eqb_eq in E. rewrite E. exact H.
Qed.
End TableSteps.

(** A scored question stays scored. *)
Lemma of_scored_question_stable a d d' : evolves d d' -> of_scored_question a d -> of_scored_question a d'.
Proof.
  intros [_ H] (q & Hq & Hs). destruct (H _ q Hq) as (q' & Hq' & (_ & _ & _ & _ & _ & _ & _ & Hle)).
  exists q'. split; [exact Hq'|]. unfold question_scored in *. bool_props. apply bool_decide_eq_true_2, Hle, Hs.
Qed.

(** Only other tables change. *)
Lemma rg_other_tables d d' : assignments d' = assignments d -> questions d' = questions d ->
  next_assignment_id d' = next_assignment_id d -> next_question_id d' = next_question_id d -> rg d d'.
Proof.
  intros H1 H2 H3 H4. split; [split; [rewrite H1|rewrite H2]; reflexivity|].
  unfold inv, of_scored_question, find_question. rewrite H1, H2, H3, H4. auto.
Qed.

(** An UPDATE of assignments that only moves statuses forward, away from
    claimed, and leaves a judgment on every reply. *)
Lemma rg_update_assignments d p u :
  (forall a, find_id a_AssignmentID (a_AssignmentID a) (assignments d) = Some a -> p a = true -> assignment_le a (u a)) ->
  (forall a, a_AssignmentID (u a) = a_AssignmentID a /\ a_Worker (u a) = a_Worker a /\ a_QuestionID (u a) = a_QuestionID a) ->
  (forall a, is_claimed (u a) = true -> is_claimed a = true) ->
  (forall a, is_replied (u a) = true -> is_Some (a_ReplyValid (u a)) \/ (is_replied a = true /\ a_ReplyValid (u a) = a_ReplyValid a)) ->
  (forall a, find_id a_AssignmentID (a_AssignmentID a) (assignments d) = Some a -> p a = true ->
     is_scored (u a) = true -> of_scored_question a d) ->
  rg d (set_assignments (update_rows p u (assignments d)) d).
Proof.
  intros Hle Hid Hcl Hrep Hsc. split.
  - split; [|reflexivity]. cbn. apply table_le_update; [intros a; reflexivity | intros a; apply Hid | exact Hle].
  - intros (H1 & H2 & H3 & H4 & H5 & H6 & H7). unfold inv, set_assignments. cbn.
    rewrite (update_rows_keys a_AssignmentID) by (intros a; apply Hid).
    split; [exact H1|]. split; [|split; [exact H3|split; [exact H4|split; [|split]]]].
    + intros a Ha. apply elem_of_update_rows in Ha as (b & Hb & ->). destruct (p b); [rewrite (proj1 (Hid b))|]; auto.
    + intros w. etransitivity; [|apply (H5 w)]. unfold update_rows.
      generalize (assignments d) as l. induction l as [|a l IH]; [apply Z.le_refl|].
      cbn [map]. rewrite !count_if_cons.
      assert ((if is_claimed (if p a then u a else a) && of_worker w (if p a then u a else a) then 1 else 0)
        <= (if is_claimed a && of_worker w a then 1 else 0)); [|lia].
      destruct (p a); [|lia]. unfold of_worker. rewrite (proj1 (proj2 (Hid a))).
      destruct (is_claimed (u a)) eqn:E; [rewrite (Hcl a E); lia|].
      destruct (is_claimed a && bool_decide (a_Worker a = w)); cbn; lia.
    + intros a Ha Hr. apply elem_of_update_rows in Ha as (b & Hb & ->). destruct (p b); [|apply H6; assumption].
      destruct (Hrep b Hr) as [H|[H ->]]; [exact H | apply H6; assumption].
    + intros a Ha Hs. apply elem_of_update_rows in Ha as (b & Hb & ->). destruct (p b) eqn:Hp; [|apply H7; assumption].
      unfold of_scored_question. rewrite (proj2 (proj2 (Hid b))). apply (Hsc b); [|exact Hp|exact Hs].
      apply (find_unique a_AssignmentID); [exact H1|exact Hb|apply Z.eqb_refl|]. intros c Hc. apply Z.eqb_eq, Hc.
Qed.

(** An UPDATE of questions that keeps identities and never rewrites a scored
    question's result. *)
Lemma rg_update_questions d p u :
  (forall q, p q = true -> question_le q (u q)) -> (forall q, q_QuestionID (u q) = q_QuestionID q) ->
  rg d {| d with questions := update_rows p u (questions d) |}.
Proof.
  intros Hle Hid. assert (evolves d {| d with questions := update_rows p u (questions d) |}) as Hev.
  { split; [reflexivity|]. cbn. apply table_le_update; [intros q; reflexivity|exact Hid|]. intros q _. apply Hle. }
  split; [exact Hev|].
  intros (H1 & H2 & H3 & H4 & H5 & H6 & H7). unfold inv. cbn. rewrite (update_rows_keys q_QuestionID) by exact Hid.
  repeat (split; [assumption|]). split; [|split; [exact H5|split; [exact H6|]]].
  - intros q Hq. apply elem_of_update_rows in Hq as (r & Hr & ->). destruct (p r); [rewrite Hid|]; auto.
  - intros a Ha Hs. apply (of_scored_question_stable a d _ Hev), H7; assumption.
Qed.

(** ** The statements *)

Section Statements.
Context {P : Postgres}.

Lemma rg_claimed_update d id u :
  (forall a, is_claimed a = true -> assignment_le a (u a)) ->
  (forall a, a_AssignmentID (u a) = a_AssignmentID a /\ a_Worker (u a) = a_Worker a /\ a_QuestionID (u a) = a_QuestionID a) ->
  (forall a, is_claimed (u a) = false) ->
  (forall a, is_replied (u a) = true -> is_Some (a_ReplyValid (u a))) ->
  (forall a, is_scored (u a) = false) ->
  rg d (snd (update_assignments (claimed_with_id id) u d)).
Proof using.
  intros Hle Hid Hcl Hrep Hsc. apply rg_update_assignments; auto.
  - intros a _ Hp. apply Hle. unfold claimed_with_id in Hp. apply andb_true_iff in Hp. tauto.
  - intros a H. rewrite Hcl in H. discriminate.
  - intros a _ _ H. rewrite Hsc in H. discriminate.
Qed.

Lemma claimed_moves a b :
  a_AssignmentID b = a_AssignmentID a -> a_QuestionID b = a_QuestionID a -> a_Worker b = a_Worker a ->
  a_ReplyDDL b = a_ReplyDDL a -> a_CreatedAt b = a_CreatedAt a -> is_claimed a = true -> assignment_le a b.
Proof using.
  intros. unfold is_claimed in *. bool_props. repeat split; auto; try congruence.
  - rewrite H4. destruct (a_Status b); reflexivity.
Qed.

Lemma rg_timeout d id : rg d (snd (update_assignments (claimed_with_id id) timed_out d)).
Proof using.
  apply rg_claimed_update; [|repeat split|reflexivity|discriminate|reflexivity].
  intros a Ha. apply claimed_moves; try reflexivity. exact Ha.
Qed.

Lemma rg_reply d id valid answer now :
  rg d (snd (update_assignments (claimed_with_id id) (with_reply valid answer now) d)).
Proof using.
  apply rg_claimed_update; [|repeat split|reflexivity|intros a _; cbn; eauto|reflexivity].
  intros a Ha. apply claimed_moves; try reflexivity. exact Ha.
Qed.

(** The statement that scores an assignment does not test its status: it is a
    step where the assignment is replied or scored, and its question scored. *)
Definition scorable (id : Z) (d : DB) : Prop :=
  forall a, find_assignment id d = Some a -> is_replied a || is_scored a = true /\ of_scored_question a d.

Lemma rg_score d id score share : scorable id d ->
  rg d (snd (update_assignments (fun a => a_AssignmentID a =? id) (with_score AssignmentStatusScored score share) d)).
Proof using.
  intros Hs. apply rg_update_assignments; [|repeat split|discriminate|discriminate|];
    intros a Hf Hp; apply Z.eqb_eq in Hp; subst id; specialize (Hs a Hf) as [Hs Hq]; [|intros _; exact Hq].
  unfold is_replied, is_scored in Hs. apply orb_true_iff in Hs as [Hs|Hs]; bool_props;
    (repeat split; try reflexivity; cbn; rewrite Hs; reflexivity).
Qed.

(** An assignment that was scorable stays so. *)
Lemma scorable_stable id d d' a : evolves d d' -> find_assignment id d = Some a ->
  is_replied a || is_scored a = true -> of_scored_question a d -> scorable id d'.
Proof using.
  intros Hev Ha Hs Hq b Hb. destruct (proj1 Hev id a Ha) as (b' & Hb' & (_ & Hqid & _ & _ & _ & Hle & _)).
  unfold find_assignment, find_id in *. rewrite Hb' in Hb. injection Hb as <-. split.
  - unfold is_replied, is_scored in *.
    destruct (a_Status a); cbn in Hs; try discriminate; destruct (a_Status b'); cbv in Hle |- *; congruence.
  - pose proof (of_scored_question_stable a d d' Hev Hq) as H. unfold of_scored_question in *. rewrite Hqid. exact H.
Qed.

(** Identities may be skipped. *)
Lemma rg_next_id d n : next_assignment_id d <= n -> rg d {| d with next_assignment_id := n |}.
Proof using.
  intros Hn. split; [split; reflexivity|]. intros (H1 & H2 & H). split; [exact H1|]. split; [|exact H].
  intros a Ha. cbn. specialize (H2 a Ha). lia.
Qed.

(** A claim with a fresh identity, by a worker without one. *)
Lemma rg_append_claim d a n :
  is_claimed a = true -> (inv d -> a_AssignmentID a ∉ map a_AssignmentID (assignments d)) ->
  a_AssignmentID a < n -> next_assignment_id d <= n ->
  (forall b, b ∈ assignments d -> is_claimed b && of_worker (a_Worker a) b = false) ->
  rg d {| d with assignments := assignments d ++ [a]; next_assignment_id := n |}.
Proof using.
  intros Hcl Hfresh Hid Hnext Hex. assert (a_Status a = AssignmentStatusClaimed) as Hst by (apply bool_decide_eq_true_1 in Hcl; exact Hcl).
  split.
  - split; [|reflexivity]. cbn. apply table_le_app. intros x. reflexivity.
  - intros Hinv. specialize (Hfresh Hinv). destruct Hinv as (H1 & H2 & H3 & H4 & H5 & H6 & H7). unfold inv. cbn.
    split; [|split; [|split; [exact H3|split; [exact H4|split; [|split]]]]].
    + rewrite map_app. apply NoDup_app. split; [exact H1|]. split; [|apply NoDup_singleton].
      intros x Hx Hin. apply list_elem_of_singleton in Hin as ->. exact (Hfresh Hx).
    + intros b Hb. apply elem_of_app in Hb as [Hb|Hb]; [specialize (H2 b Hb); lia|].
      apply list_elem_of_singleton in Hb as ->. exact Hid.
    + intros w0. rewrite count_if_app, count_if_cons. change (count_if _ []) with 0.
      destruct (decide (w0 = a_Worker a)) as [->|Hne].
      * assert (count_if (fun b => is_claimed b && of_worker (a_Worker a) b) (assignments d) = 0) as ->
          by (apply count_if_zero; exact Hex). destruct (_ && _); lia.
      * specialize (H5 w0). assert (of_worker w0 a = false) as -> by (apply bool_decide_eq_false_2; congruence).
        rewrite andb_false_r. lia.
    + intros b Hb Hr. apply elem_of_app in Hb as [Hb|Hb]; [auto|].
      apply list_elem_of_singleton in Hb as ->. unfold is_replied in Hr. rewrite Hst in Hr. discriminate Hr.
    + intros b Hb Hs. apply elem_of_app in Hb as [Hb|Hb]; [apply (H7 b Hb Hs)|].
      apply list_elem_of_singleton in Hb as ->. unfold is_scored in Hs. rewrite Hst in Hs. discriminate Hs.
Qed.

Lemma rg_insert_assignment d questionID worker ddl env :
  rg d (snd (insert_assignment questionID worker ddl env d)).
Proof using.
  unfold insert_assignment. destruct (negb _); [reflexivity|]. destruct (find_worker worker d) as [wk0|]; [|reflexivity].
  destruct (existsb _ (assignments d)) eqn:Hex; [reflexivity|]. rewrite existsb_false in Hex.
  set (id := next_assignment_id d + Z.of_nat (sql_random env)). set (a := mkAssignment _ _ _ _ _ _ _ _ _ _ _).
  apply (rg_append_claim d a (id + 1)); [reflexivity| |cbn; lia|lia|exact Hex].
  intros (_ & H2 & _) Hin. apply elem_of_map in Hin as (b & Eb & Hb). specialize (H2 b Hb). cbn in Eb. lia.
Qed.

Lemma rg_insert_question d bsID questioner question answer mh env :
  rg d (snd (insert_question bsID questioner question answer mh env d)).
Proof using.
  unfold insert_question. destruct (find_benchmark_set bsID d) as [bs0|]; [|reflexivity].
  destruct (find_worker questioner d) as [wk0|]; [|reflexivity].
  set (id := next_question_id d + Z.of_nat (sql_random env)). set (q := mkQuestion _ _ _ _ _ _ _ _ _ _ _ _ _).
  match goal with |- rg d ?d' => assert (evolves d d') as Hev end.
  { split; [reflexivity|]. cbn. apply table_le_app. intros x. reflexivity. }
  split; [exact Hev|].
  - intros (H1 & H2 & H3 & H4 & H5 & H6 & H7). unfold inv. cbn. split; [exact H1|]. split; [exact H2|].
    split; [|split; [|split; [exact H5|split; [exact H6|]]]].
    + rewrite map_app. apply NoDup_app. split; [exact H3|]. split; [|apply NoDup_singleton].
      intros x Hx Hin. apply elem_of_map in Hx as (b & -> & Hb). apply list_elem_of_singleton in Hin.
      specialize (H4 b Hb). cbn in Hin. lia.
    + intros b Hb. apply elem_of_app in Hb as [Hb|Hb]; [specialize (H4 b Hb); lia|].
      apply list_elem_of_singleton in Hb as ->. cbn. lia.
    + intros a Ha Hs. apply (of_scored_question_stable a d _ Hev), H7; assumption.
Qed.

Lemma rg_score_question d id score share pr at_ : rg d (snd (score_question_stmt id score share pr at_ d)).
Proof using.
  unfold score_question_stmt. destruct (int4 score); [|reflexivity].
  destruct (stored share); [|reflexivity]. destruct (stored pr); [|reflexivity]. cbn [snd].
  apply rg_update_questions; [|reflexivity]. intros q Hq. unfold submitted_with_id, is_submitted in Hq. bool_props.
  repeat split; try reflexivity; cbn; congruence.
Qed.

Lemma rg_benchmark_flag d p b :
  rg d {| d with questions := update_rows p (fun q => {| q with q_Benchmark := b |}) (questions d) |}.
Proof using.
  apply rg_update_questions; [|reflexivity]. intros q _. repeat split; try reflexivity. exact H.
Qed.
End Statements.

(** ** Programs that keep the relation *)

(** Every atomic step of [p] is in [RG], as long as the others' steps are. *)
Definition safe {A} (p : Prg A) : Prop :=
  forall s, inv (db s) -> wp any_fault any_reply false RG RG p
    (fun _ ab s' => ab = false /\ inv (db s') /\ RG s s') false s.

(** The same of the body of a transaction, which runs alone. *)
Definition tx_safe {A} (p : Prg A) : Prop :=
  forall s ab, wp any_fault any_reply true eq (fun _ _ => True) p
    (fun _ _ s' => mem s' = mem s /\ rg (db s) (db s')) ab s.

(** After [p], the rest starts in a state that [p] and the others have
    reached. *)
Lemma safe_then {A} (p : Prg A) (Q : A -> bool -> St -> Prop) s : safe p -> inv (db s) ->
  (forall a s', inv (db s') -> RG s s' -> Q a false s') ->
  wp any_fault any_reply false RG RG p Q false s.
Proof.
  intros Hp Hs H. eapply wp_mono; [|exact (Hp s Hs)]. intros a ab s' (-> & H1 & H2). apply H; assumption.
Qed.

Lemma safe_weaken {A} (p : Prg A) s0 s : RG s0 s ->
  wp any_fault any_reply false RG RG p (fun _ ab s' => ab = false /\ inv (db s') /\ RG s s') false s ->
  wp any_fault any_reply false RG RG p (fun _ ab s' => ab = false /\ inv (db s') /\ RG s0 s') false s.
Proof.
  intros H0 H. eapply wp_mono; [|exact H]. intros a ab s' (-> & H1 & H2). split; [reflexivity|]. split; [exact H1|].
  etransitivity; eassumption.
Qed.

Section SafeRules.
Context {A B X : Type}.

Lemma safe_Ret (a : A) : safe (Ret a).
Proof using. intros s Hs. rewrite wp_Ret. split; [reflexivity|]. split; [exact Hs | reflexivity]. Qed.

Lemma safe_Now (k : Z -> Prg A) : (forall t, safe (k t)) -> safe (Now k).
Proof using. intros H s Hs. rewrite wp_Now. intros t. apply H, Hs. Qed.

Lemma safe_Range (l : list X) (k : list X -> Prg A) : (forall l', safe (k l')) -> safe (Range l k).
Proof using. intros H s Hs. rewrite wp_Range. intros l' _. apply H, Hs. Qed.

Lemma safe_Call req (k : Response req -> Prg A) : (forall r, safe (k r)) -> safe (Call req k).
Proof using. intros H s Hs. rewrite wp_Call. intros r _. apply H, Hs. Qed.

Lemma safe_Atomic (f : Timers -> X * Timers) (k : X -> Prg A) : (forall x, safe (k x)) -> safe (Atomic f k).
Proof using.
  intros H s Hs. rewrite wp_Atomic. intros s' Hr. split; [unfold RG; cbn; reflexivity|].
  assert (inv (db s')) as Hs' by (apply Hr, Hs).
  apply (safe_weaken _ s); [exact Hr|]. apply H. exact Hs'.
Qed.

Lemma safe_bind (p : Prg A) (f : A -> Prg B) : safe p -> (forall a, safe (f a)) -> safe (bind p f).
Proof using.
  intros Hp Hf s Hs. rewrite wp_bind. apply safe_then; [exact Hp|exact Hs|].
  intros a s' Hs' Hr. apply (safe_weaken _ s s' Hr). apply Hf, Hs'.
Qed.

Lemma safe_query msg (f : SqlEnv -> DB -> result X) : safe (query msg f).
Proof using.
  intros s Hs. rewrite wp_query. intros s' Hr. assert (inv (db s')) by (apply Hr, Hs).
  split; [auto|]. intros env. split; [reflexivity | auto].
Qed.

Lemma safe_exec msg (f : SqlEnv -> DB -> result X * DB) : (forall env d, rg d (snd (f env d))) -> safe (exec msg f).
Proof using.
  intros Hf s Hs. rewrite wp_exec. intros s' Hr. assert (inv (db s')) as Hs' by (apply Hr, Hs).
  split; [auto|]. intros env. pose proof (Hf env (db s')) as Hstep.
  split; [exact Hstep|]. split; [reflexivity|]. split; [apply Hstep, Hs'|].
  unfold RG in *. cbn. etransitivity; eassumption.
Qed.

Lemma tx_safe_Ret (a : A) : tx_safe (Ret a).
Proof using. intros s ab. rewrite wp_Ret. split; reflexivity. Qed.

Lemma tx_safe_Now (k : Z -> Prg A) : (forall t, tx_safe (k t)) -> tx_safe (Now k).
Proof using. intros H s ab. rewrite wp_Now. intros t. apply H. Qed.

Lemma tx_safe_bind (p : Prg A) (f : A -> Prg B) : tx_safe p -> (forall a, tx_safe (f a)) -> tx_safe (bind p f).
Proof using.
  intros Hp Hf s ab. rewrite wp_bind. eapply wp_mono; [|apply Hp]. intros a ab' s' [Hm Hr].
  eapply wp_mono; [|apply Hf]. cbn. intros b ab2 s2 [Hm2 Hr2].
  split; [congruence | etransitivity; eassumption].
Qed.

Lemma tx_safe_query msg (f : SqlEnv -> DB -> result X) : tx_safe (query msg f).
Proof using. intros s ab. rewrite wp_query_tx. destruct ab; [split; reflexivity|].
  split; [split; reflexivity|]. intros env. split; [exact I|]. split; reflexivity. Qed.

Lemma tx_safe_exec msg (f : SqlEnv -> DB -> result X * DB) : (forall env d, rg d (snd (f env d))) -> tx_safe (exec msg f).
Proof using.
  intros Hf s ab. rewrite wp_exec_tx. destruct ab; [split; reflexivity|].
  split; [split; reflexivity|]. intros env. split; [exact I|]. split; [reflexivity|]. apply Hf.
Qed.

Lemma safe_Tx (body : Prg (result X)) (k : result X -> Prg A) : tx_safe body -> (forall r, safe (k r)) -> safe (Tx body k).
Proof using.
  intros Hb Hk s Hs. rewrite wp_Tx. intros s' Hr. assert (inv (db s')) as Hs' by (apply Hr, Hs).
  assert (forall r s1, inv (db s1) -> RG s s1 -> wp any_fault any_reply false RG RG (k r)
    (fun _ ab s2 => ab = false /\ inv (db s2) /\ RG s s2) false s1) as Hrest
    by (intros r s1 H1 H2; apply (safe_weaken _ s s1 H2), Hk, H1).
  split; [intros msg _; apply Hrest; assumption|].
  eapply wp_mono; [|apply Hb]. intros r ab s1 [Hm H1]. split; [exact Hm|].
  destruct r as [x|e]; [|apply Hrest; assumption]. destruct ab; [apply Hrest; assumption|].
  split; [intros msg _; apply Hrest; assumption|]. split; [exact H1|].
  apply Hrest; [apply H1, Hs'|]. unfold RG in *. etransitivity; eassumption.
Qed.
End SafeRules.

Lemma safe_bind_ok {A B} (p : Prg (result A)) (f : A -> Prg (result B)) :
  safe p -> (forall a, safe (f a)) -> safe (bind_ok p f).
Proof. intros Hp Hf. apply safe_bind; [exact Hp|]. intros [a|e]; [apply Hf | apply safe_Ret]. Qed.

Lemma safe_wrapped {A} msg (p : Prg (result A)) : safe p -> safe (wrapped msg p).
Proof. intros Hp. apply safe_bind; [exact Hp|]. intros r. apply safe_Ret. Qed.

Lemma safe_for_each {X} (l : list X) f : (forall x, safe (f x)) -> safe (for_each l f).
Proof. intros H. induction l as [|x l IH]; [apply safe_Ret|]. apply safe_bind_ok; auto. Qed.

Lemma safe_for_all {X} (l : list X) f : (forall x, safe (f x)) -> safe (for_all l f).
Proof. intros H. induction l as [|x l IH]; [apply safe_Ret|]. apply safe_bind; auto. Qed.

Lemma tx_safe_bind_ok {A B} (p : Prg (result A)) (f : A -> Prg (result B)) :
  tx_safe p -> (forall a, tx_safe (f a)) -> tx_safe (bind_ok p f).
Proof. intros Hp Hf. apply tx_safe_bind; [exact Hp|]. intros [a|e]; [apply Hf | apply tx_safe_Ret]. Qed.

Lemma tx_safe_wrapped {A} msg (p : Prg (result A)) : tx_safe p -> tx_safe (wrapped msg p).
Proof. intros Hp. apply tx_safe_bind; [exact Hp|]. intros r. apply tx_safe_Ret. Qed.

(** A program that only reads keeps the relation. *)
Lemma safe_read_only {A} (p : Prg A) : read_only p -> safe p.
Proof.
  induction p as [A a|A k IH|A X l k IH|A X st k IH|A X body _ k _|A X f k _|A req k IH]; cbn [read_only]; intros Hp.
  - apply safe_Ret.
  - apply safe_Now. intros t. apply IH, Hp.
  - apply safe_Range. intros l'. apply IH, Hp.
  - destruct Hp as [Hst Hk]. intros s Hs. unfold wp_in. fold (@wp_in DB Timers Request Response any_time). cbn [andb].
    intros s' Hr. assert (inv (db s')) as Hs' by (apply Hr, Hs).
    split; [intros msg _; apply (safe_weaken _ s s' Hr), IH; auto|].
    intros env _. rewrite Hst. assert ({| s' with db := db s' |} = s') as -> by (destruct s'; reflexivity).
    split; [reflexivity|]. apply (safe_weaken _ s s' Hr), IH; auto.
  - destruct Hp.
  - destruct Hp.
  - apply safe_Call. intros r. apply IH, Hp.
Qed.

Create HintDb safe.
#[export] Hint Resolve safe_Ret safe_query tx_safe_Ret tx_safe_query : safe.

(** One rule of [safe] or [tx_safe], or a case analysis of the program. *)
Ltac safe_step :=
  match goal with
  | |- safe (Ret _) => apply safe_Ret
  | |- safe (Now _) => apply safe_Now; intros ?
  | |- safe (Range _ _) => apply safe_Range; intros ?
  | |- safe (Call _ _) => apply safe_Call; intros ?
  | |- safe (Atomic _ _) => apply safe_Atomic; intros ?
  | |- safe (bind_ok _ _) => apply safe_bind_ok; [|intros ?]
  | |- safe (bind _ _) => apply safe_bind; [|intros ?]
  | |- safe (wrapped _ _) => apply safe_wrapped
  | |- safe (query _ _) => apply safe_query
  | |- safe (Tx _ _) => apply safe_Tx; [|intros ?]
  | |- safe (for_each _ _) => apply safe_for_each; intros ?
  | |- safe (for_all _ _) => apply safe_for_all; intros ?
  | |- tx_safe (Ret _) => apply tx_safe_Ret
  | |- tx_safe (Now _) => apply tx_safe_Now; intros ?
  | |- tx_safe (bind_ok _ _) => apply tx_safe_bind_ok; [|intros ?]
  | |- tx_safe (bind _ _) => apply tx_safe_bind; [|intros ?]
  | |- tx_safe (wrapped _ _) => apply tx_safe_wrapped
  | |- tx_safe (query _ _) => apply tx_safe_query
  | |- safe (if ?b then _ else _) => destruct b
  | |- tx_safe (if ?b then _ else _) => destruct b
  | |- safe (match ?x with _ => _ end) => destruct x
  | |- tx_safe (match ?x with _ => _ end) => destruct x
  end.
Ltac prove_safe := repeat first [solve [auto with safe nocore] | safe_step].

Section StoreSafe.
Context {P : Postgres}.

Lemma CreateWorker_safe address : safe (CreateWorker address).
Proof using.
  unfold CreateWorker, GetWorker. prove_safe. apply safe_exec. intros env d. unfold insert_worker.
  destruct (find_worker address d); [reflexivity|]. apply rg_other_tables; reflexivity.
Qed.

Lemma UpdateWorkerLastPollAt_safe address t : safe (UpdateWorkerLastPollAt address t).
Proof using. apply safe_exec. intros env d. apply rg_other_tables; reflexivity. Qed.

Lemma SuspendWorker_safe address until v : safe (SuspendWorker address until v).
Proof using. apply safe_exec. intros env d. destruct (int4 v); [apply rg_other_tables; reflexivity|reflexivity]. Qed.

Lemma UnsuspendWorker_safe address : safe (UnsuspendWorker address).
Proof using. apply safe_exec. intros env d. apply rg_other_tables; reflexivity. Qed.

Lemma SetAssignmentReply_safe id valid answer : safe (SetAssignmentReply id valid answer).
Proof using. unfold SetAssignmentReply. prove_safe. apply safe_exec. intros env d. apply rg_reply. Qed.

Lemma timeout_stmt env d id : rg d (snd ((fun (_ : SqlEnv) d =>
  let '(n, d') := update_assignments (claimed_with_id id) timed_out d in (@Ok Z n, d')) env d)).
Proof using. apply rg_timeout. Qed.

Lemma TimeoutAssignment_safe id : safe (TimeoutAssignment id).
Proof using. unfold TimeoutAssignment. prove_safe. apply safe_exec. intros env d. apply (timeout_stmt env). Qed.

Lemma TimeoutAssignment_tx_safe id : tx_safe (TimeoutAssignment id).
Proof using. unfold TimeoutAssignment. prove_safe. apply tx_safe_exec. intros env d. apply (timeout_stmt env). Qed.

Lemma CreateAssignment_tx_safe q w t : tx_safe (CreateAssignment q w t).
Proof using. apply tx_safe_exec. intros env d. apply rg_insert_assignment. Qed.

Lemma CreateQuestion_tx_safe b w q a h : tx_safe (CreateQuestion b w q a h).
Proof using. apply tx_safe_exec. intros env d. apply rg_insert_question. Qed.

Lemma update_bs_rg setID u ok d : rg d (snd (update_bs setID u ok d)).
Proof using. unfold update_bs. destruct (forallb _ _); [apply rg_other_tables; reflexivity|reflexivity]. Qed.

Lemma IncrementBSTotalQuestions_tx_safe b : tx_safe (IncrementBSTotalQuestions b).
Proof using. apply tx_safe_exec. intros env d. apply update_bs_rg. Qed.

Lemma ScoreQuestionRow_safe id score share pr at_ : safe (ScoreQuestionRow id score share pr at_).
Proof using. unfold ScoreQuestionRow. prove_safe. apply safe_exec. intros env d. apply rg_score_question. Qed.
End StoreSafe.

#[export] Hint Resolve CreateWorker_safe UpdateWorkerLastPollAt_safe SuspendWorker_safe UnsuspendWorker_safe
  SetAssignmentReply_safe TimeoutAssignment_safe TimeoutAssignment_tx_safe CreateAssignment_tx_safe
  CreateQuestion_tx_safe IncrementBSTotalQuestions_tx_safe ScoreQuestionRow_safe : safe.
