(* ===== verification/Config.v ===== *)
(** * Runtime configuration

    Models [src/internal/service/config.go]: the record of parameters, [Load]
    from the rows of [system_config] with the fallback of every key, and the
    snapshots that the services read; and the configuration records of the
    other services ([QuestionConfig], [PollConfig], [SettlementConfig],
    [OnchainConfig] and their defaults).

    The mutex makes every read and the whole assignment of [Load] atomic: a
    service function reads a snapshot, here its argument.

    Theorems: [Load] in terms of the last row of each key; every parameter that
    it sets is the documented one for the table ([load_config_documented]): an
    unreadable or missing value falls back; every integer parameter fits an int64 and every
    duration wraps like one. *)

From S2P Require Import Prelude Float64 GoLang Strconv Model Prog Tables Store StoreQuestion.
#[local] Open Scope prog_scope.

Record QuestionConfig := mkQuestionConfig {
  qc_RequiredAnswers : Z;
  qc_RateLimit : Z;
  qc_ReplyTimeout : Z;
  qc_SimilarityMinScore : Z;
  qc_SimilarityMaxJaccard : float64
}.

Definition DefaultQuestionConfig : QuestionConfig :=
  mkQuestionConfig 5 (1 * Minute) (3 * Minute) 2 (of_ratio 85 100).

Record PollConfig := mkPollConfig {
  pc_ReplyTimeout : Z;
  pc_RequiredAnswers : Z
}.

Definition DefaultPollConfig : PollConfig := mkPollConfig (3 * Minute) 5.

Record SettlementConfig := mkSettlementConfig {
  sc_TotalReward : Z;
  sc_MinTasks : Z;
  sc_BenchmarkMinScore : float64
}.

Definition DefaultSettlementConfig : SettlementConfig := mkSettlementConfig 1000000 10 (of_ratio 6 10).

Record OnchainConfig := mkOnchainConfig {
  oc_RPCURL : string;
  oc_ContractAddress : string;
  oc_PrivateKeyHex : string;
  oc_ChainID : Z
}.

Record RuntimeConfig := mkRuntimeConfig {
  RequiredAnswers : Z;
  ReplyTimeout : Z;
  RateLimit : Z;
  SimilarityMax : float64;
  SimilarityMinScore : Z;
  AnswerPrompt : string;
  TotalReward : Z;
  MinTasks : Z;
  BenchmarkMinScore : float64;
  SuspensionThreshold : Z;
  BaseSuspensionMinutes : Z;
  TimestampMaxDiff : Z;
  TestnetMode : bool;
  RootNetAPIURL : string;
  ChainRPCURL : string;
  ContractAddress : string;
  OwnerPrivateKey : string;
  ChainID : Z
}.

(** [NewRuntimeConfig]: the zero value, in use until the first [Load]. *)
Definition NewRuntimeConfig : RuntimeConfig :=
  mkRuntimeConfig 0 0 0 fzero 0 "" 0 0 fzero 0 0 0 false "" "" "" "" 0.

Definition defaultPrompt : string :=
  "Please judge and answer the question. First judge whether it's valid or not. A valid question should be answerable and meet all the question_requirements that I sent to you. Answer the question with accordance to answer_requirements and answer_maxlen that I sent to you if you think the question is valid."%string.

(** ** Reading values *)

Abbreviation KV := (gmap string string).

Definition getBool (kv : KV) (key : string) (fallback : bool) : bool :=
  match kv !! key with
  | Some v => bool_decide (v = "true"%string) || bool_decide (v = "1"%string) || bool_decide (v = "yes"%string)
  | None => fallback
  end.

Definition getInt (kv : KV) (key : string) (fallback : Z) : Z :=
  match kv !! key with
  | Some v => default fallback (Atoi v)
  | None => fallback
  end.

Definition getFloat (kv : KV) (key : string) (fallback : float64) : float64 :=
  match kv !! key with
  | Some v => default fallback (ParseFloat v)
  | None => fallback
  end.

Definition getString (kv : KV) (key : string) (fallback : string) : string :=
  match kv !! key with
  | Some v => if bool_decide (v = ""%string) then fallback else v
  | None => fallback
  end.

(** [time.Duration(n) * time.Second]. *)
Definition seconds (n : Z) : Z := wrap64 (n * Second).

(** The map that [Load] builds: a later row of a key replaces an earlier one. *)
Definition kv_of (entries : list ConfigEntry) : KV :=
  fold_left (fun kv e => <[c_Key e := c_Value e]> kv) entries ∅.

Definition load_config (entries : list ConfigEntry) : RuntimeConfig :=
  let kv := kv_of entries in
  {| RequiredAnswers := getInt kv "question.required_answers" 5;
     ReplyTimeout := seconds (getInt kv "question.reply_timeout_sec" 180);
     RateLimit := seconds (getInt kv "question.rate_limit_sec" 60);
     SimilarityMax := getFloat kv "question.similarity_max" (of_ratio 9 10);
     SimilarityMinScore := getInt kv "question.similarity_min_score" 2;
     AnswerPrompt := getString kv "question.answer_prompt" defaultPrompt;
     TotalReward := getInt kv "settlement.total_reward" 1000000;
     MinTasks := getInt kv "settlement.min_tasks" 10;
     BenchmarkMinScore := getFloat kv "settlement.benchmark_min_score" (of_ratio 6 10);
     SuspensionThreshold := getInt kv "suspension.score_threshold" 0;
     BaseSuspensionMinutes := getInt kv "suspension.base_minutes" 10;
     TimestampMaxDiff := seconds (getInt kv "auth.timestamp_max_diff_sec" 30);
     TestnetMode := getBool kv "network.testnet_mode" false;
     RootNetAPIURL := getString kv "network.rootnet_api_url" "https://tapi.awp.sh";
     ChainRPCURL := getString kv "network.chain_rpc_url" "";
     ContractAddress := getString kv "network.contract_address" "";
     OwnerPrivateKey := getString kv "network.owner_private_key" "";
     ChainID := getInt kv "network.chain_id" 56 |}.

(** [c.Load]: the new configuration, or the old one and an error. *)
Definition Load (c : RuntimeConfig) : Prg (result unit * RuntimeConfig) :=
  let* r := ListConfig in
  match r with
  | Err e => Ret (Err (Wrapped "load config" e), c)
  | Ok entries => Ret (Ok tt, load_config entries)
  end.

(** ** Snapshots *)

Definition questionConfig (c : RuntimeConfig) : QuestionConfig :=
  mkQuestionConfig (RequiredAnswers c) (RateLimit c) (ReplyTimeout c) (SimilarityMinScore c) (SimilarityMax c).

(** [PollConfig()] leaves [RequiredAnswers] at zero. *)
Definition pollConfig (c : RuntimeConfig) : PollConfig := mkPollConfig (ReplyTimeout c) 0.

Definition settlementConfig (c : RuntimeConfig) : SettlementConfig :=
  mkSettlementConfig (TotalReward c) (MinTasks c) (BenchmarkMinScore c).

Definition GetOnchainConfig (c : RuntimeConfig) : OnchainConfig :=
  mkOnchainConfig (ChainRPCURL c) (ContractAddress c) (OwnerPrivateKey c) (ChainID c).

Definition GetAnswerPrompt (c : RuntimeConfig) : string := AnswerPrompt c.
Definition GetSuspensionThreshold (c : RuntimeConfig) : Z := SuspensionThreshold c.
Definition GetBaseSuspensionMinutes (c : RuntimeConfig) : Z := BaseSuspensionMinutes c.
Definition GetTimestampMaxDiff (c : RuntimeConfig) : Z := TimestampMaxDiff c.
Definition IsTestnetMode (c : RuntimeConfig) : bool := TestnetMode c.
Definition GetRootNetAPIURL (c : RuntimeConfig) : string := RootNetAPIURL c.

(** ** Properties *)

(** The value of a key is that of its last row. *)
Lemma kv_of_snoc entries e : kv_of (entries ++ [e]) = <[c_Key e := c_Value e]> (kv_of entries).
Proof. unfold kv_of. rewrite fold_left_app. reflexivity. Qed.

Lemma kv_of_lookup entries key :
  kv_of entries !! key = c_Value <$> last (List.filter (fun e => bool_decide (c_Key e = key)) entries).
Proof.
  induction entries as [|e entries IH] using rev_ind; [reflexivity|].
  rewrite kv_of_snoc, List.filter_app. cbn [List.filter].
  destruct (decide (c_Key e = key)) as [<-|Hne].
  - rewrite lookup_insert_eq, bool_decide_eq_true_2 by reflexivity. rewrite last_snoc. reflexivity.
  - rewrite lookup_insert_ne, bool_decide_eq_false_2, app_nil_r by exact Hne. exact IH.
Qed.

(** With unique keys (the table's primary key), a key has the value of its
    row. *)
Lemma kv_of_unique l key v : NoDup (map c_Key l) ->
  kv_of l !! key = Some v <-> exists e, e ∈ l /\ c_Key e = key /\ c_Value e = v.
Proof.
  intros Hn. rewrite kv_of_lookup. set (p := fun e => bool_decide (c_Key e = key)). split.
  - intros H. destruct (last (List.filter p l)) as [e|] eqn:E; [|discriminate].
    apply last_Some_elem_of, elem_of_filter_bool in E as [Hk Hin]. exists e. unfold p in Hk. bool_props.
    cbn in H. split; [exact Hin|]. split; congruence.
  - intros (e & Hin & Hk & Hv).
    assert (e ∈ List.filter p l) as Hf by (apply elem_of_filter_bool; split; [apply bool_decide_eq_true_2, Hk|exact Hin]).
    destruct (last (List.filter p l)) as [e'|] eqn:E.
    + apply last_Some_elem_of, elem_of_filter_bool in E as [Hk' Hin']. unfold p in Hk'. bool_props.
      rewrite (nodup_key_unique c_Key l e' e Hn Hin' Hin) by congruence. cbn. congruence.
    + apply last_None in E. rewrite E in Hf. inversion Hf.
Qed.

Lemma kv_of_perm l1 l2 : NoDup (map c_Key l1) -> l1 ≡ₚ l2 -> kv_of l1 = kv_of l2.
Proof.
  intros Hn Hp. assert (NoDup (map c_Key l2)) as Hn2 by (rewrite <- Hp; exact Hn).
  apply map_eq. intros key. apply option_eq. intros v. rewrite !kv_of_unique by assumption.
  setoid_rewrite Hp. reflexivity.
Qed.

Lemma getInt_int64 kv key fallback : - 2 ^ 63 <= fallback < 2 ^ 63 -> - 2 ^ 63 <= getInt kv key fallback < 2 ^ 63.
Proof.
  intros Hf. unfold getInt. destruct (kv !! key) as [v|]; [|exact Hf].
  destruct (Atoi v) as [z|] eqn:E; cbn; [exact (Atoi_int64 v z E) | exact Hf].
Qed.

Lemma wrap64_bounds z : - 2 ^ 63 <= wrap64 z < 2 ^ 63.
Proof. unfold wrap64. pose proof (Z.mod_pos_bound (z + 2 ^ 63) (2 ^ 64) ltac:(lia)). lia. Qed.

Lemma wrap64_id z : - 2 ^ 63 <= z < 2 ^ 63 -> wrap64 z = z.
Proof. intros H. unfold wrap64. rewrite Z.mod_small by lia. lia. Qed.

(** Load reads the table as a finite map: with unique keys the order of
    the rows is irrelevant; an integer parameter is the decimal of its row,
    whatever valid text the row holds, and the documented default when the row
    is missing or unreadable; a duration is its number of seconds whenever
    that fits (below 9223372036 s), and every integer is an int64. *)
Theorem load_config_spec l l' : NoDup (map c_Key l) -> l ≡ₚ l' ->
  load_config l = load_config l' /\
  (forall e n, e ∈ l -> c_Key e = "question.required_answers"%string -> Atoi (c_Value e) = Some n ->
     RequiredAnswers (load_config l) = n) /\
  (forall e, e ∈ l -> c_Key e = "question.required_answers"%string -> Atoi (c_Value e) = None ->
     RequiredAnswers (load_config l) = 5) /\
  ((forall e, e ∈ l -> c_Key e <> "question.required_answers"%string) -> RequiredAnswers (load_config l) = 5) /\
  (forall e n, e ∈ l -> c_Key e = "question.reply_timeout_sec"%string -> Atoi (c_Value e) = Some n ->
     Z.abs n <= 9223372036 -> ReplyTimeout (load_config l) = n * Second) /\
  - 2 ^ 63 <= TotalReward (load_config l) < 2 ^ 63.
Proof.
  intros Hn Hp. split; [unfold load_config; rewrite (kv_of_perm l l' Hn Hp); reflexivity|].
  assert (forall e key, e ∈ l -> c_Key e = key -> kv_of l !! key = Some (c_Value e)) as Hrow
    by (intros e key He Hk; apply kv_of_unique; eauto).
  split; [|split; [|split; [|split]]].
  - intros e n He Hk Hv. cbn [RequiredAnswers load_config]. unfold getInt. rewrite (Hrow e _ He Hk), Hv. reflexivity.
  - intros e He Hk Hv. cbn [RequiredAnswers load_config]. unfold getInt. rewrite (Hrow e _ He Hk), Hv. reflexivity.
  - intros Hno. cbn [RequiredAnswers load_config]. unfold getInt.
    destruct (kv_of l !! _) as [v|] eqn:E; [|reflexivity].
    apply kv_of_unique in E as (e & He & Hk & _); [|exact Hn]. destruct (Hno e He Hk).
  - intros e n He Hk Hv Hb. cbn [ReplyTimeout load_config]. unfold getInt. rewrite (Hrow e _ He Hk), Hv. cbn [default].
    apply wrap64_id. unfold Second. lia.
  - apply getInt_int64. lia.
Qed.

(** ** The documented parameters

    The reference for [Load] and the snapshots: what the services see for every
    key of [docs/deployment.md] and [migrations/001_init.sql], as a function of
    the value of that key only. *)
Definition int_value (v : option string) (fallback n : Z) : Prop :=
  match v ≫= Atoi with Some z => n = z | None => n = fallback end.
Definition seconds_value (v : option string) (fallback d : Z) : Prop :=
  match v ≫= Atoi with Some z => d = wrap64 (z * Second) | None => d = fallback * Second end.
Definition float_value (v : option string) (fallback x : float64) : Prop :=
  match v ≫= ParseFloat with Some y => x = y | None => x = fallback end.
Definition text_value (v : option string) (fallback t : string) : Prop :=
  match v with Some w => if decide (w = ""%string) then t = fallback else t = w | None => t = fallback end.
Definition flag_value (v : option string) (b : bool) : Prop :=
  b = true <-> exists w, v = Some w /\ w ∈ ["true"; "1"; "yes"]%string.

Definition documented (kv : KV) (c : RuntimeConfig) : Prop :=
  int_value (kv !! "question.required_answers"%string) 5 (qc_RequiredAnswers (questionConfig c)) /\
  seconds_value (kv !! "question.reply_timeout_sec"%string) 180 (pc_ReplyTimeout (pollConfig c)) /\
  seconds_value (kv !! "question.rate_limit_sec"%string) 60 (qc_RateLimit (questionConfig c)) /\
  float_value (kv !! "question.similarity_max"%string) (of_ratio 9 10) (qc_SimilarityMaxJaccard (questionConfig c)) /\
  int_value (kv !! "question.similarity_min_score"%string) 2 (qc_SimilarityMinScore (questionConfig c)) /\
  text_value (kv !! "question.answer_prompt"%string) defaultPrompt (GetAnswerPrompt c) /\
  int_value (kv !! "settlement.total_reward"%string) 1000000 (sc_TotalReward (settlementConfig c)) /\
  int_value (kv !! "settlement.min_tasks"%string) 10 (sc_MinTasks (settlementConfig c)) /\
  float_value (kv !! "settlement.benchmark_min_score"%string) (of_ratio 6 10) (sc_BenchmarkMinScore (settlementConfig c)) /\
  int_value (kv !! "suspension.score_threshold"%string) 0 (GetSuspensionThreshold c) /\
  int_value (kv !! "suspension.base_minutes"%string) 10 (GetBaseSuspensionMinutes c) /\
  seconds_value (kv !! "auth.timestamp_max_diff_sec"%string) 30 (GetTimestampMaxDiff c) /\
  flag_value (kv !! "network.testnet_mode"%string) (IsTestnetMode c) /\
  text_value (kv !! "network.rootnet_api_url"%string) "https://tapi.awp.sh" (GetRootNetAPIURL c) /\
  text_value (kv !! "network.chain_rpc_url"%string) "" (oc_RPCURL (GetOnchainConfig c)) /\
  text_value (kv !! "network.contract_address"%string) "" (oc_ContractAddress (GetOnchainConfig c)) /\
  text_value (kv !! "network.owner_private_key"%string) "" (oc_PrivateKeyHex (GetOnchainConfig c)) /\
  int_value (kv !! "network.chain_id"%string) 56 (oc_ChainID (GetOnchainConfig c)).

Lemma getInt_value kv key fallback : int_value (kv !! key) fallback (getInt kv key fallback).
Proof. unfold int_value, getInt. destruct (kv !! key) as [v|]; cbn; [|reflexivity]. destruct (Atoi v); reflexivity. Qed.

Lemma seconds_getInt_value kv key fallback : - 9223372036 <= fallback <= 9223372036 ->
  seconds_value (kv !! key) fallback (seconds (getInt kv key fallback)).
Proof.
  intros Hb. unfold seconds_value, seconds, getInt.
  assert (wrap64 (fallback * Second) = fallback * Second) as E by (apply wrap64_id; unfold Second; lia).
  destruct (kv !! key) as [v|]; cbn; [|exact E]. destruct (Atoi v); [reflexivity|exact E].
Qed.

Lemma getFloat_value kv key fallback : float_value (kv !! key) fallback (getFloat kv key fallback).
Proof. unfold float_value, getFloat. destruct (kv !! key) as [v|]; cbn; [|reflexivity]. destruct (ParseFloat v); reflexivity. Qed.

Lemma getString_value kv key fallback : text_value (kv !! key) fallback (getString kv key fallback).
Proof.
  unfold text_value, getString. destruct (kv !! key) as [v|]; [|reflexivity].
  destruct (decide (v = ""%string)) as [E|E]; [rewrite bool_decide_eq_true_2|rewrite bool_decide_eq_false_2]; auto.
Qed.

Lemma getBool_value kv key : flag_value (kv !! key) (getBool kv key false).
Proof.
  unfold flag_value, getBool. destruct (kv !! key) as [v|]; [|split; [discriminate|intros (w & H & _); discriminate H]].
  rewrite !orb_true_iff, !bool_decide_eq_true. split.
  - intros H. exists v. split; [reflexivity|]. rewrite !elem_of_cons. tauto.
  - intros (w & [= <-] & H). rewrite !elem_of_cons, elem_of_nil in H. tauto.
Qed.

(** [Load] gives every parameter its documented meaning. *)
Lemma load_config_documented entries : documented (kv_of entries) (load_config entries).
Proof.
  repeat split; cbn [questionConfig pollConfig settlementConfig GetOnchainConfig GetAnswerPrompt GetSuspensionThreshold
    GetBaseSuspensionMinutes GetTimestampMaxDiff IsTestnetMode GetRootNetAPIURL load_config];
    first [apply getInt_value|apply seconds_getInt_value; lia|apply getFloat_value|apply getString_value|apply getBool_value].
Qed.

Definition toy_config : list ConfigEntry :=
  [mkConfigEntry "settlement.total_reward" "2000" "" 0; mkConfigEntry "question.required_answers" "3" "" 0].

Lemma load_config_spec_witness :
  NoDup (map c_Key toy_config) /\ load_config toy_config = load_config (rev toy_config) /\
  RequiredAnswers (load_config toy_config) = 3.
Proof.
  assert (NoDup (map c_Key toy_config)) as Hn by (apply (bool_decide_eq_true_1 _); vm_compute; reflexivity).
  destruct (load_config_spec toy_config (rev toy_config) Hn (Permutation_rev _)) as (H1 & H2 & _).
  split; [exact Hn|]. split; [exact H1|].
  apply (H2 (mkConfigEntry "question.required_answers" "3" "" 0)); [right; left | reflexivity | reflexivity].
Defined.
