(* ===== verification/Scoring.v ===== *)
(** * Scoring a question

    Models [src/internal/service/scoring.go]: the classification of the
    collected answers, the three scoring cases, the statements that record the
    scores, and the suspension of workers whose score is too low.

    Theorems: whatever order Go iterates the answer groups in, the scores are
    those of a reference definition by cases and every reply is scored once
    ([score_replies_reference]); the shares that are stored never add up to
    more than the whole for up to five answers ([score_replies_shares]); a call
    that succeeds records exactly these scores and nothing else
    ([ScoreQuestion_spec]); a question that is not submitted is left alone
    ([ScoreQuestion_idempotent]); the values fit their columns
    ([score_replies_typed]); with other goroutines running, only replied
    assignments of the question are ever scored ([ScoreQuestion_safe]); a
    failure in the middle leaves replies unscored ([ScoreQuestion_not_atomic]);
    the length of a suspension ([suspension_doubles], [suspension_overflows]). *)

From Stdlib Require Import QArith Lqa.
From S2P Require Import Prelude Float64 GoLang Model Prog Tables Store StoreQuestion Lifecycle Config.
#[local] Open Scope Z_scope.
#[local] Open Scope prog_scope.

(** ScoringService, without its store. *)
Record ScoringService := mkScoringService {
  ss_BaseSuspensionMinutes : Z;
  ss_RtConfig : option RuntimeConfig
}.

Definition NewScoringService : ScoringService := mkScoringService 10 None.

Definition suspensionThreshold (svc : ScoringService) : Z :=
  match ss_RtConfig svc with Some c => GetSuspensionThreshold c | None => 0 end.

Definition baseSuspMinutes (svc : ScoringService) : Z :=
  match ss_RtConfig svc with
  | Some c => GetBaseSuspensionMinutes c
  | None => ss_BaseSuspensionMinutes svc
  end.

(** ** Scores *)

Definition questionerCase3Score (nCorrect : Z) : Z * float64 :=
  if nCorrect =? 1 then (5, of_ratio 1 1)
  else if nCorrect =? 2 then (5, of_ratio 9 10)
  else if nCorrect =? 3 then (4, of_ratio 7 10)
  else if nCorrect =? 4 then (3, of_ratio 5 10)
  else (2, of_ratio 1 10).

Definition checkAnswer (method reference submitted : string) : bool := bool_decide (reference = submitted).

Definition findAssignByID (assignments : list Assignment) (id : Z) : option Assignment :=
  List.find (fun a => a_AssignmentID a =? id) assignments.

Record aScore := mkAScore { as_id : Z; as_score : Z; as_share : float64 }.

Definition judged_invalid (a : Assignment) : bool := bool_decide (a_ReplyValid a = Some false).
Definition judged_valid (a : Assignment) : bool := bool_decide (a_ReplyValid a = Some true).
Definition answers_with (method answer : string) (a : Assignment) : bool :=
  checkAnswer method answer (deref (a_ReplyAnswer a)).

(** [len(l)]. *)
Definition len {X} (l : list X) : Z := Z.of_nat (length l).

Definition score_all (score : Z) (share : float64) (l : list Assignment) : list aScore :=
  map (fun a => mkAScore (a_AssignmentID a) score share) l.

(** The groups of equal answers of case 2, as the map the code builds. *)
Abbreviation Groups := (gmap string (list Assignment)).

Definition add_to_group (groups : Groups) (a : Assignment) : Groups :=
  if judged_valid a then
    let key := ("answer:" +:+ deref (a_ReplyAnswer a))%string in
    <[key := default [] (groups !! key) ++ [a]]> groups
  else groups.

Definition answer_groups (replied : list Assignment) : Groups :=
  let groups := fold_left add_to_group replied ∅ in
  let invalidGroup := List.filter judged_invalid replied in
  match invalidGroup with
  | [] => groups
  | _ => <["invalid"%string := invalidGroup]> groups
  end.

(** The first loop over the map finds the size of the largest group: the order
    of iteration does not matter. *)
Definition max_size (groups : list (string * list Assignment)) : Z :=
  fold_left (fun m g => if len (snd g) >? m then len (snd g) else m) groups 0.

(** The second loop, over the entries in the order of iteration. *)
Definition case2_scores (entries : list (string * list Assignment)) (replied : list Assignment) : list aScore :=
  let maxSize := max_size entries in
  let winners := concat (map snd (List.filter (fun g => len (snd g) =? maxSize) entries)) in
  let losers := concat (map snd (List.filter (fun g => negb (len (snd g) =? maxSize)) entries)) in
  let winnerShare := of_ratio 1 (len winners) in
  score_all 5 winnerShare winners ++
  score_all 2 fzero (List.filter (fun a => bool_decide (a_AssignmentID a ∈ map a_AssignmentID losers)) replied).

(** The three cases: the question's score and share, and the assignments'. *)
Definition score_replies (method answer : string) (replied : list Assignment) : Prg (Z * float64 * list aScore) :=
  let correctAssigns := List.filter (fun a => judged_valid a && answers_with method answer a) replied in
  let wrongAssigns := List.filter (fun a => judged_valid a && negb (answers_with method answer a)) replied in
  let invalidAssigns := List.filter judged_invalid replied in
  let nCorrect := len correctAssigns in
  let nTotal := len replied in
  if nCorrect >? 0 then
    let '(qScore, qShare) := questionerCase3Score nCorrect in
    Ret (qScore, qShare,
         score_all 5 (of_ratio 1 nCorrect) correctAssigns ++
         score_all 3 fzero wrongAssigns ++ score_all 2 fzero invalidAssigns)
  else if len invalidAssigns =? nTotal then
    Ret (0, fzero, score_all 5 (of_ratio 1 nTotal) invalidAssigns)
  else
    Range (map_to_list (answer_groups replied)) (fun entries =>
    Ret (1, of_ratio 1 10, case2_scores entries replied)).

Definition pass_rate (method answer : string) (replied : list Assignment) : float64 :=
  if len replied >? 0
  then of_ratio (len (List.filter (fun a => judged_valid a && answers_with method answer a) replied)) (len replied)
  else fzero.

(** ** Suspension *)

(** [for i := 1; i < violations; i++ { minutes *= 2 }]. *)
Definition doubled (minutes violations : Z) : Z :=
  Nat.iter (Z.to_nat (violations - 1)) (fun m => wrap64 (m * 2)) minutes.

(** [time.Duration(minutes) * time.Minute]. *)
Definition minutes_duration (minutes : Z) : Z := wrap64 (minutes * Minute).

Section Scoring.
Context {P : Postgres}.
Variable svc : ScoringService.

Definition maybeSuspend (workerAddr : string) : Prg unit :=
  if suspensionThreshold svc <=? 0 then Ret tt
  else
    let* r := GetWorker workerAddr in
    match r with
    | Ok (Some wk) =>
        let violations := w_EpochViolations wk + 1 in
        let d := minutes_duration (doubled (baseSuspMinutes svc) violations) in
        Now (fun now1 =>
        Now (fun now2 =>
        let until := if IsSuspended now2 wk then default 0 (w_SuspendedUntil wk) + d else now1 + d in
        let* _ := SuspendWorker workerAddr until violations in
        Ret tt))
    | _ => Ret tt
    end.

(** The suspensions at the end of [ScoreQuestion]. *)
Definition suspend_low_scores (questioner : string) (qScore : Z) (assignments : list Assignment)
    (aScores : list aScore) : Prg unit :=
  let* _ := if qScore <? suspensionThreshold svc then maybeSuspend questioner else Ret tt in
  for_all aScores (fun a =>
    if as_score a <? suspensionThreshold svc then
      match findAssignByID assignments (as_id a) with
      | Some a => maybeSuspend (a_Worker a)
      | None => Ret tt
      end
    else Ret tt).

(** The scores, written one assignment at a time. *)
Definition set_score (x : aScore) : Prg (result unit) :=
  wrapped "score assignment" (SetAssignmentScore (as_id x) AssignmentStatusScored (as_score x) (as_share x)).

Definition record_scores (aScores : list aScore) : Prg (result unit) := for_each aScores set_score.

(** [svc.ScoreQuestion]. *)
Definition ScoreQuestion (questionID : Z) : Prg (result unit) :=
  let? q := wrapped "get question" (GetQuestion questionID) in
  match q with
  | None => Ret (Ok tt)
  | Some q =>
      if negb (is_submitted q) then Ret (Ok tt)
      else
        let? assignments := wrapped "list assignments" (ListAssignmentsByQuestion questionID) in
        let replied := List.filter is_replied assignments in
        match replied with
        | [] => Ret (Err (Failure "no replied assignments for question"))
        | _ =>
            let? bs := wrapped "get benchmark set" (GetBenchmarkSet (q_BSID q)) in
            match bs with
            | None => Ret (Err (Failure "benchmark set not found"))
            | Some bs =>
                let* scores := score_replies (bs_AnswerCheckMethod bs) (q_Answer q) replied in
                let '(qScore, qShare, aScores) := scores in
                Now (fun now =>
                let? updated := wrapped "score question"
                  (ScoreQuestionRow questionID qScore qShare
                     (pass_rate (bs_AnswerCheckMethod bs) (q_Answer q) replied) now) in
                if negb updated then Ret (Ok tt)
                else
                  record_scores aScores ;;?
                  let* _ := suspend_low_scores (q_Questioner q) qScore assignments aScores in
                  Ret (Ok tt))
            end
        end
  end.
End Scoring.

(** ** Reference definition

    Two replies agree when both judge the question invalid or both answer the
    same text. *)
Definition judged (a : Assignment) : bool := judged_valid a || judged_invalid a.

Definition agree (a b : Assignment) : bool :=
  (judged_invalid a && judged_invalid b) ||
  (judged_valid a && judged_valid b && bool_decide (deref (a_ReplyAnswer a) = deref (a_ReplyAnswer b))).

Section Reference.
Variables (method answer : string) (replied : list Assignment).

Definition correct (a : Assignment) : bool := judged_valid a && answers_with method answer a.

(** [a] belongs to a largest group of agreeing replies. *)
Definition in_majority (a : Assignment) : bool :=
  forallb (fun b => count_if (agree b) replied <=? count_if (agree a) replied) replied.

Definition ref_score (a : Assignment) : Z :=
  if existsb correct replied then
    if correct a then 5 else if judged_valid a then 3 else 2
  else if forallb judged_invalid replied then 5
  else if in_majority a then 5 else 2.

Definition ref_share (a : Assignment) : float64 :=
  if ref_score a =? 5 then of_ratio 1 (count_if (fun b => ref_score b =? 5) replied) else fzero.

Definition ref_aScore (a : Assignment) : aScore := mkAScore (a_AssignmentID a) (ref_score a) (ref_share a).

Definition ref_question : Z * float64 :=
  if existsb correct replied then questionerCase3Score (count_if correct replied)
  else if forallb judged_invalid replied then (0, fzero)
  else (1, of_ratio 1 10).
End Reference.

(** ** The groups of answers *)

Definition group_key (a : Assignment) : string :=
  if judged_valid a then ("answer:" +:+ deref (a_ReplyAnswer a))%string else "invalid".

Definition group_of (k : string) (replied : list Assignment) : list Assignment :=
  List.filter (fun a => bool_decide (group_key a = k)) replied.

Lemma judged_cases a : judged a = true ->
  (judged_valid a = true /\ judged_invalid a = false) \/ (judged_valid a = false /\ judged_invalid a = true).
Proof.
  unfold judged, judged_valid, judged_invalid. destruct (a_ReplyValid a) as [[]|]; cbn; auto.
Qed.

Lemma group_key_agree a b : judged a = true -> judged b = true ->
  bool_decide (group_key b = group_key a) = agree a b.
Proof.
  intros Ha Hb. unfold group_key, agree.
  destruct (judged_cases a Ha) as [[-> ->]|[-> ->]], (judged_cases b Hb) as [[-> ->]|[-> ->]]; try reflexivity.
  apply bool_decide_ext. split; [intros H; cbn in H; injection H as H; symmetry; exact H | intros ->; reflexivity].
Qed.

Lemma group_of_cons_app k l a : group_of k (l ++ [a]) =
  group_of k l ++ (if bool_decide (group_key a = k) then [a] else []).
Proof. unfold group_of. rewrite List.filter_app. cbn. destruct (bool_decide _); reflexivity. Qed.

Definition nonempty {X} (l : list X) : option (list X) := match l with [] => None | _ => Some l end.

Lemma nonempty_default {X} (l : list X) : default [] (nonempty l) = l.
Proof. destruct l; reflexivity. Qed.

Lemma fold_groups_lookup replied k :
  fold_left add_to_group replied ∅ !! k = nonempty (group_of k (List.filter judged_valid replied)).
Proof.
  induction replied as [|a replied IH] using rev_ind; [reflexivity|].
  rewrite fold_left_app, List.filter_app. cbn [fold_left List.filter]. unfold add_to_group at 1.
  destruct (judged_valid a) eqn:Ha; [|rewrite app_nil_r; exact IH].
  rewrite group_of_cons_app. assert (group_key a = ("answer:" +:+ deref (a_ReplyAnswer a))%string) as <-
    by (unfold group_key; rewrite Ha; reflexivity).
  destruct (decide (group_key a = k)) as [<-|Hne].
  - rewrite lookup_insert_eq, IH, nonempty_default, bool_decide_eq_true_2 by reflexivity.
    destruct (group_of _ _); reflexivity.
  - rewrite lookup_insert_ne, bool_decide_eq_false_2, app_nil_r by exact Hne. exact IH.
Qed.

Lemma group_key_invalid a : judged a = true -> bool_decide (group_key a = "invalid"%string) = judged_invalid a.
Proof.
  intros Ha. unfold group_key. destruct (judged_cases a Ha) as [[-> ->]|[-> ->]]; [|reflexivity].
  apply bool_decide_eq_false_2. discriminate.
Qed.

(** The map of groups: each key has the replies of that key. *)
Lemma answer_groups_lookup replied k : (forall a, a ∈ replied -> judged a = true) ->
  answer_groups replied !! k = nonempty (group_of k replied).
Proof.
  intros Hj. unfold answer_groups.
  assert (group_of "invalid" replied = List.filter judged_invalid replied) as Hinv
    by (apply filter_ext_elem; intros a Ha; apply group_key_invalid, Hj, Ha).
  assert (group_of "invalid" (List.filter judged_valid replied) = []) as Hnone.
  { apply filter_none. intros a Ha. apply elem_of_filter_bool in Ha as [Hv _].
    unfold group_key. rewrite Hv. apply bool_decide_eq_false_2. discriminate. }
  destruct (decide (k = "invalid"%string)) as [->|Hk].
  - rewrite Hinv. destruct (List.filter judged_invalid replied) eqn:E.
    + rewrite fold_groups_lookup, Hnone. reflexivity.
    + rewrite lookup_insert_eq. reflexivity.
  - assert (group_of k (List.filter judged_valid replied) = group_of k replied) as Hg.
    { unfold group_of. rewrite filter_filter. apply filter_ext_elem. intros a Ha.
      unfold group_key. destruct (judged_valid a); [reflexivity|].
      symmetry. apply bool_decide_eq_false_2. congruence. }
    destruct (List.filter judged_invalid replied).
    + rewrite fold_groups_lookup, Hg. reflexivity.
    + rewrite lookup_insert_ne by congruence. rewrite fold_groups_lookup, Hg. reflexivity.
Qed.

(** The entries of the map, in any order of iteration. *)
Section Entries.
Variables (replied : list Assignment) (entries : list (string * list Assignment)).
Hypothesis Hj : forall a, a ∈ replied -> judged a = true.
Hypothesis Hnd : NoDup replied.
Hypothesis Hentries : entries ≡ₚ map_to_list (answer_groups replied).

Lemma entry_iff k g : (k, g) ∈ entries <-> g = group_of k replied /\ g <> [].
Proof using Hj Hentries.
  rewrite Hentries, elem_of_map_to_list, answer_groups_lookup by exact Hj.
  unfold nonempty. destruct (group_of k replied) eqn:E; split.
  - discriminate.
  - intros [-> H]. congruence.
  - intros [= <-]. split; [reflexivity|discriminate].
  - intros [-> _]. reflexivity.
Qed.

Lemma in_group a k : a ∈ group_of k replied <-> group_key a = k /\ a ∈ replied.
Proof using. unfold group_of. rewrite elem_of_filter_bool, bool_decide_eq_true. tauto. Qed.

Lemma own_entry a : a ∈ replied -> (group_key a, group_of (group_key a) replied) ∈ entries.
Proof using Hj Hentries.
  intros Ha. apply entry_iff. split; [reflexivity|]. intros E.
  assert (a ∈ group_of (group_key a) replied) as H by (apply in_group; auto). rewrite E in H. inversion H.
Qed.

Lemma elem_of_selected sel a :
  a ∈ concat (map snd (List.filter sel entries)) <->
  a ∈ replied /\ sel (group_key a, group_of (group_key a) replied) = true.
Proof using Hj Hentries.
  rewrite list_elem_of_In, in_concat. setoid_rewrite in_map_iff. split.
  - intros (g & ([k g'] & E & Hin) & Ha). cbn in E. subst g'.
    apply list_elem_of_In, elem_of_filter_bool in Hin as [Hs Hin].
    apply entry_iff in Hin as [-> _]. apply list_elem_of_In, in_group in Ha as [<- Ha]. auto.
  - intros [Ha Hs]. exists (group_of (group_key a) replied).
    split; [|apply list_elem_of_In, in_group; auto].
    exists (group_key a, group_of (group_key a) replied). split; [reflexivity|].
    apply list_elem_of_In, elem_of_filter_bool. split; [exact Hs | apply own_entry, Ha].
Qed.

Lemma NoDup_selected sel : NoDup (concat (map snd (List.filter sel entries))).
Proof using Hj Hnd Hentries.
  assert (forall l : list (string * list Assignment), concat (map snd l) = l ≫= snd) as ->.
  { induction l as [|x l IH]; [reflexivity|]. cbn. rewrite IH. reflexivity. }
  apply NoDup_bind.
  - intros [k1 g1] [k2 g2] a H1 H2 Ha1 Ha2. cbn in *.
    apply elem_of_filter_bool in H1 as [_ H1], H2 as [_ H2].
    apply entry_iff in H1 as [-> _], H2 as [-> _].
    apply in_group in Ha1 as [<- _], Ha2 as [<- _]. reflexivity.
  - intros [k g] H. apply elem_of_filter_bool in H as [_ H]. apply entry_iff in H as [-> _].
    apply NoDup_filter_bool, Hnd.
  - apply NoDup_filter_bool. rewrite Hentries. apply NoDup_map_to_list.
Qed.

(** Selecting groups selects the replies whose group is selected. *)
Lemma selected_perm sel :
  concat (map snd (List.filter sel entries)) ≡ₚ
  List.filter (fun a => sel (group_key a, group_of (group_key a) replied)) replied.
Proof using Hj Hnd Hentries.
  apply NoDup_Permutation; [apply NoDup_selected | apply NoDup_filter_bool, Hnd|].
  intros a. rewrite elem_of_selected, elem_of_filter_bool. tauto.
Qed.

Lemma len_group a : a ∈ replied -> len (group_of (group_key a) replied) = count_if (agree a) replied.
Proof using Hj.
  intros Ha. unfold len, count_if, group_of. f_equal. f_equal. apply filter_ext_elem.
  intros b Hb. apply group_key_agree; apply Hj; assumption.
Qed.

Lemma max_size_spec (l : list (string * list Assignment)) : forall m, 0 <= m ->
  let r := fold_left (fun m g => if len (snd g) >? m then len (snd g) else m) l m in
  m <= r /\ (forall k g, (k, g) ∈ l -> len g <= r) /\ (r = m \/ exists k g, (k, g) ∈ l /\ len g = r).
Proof using.
  induction l as [|[k g] l IH]; intros m Hm; cbn.
  - split; [lia|]. split; [intros k g H; inversion H|auto].
  - set (m' := if len g >? m then len g else m).
    assert (m <= m' /\ len g <= m' /\ (m' = m \/ m' = len g)) as (H1 & H2 & H3)
      by (unfold m'; destruct (Z.gtb_spec (len g) m); lia).
    destruct (IH m' ltac:(lia)) as (Ha & Hb & Hc). split; [lia|]. split.
    + intros k' g' H. apply elem_of_cons in H as [[= -> ->]|H]; [lia | eauto].
    + destruct Hc as [->|(k' & g' & H & <-)]; [|right; exists k', g'; split; [right; exact H|reflexivity]].
      destruct H3 as [->| ->]; [auto|]. right. exists k, g. split; [left|reflexivity].
Qed.

Lemma max_size_majority a : a ∈ replied ->
  (len (group_of (group_key a) replied) =? max_size entries) = in_majority replied a.
Proof using Hj Hentries.
  intros Ha. destruct (max_size_spec entries 0 ltac:(lia)) as (_ & Hle & Hatt). fold (max_size entries) in *.
  pose proof (Hle _ _ (own_entry a Ha)) as Hma.
  assert (0 < count_if (agree a) replied) as Hpos.
  { apply (count_if_pos _ _ a Ha). unfold agree.
    destruct (judged_cases a (Hj a Ha)) as [[-> ->]|[-> ->]]; [|reflexivity].
    apply bool_decide_eq_true_2. reflexivity. }
  rewrite len_group in * by exact Ha. unfold in_majority. apply eq_true_iff_eq.
  rewrite Z.eqb_eq, forallb_true. split.
  - intros E b Hb. apply Z.leb_le. rewrite E, <- (len_group b Hb). apply (Hle _ _ (own_entry b Hb)).
  - intros H. destruct Hatt as [Hz|(k & g & Hg & Eg)]; [lia|].
    apply entry_iff in Hg as [-> Hne]. destruct (group_of k replied) as [|b g'] eqn:E; [congruence|].
    assert (b ∈ group_of k replied) as Hb by (rewrite E; left). apply in_group in Hb as [<- Hb].
    rewrite <- E in Eg. rewrite len_group in Eg by exact Hb. specialize (H b Hb). apply Z.leb_le in H. lia.
Qed.
End Entries.

(** ** The implementation computes the reference *)

Definition wf_replied (replied : list Assignment) : Prop :=
  replied <> [] /\ NoDup (map a_AssignmentID replied) /\ (forall a, a ∈ replied -> judged a = true).

Section Cases.
Variables (method answer : string) (replied : list Assignment).
Hypothesis Hwf : wf_replied replied.

Local Abbreviation correct := (correct method answer).
Local Abbreviation ref_score := (ref_score method answer replied).
Local Abbreviation ref_aScore := (ref_aScore method answer replied).

(** A class of replies with the same reference score and share. *)
Lemma score_all_ref score share l :
  (forall a, a ∈ l -> ref_score a = score /\ ref_share method answer replied a = share) ->
  score_all score share l = map ref_aScore l.
Proof using.
  intros H. unfold score_all. apply map_ext_elem. intros a Ha. destruct (H a Ha) as [<- <-]. reflexivity.
Qed.

Lemma ref_share_zero a : ref_score a <> 5 -> ref_share method answer replied a = fzero.
Proof using. intros H. unfold ref_share. destruct (Z.eqb_spec (ref_score a) 5); [contradiction|reflexivity]. Qed.

Lemma ref_share_winner a n : ref_score a = 5 -> count_if (fun b => ref_score b =? 5) replied = n ->
  ref_share method answer replied a = of_ratio 1 n.
Proof using. intros H <-. unfold ref_share. rewrite H. reflexivity. Qed.

Lemma case3_scores : existsb correct replied = true ->
  score_all 5 (of_ratio 1 (count_if correct replied)) (List.filter correct replied) ++
  score_all 3 fzero (List.filter (fun a => judged_valid a && negb (answers_with method answer a)) replied) ++
  score_all 2 fzero (List.filter judged_invalid replied) ≡ₚ map ref_aScore replied.
Proof using Hwf.
  intros Hex. destruct Hwf as (_ & _ & Hj).
  assert (forall a, a ∈ replied -> ref_score a = if correct a then 5 else if judged_valid a then 3 else 2) as Hs
    by (intros a _; unfold Scoring.ref_score; rewrite Hex; reflexivity).
  assert (count_if (fun b => ref_score b =? 5) replied = count_if correct replied) as Hn.
  { apply count_if_ext. intros a Ha. rewrite (Hs a Ha). destruct (correct a), (judged_valid a); reflexivity. }
  rewrite !score_all_ref, <- !map_app.
  - apply Permutation_map. rewrite (filter_split correct replied) at 4. apply Permutation_app_head.
    rewrite (filter_split judged_valid (List.filter (fun a => negb (correct a)) replied)), !filter_filter.
    apply Permutation_refl'. f_equal; apply filter_ext_elem; intros a Ha; unfold Scoring.correct;
      destruct (judged_cases a (Hj a Ha)) as [[Hv Hi]|[Hv Hi]]; rewrite ?Hv, ?Hi; cbn; try reflexivity;
      destruct (answers_with method answer a); reflexivity.
  - intros a Ha. apply elem_of_filter_bool in Ha as [Hi Ha]. rewrite (Hs a Ha). unfold Scoring.correct.
    destruct (judged_cases a (Hj a Ha)) as [[Hv Hi']|[Hv _]]; [congruence|]. rewrite Hv. cbn.
    split; [reflexivity|]. apply ref_share_zero. rewrite (Hs a Ha). unfold Scoring.correct. rewrite Hv. discriminate.
  - intros a Ha. apply elem_of_filter_bool in Ha as [Hi Ha]. apply andb_true_iff in Hi as [Hv Hc].
    assert (correct a = false) as Hca by (unfold Scoring.correct; rewrite Hv; apply negb_true_iff, Hc).
    rewrite (Hs a Ha), Hca, Hv. split; [reflexivity|]. apply ref_share_zero. rewrite (Hs a Ha), Hca, Hv. discriminate.
  - intros a Ha. apply elem_of_filter_bool in Ha as [Hc Ha]. rewrite (Hs a Ha), Hc. split; [reflexivity|].
    apply ref_share_winner; [rewrite (Hs a Ha), Hc; reflexivity | exact Hn].
Qed.

Lemma case1_scores : existsb correct replied = false -> forallb judged_invalid replied = true ->
  score_all 5 (of_ratio 1 (len replied)) replied = map ref_aScore replied.
Proof using.
  intros Hex Hall.
  assert (forall a, ref_score a = 5) as Hs by (intros a; unfold Scoring.ref_score; rewrite Hex, Hall; reflexivity).
  apply score_all_ref. intros a Ha. split; [apply Hs|]. apply ref_share_winner; [apply Hs|].
  unfold count_if, len. rewrite filter_all; [reflexivity|]. intros b _. rewrite Hs. reflexivity.
Qed.

Lemma case2_ref entries : existsb correct replied = false -> forallb judged_invalid replied = false ->
  entries ≡ₚ map_to_list (answer_groups replied) ->
  case2_scores entries replied ≡ₚ map ref_aScore replied.
Proof using Hwf.
  intros Hex Hall Hent. destruct Hwf as (_ & Hids & Hj). pose proof (NoDup_map_inv _ _ Hids) as Hnd.
  assert (forall a, ref_score a = if in_majority replied a then 5 else 2) as Hs
    by (intros a; unfold Scoring.ref_score; rewrite Hex, Hall; reflexivity).
  set (win := fun g : string * list Assignment => len (snd g) =? max_size entries).
  assert (forall a, a ∈ replied -> win (group_key a, group_of (group_key a) replied) = in_majority replied a) as Hwin
    by (intros a Ha; apply (max_size_majority replied entries Hj Hent a Ha)).
  pose proof (selected_perm replied entries Hj Hnd Hent win) as Hw.
  pose proof (selected_perm replied entries Hj Hnd Hent (fun g => negb (win g))) as Hl. cbn beta in Hl.
  rewrite (filter_ext_elem _ (in_majority replied)) in Hw by exact Hwin.
  rewrite (filter_ext_elem _ (fun a => negb (in_majority replied a))) in Hl by (intros a Ha; rewrite Hwin; auto).
  unfold case2_scores. fold win. 
  set (winners := concat (map snd (List.filter win entries))) in *.
  change (fun g : string * list Assignment => negb (len (snd g) =? max_size entries)) with (fun g => negb (win g)).
  set (losers := concat (map snd (List.filter (fun g => negb (win g)) entries))) in *.
  assert (len winners = count_if (fun b => ref_score b =? 5) replied) as Hn.
  { unfold len. rewrite Hw. unfold count_if. f_equal. f_equal. apply filter_ext_elem. intros a _.
    rewrite Hs. destruct (in_majority replied a); reflexivity. }
  assert (List.filter (fun a => bool_decide (a_AssignmentID a ∈ map a_AssignmentID losers)) replied =
    List.filter (fun a => negb (in_majority replied a)) replied) as ->.
  { apply filter_ext_elem. intros a Ha. apply eq_true_iff_eq. rewrite bool_decide_eq_true, Hl, elem_of_map. split.
    - intros (b & E & Hb). apply elem_of_filter_bool in Hb as [Hm Hb].
      rewrite (nodup_key_unique a_AssignmentID replied a b Hids Ha Hb E). exact Hm.
    - intros Hm. exists a. split; [reflexivity|]. apply elem_of_filter_bool. auto. }
  rewrite !score_all_ref, <- map_app.
  - apply Permutation_map. rewrite Hw. symmetry. apply filter_split.
  - intros a Ha. apply elem_of_filter_bool in Ha as [Hm Ha]. apply negb_true_iff in Hm.
    assert (ref_score a = 2) as E by (rewrite Hs, Hm; reflexivity). split; [exact E|]. apply ref_share_zero. lia.
  - intros a Ha. rewrite Hw in Ha. apply elem_of_filter_bool in Ha as [Hm Ha].
    assert (ref_score a = 5) as E by (rewrite Hs, Hm; reflexivity). split; [exact E|].
    apply ref_share_winner; [exact E | symmetry; exact Hn].
Qed.
End Cases.

(** What [score_replies] returns, in every order of iteration. *)
Lemma score_replies_wp Fault Reply in_tx R G method answer replied ab (s : St) : wf_replied replied ->
  wp Fault Reply in_tx R G (score_replies method answer replied)
    (fun r ab' s' => ab' = ab /\ s' = s /\ fst r = ref_question method answer replied /\
       snd r ≡ₚ map (ref_aScore method answer replied) replied) ab s.
Proof.
  intros Hwf. unfold score_replies, ref_question.
  assert (forall a, judged_valid a && answers_with method answer a = correct method answer a) as Hc by reflexivity.
  change (fun a => judged_valid a && answers_with method answer a) with (correct method answer).
  change (len (List.filter (correct method answer) replied)) with (count_if (correct method answer) replied).
  destruct (existsb (correct method answer) replied) eqn:Hex.
  - apply existsb_true in Hex as Hex'. destruct Hex' as (a & Ha & Hca).
    pose proof (count_if_pos _ _ a Ha Hca). destruct (Z.gtb_spec (count_if (correct method answer) replied) 0); [|lia].
    destruct (questionerCase3Score _) as [qs qsh]. rewrite wp_Ret. cbn. repeat split.
    apply case3_scores; assumption.
  - rewrite existsb_false in Hex. pose proof (proj1 (count_if_zero (correct method answer) replied) Hex) as Hz.
    rewrite Hz. cbn [Z.gtb Z.compare]. apply existsb_false in Hex.
    destruct (forallb judged_invalid replied) eqn:Hall.
    + rewrite (filter_all judged_invalid replied) by (apply forallb_true, Hall).
      rewrite Z.eqb_refl, wp_Ret. cbn. repeat split. rewrite (case1_scores method answer) by assumption. reflexivity.
    + assert ((len (List.filter judged_invalid replied) =? len replied) = false) as ->.
      { apply Z.eqb_neq. intros E. apply not_true_iff_false in Hall. apply Hall, forallb_true.
        intros a Ha. destruct (judged_invalid a) eqn:Hi; [reflexivity|exfalso].
        pose proof (Permutation_length (filter_split judged_invalid replied)) as Hl. rewrite length_app in Hl.
        unfold len in E. assert (a ∈ List.filter (fun x => negb (judged_invalid x)) replied) as Hin
          by (apply elem_of_filter_bool; rewrite Hi; auto).
        destruct (List.filter (fun x => negb (judged_invalid x)) replied); [inversion Hin|]. cbn in Hl. lia. }
      rewrite wp_Range. intros entries Hent. rewrite wp_Ret. cbn. repeat split. apply case2_ref; assumption.
Qed.

(** C4: whatever order Go iterates the answer groups in, [score_replies] gives
    the question the score of its case and every reply exactly the score and
    share of the reference definition: with a correct answer 5/3/2 for
    correct, wrong and "invalid"; 5 to everybody when all judge the question
    invalid; otherwise 5 to the members of the largest groups of agreeing
    replies and 2 to the others; the replies with score 5 share one whole
    equally and nobody else gets a share. *)
Theorem score_replies_reference E method answer replied s : wf_replied replied ->
  exists aScores,
    fst (run_top E (score_replies method answer replied) s) =
      (ref_question method answer replied, aScores) /\
    aScores ≡ₚ map (ref_aScore method answer replied) replied.
Proof.
  intros Hwf.
  assert (respects (fun _ => True) any_reply (fun _ _ => True) E) as HE by (repeat split).
  destruct (run_top E (score_replies method answer replied) s) as [[q l] s'] eqn:Er.
  destruct (run_wp _ _ (fun _ _ => True) (fun _ _ => True) E
    (score_replies method answer replied)
    (fun r _ => fst r = ref_question method answer replied /\ snd r ≡ₚ map (ref_aScore method answer replied) replied)
    s (q, l) s' HE) as [H1 H2]; [|exact Er|].
  - eapply wp_mono; [|apply score_replies_wp; exact Hwf]. cbn. tauto.
  - cbn in *. exists l. subst q. auto.
Qed.

(** Five replies: two say "4", two say "5", one judges the question invalid;
    the reference answer is "6". *)
Definition toy_reply (id : Z) (valid : bool) (text : string) : Assignment :=
  mkAssignment id 1 "w" AssignmentStatusReplied 0 (Some valid) (Some text) None fzero 0 0.
Definition toy_replies : list Assignment :=
  [toy_reply 1 true "4"; toy_reply 2 true "5"; toy_reply 3 true "4"; toy_reply 4 true "5"; toy_reply 5 false ""].

Lemma toy_replies_wf : wf_replied toy_replies.
Proof.
  split; [discriminate|]. split; [apply (bool_decide_eq_true_1 _); vm_compute; reflexivity|].
  intros a Ha. apply (proj1 (forallb_true judged toy_replies)); [vm_compute; reflexivity|exact Ha].
Qed.

Lemma score_replies_reference_witness : exists aScores,
  fst (run_top (still_env 0 0 refuse) (score_replies "exact" "6" toy_replies)
         (mkState (mkDB [] [] [] [] [] [] [] [] 1 1) no_timers)) = ((1, of_ratio 1 10), aScores) /\
  aScores ≡ₚ map (ref_aScore "exact" "6" toy_replies) toy_replies /\
  map (ref_score "exact" "6" toy_replies) toy_replies = [5; 5; 5; 5; 2].
Proof.
  destruct (score_replies_reference (still_env 0 0 refuse) "exact" "6" toy_replies
    (mkState (mkDB [] [] [] [] [] [] [] [] 1 1) no_timers) toy_replies_wf) as (l & H1 & H2).
  exists l. split; [exact H1|]. split; [exact H2|]. vm_compute. reflexivity.
Defined.

(** ** Shares *)

Section Shares.
Context {P : Postgres} {L : PostgresLaws P}.

(** The ten-thousandths that the column of a share holds. *)
Definition units (f : float64) : Z := default 0 (pg_numeric_5_4 f).

Lemma units_zero : units fzero = 0.
Proof using L. unfold units. rewrite (numeric_computed fzero 0) by reflexivity. reflexivity. Qed.

(** Up to five equal shares fit in one whole after rounding. *)
Lemma equal_shares_fit w : 0 <= w <= 5 -> 0 <= units (of_ratio 1 w) * w <= 10000.
Proof using L.
  intros Hw. assert (w = 0 \/ w = 1 \/ w = 2 \/ w = 3 \/ w = 4 \/ w = 5) as [->|[->|[->|[->|[->| ->]]]]] by lia;
    [lia|..]; unfold units.
  - rewrite (numeric_computed _ 10000) by (vm_compute; reflexivity). cbn. lia.
  - rewrite (numeric_computed _ 5000) by (vm_compute; reflexivity). cbn. lia.
  - rewrite (numeric_computed _ 3333) by (vm_compute; reflexivity). cbn. lia.
  - rewrite (numeric_computed _ 2500) by (vm_compute; reflexivity). cbn. lia.
  - rewrite (numeric_computed _ 2000) by (vm_compute; reflexivity). cbn. lia.
Qed.

Lemma sum_ref_shares method answer replied :
  sum_by (fun a => units (as_share a)) (map (ref_aScore method answer replied) replied) =
  let w := count_if (fun b => ref_score method answer replied b =? 5) replied in units (of_ratio 1 w) * w.
Proof using L.
  cbv zeta. rewrite sum_by_map, <- sum_by_if. apply sum_by_ext. intros a _. cbn. unfold ref_share.
  destruct (ref_score method answer replied a =? 5); [reflexivity|apply units_zero].
Qed.

Lemma case3_share n : exists k, pg_numeric_5_4 (snd (questionerCase3Score n)) = Some k /\ 0 <= k <= 10000.
Proof using L.
  unfold questionerCase3Score.
  destruct (n =? 1); [exists 10000|destruct (n =? 2); [exists 9000|destruct (n =? 3); [exists 7000|
    destruct (n =? 4); [exists 5000|exists 1000]]]];
    (split; [apply numeric_computed; vm_compute; reflexivity|lia]).
Qed.

Lemma ref_question_share method answer replied :
  exists k, pg_numeric_5_4 (snd (ref_question method answer replied)) = Some k /\ 0 <= k <= 10000.
Proof using L.
  unfold ref_question. destruct (existsb _ _); [apply case3_share|]. destruct (forallb _ _); cbn [snd].
  - exists 0. split; [apply numeric_computed; vm_compute; reflexivity|lia].
  - exists 1000. split; [apply numeric_computed; vm_compute; reflexivity|lia].
Qed.

(** C28: with at most five replies (the default of required_answers) the
    shares that scoring stores, each rounded to four decimals by the column,
    never add up to more than one whole, and neither does the questioner's
    share. *)
Theorem score_replies_shares E method answer replied s : wf_replied replied -> len replied <= 5 ->
  let '(qScore, qShare, aScores) := fst (run_top E (score_replies method answer replied) s) in
  0 <= sum_by (fun a => units (as_share a)) aScores <= 10000 /\ 0 <= units qShare <= 10000.
Proof using L.
  intros Hwf Hlen.
  assert (respects (fun _ => True) any_reply (fun _ _ => True) E) as HE by (repeat split).
  destruct (run_top E (score_replies method answer replied) s) as [[q l] s'] eqn:Er.
  destruct (run_wp _ _ (fun _ _ => True) (fun _ _ => True) E (score_replies method answer replied)
    (fun r _ => fst r = ref_question method answer replied /\ snd r ≡ₚ map (ref_aScore method answer replied) replied)
    s (q, l) s' HE) as [H1 H2]; [|exact Er|].
  { eapply wp_mono; [|apply score_replies_wp; exact Hwf]. cbn. tauto. }
  cbn [fst snd] in *. destruct (ref_question_share method answer replied) as (k & Hk & Hb).
  rewrite <- H1 in Hk. destruct q as [qs qsh]. cbn in Hk |- *. split.
  - rewrite (sum_by_perm _ _ _ H2), sum_ref_shares. cbv zeta. apply equal_shares_fit.
    split; [apply count_if_nonneg|]. pose proof (count_if_le_length (fun b => ref_score method answer replied b =? 5) replied).
    unfold len in Hlen. lia.
  - unfold units. rewrite Hk. exact Hb.
Qed.

(** Six replies that all judge the question invalid. *)
Definition six_invalid : list Assignment := map (fun i => toy_reply i false "") (seqZ 1 6).

(** The bound is sharp: with required_answers at 6, six equal shares are
    each rounded up to 0.1667 and the answerers together are paid 1.0002 of
    the answer pool. *)
Theorem six_shares_overshoot : wf_replied six_invalid /\
  sum_by (fun a => units (as_share a)) (map (ref_aScore "exact" "x" six_invalid) six_invalid) = 10002.
Proof using L.
  split.
  - split; [discriminate|]. split; [apply (bool_decide_eq_true_1 _); vm_compute; reflexivity|].
    intros a Ha. apply (proj1 (forallb_true judged six_invalid)); [vm_compute; reflexivity|exact Ha].
  - rewrite sum_ref_shares. cbv zeta.
    assert (count_if (fun b => ref_score "exact" "x" six_invalid b =? 5) six_invalid = 6) as -> by (vm_compute; reflexivity).
    unfold units. rewrite (numeric_computed _ 1667) by (vm_compute; reflexivity). reflexivity.
Qed.
End Shares.

Lemma score_replies_shares_witness :
  let '(qScore, qShare, aScores) := fst (run_top (still_env 0 0 refuse) (score_replies "exact" "6" toy_replies)
    (mkState (mkDB [] [] [] [] [] [] [] [] 1 1) no_timers)) in
  0 <= sum_by (fun a => units (as_share a)) aScores <= 10000 /\ 0 <= units qShare <= 10000.
Proof.
  apply (score_replies_shares (still_env 0 0 refuse) "exact" "6" toy_replies _ toy_replies_wf).
  vm_compute. discriminate.
Defined.

Lemma six_shares_overshoot_witness :
  sum_by (fun a => units (as_share a)) (map (ref_aScore "exact" "x" six_invalid) six_invalid) = 10002.
Proof. apply (six_shares_overshoot (P := pg_example) (L := pg_example_laws)). Defined.

(** ** Recording the scores *)

Section Recording.
Context {P : Postgres}.

(** The effect of the loop over the scores on one assignment. *)
Definition apply_score (l : list aScore) (a : Assignment) : Assignment :=
  match List.find (fun x => as_id x =? a_AssignmentID a) l with
  | Some x => with_score AssignmentStatusScored (as_score x) (default fzero (stored (as_share x))) a
  | None => a
  end.

Lemma apply_score_id l a : a_AssignmentID (apply_score l a) = a_AssignmentID a.
Proof using. unfold apply_score. destruct (List.find _ l); reflexivity. Qed.

(** One more statement of the loop. *)
Lemma apply_score_snoc pre x sh l : as_id x ∉ map as_id pre -> stored (as_share x) = Some sh ->
  update_rows (fun a => a_AssignmentID a =? as_id x) (with_score AssignmentStatusScored (as_score x) sh)
    (map (apply_score pre) l) = map (apply_score (pre ++ [x])) l.
Proof using.
  intros Hx Hsh. unfold update_rows. rewrite map_map. apply map_ext. intros a.
  rewrite apply_score_id. unfold apply_score. rewrite find_app. cbn [List.find].
  rewrite (Z.eqb_sym (as_id x)). destruct (Z.eqb_spec (a_AssignmentID a) (as_id x)) as [E|E].
  - destruct (List.find _ pre) as [y|] eqn:F; [exfalso|rewrite Hsh; reflexivity].
    apply find_some_elem in F as [Hy Hp]. apply Z.eqb_eq in Hp. apply Hx, elem_of_map. exists y. split; [lia|exact Hy].
  - destruct (List.find _ pre); reflexivity.
Qed.

Definition with_assignments (s : St) (l : list Assignment) : St :=
  {| s with db := set_assignments l (db s) |}.

(** The loop, alone and without failures. *)
Lemma record_scores_wp aScores s :
  NoDup (map as_id aScores) ->
  (forall x, x ∈ aScores -> int4 (as_score x) = true /\ is_Some (stored (as_share x))) ->
  wp no_fault any_reply false eq any_step (record_scores aScores)
    (fun r ab s' => r = Ok tt /\ ab = false /\
       s' = with_assignments s (map (apply_score aScores) (assignments (db s)))) false s.
Proof using.
  intros Hnd Hok. eapply wp_mono; [|apply (wp_for_each _ _ eq any_step set_score
    (fun pre s' => s' = with_assignments s (map (apply_score pre) (assignments (db s)))) (fun _ _ => False) aScores)].
  - intros [[]|e] ab s'; [|tauto]. intros [-> ->]. auto.
  - intros pre x post s1 Hl ->. unfold set_score, SetAssignmentScore.
    destruct (Hok x) as [Hint [sh Hsh]]; [rewrite Hl; apply elem_of_app; right; left|].
    wp_statement; [contradiction|]. rewrite Hint, Hsh. cbn. wp_norm. split; [reflexivity|].
    unfold with_assignments. cbn. rewrite apply_score_snoc with (sh := sh); [reflexivity| |exact Hsh].
    rewrite Hl, map_app in Hnd. apply NoDup_app in Hnd as (_ & Hd & _). intros Hin.
    apply (Hd _ Hin). left.
  - replace (map (apply_score []) (assignments (db s))) with (assignments (db s)) by (symmetry; apply map_id).
    destruct s as [[]]. reflexivity.
Qed.

(** Suspensions touch the workers only, and their errors are ignored. *)
Variable svc : ScoringService.

Lemma maybeSuspend_wp Fault s w :
  wp Fault any_reply false eq any_step (maybeSuspend svc w)
    (fun _ ab s' => ab = false /\ only_workers s s') false s.
Proof using.
  unfold maybeSuspend. destruct (_ <=? 0); [wp_norm; split; reflexivity|].
  unfold GetWorker. wp_statement; [wp_norm; split; reflexivity|].
  destruct (find_worker w (db s)) as [wk|]; [|wp_norm; split; reflexivity].
  rewrite wp_Now. intros now1. rewrite wp_Now. intros now2.
  unfold SuspendWorker. wp_statement; [wp_norm; split; reflexivity|].
  destruct (int4 _); wp_norm; (split; [reflexivity|]).
  - eexists. reflexivity.
  - exists (workers (db s)). destruct s as [[]]. reflexivity.
Qed.

Lemma suspend_low_scores_wp Fault s q qScore l aScores :
  wp Fault any_reply false eq any_step (suspend_low_scores svc q qScore l aScores)
    (fun _ ab s' => ab = false /\ only_workers s s') false s.
Proof using.
  unfold suspend_low_scores. wp_norm.
  assert (forall s1, only_workers s s1 -> wp Fault any_reply false eq any_step
    (for_all aScores (fun a => if as_score a <? suspensionThreshold svc then
       match findAssignByID l (as_id a) with Some a => maybeSuspend svc (a_Worker a) | None => Ret tt end
     else Ret tt)) (fun _ ab s' => ab = false /\ only_workers s s') false s1) as Hloop.
  { intros s1 Hs1. apply (wp_for_all _ _ eq any_step _ (fun _ => only_workers s)); [|exact Hs1].
    intros pre x post s2 _ Hs2. destruct (as_score x <? _); [|wp_norm; auto].
    destruct (findAssignByID l (as_id x)); [|wp_norm; auto].
    eapply wp_mono; [|apply maybeSuspend_wp]. cbn. intros _ ab s3 [-> H3]. split; [reflexivity|].
    transitivity s2; assumption. }
  destruct (qScore <? _).
  - eapply wp_mono; [|apply maybeSuspend_wp]. cbn. intros _ ab s1 [-> H1]. apply Hloop, H1.
  - wp_norm. apply Hloop. reflexivity.
Qed.
End Recording.

(** ** The whole function *)

Section Whole.
Context {P : Postgres} {L : PostgresLaws P}.

(** The replies that a call collects. *)
Definition replied_to (id : Z) (d : DB) : list Assignment :=
  List.filter is_replied (order_by a_CreatedAt (List.filter (on_question id) (assignments d))).

Lemma elem_of_replied_to id d a :
  a ∈ replied_to id d <-> a ∈ assignments d /\ on_question id a = true /\ is_replied a = true.
Proof using. unfold replied_to. rewrite elem_of_filter_bool, elem_of_order_by, elem_of_filter_bool. tauto. Qed.

Lemma replied_to_perm id d : replied_to id d ≡ₚ List.filter (fun a => on_question id a && is_replied a) (assignments d).
Proof using. unfold replied_to. rewrite order_by_perm, filter_filter. reflexivity. Qed.

(** What the question becomes, and what each of its replied assignments
    becomes. *)
Definition ref_scored_question (method answer : string) (replied : list Assignment) (now : Z) : Question -> Question :=
  let '(score, share) := ref_question method answer replied in
  scored_as score (default fzero (stored share)) (default fzero (stored (pass_rate method answer replied)))
    (pg_timestamp now).

Definition ref_scored (method answer : string) (replied : list Assignment) (a : Assignment) : Assignment :=
  with_score AssignmentStatusScored (ref_score method answer replied a)
    (default fzero (stored (ref_share method answer replied a))) a.

Lemma ref_aScore_ok method answer replied a :
  int4 (ref_score method answer replied a) = true.
Proof using.
  unfold ref_score. destruct (existsb _ _); [destruct (correct _ _ _); [reflexivity|destruct (judged_valid a); reflexivity]|].
  destruct (forallb _ _); [reflexivity|]. destruct (in_majority _ _); reflexivity.
Qed.

Lemma ratio_in_unit n d : 0 <= n <= d -> 0 < d < 2 ^ 53 ->
  nonneg_finite (of_ratio n d) /\ (fval (of_ratio n d) <= 1)%Q.
Proof using.
  intros Hn Hd. split.
  - apply (rounds_nonneg _ _ (of_ratio_rounds n d ltac:(lia) ltac:(lia))).
  - apply (of_ratio_bound n d 1); lia.
Qed.

(** A question cannot have 2^53 replies: the table's keys are int64s, but the
    bound is stated where it is needed. *)
Definition small (l : list Assignment) : Prop := len l < 2 ^ 53.

(** The column of a share or of a pass rate takes the value, as one between
    zero and a whole. *)
Definition unit_column (f : float64) : Prop := exists k, pg_numeric_5_4 f = Some k /\ 0 <= k <= 10000.

Lemma unit_column_ratio n d : 0 <= n <= d -> 0 < d < 2 ^ 53 -> unit_column (of_ratio n d).
Proof using L. intros Hn Hd. apply numeric_bounds; apply ratio_in_unit; lia. Qed.

Lemma unit_column_zero : unit_column fzero.
Proof using L. apply numeric_bounds; [exact I|discriminate]. Qed.

Lemma ref_question_score method answer replied : 0 <= fst (ref_question method answer replied) <= 5.
Proof using.
  unfold ref_question, questionerCase3Score. destruct (existsb _ _); [|destruct (forallb _ _); cbn; lia].
  repeat (destruct (_ =? _); [cbn; lia|]). cbn. lia.
Qed.

Lemma ref_score_values method answer replied a : ref_score method answer replied a ∈ [2; 3; 5].
Proof using.
  unfold ref_score. destruct (existsb _ _); [destruct (correct _ _ a); [|destruct (judged_valid a)]|
    destruct (forallb _ _); [|destruct (in_majority _ a)]]; apply (bool_decide_eq_true_1 _); reflexivity.
Qed.

Lemma ref_share_column method answer replied a : a ∈ replied -> small replied ->
  unit_column (ref_share method answer replied a).
Proof using L.
  intros Ha Hs. unfold ref_share. destruct (Z.eqb_spec (ref_score method answer replied a) 5) as [E|E];
    [|apply unit_column_zero].
  assert (0 < count_if (fun b => ref_score method answer replied b =? 5) replied) as Hpos
    by (apply (count_if_pos _ _ a Ha); rewrite E; reflexivity).
  pose proof (count_if_le_length (fun b => ref_score method answer replied b =? 5) replied).
  unfold small, len in Hs. apply unit_column_ratio; lia.
Qed.

Lemma pass_rate_column method answer replied : small replied -> unit_column (pass_rate method answer replied).
Proof using L.
  intros Hs. unfold pass_rate, len, small, len in *.
  destruct (Z.gtb_spec (Z.of_nat (length replied)) 0); [|apply unit_column_zero].
  pose proof (count_if_le_length (fun a => judged_valid a && answers_with method answer a) replied) as Hc.
  unfold count_if in Hc. apply unit_column_ratio; lia.
Qed.

Lemma unit_column_stored f : unit_column f -> is_Some (stored f).
Proof using. intros (k & Hk & _). unfold stored. rewrite Hk. eexists. reflexivity. Qed.

Lemma ref_share_stored method answer replied a : a ∈ replied -> small replied ->
  is_Some (stored (ref_share method answer replied a)).
Proof using L. intros Ha Hs. apply unit_column_stored, ref_share_column; assumption. Qed.

Lemma pass_rate_stored method answer replied : small replied -> is_Some (stored (pass_rate method answer replied)).
Proof using L. intros Hs. apply unit_column_stored, pass_rate_column, Hs. Qed.

(** C27: whatever the replies and in whatever order maps are iterated, scoring
    yields values of the columns' types: a question's score from 0 to 5, an
    answer's score 2, 3 or 5, and shares and a pass rate that NUMERIC(5,4)
    accepts and holds as numbers between 0 and 1; only an answer with score 5
    has a share. No statement that records a score can thus fail for its
    values. *)
Theorem score_replies_typed E method answer replied s : wf_replied replied -> small replied ->
  let '(qScore, qShare, aScores) := fst (run_top E (score_replies method answer replied) s) in
  0 <= qScore <= 5 /\ unit_column qShare /\ unit_column (pass_rate method answer replied) /\
  Forall (fun x => as_score x ∈ [2; 3; 5] /\ unit_column (as_share x) /\
                   (as_score x <> 5 -> as_share x = fzero)) aScores.
Proof using L.
  intros Hwf Hs.
  assert (respects (fun _ => True) any_reply (fun _ _ => True) E) as HE by (repeat split).
  destruct (run_top E (score_replies method answer replied) s) as [[q l] s'] eqn:Er.
  destruct (run_wp _ _ (fun _ _ => True) (fun _ _ => True) E (score_replies method answer replied)
    (fun r _ => fst r = ref_question method answer replied /\ snd r ≡ₚ map (ref_aScore method answer replied) replied)
    s (q, l) s' HE) as [H1 H2]; [|exact Er|].
  { eapply wp_mono; [|apply score_replies_wp; exact Hwf]. cbn. tauto. }
  cbn [fst snd] in *. pose proof (ref_question_score method answer replied) as Hq.
  pose proof (ref_question_share method answer replied) as Hqs. rewrite <- H1 in Hq, Hqs. destruct q as [qs qsh].
  split; [exact Hq|]. split; [exact Hqs|]. split; [apply pass_rate_column, Hs|].
  rewrite H2. apply Forall_forall. intros x Hx. apply elem_of_map in Hx as (a & -> & Ha).
  split; [apply ref_score_values|]. split; [apply ref_share_column; assumption|apply ref_share_zero].
Qed.

(** The loop over the reference scores changes exactly the replies. *)
Lemma apply_ref_scores method answer id d aScores :
  NoDup (map a_AssignmentID (assignments d)) ->
  let replied := replied_to id d in
  aScores ≡ₚ map (ref_aScore method answer replied) replied ->
  map (apply_score aScores) (assignments d) =
  update_rows (fun a => on_question id a && is_replied a) (ref_scored method answer replied) (assignments d).
Proof using.
  intros Hn replied Hp. apply map_ext_elem. intros a Ha.
  assert (forall x, x ∈ aScores <-> exists b, x = ref_aScore method answer replied b /\ b ∈ replied) as Hin
    by (intros x; rewrite Hp, elem_of_map; reflexivity).
  unfold apply_score. destruct (on_question id a && is_replied a) eqn:Ec.
  - assert (a ∈ replied) as Har by (apply elem_of_replied_to; apply andb_true_iff in Ec; tauto).
    destruct (List.find _ aScores) as [x|] eqn:F.
    + apply find_some_elem in F as [Hx E]. apply Hin in Hx as (b & -> & Hb). apply Z.eqb_eq in E. cbn in E.
      apply elem_of_replied_to in Hb as (Hb & _).
      rewrite (nodup_key_unique a_AssignmentID _ b a Hn Hb Ha E). reflexivity.
    + exfalso. pose proof (proj1 (find_none_elem _ _) F (ref_aScore method answer replied a)) as Hf.
      cbn in Hf. rewrite Z.eqb_refl in Hf. discriminate Hf. apply Hin. eauto.
  - destruct (List.find _ aScores) as [x|] eqn:F; [exfalso|reflexivity].
    apply find_some_elem in F as [Hx E]. apply Hin in Hx as (b & -> & Hb). apply Z.eqb_eq in E. cbn in E.
    apply elem_of_replied_to in Hb as (Hb & H1 & H2).
    rewrite (nodup_key_unique a_AssignmentID _ b a Hn Hb Ha E) in *. rewrite H1, H2 in Ec. discriminate.
Qed.

Lemma replied_to_wf id d : NoDup (map a_AssignmentID (assignments d)) -> replied_to id d <> [] ->
  (forall a, a ∈ replied_to id d -> judged a = true) -> wf_replied (replied_to id d).
Proof using.
  intros Hn Hne Hj. split; [exact Hne|]. split; [|exact Hj].
  apply NoDup_map_filter. rewrite order_by_perm. apply NoDup_map_filter, Hn.
Qed.

(** The state after the scores are recorded. *)
Definition after_scoring (method answer : string) (id now : Z) (d : DB) : DB :=
  let replied := replied_to id d in
  {| d with questions := update_rows (submitted_with_id id) (ref_scored_question method answer replied now) (questions d);
            assignments := update_rows (fun a => on_question id a && is_replied a)
                             (ref_scored method answer replied) (assignments d) |}.

Lemma score_question_stmt_ref method answer id now d :
  let replied := replied_to id d in small replied ->
  score_question_stmt id (fst (ref_question method answer replied)) (snd (ref_question method answer replied))
    (pass_rate method answer replied) now d =
  (Ok (count_if (submitted_with_id id) (questions d)),
   {| d with questions := update_rows (submitted_with_id id) (ref_scored_question method answer replied now) (questions d) |}).
Proof using L.
  cbv zeta. intros Hs. unfold score_question_stmt, ref_scored_question.
  set (replied := replied_to id d) in *.
  assert (int4 (fst (ref_question method answer replied)) = true) as ->.
  { unfold ref_question, questionerCase3Score. repeat case_goal; reflexivity. }
  destruct (ref_question_share method answer replied) as (k & Hk & _).
  destruct (pass_rate_stored method answer replied Hs) as [pr Hpr]. unfold stored in *.
  destruct (ref_question method answer replied) as [qs qsh]. cbn [fst snd] in *. rewrite Hk, Hpr. reflexivity.
Qed.

(** The same on the level of the program's rule. *)
Lemma ScoreQuestion_wp svc id s q bs :
  NoDup (map a_AssignmentID (assignments (db s))) ->
  find_question id (db s) = Some q -> is_submitted q = true ->
  find_benchmark_set (q_BSID q) (db s) = Some bs ->
  replied_to id (db s) <> [] -> (forall a, a ∈ replied_to id (db s) -> judged a = true) ->
  small (replied_to id (db s)) ->
  wp no_fault any_reply false eq any_step (ScoreQuestion svc id)
    (fun r ab s' => ab = false /\ r = Ok tt /\ exists now, only_workers
      {| s with db := after_scoring (bs_AnswerCheckMethod bs) (q_Answer q) id now (db s) |} s') false s.
Proof using L.
  intros Hn Hq Hsub Hbs Hne Hj Hsm.
  pose proof (replied_to_wf id (db s) Hn Hne Hj) as Hwf.
  unfold ScoreQuestion, GetQuestion. wp_statement; [contradiction|]. rewrite Hq, Hsub. cbn [negb].
  unfold ListAssignmentsByQuestion. wp_statement; [contradiction|].
  change (List.filter is_replied _) with (replied_to id (db s)).
  destruct (replied_to id (db s)) as [|r0 rs] eqn:Erep; [congruence|]. rewrite <- Erep in *. clear Hne.
  unfold GetBenchmarkSet. wp_statement; [contradiction|]. rewrite Hbs. wp_norm.
  eapply wp_mono; [|apply score_replies_wp; exact Hwf].
  intros [[qs qsh] aScores] ab s1 (-> & -> & Hfst & Hperm). cbn [fst snd] in Hfst, Hperm. rewrite wp_Now. intros now.
  assert (qs = fst (ref_question (bs_AnswerCheckMethod bs) (q_Answer q) (replied_to id (db s))) /\
    qsh = snd (ref_question (bs_AnswerCheckMethod bs) (q_Answer q) (replied_to id (db s)))) as [-> ->]
    by (rewrite <- Hfst; auto).
  unfold ScoreQuestionRow. wp_statement; [contradiction|]. rewrite score_question_stmt_ref by exact Hsm.
  cbn [fst snd wrap_error].
  assert (0 < count_if (submitted_with_id id) (questions (db s))) as Hpos.
  { apply find_some_elem in Hq as [Hq Hid]. apply (count_if_pos _ _ q Hq). unfold submitted_with_id. rewrite Hid, Hsub. reflexivity. }
  wp_norm. cbn [wrap_error]. destruct (Z.ltb_spec 0 (count_if (submitted_with_id id) (questions (db s)))) as [_|]; [|lia]. cbn [negb].
  wp_norm. eapply wp_mono; [|apply record_scores_wp].
  - intros r1 ab s1 (-> & -> & ->). wp_norm. eapply wp_mono; [|apply suspend_low_scores_wp].
    intros _ ab s2 [-> Hw]. wp_norm. split; [reflexivity|]. split; [reflexivity|]. exists now.
    cbn [db with_assignments set_assignments assignments] in Hw.
    rewrite (apply_ref_scores (bs_AnswerCheckMethod bs) (q_Answer q) id (db s) aScores Hn Hperm) in Hw. exact Hw.
  - rewrite Hperm, map_map. cbn. apply Hwf.
  - intros x Hx. rewrite Hperm in Hx. apply elem_of_map in Hx as (a & -> & Ha). cbn.
    split; [apply ref_aScore_ok | apply ref_share_stored; assumption].
Qed.

(** C15: scoring a submitted question that has replies, with no failure and
    nobody interfering, succeeds and does exactly this: the question becomes
    scored with the score, share and pass rate of its case, each of its replied
    assignments becomes scored with its reference score and share, and apart
    from suspensions of workers nothing else in the database or in memory
    changes. *)
Theorem ScoreQuestion_spec svc E id s q bs :
  undisturbed E ->
  NoDup (map a_AssignmentID (assignments (db s))) ->
  find_question id (db s) = Some q -> is_submitted q = true ->
  find_benchmark_set (q_BSID q) (db s) = Some bs ->
  replied_to id (db s) <> [] -> (forall a, a ∈ replied_to id (db s) -> judged a = true) ->
  small (replied_to id (db s)) ->
  exists now s', run_top E (ScoreQuestion svc id) s = (Ok tt, s') /\
    only_workers {| s with db := after_scoring (bs_AnswerCheckMethod bs) (q_Answer q) id now (db s) |} s'.
Proof using L.
  intros HE Hn Hq Hsub Hbs Hne Hj Hsm.
  destruct (run_top E (ScoreQuestion svc id) s) as [r s'] eqn:Er.
  destruct (run_wp no_fault any_reply eq any_step E (ScoreQuestion svc id)
    (fun r s' => r = Ok tt /\ exists now, only_workers
      {| s with db := after_scoring (bs_AnswerCheckMethod bs) (q_Answer q) id now (db s) |} s') s r s' HE) as [-> [now H]];
    [|exact Er|eauto].
  eapply wp_mono; [|apply (ScoreQuestion_wp svc id s q bs); assumption]. intros r0 ab s0 [_ H]. exact H.
Qed.
End Whole.

(** ** Suspensions *)

Lemma doubled_exact minutes n : 0 < minutes -> minutes * 2 ^ Z.of_nat n < 2 ^ 63 ->
  Nat.iter n (fun m => wrap64 (m * 2)) minutes = minutes * 2 ^ Z.of_nat n.
Proof.
  intros Hm. induction n as [|n IH]; intros Hb; [cbn; lia|].
  rewrite Nat2Z.inj_succ, Z.pow_succ_r in * by lia. pose proof (Z.pow_pos_nonneg 2 (Z.of_nat n) ltac:(lia) ltac:(lia)).
  change (Nat.iter (S n) (fun m => wrap64 (m * 2)) minutes) with
    (wrap64 (Nat.iter n (fun m => wrap64 (m * 2)) minutes * 2)).
  rewrite IH by nia. rewrite wrap64_id by nia. lia.
Qed.

(** While the product fits an int64 number of nanoseconds, the v-th
    violation of an epoch suspends for base * 2^(v-1) minutes: every violation
    doubles the suspension. *)
Theorem suspension_doubles base v : 0 < base -> 1 <= v -> base * 2 ^ (v - 1) * Minute < 2 ^ 63 ->
  minutes_duration (doubled base v) = base * 2 ^ (v - 1) * Minute /\
  (base * 2 ^ v * Minute < 2 ^ 63 ->
   minutes_duration (doubled base (v + 1)) = 2 * minutes_duration (doubled base v)).
Proof.
  intros Hb Hv Hfit.
  assert (forall u, 1 <= u -> base * 2 ^ (u - 1) * Minute < 2 ^ 63 ->
    minutes_duration (doubled base u) = base * 2 ^ (u - 1) * Minute) as H.
  { intros u Hu Hf. unfold doubled, minutes_duration.
    pose proof (Z.pow_pos_nonneg 2 (u - 1) ltac:(lia) ltac:(lia)). unfold Minute, Second in *.
    assert (Z.of_nat (Z.to_nat (u - 1)) = u - 1) as E by lia.
    rewrite doubled_exact by (rewrite ?E; nia). rewrite E. apply wrap64_id. nia. }
  split; [apply H; assumption|]. intros Hf. rewrite !H; try lia.
  - replace (v + 1 - 1) with (Z.succ (v - 1)) by lia. rewrite Z.pow_succ_r by lia. lia.
  - replace (v + 1 - 1) with v by lia. exact Hf.
Qed.

Lemma suspension_doubles_witness :
  minutes_duration (doubled 10 3) = 40 * Minute /\
  minutes_duration (doubled 10 4) = 2 * minutes_duration (doubled 10 3).
Proof.
  destruct (suspension_doubles 10 3 ltac:(lia) ltac:(lia) ltac:(vm_compute; reflexivity)) as [H1 H2].
  split; [exact H1 | apply H2; vm_compute; reflexivity].
Defined.

Lemma doubled_zero n : Nat.iter n (fun m => wrap64 (m * 2)) 0 = 0.
Proof.
  induction n as [|n IH]; [reflexivity|].
  change (Nat.iter (S n) (fun m => wrap64 (m * 2)) 0) with (wrap64 (Nat.iter n (fun m => wrap64 (m * 2)) 0 * 2)).
  rewrite IH. reflexivity.
Qed.

(** Past that, the duration wraps around: with the default of 10 minutes
    the 25th violation of an epoch gives a negative suspension, whose end is
    already past when it is set, and from the 64th on the doubled number is
    0. *)
Theorem suspension_overflows :
  minutes_duration (doubled 10 24) = 10 * 2 ^ 23 * Minute /\
  minutes_duration (doubled 10 25) < 0 /\
  (forall v, 64 <= v -> minutes_duration (doubled 10 v) = 0).
Proof.
  split; [vm_compute; reflexivity|]. split; [vm_compute; reflexivity|].
  intros v Hv. unfold doubled, minutes_duration.
  replace (Z.to_nat (v - 1)) with (Z.to_nat (v - 64) + 63)%nat by lia. rewrite Nat.iter_add.
  replace (Nat.iter 63 (fun m => wrap64 (m * 2)) 10) with 0 by (vm_compute; reflexivity).
  rewrite doubled_zero. reflexivity.
Qed.

Lemma suspension_overflows_witness : minutes_duration (doubled 10 70) = 0.
Proof. apply suspension_overflows. lia. Defined.

(** ** Calls that have nothing to do, and calls that fail *)

(** A call that finds the question missing or scored changes nothing. *)
Lemma ScoreQuestion_nothing {P : Postgres} svc Fault id s :
  match find_question id (db s) with Some q => is_submitted q = false | None => True end ->
  wp Fault any_reply false eq any_step (ScoreQuestion svc id)
    (fun r ab s' => s' = s /\ (r = Ok tt \/ exists msg, Fault msg /\
        r = Err (Wrapped "get question" (Wrapped "get question" (Failure msg))))) false s.
Proof.
  intros H. unfold ScoreQuestion, GetQuestion. wp_statement.
  - split; [reflexivity|]. right. eauto.
  - destruct (find_question id (db s)) as [q|]; [rewrite H|]; cbn [negb]; wp_norm; auto.
Qed.

(** Scoring is idempotent: a call for a question that is already scored (or
    does not exist) changes nothing, also when statements fail. *)
Theorem ScoreQuestion_idempotent {P : Postgres} svc E id s : alone E ->
  (forall q, find_question id (db s) = Some q -> is_submitted q = false) ->
  snd (run_top E (ScoreQuestion svc id) s) = s.
Proof.
  intros HE Hq. destruct (run_top E (ScoreQuestion svc id) s) as [r s'] eqn:Er.
  apply (run_wp _ _ eq any_step E (ScoreQuestion svc id) (fun _ s' => s' = s) s r s' HE); [|exact Er].
  eapply wp_mono; [|apply ScoreQuestion_nothing].
  - intros a b s1 [H _]. exact H.
  - destruct (find_question id (db s)) as [q|]; [apply Hq; reflexivity|exact I].
Qed.

(** A question with two replies, before it is scored. *)
Definition toy_two_replies : list Assignment := [toy_reply 1 true "4"; toy_reply 2 true "5"].
Definition toy_state : St :=
  mkState (mkDB [] [toy_bs] [toy_question] toy_two_replies [] [] [] [] 2 3) no_timers.

Lemma ScoreQuestion_idempotent_witness :
  let s := snd (run_top (still_env 7 0 refuse) (ScoreQuestion NewScoringService 1) toy_state) in
  s <> toy_state /\ snd (run_top (failing_at 0) (ScoreQuestion NewScoringService 1) s) = s.
Proof.
  cbv zeta. split; [vm_compute; discriminate|].
  apply (ScoreQuestion_idempotent NewScoringService (failing_at 0) 1); [apply failing_alone|].
  intros q Hq. vm_compute in Hq. injection Hq as <-. reflexivity.
Defined.

Lemma score_replies_typed_witness :
  let '(qScore, qShare, aScores) := fst (run_top (still_env 0 0 refuse) (score_replies "exact" "6" toy_replies)
    (mkState (mkDB [] [] [] [] [] [] [] [] 1 1) no_timers)) in
  0 <= qScore <= 5 /\ unit_column qShare /\ unit_column (pass_rate "exact" "6" toy_replies) /\
  Forall (fun x => as_score x ∈ [2; 3; 5] /\ unit_column (as_share x) /\
                   (as_score x <> 5 -> as_share x = fzero)) aScores.
Proof.
  apply (score_replies_typed (L := pg_example_laws) (still_env 0 0 refuse) "exact" "6" toy_replies _ toy_replies_wf).
  vm_compute. reflexivity.
Defined.

Lemma ScoreQuestion_spec_witness : exists now s',
  run_top (still_env 7 0 refuse) (ScoreQuestion NewScoringService 1) toy_state = (Ok tt, s') /\
  only_workers {| toy_state with db := after_scoring "exact" "4" 1 now (db toy_state) |} s'.
Proof.
  apply (ScoreQuestion_spec (L := pg_example_laws) NewScoringService (still_env 7 0 refuse) 1 toy_state toy_question toy_bs).
  - apply still_undisturbed.
  - apply (bool_decide_eq_true_1 _). vm_compute. reflexivity.
  - reflexivity.
  - reflexivity.
  - reflexivity.
  - vm_compute. discriminate.
  - intros a Ha. apply (proj1 (forallb_true judged (replied_to 1 (db toy_state)))); [vm_compute; reflexivity|exact Ha].
  - vm_compute. reflexivity.
Defined.

(** C36: scoring is not atomic: when the statement that scores an assignment
    fails after the question itself was marked scored, the call returns an
    error, the replies stay "replied", and no later call, with or without
    failures, ever scores them. *)
Theorem ScoreQuestion_not_atomic : exists E s,
  alone E /\ (exists e, run_top E (ScoreQuestion NewScoringService 1) toy_state = (Err e, s)) /\
  (forall a, a ∈ assignments (db s) -> a_Status a = AssignmentStatusReplied) /\
  (forall E' svc, alone E' -> snd (run_top E' (ScoreQuestion svc 1) s) = s).
Proof.
  exists (failing_at 5), (snd (run_top (failing_at 5) (ScoreQuestion NewScoringService 1) toy_state)).
  split; [apply failing_alone|]. split; [eexists; vm_compute; reflexivity|]. split.
  - intros a Ha. assert (is_replied a = true) as H.
    { revert a Ha. apply forallb_true. vm_compute. reflexivity. }
    unfold is_replied in H. bool_props. exact H.
  - intros E' svc HE. set (s := snd (run_top (failing_at 5) _ _)).
    destruct (run_top E' (ScoreQuestion svc 1) s) as [r s'] eqn:Er.
    apply (run_wp _ _ eq any_step E' (ScoreQuestion svc 1) (fun _ s' => s' = s) s r s' HE); [|exact Er].
    eapply wp_mono; [|apply ScoreQuestion_nothing]; [intros a b s1 [H _]; exact H|].
    vm_compute. reflexivity.
Qed.

(** ** Scoring while others run *)

Section Concurrent.
Context {P : Postgres}.
Variable svc : ScoringService.

Lemma maybeSuspend_safe w : safe (maybeSuspend svc w).
Proof using. unfold maybeSuspend, GetWorker. prove_safe. Qed.

Lemma suspend_low_scores_safe q s l aScores : safe (suspend_low_scores svc q s l aScores).
Proof using. unfold suspend_low_scores. prove_safe; apply maybeSuspend_safe. Qed.

(** The question [id] has been scored. *)
Definition scored_already (id : Z) (d : DB) : Prop :=
  exists q, find_question id d = Some q /\ question_scored q = true.

(** The replies that were listed can be scored from when their question is. *)
Lemma replied_scorable id d d1 d2 a : inv d -> evolves d d1 -> scored_already id d1 -> evolves d1 d2 ->
  a ∈ replied_to id d -> scorable (a_AssignmentID a) d2.
Proof using.
  intros Hinv H1 Hq H2 Ha. apply elem_of_replied_to in Ha as (Ha & Hon & Hr). apply Z.eqb_eq in Hon.
  assert (find_id a_AssignmentID (a_AssignmentID a) (assignments d) = Some a) as Hf.
  { apply (find_unique a_AssignmentID); [apply Hinv|exact Ha|apply Z.eqb_refl|]. intros b Hb. apply Z.eqb_eq, Hb. }
  destruct (proj1 H1 _ a Hf) as (a1 & Ha1 & (_ & Hqid & _ & _ & _ & Hle & _)).
  apply (scorable_stable _ d1 d2 a1 H2 Ha1).
  - unfold is_replied, is_scored in *. bool_props. rewrite Hr in Hle. destruct (a_Status a1); cbv in Hle |- *; congruence.
  - unfold of_scored_question. rewrite Hqid, Hon. exact Hq.
Qed.

(** Whoever is told that it scored the question finds it scored. *)
Lemma score_question_wins id score share pr at_ env d n d' : inv d ->
  (fun (_ : SqlEnv) d => score_question_stmt id score share pr at_ d) env d = (Ok n, d') -> 0 < n -> scored_already id d'.
Proof using.
  unfold score_question_stmt. intros Hinv. destruct (int4 score); [|discriminate].
  destruct (stored share) as [sh|]; [|discriminate]. destruct (stored pr) as [p|]; [|discriminate].
  intros [= <- <-] Hn. apply count_if_found in Hn as (q & Hq & Hp).
  pose proof Hp as Hid. unfold submitted_with_id in Hid. apply andb_true_iff in Hid as [Hid _].
  exists (scored_as score sh p (pg_timestamp at_) q). split; [|reflexivity]. apply (find_unique q_QuestionID).
  - cbn. rewrite (update_rows_keys q_QuestionID) by reflexivity. apply Hinv.
  - apply elem_of_update_rows. exists q. split; [exact Hq|]. rewrite Hp. reflexivity.
  - exact Hid.
  - intros r Hr. cbn. apply Z.eqb_eq in Hid, Hr. congruence.
Qed.

Lemma ScoreQuestionRow_wins id score share pr at_ s : inv (db s) ->
  wp any_fault any_reply false RG RG (ScoreQuestionRow id score share pr at_)
    (fun r ab s' => ab = false /\ inv (db s') /\ RG s s' /\ (r = Ok true -> scored_already id (db s'))) false s.
Proof using.
  intros Hs. unfold ScoreQuestionRow. rewrite wp_bind_ok, wp_exec. intros s1 H1.
  assert (inv (db s1)) as Hs1 by (apply H1, Hs). split; [intros m _; cbn; split; [|split; [|split]]; auto; discriminate|].
  intros env. pose proof (rg_score_question (db s1) id score share pr at_) as Hstep.
  pose proof (fun n d' => score_question_wins id score share pr at_ env (db s1) n d' Hs1) as Hwin.
  split; [exact Hstep|]. cbn beta in Hwin.
  assert (RG s {| s1 with db := snd (score_question_stmt id score share pr at_ (db s1)) |}) as HR
    by (etransitivity; [exact H1|exact Hstep]).
  destruct (score_question_stmt id score share pr at_ (db s1)) as [[n|e] d'];
    cbn [fst snd wrap_error] in *; wp_norm; (split; [reflexivity|]); (split; [apply Hstep, Hs1|]); (split; [exact HR|]).
  - intros [= Hn]. apply Z.ltb_lt in Hn. apply (Hwin n); [reflexivity|exact Hn].
  - discriminate.
Qed.

Lemma replied_to_judged id d a : inv d -> a ∈ replied_to id d -> judged a = true.
Proof using.
  intros Hinv Ha. apply elem_of_replied_to in Ha as (Ha & _ & Hr).
  destruct Hinv as (_ & _ & _ & _ & _ & H & _). destruct (H a Ha Hr) as [v Hv].
  unfold judged, judged_valid, judged_invalid. rewrite Hv. destruct v; reflexivity.
Qed.

Lemma set_score_safe x s : inv (db s) -> (forall s', RG s s' -> scorable (as_id x) (db s')) ->
  wp any_fault any_reply false RG RG (set_score x) (fun _ ab s' => ab = false /\ inv (db s') /\ RG s s') false s.
Proof using.
  intros Hs Hsc. unfold set_score, SetAssignmentScore. rewrite wp_wrapped, wp_exec. intros s1 H1.
  assert (inv (db s1)) as Hs1 by (apply H1, Hs). split; [auto|]. intros env.
  assert (rg (db s1) (snd (if int4 (as_score x) then
      match stored (as_share x) with
      | Some sh => (Ok tt, snd (update_assignments (fun a => a_AssignmentID a =? as_id x)
                                 (with_score AssignmentStatusScored (as_score x) sh) (db s1)))
      | None => (violates "numeric field overflow", db s1)
      end else (@violates unit "integer out of range", db s1)))) as Hstep.
  { destruct (int4 _); [|reflexivity]. destruct (stored _); [|reflexivity]. apply rg_score, Hsc, H1. }
  split; [exact Hstep|]. split; [reflexivity|]. split; [apply Hstep, Hs1|].
  etransitivity; [exact H1|]. exact Hstep.
Qed.

Lemma set_scores_safe aScores : forall s, inv (db s) ->
  (forall x, x ∈ aScores -> forall s', RG s s' -> scorable (as_id x) (db s')) ->
  wp any_fault any_reply false RG RG (record_scores aScores)
    (fun _ ab s' => ab = false /\ inv (db s') /\ RG s s') false s.
Proof using.
  induction aScores as [|x aScores IH]; intros s Hs Hsc; [apply (safe_Ret (Ok tt)), Hs|].
  change (record_scores (x :: aScores)) with (bind_ok (set_score x) (fun _ => record_scores aScores)).
  rewrite wp_bind_ok. eapply wp_mono; [|apply (set_score_safe x s Hs)].
  - intros [u|e] ab s1 (-> & Hs1 & H1); [|auto]. apply (safe_weaken _ s s1 H1), IH; [exact Hs1|].
    intros y Hy s2 H2. apply Hsc; [right; exact Hy|]. etransitivity; eassumption.
  - intros s1 H1. apply Hsc; [left|exact H1].
Qed.

(** The listed replies, once judged, are what [score_replies] needs. *)
Lemma listed_wf id d l : inv d -> l ≡ₚ replied_to id d -> l <> [] -> wf_replied l.
Proof using.
  intros Hinv Hl Hne. split; [exact Hne|]. split.
  - rewrite Hl, replied_to_perm. apply NoDup_map_filter, Hinv.
  - intros a Ha. rewrite Hl in Ha. eapply replied_to_judged; eassumption.
Qed.

(** What is left once the scores are known, where the listed replies are
    scorable from when the question is scored. *)
Lemma record_safe id qScore qShare pr q l aScores s : inv (db s) ->
  (forall x, x ∈ aScores -> forall s1 s2, RG s s1 -> scored_already id (db s1) -> RG s1 s2 -> scorable (as_id x) (db s2)) ->
  wp any_fault any_reply false RG RG
    (Now (fun now =>
      let? updated := wrapped "score question" (ScoreQuestionRow id qScore qShare pr now) in
      if negb updated then Ret (Ok tt)
      else
        record_scores aScores ;;?
        let* _ := suspend_low_scores svc q qScore l aScores in
        Ret (Ok tt)))
    (fun _ ab s' => ab = false /\ inv (db s') /\ RG s s') false s.
Proof using.
  intros Hs Hsc. rewrite wp_Now. intros now. rewrite wp_bind_ok, wp_wrapped.
  eapply wp_mono; [|apply ScoreQuestionRow_wins, Hs].
  intros [[]|e] ab s1 (-> & Hs1 & H1 & Hwon); cbn [wrap_error negb]; [|wp_norm; auto..].
  rewrite wp_bind_ok. eapply wp_mono; [|apply (set_scores_safe aScores s1 Hs1)].
  - intros r ab s2 (-> & Hs2 & H2). assert (RG s s2) as H by (etransitivity; eassumption).
    destruct r as [[]|e]; [|auto]. apply (safe_weaken _ s s2 H), safe_bind; [|intros ?; apply safe_Ret|exact Hs2].
    apply suspend_low_scores_safe.
  - intros x Hx s2 H2. apply (Hsc x Hx s1 s2 H1); [apply Hwon; reflexivity|exact H2].
Qed.

Lemma ScoreQuestion_safe id : safe (ScoreQuestion svc id).
Proof using.
  unfold ScoreQuestion, GetQuestion. apply safe_bind_ok; [prove_safe|]. intros [q|]; [|apply safe_Ret].
  destruct (negb (is_submitted q)); [apply safe_Ret|].
  intros s Hs. unfold ListAssignmentsByQuestion. rewrite wp_bind_ok, wp_wrapped, wp_query. intros s1 H1.
  assert (inv (db s1)) as Hs1 by (apply H1, Hs). split; [intros m _; cbn; auto|]. intros env. split; [reflexivity|]. cbn [wrap_error].
  apply (safe_weaken _ s s1 H1). set (l := order_by a_CreatedAt _). change (List.filter is_replied l) with (replied_to id (db s1)).
  destruct (replied_to id (db s1)) as [|a0 rest] eqn:Erep; [wp_norm; split; [reflexivity|split; [exact Hs1|reflexivity]]|].
  rewrite <- Erep. rewrite wp_bind_ok, wp_wrapped. unfold GetBenchmarkSet. apply safe_then; [apply safe_query|exact Hs1|].
  intros [[bs|]|e] s2 Hs2 H2; cbn [wrap_error]; [|wp_norm; auto..].
  rewrite wp_bind. eapply wp_mono; [|apply score_replies_wp, (listed_wf id (db s1)); [exact Hs1|reflexivity|congruence]].
  intros [[qScore qShare] aScores] ab s3 (-> & -> & _ & Hperm). apply (safe_weaken _ s1 s2 H2), record_safe; [exact Hs2|].
  intros x Hx s3 s4 H3 Hq H4. cbn [snd] in Hperm. rewrite Hperm in Hx. apply elem_of_map in Hx as (a & -> & Ha).
  apply (replied_scorable id (db s1) (db s3)); [exact Hs1| |exact Hq|apply H4|exact Ha].
  assert (RG s1 s3) as H by (etransitivity; eassumption). apply H.
Qed.
End Concurrent.

#[export] Hint Resolve ScoreQuestion_safe : safe.
