(* ===== verification/Timer.v ===== *)
(** * Reply deadlines

    Models [src/internal/service/timer.go]: the timer of every claimed
    assignment, what happens when it fires, the check whether a question has
    enough replies to be scored, and the recovery at startup.

    The timer table is the [Timers] part of the shared state.  A goroutine
    ([go f()]) or a timer's function is a [Task]: starting it adds it to the
    table, running it is [run_task].  [sync.Map] and [time.Timer] operations are
    atomic, each on its own.

    Theorems: a timer that fires on an assignment that is no longer claimed
    changes no row ([handleTimeout_late]); one that fires in time times the
    assignment out, frees its slot and suspends nobody, and scores the question
    when it has enough replies ([handleTimeout_frees_slot]); [TryScore] scores
    exactly from the required number of replies on ([TryScore_threshold]); after
    [RecoverOnStartup] a claimed assignment of an open question has its timer
    armed while it is in time, and its time-out running otherwise
    ([RecoverOnStartup_covers]). *)

From S2P Require Import Prelude Float64 GoLang Model Prog Tables Store StoreQuestion Lifecycle Config Scoring.
#[local] Open Scope prog_scope.

(** TimerManager, without its store and its timer table. *)
Record TimerManager := mkTimerManager {
  tm_Scoring : ScoringService;
  tm_RtConfig : option RuntimeConfig;
  tm_RequiredReplies : Z
}.

Definition NewTimerManager (scoring : ScoringService) (required : Z) : TimerManager :=
  mkTimerManager scoring None required.

Definition requiredReplies (tm : TimerManager) : Z :=
  match tm_RtConfig tm with
  | Some c => qc_RequiredAnswers (questionConfig c)
  | None => tm_RequiredReplies tm
  end.

(** ** The timer table *)

(** [go task()]. *)
Definition spawn (t : Task) (m : Timers) : unit * Timers := (tt, {| m with spawned := t :: spawned m |}).

(** [time.AfterFunc]: the new timer's number. *)
Definition after_func (fire : Z) (t : Task) (m : Timers) : nat * Timers :=
  let n := next_timer m in
  (n, {| m with pending := <[n := (fire, t)]> (pending m); next_timer := S n |}).

(** [timers.Store], [timers.LoadAndDelete], [timers.Delete]. *)
Definition timers_store (id : Z) (n : nat) (m : Timers) : unit * Timers :=
  (tt, {| m with timers := <[id := n]> (timers m) |}).
Definition timers_load_and_delete (id : Z) (m : Timers) : option nat * Timers :=
  (timers m !! id, {| m with timers := delete id (timers m) |}).
Definition timers_delete (id : Z) (m : Timers) : unit * Timers :=
  (tt, {| m with timers := delete id (timers m) |}).

(** [timer.Stop()]. *)
Definition timer_stop (n : nat) (m : Timers) : unit * Timers :=
  (tt, {| m with pending := delete n (pending m) |}).

Definition timeout_task (a : Assignment) : Task := HandleTimeout (a_AssignmentID a) (a_QuestionID a) (a_Worker a).

Definition StartReplyTimer (a : Assignment) : Prg unit :=
  Now (fun now =>
  let delay := time_Sub (a_ReplyDDL a) now in
  if delay <=? 0 then Atomic (spawn (timeout_task a)) Ret
  else
    Atomic (after_func (now + delay) (timeout_task a)) (fun timer =>
    Atomic (timers_store (a_AssignmentID a) timer) Ret)).

Definition CancelTimer (assignmentID : Z) : Prg unit :=
  Atomic (timers_load_and_delete assignmentID) (fun v =>
  match v with
  | Some timer => Atomic (timer_stop timer) Ret
  | None => Ret tt
  end).

Section Timer.
Context {P : Postgres}.
Variable tm : TimerManager.

(** [tm.TryScore]; the scoring error is only logged. *)
Definition TryScore (questionID : Z) : Prg unit :=
  let* r := ListAssignmentsByQuestion questionID in
  match r with
  | Err _ => Ret tt
  | Ok assignments =>
      let repliedCount := len (List.filter is_replied assignments) in
      if requiredReplies tm <=? repliedCount then
        let* _ := ScoreQuestion (tm_Scoring tm) questionID in Ret tt
      else Ret tt
  end.

Definition handleTimeout (assignmentID questionID : Z) (worker : string) : Prg unit :=
  Atomic (timers_delete assignmentID) (fun _ =>
  let* r := GetAssignment assignmentID in
  match r with
  | Ok (Some a) =>
      if negb (is_claimed a) then Ret tt
      else
        let* u := TimeoutAssignment assignmentID in
        match u with
        | Ok true => TryScore questionID
        | _ => Ret tt
        end
  | _ => Ret tt
  end).

(** What a started goroutine or a fired timer runs. *)
Definition run_task (t : Task) : Prg unit :=
  match t with
  | HandleTimeout a q w => handleTimeout a q w
  | TryScoreTask q => TryScore q
  end.

(** ** Startup *)

(** The two queries of [RecoverOnStartup]. *)
Definition claimed_of_open_questions (d : DB) : list Assignment :=
  List.filter (fun a => is_claimed a &&
    existsb (fun q => (q_QuestionID q =? a_QuestionID a) && is_submitted q) (questions d)) (assignments d).

Definition replied_count (questionID : Z) (d : DB) : Z :=
  count_if (fun a => on_question questionID a && is_replied a) (assignments d).

Definition scorable_questions (required : Z) (d : DB) : list Z :=
  remove_dups (map q_QuestionID
    (List.filter (fun q => is_submitted q && (required <=? replied_count (q_QuestionID q) d)) (questions d))).

(** The assignment that the code builds from a row of the first query. The code
    leaves the status at the empty string, which is no constructor here: no
    statement or timer looks at the status of this value, and the model keeps
    the row's. *)
Definition recovered (a : Assignment) : Assignment :=
  mkAssignment (a_AssignmentID a) (a_QuestionID a) (a_Worker a) (a_Status a) (a_ReplyDDL a)
    None None None fzero 0 0.

Definition recover_timer (a : Assignment) : Prg unit :=
  Now (fun now =>
  if After now (a_ReplyDDL a) then Atomic (spawn (timeout_task a)) Ret
  else StartReplyTimer (recovered a)).

Definition RecoverOnStartup : Prg (result unit) :=
  let? rows := query "recover timers" (fun _ d => Ok (claimed_of_open_questions d)) in
  let* _ := for_all rows recover_timer in
  let? scoreRows := query "find scorable questions" (fun _ d => Ok (scorable_questions (requiredReplies tm) d)) in
  let* _ := for_all scoreRows TryScore in
  Ret (Ok tt).
End Timer.

(** ** Every step keeps the life cycle *)

Lemma StartReplyTimer_safe a : safe (StartReplyTimer a).
Proof. unfold StartReplyTimer. prove_safe. Qed.

Lemma CancelTimer_safe id : safe (CancelTimer id).
Proof. unfold CancelTimer. prove_safe. Qed.
#[export] Hint Resolve StartReplyTimer_safe CancelTimer_safe : safe.

Section Safety.
Context {P : Postgres}.

Lemma TryScore_safe tm id : safe (TryScore tm id).
Proof using. unfold TryScore, ListAssignmentsByQuestion. prove_safe. Qed.

Lemma run_task_safe tm t : safe (run_task tm t).
Proof using.
  destruct t as [a q w|q]; [|apply TryScore_safe]. cbn [run_task]. unfold handleTimeout, GetAssignment.
  prove_safe. apply TryScore_safe.
Qed.

Lemma RecoverOnStartup_safe tm : safe (RecoverOnStartup tm).
Proof using. unfold RecoverOnStartup, recover_timer. prove_safe. apply TryScore_safe. Qed.
End Safety.

(** ** What the timers do *)

(** What starting the timer of [a] at the instant [now] does to memory: its
    time-out runs at once if the deadline has been reached, otherwise its timer
    is armed, for the deadline or the longest duration. *)
Definition timer_started (a : Assignment) (now : Z) (m : Timers) : Timers :=
  if a_ReplyDDL a <=? now then {| m with spawned := timeout_task a :: spawned m |}
  else mkTimers (<[a_AssignmentID a := next_timer m]> (timers m))
         (<[next_timer m := (Z.min (a_ReplyDDL a) (now + (2 ^ 63 - 1)), timeout_task a)]> (pending m))
         (S (next_timer m)) (spawned m).

(** The claim [a] is looked after, as seen at the instants [T]: its time-out is
    running, and at one of them the deadline was reached; or it is armed for its
    deadline, and at one of them that was still ahead. *)
Inductive covered (T : Z -> Prop) (a : Assignment) (m : Timers) : Prop :=
| covered_overdue now : T now -> a_ReplyDDL a <= now -> timeout_task a ∈ spawned m -> covered T a m
| covered_armed now n : T now -> now < a_ReplyDDL a -> timers m !! a_AssignmentID a = Some n ->
    pending m !! n = Some (Z.min (a_ReplyDDL a) (now + (2 ^ 63 - 1)), timeout_task a) -> covered T a m.

(** Timer numbers are fresh. *)
Definition fresh_timers (m : Timers) : Prop := forall n, (next_timer m <= n)%nat -> pending m !! n = None.

Lemma timer_started_covers (T : Z -> Prop) a now m : T now -> covered T a (timer_started a now m).
Proof.
  intros Hn. unfold timer_started. destruct (Z.leb_spec (a_ReplyDDL a) now).
  - apply (covered_overdue _ _ _ now); [exact Hn|assumption|left].
  - apply (covered_armed _ _ _ now (next_timer m)); [exact Hn|assumption|cbn; apply lookup_insert_eq..].
Qed.

Lemma timer_started_keeps T a b now m : fresh_timers m -> a_AssignmentID a <> a_AssignmentID b ->
  covered T b m -> covered T b (timer_started a now m).
Proof.
  intros Hf Hne [t Ht Hd Hs|t n Ht Hd Ha Hp]; unfold timer_started.
  - apply (covered_overdue _ _ _ t Ht Hd). destruct (_ <=? _); [right|]; exact Hs.
  - destruct (_ <=? _); apply (covered_armed _ _ _ t n Ht Hd); cbn; [exact Ha|exact Hp| |].
    + rewrite lookup_insert_ne by exact Hne. exact Ha.
    + rewrite lookup_insert_ne; [exact Hp|]. intros <-. rewrite Hf in Hp by lia. discriminate.
Qed.

Lemma timer_started_fresh a now m : fresh_timers m -> fresh_timers (timer_started a now m).
Proof.
  intros Hf. unfold timer_started. destruct (_ <=? _); [exact Hf|].
  intros n Hn. cbn in *. rewrite lookup_insert_ne by lia. apply Hf. lia.
Qed.

Lemma StartReplyTimer_wp {C} Fault a s (Q : unit -> bool -> St -> Prop) :
  (forall now, go_time C now -> Q tt false {| s with mem := timer_started a now (mem s) |}) ->
  wp_in (C := C) Fault any_reply false eq any_step (StartReplyTimer a) Q false s.
Proof.
  intros HQ. unfold StartReplyTimer. rewrite wp_in_Now. intros now Hnow. specialize (HQ now Hnow).
  unfold timer_started in HQ. unfold time_Sub in *.
  destruct (Z.leb_spec (a_ReplyDDL a) now) as [E|E].
  - rewrite (proj2 (Z.leb_le _ 0)) by lia. rewrite wp_Atomic. intros s1 <-. split; [exact I|]. exact HQ.
  - rewrite (proj2 (Z.leb_gt _ 0)) by lia. rewrite wp_Atomic. intros s1 <-. split; [exact I|].
    rewrite wp_Atomic. intros s2 <-. split; [exact I|]. cbn in *.
    replace (now + _) with (Z.min (a_ReplyDDL a) (now + (2 ^ 63 - 1))) by lia. exact HQ.
Qed.

Section Behaviour.
Context {P : Postgres}.
Variable tm : TimerManager.

(** Scoring does not touch the timer table. *)
Lemma no_atomic_TryScore id : no_atomic (TryScore tm id).
Proof using.
  unfold TryScore, ScoreQuestion, ListAssignmentsByQuestion, GetQuestion, GetBenchmarkSet, score_replies,
    ScoreQuestionRow, record_scores, set_score, SetAssignmentScore, suspend_low_scores, maybeSuspend, GetWorker, SuspendWorker.
  repeat no_atomic_step.
Qed.

Lemma TryScore_memory Fault id s :
  wp Fault any_reply false eq any_step (TryScore tm id) (fun _ ab s' => ab = false /\ mem s' = mem s) false s.
Proof using.
  eapply wp_mono; [|apply wp_memory, no_atomic_TryScore]. intros u ab s' [H1 H2]. auto.
Qed.

(** *** Time-outs *)

Lemma handleTimeout_late_wp Fault id q w s :
  (forall a, find_assignment id (db s) = Some a -> is_claimed a = false) ->
  wp Fault any_reply false eq any_step (handleTimeout tm id q w)
    (fun _ ab s' => ab = false /\ s' = mkState (db s) (snd (timers_delete id (mem s)))) false s.
Proof using.
  intros Hc. unfold handleTimeout. rewrite wp_Atomic. intros s1 <-. split; [exact I|].
  unfold GetAssignment. wp_statement; [wp_norm; auto|]. cbn [db].
  destruct (find_assignment id (db s)) as [a|]; [rewrite (Hc a eq_refl)|]; cbn [negb]; wp_norm; auto.
Qed.

(** A time-out that comes too late does nothing: when the assignment is
    replied, scored or timed out already (or does not exist), the database is
    left alone, whatever fails. *)
Theorem handleTimeout_late E id q w s : alone E ->
  (forall a, find_assignment id (db s) = Some a -> is_claimed a = false) ->
  run_top E (handleTimeout tm id q w) s = (tt, mkState (db s) (snd (timers_delete id (mem s)))).
Proof using.
  intros HE Hc. destruct (run_top E (handleTimeout tm id q w) s) as [[] s'] eqn:Er. f_equal.
  apply (run_wp any_fault any_reply eq any_step E (handleTimeout tm id q w)
    (fun _ s' => s' = mkState (db s) (snd (timers_delete id (mem s)))) s tt s' HE); [|exact Er].
  eapply wp_mono; [|apply handleTimeout_late_wp, Hc]. intros u ab s0 [_ H]. exact H.
Qed.

(** *** The threshold *)

Lemma replied_count_listed id d : len (replied_to id d) = replied_count id d.
Proof using. unfold len, replied_count, count_if. rewrite (replied_to_perm id d). reflexivity. Qed.

(** Below the required number of replies nothing happens. *)
Lemma TryScore_below Fault id s : replied_count id (db s) < requiredReplies tm ->
  wp Fault any_reply false eq any_step (TryScore tm id) (fun _ ab s' => ab = false /\ s' = s) false s.
Proof using.
  intros H. unfold TryScore, ListAssignmentsByQuestion. wp_statement; [wp_norm; auto|].
  change (List.filter is_replied _) with (replied_to id (db s)). rewrite replied_count_listed.
  destruct (Z.leb_spec (requiredReplies tm) (replied_count id (db s))); [lia|]. wp_norm. auto.
Qed.

(** From it on the question is scored. *)
Lemma TryScore_reaches {L : PostgresLaws P} id s q bs : inv (db s) -> 0 < requiredReplies tm ->
  find_question id (db s) = Some q -> is_submitted q = true ->
  find_benchmark_set (q_BSID q) (db s) = Some bs ->
  requiredReplies tm <= replied_count id (db s) < 2 ^ 53 ->
  wp no_fault any_reply false eq any_step (TryScore tm id)
    (fun _ ab s' => ab = false /\ exists now, only_workers
      {| s with db := after_scoring (bs_AnswerCheckMethod bs) (q_Answer q) id now (db s) |} s') false s.
Proof using.
  intros Hinv Hreq Hq Hsub Hbs Hn. unfold TryScore, ListAssignmentsByQuestion. wp_statement; [contradiction|].
  change (List.filter is_replied _) with (replied_to id (db s)). rewrite replied_count_listed.
  destruct (Z.leb_spec (requiredReplies tm) (replied_count id (db s))); [|lia]. wp_norm.
  eapply wp_mono; [|apply (ScoreQuestion_wp (tm_Scoring tm) id s q bs)]; auto.
  - intros r ab s' (-> & _ & H1). wp_norm. auto.
  - apply Hinv.
  - intros E. pose proof (replied_count_listed id (db s)) as Hl. rewrite E in Hl. unfold len in Hl. cbn in Hl. lia.
  - intros a Ha. eapply replied_to_judged; eassumption.
  - unfold small. rewrite replied_count_listed. apply Hn.
Qed.

(** C19: a scoring check scores exactly from the required number of replies on:
    below it nothing changes; at it, with nothing failing, the question and all
    its replies are scored by the reference. *)
Theorem TryScore_threshold {L : PostgresLaws P} E id s q bs : undisturbed E -> inv (db s) -> 0 < requiredReplies tm ->
  find_question id (db s) = Some q -> is_submitted q = true ->
  find_benchmark_set (q_BSID q) (db s) = Some bs -> replied_count id (db s) < 2 ^ 53 ->
  let s' := snd (run_top E (TryScore tm id) s) in
  if requiredReplies tm <=? replied_count id (db s)
  then exists now, only_workers {| s with db := after_scoring (bs_AnswerCheckMethod bs) (q_Answer q) id now (db s) |} s'
  else s' = s.
Proof using.
  intros HE Hinv Hreq Hq Hsub Hbs Hn. cbv zeta. by_wp no_fault HE.
  destruct (Z.leb_spec (requiredReplies tm) (replied_count id (db s))) as [H|H].
  - eapply wp_mono; [|apply (TryScore_reaches id s q bs); auto]. intros r ab s0 [_ H0]. exact H0.
  - eapply wp_mono; [|apply TryScore_below, H]. intros r ab s0 [_ H0]. exact H0.
Qed.

(** The slot that a time-out frees. *)
Lemma timed_out_frees (s : St) a : inv (db s) -> find_assignment (a_AssignmentID a) (db s) = Some a -> is_claimed a = true ->
  let d := snd (update_assignments (claimed_with_id (a_AssignmentID a)) timed_out (db s)) in
  active_count (a_QuestionID a) d = active_count (a_QuestionID a) (db s) - 1 /\
  replied_count (a_QuestionID a) d = replied_count (a_QuestionID a) (db s) /\
  0 < count_if (claimed_with_id (a_AssignmentID a)) (assignments (db s)).
Proof using.
  intros Hinv Hf Hc. cbv zeta. apply find_some_elem in Hf as [Ha _].
  assert (forall q : Assignment -> bool, (forall x, q (timed_out x) = false) ->
    count_if q (update_rows (claimed_with_id (a_AssignmentID a)) timed_out (assignments (db s))) =
    count_if q (assignments (db s)) - (if q a then 1 else 0)) as Hcount.
  { intros q Hq. rewrite count_if_update_out by exact Hq. f_equal.
    assert (claimed_with_id (a_AssignmentID a) a = true) as Hsel by (unfold claimed_with_id; rewrite Z.eqb_refl, Hc; reflexivity).
    assert (forall y, claimed_with_id (a_AssignmentID a) y = true -> y ∈ assignments (db s) -> y = a) as Huniq.
    { intros y Hy Hin. unfold claimed_with_id in Hy. apply andb_true_iff in Hy as [Hy _]. apply Z.eqb_eq in Hy.
      apply (nodup_key_unique a_AssignmentID (assignments (db s))); auto. apply Hinv. }
    destruct (q a) eqn:Hqa.
    - apply (count_if_unique a_AssignmentID _ _ a); [apply Hinv|exact Ha|rewrite Hsel, Hqa; reflexivity|].
      intros y Hy. apply andb_true_iff in Hy as [Hy _]. unfold claimed_with_id in Hy. apply andb_true_iff in Hy as [Hy _].
      apply Z.eqb_eq, Hy.
    - apply count_if_zero. intros y Hy. destruct (claimed_with_id (a_AssignmentID a) y) eqn:E; [|reflexivity].
      rewrite (Huniq y E Hy), Hqa. reflexivity. }
  unfold active_count, replied_count, update_assignments. cbn [snd assignments]. split; [|split].
  - rewrite Hcount by (intros x; apply andb_false_r). unfold on_question, is_active. rewrite Z.eqb_refl, Hc. reflexivity.
  - rewrite Hcount by (intros x; apply andb_false_r). unfold is_replied, is_claimed in *. bool_props. rewrite Hc, andb_false_r. cbn. lia.
  - apply (count_if_pos _ _ a Ha). unfold claimed_with_id. rewrite Z.eqb_refl, Hc. reflexivity.
Qed.

(** The state once the assignment is timed out. *)
Definition timed_out_state (id : Z) (s : St) : St :=
  mkState (snd (update_assignments (claimed_with_id id) timed_out (db s))) (snd (timers_delete id (mem s))).

Lemma handleTimeout_claimed_wp s a w (Q : unit -> bool -> St -> Prop) : inv (db s) ->
  find_assignment (a_AssignmentID a) (db s) = Some a -> is_claimed a = true ->
  wp no_fault any_reply false eq any_step (TryScore tm (a_QuestionID a)) Q false (timed_out_state (a_AssignmentID a) s) ->
  wp no_fault any_reply false eq any_step (handleTimeout tm (a_AssignmentID a) (a_QuestionID a) w) Q false s.
Proof using.
  intros Hinv Hf Hc HQ. destruct (timed_out_frees s a Hinv Hf Hc) as (_ & _ & Hpos).
  unfold handleTimeout. rewrite wp_Atomic. intros s1 <-. split; [exact I|].
  unfold GetAssignment. wp_statement; [contradiction|]. cbn [db]. rewrite Hf, Hc. cbn [negb].
  unfold TimeoutAssignment. wp_statement; [contradiction|]. wp_norm. cbn [fst snd wrap_error update_assignments db].
  apply Z.ltb_lt in Hpos. wp_norm. rewrite Hpos. exact HQ.
Qed.

(** C24: a time-out in time, when nothing fails: the assignment is timed out and
    forgotten by the timer table, which frees exactly one slot of its question.
    With fewer replies than required that is all that changes: the worker is
    not suspended, whatever the threshold.  With enough replies the question is
    scored as well, as by the reference. *)
Theorem handleTimeout_frees_slot {L : PostgresLaws P} E s a w : undisturbed E -> inv (db s) ->
  find_assignment (a_AssignmentID a) (db s) = Some a -> is_claimed a = true ->
  let s' := snd (run_top E (handleTimeout tm (a_AssignmentID a) (a_QuestionID a) w) s) in
  let s1 := timed_out_state (a_AssignmentID a) s in
  active_count (a_QuestionID a) (db s1) = active_count (a_QuestionID a) (db s) - 1 /\
  (replied_count (a_QuestionID a) (db s) < requiredReplies tm -> s' = s1) /\
  (forall q bs, find_question (a_QuestionID a) (db s) = Some q -> is_submitted q = true ->
     find_benchmark_set (q_BSID q) (db s) = Some bs ->
     0 < requiredReplies tm <= replied_count (a_QuestionID a) (db s) -> replied_count (a_QuestionID a) (db s) < 2 ^ 53 ->
     exists now, only_workers
       {| s1 with db := after_scoring (bs_AnswerCheckMethod bs) (q_Answer q) (a_QuestionID a) now (db s1) |} s').
Proof using.
  intros HE Hinv Hf Hc. cbv zeta. destruct (timed_out_frees s a Hinv Hf Hc) as (Hact & Hrep & _).
  split; [exact Hact|]. split.
  - intros Hlow. by_wp no_fault HE. apply handleTimeout_claimed_wp; try assumption.
    eapply wp_mono; [|apply TryScore_below]; [|cbn [timed_out_state db]; rewrite Hrep; exact Hlow].
    intros u ab s' [_ H]. exact H.
  - intros q bs Hq Hsub Hbs Hreq Hsmall. by_wp no_fault HE. apply handleTimeout_claimed_wp; try assumption.
    eapply wp_mono; [|apply (TryScore_reaches (a_QuestionID a) (timed_out_state (a_AssignmentID a) s) q bs)].
    + intros u ab s' [_ H]. exact H.
    + cbn [timed_out_state db]. apply rg_timeout, Hinv.
    + apply Hreq.
    + exact Hq.
    + exact Hsub.
    + exact Hbs.
    + cbn [timed_out_state db]. rewrite Hrep. lia.
Qed.

(** *** Startup *)

Lemma recover_timer_wp {C} Fault a s (Q : unit -> bool -> St -> Prop) :
  (forall now, go_time C now -> Q tt false {| s with mem := timer_started a now (mem s) |}) ->
  wp_in (C := C) Fault any_reply false eq any_step (recover_timer a) Q false s.
Proof using.
  intros HQ. unfold recover_timer. rewrite wp_in_Now. intros now Hnow. destruct (After now (a_ReplyDDL a)) eqn:E.
  - rewrite wp_Atomic. intros s1 <-. split; [exact I|]. specialize (HQ now Hnow). unfold timer_started in HQ.
    unfold After in E. rewrite (proj2 (Z.leb_le _ now)) in HQ by lia. exact HQ.
  - apply StartReplyTimer_wp. exact HQ.
Qed.

Lemma recover_timers_wp {C} Fault rows s : NoDup (map a_AssignmentID rows) -> fresh_timers (mem s) ->
  wp_in (C := C) Fault any_reply false eq any_step (for_all rows recover_timer)
    (fun _ ab s' => ab = false /\ db s' = db s /\ fresh_timers (mem s') /\
       forall a, a ∈ rows -> covered (go_time C) a (mem s')) false s.
Proof using.
  intros Hnd Hfresh. apply (wp_for_all _ _ eq any_step recover_timer
    (fun pre s' => db s' = db s /\ fresh_timers (mem s') /\ forall a, a ∈ pre -> covered (go_time C) a (mem s')) rows).
  - intros pre x post s1 Hrows (Hdb & Hf & Hcov). apply recover_timer_wp. intros now Hnow.
    split; [reflexivity|]. split; [exact Hdb|]. split; [apply timer_started_fresh, Hf|].
    intros b Hb. apply elem_of_app in Hb as [Hb|Hb].
    + apply (timer_started_keeps _ x b now (mem s1) Hf); [|apply Hcov, Hb].
      rewrite Hrows, map_app in Hnd. apply NoDup_app in Hnd as (_ & Hd & _). intros E.
      apply (Hd (a_AssignmentID b)); [apply elem_of_map; eauto|]. rewrite <- E. left.
    + apply list_elem_of_singleton in Hb as ->. apply timer_started_covers, Hnow.
  - split; [reflexivity|]. split; [exact Hfresh|]. intros a Ha. inversion Ha.
Qed.

(** C20: after a successful start that takes from [lo] to [hi], every claimed
    assignment of an open question is looked after, whatever fails: one whose
    deadline is later than [hi] has its timer armed for its deadline, one whose
    deadline was reached at [lo] has its time-out running, and in between one of
    both holds: no claimed slot is lost in a restart, and no claim is ended
    before its time. *)
Theorem RecoverOnStartup_covers E lo hi s s' : alone E -> keeps_time (during lo hi) E -> inv (db s) -> fresh_timers (mem s) ->
  run_top E (RecoverOnStartup tm) s = (Ok tt, s') ->
  forall a, a ∈ claimed_of_open_questions (db s) ->
    (a_ReplyDDL a <= hi /\ timeout_task a ∈ spawned (mem s')) \/
    (lo < a_ReplyDDL a /\ exists n now, lo <= now <= hi /\ timers (mem s') !! a_AssignmentID a = Some n /\
       pending (mem s') !! n = Some (Z.min (a_ReplyDDL a) (now + (2 ^ 63 - 1)), timeout_task a)).
Proof using.
  intros HE Htime Hinv Hf Er a Ha. enough (covered (go_time (during lo hi)) a (mem s')) as [now Hn Hd Hs|now n Hn Hd Ht Hp].
  { left. cbn in Hn. split; [lia|exact Hs]. }
  { right. cbn in Hn. split; [lia|]. exists n, now. auto. }
  cut (Ok tt = @Ok unit tt -> covered (go_time (during lo hi)) a (mem s')); [auto|].
  apply (run_wp_in any_fault any_reply eq any_step E (RecoverOnStartup tm)
    (fun r s' => r = Ok tt -> covered (go_time (during lo hi)) a (mem s')) s (Ok tt) s' HE Htime); [|exact Er].
  unfold RecoverOnStartup. wp_statement_at env Henv; [discriminate|]. wp_norm.
  eapply wp_mono; [|apply (recover_timers_wp any_fault _ s); [apply NoDup_map_filter, Hinv|exact Hf]].
  intros u ab s1 (-> & _ & _ & Hcov). wp_statement_at env2 Henv2; [discriminate|]. wp_norm.
  eapply wp_mono; [|apply wp_memory, no_atomic_for_all; intros id; apply no_atomic_TryScore].
  intros u1 ab s2 [Hm Hab]. wp_norm. intros _. rewrite Hm. apply Hcov, Ha.
Qed.
End Behaviour.

(** ** Examples *)

Definition timer_db : DB :=
  mkDB [] [toy_bs] [toy_question] [mkAssignment 3 1 "carol" AssignmentStatusClaimed (10 * Second) None None None fzero 0 0]
    [] [] [] [] 2 4.
Definition timer_state : St := mkState timer_db no_timers.
Definition timer_claim : Assignment := mkAssignment 3 1 "carol" AssignmentStatusClaimed (10 * Second) None None None fzero 0 0.
Definition timer_manager (required : Z) : TimerManager := NewTimerManager NewScoringService required.

Lemma timer_inv : inv timer_db.
Proof.
  split; [apply (bool_decide_eq_true_1 _); vm_compute; reflexivity|]. split.
  { intros a Ha. apply list_elem_of_singleton in Ha as ->. reflexivity. }
  split; [apply (bool_decide_eq_true_1 _); vm_compute; reflexivity|]. split.
  { intros q Hq. apply list_elem_of_singleton in Hq as ->. reflexivity. }
  split.
  - intros w. cbn. rewrite count_if_cons. change (count_if _ []) with 0. destruct (_ && _); lia.
  - split; intros a Ha; apply list_elem_of_singleton in Ha as ->; discriminate.
Qed.

Lemma handleTimeout_late_witness :
  run_top (failing_at 7) (handleTimeout (timer_manager 5) 1 1 "bob") toy_state =
  (tt, mkState (db toy_state) (snd (timers_delete 1 no_timers))).
Proof.
  apply (handleTimeout_late (timer_manager 5) (failing_at 7) 1 1 "bob" toy_state); [apply failing_alone|].
  intros a Ha. vm_compute in Ha. injection Ha as <-. reflexivity.
Defined.

Lemma handleTimeout_frees_slot_witness :
  let s' := snd (run_top (still_env 11 0 refuse) (handleTimeout (timer_manager 5) 3 1 "carol") timer_state) in
  active_count 1 timer_db = 1 /\ active_count 1 (db s') = 0.
Proof.
  split; [vm_compute; reflexivity|].
  destruct (handleTimeout_frees_slot (L := pg_example_laws) (timer_manager 5) (still_env 11 0 refuse) timer_state timer_claim "carol")
    as (Hact & Hlow & _);
    [apply still_undisturbed|apply timer_inv|reflexivity|reflexivity|].
  cbn [timer_claim a_AssignmentID a_QuestionID] in Hlow. rewrite Hlow by (vm_compute; reflexivity). exact Hact.
Defined.

(** The deadline is ten seconds after the start, which takes two. *)
Lemma RecoverOnStartup_covers_witness :
  let s' := snd (run_top (still_env Second 0 refuse) (RecoverOnStartup (timer_manager 5)) timer_state) in
  exists n, timers (mem s') !! 3 = Some n /\ pending (mem s') !! n = Some (10 * Second, timeout_task timer_claim).
Proof.
  destruct (RecoverOnStartup_covers (timer_manager 5) (still_env Second 0 refuse) 0 (2 * Second) timer_state
    (snd (run_top (still_env Second 0 refuse) (RecoverOnStartup (timer_manager 5)) timer_state)))
    with (a := timer_claim) as [[H _]|(_ & n & now & Hnow & Ht & Hp)].
  - apply undisturbed_alone, still_undisturbed.
  - split; intros n; cbn; unfold Second; lia.
  - apply timer_inv.
  - intros n _. reflexivity.
  - vm_compute. reflexivity.
  - change (timer_claim ∈ [timer_claim]). left.
  - vm_compute in H. destruct (H eq_refl).
  - exists n. split; [exact Ht|]. rewrite Hp. unfold timer_claim. cbn [a_ReplyDDL]. unfold Second in *.
    rewrite Z.min_l by lia. reflexivity.
Defined.

Lemma toy_state_inv : inv (db toy_state).
Proof.
  split; [apply (bool_decide_eq_true_1 _); vm_compute; reflexivity|]. split.
  { apply (proj1 (Forall_forall _ _)). repeat constructor. }
  split; [apply (bool_decide_eq_true_1 _); vm_compute; reflexivity|]. split.
  { apply (proj1 (Forall_forall _ _)). repeat constructor. }
  split.
  - intros w. change (0 <= 1). lia.
  - split.
    + apply (proj1 (Forall_forall (fun a => is_replied a = true -> is_Some (a_ReplyValid a)) toy_two_replies)).
      repeat constructor; intros _; eexists; reflexivity.
    + intros a Ha. assert (is_scored a = false) as -> by (revert a Ha; apply (proj1 (Forall_forall _ _)); repeat constructor).
      discriminate.
Qed.

Lemma TryScore_threshold_witness :
  (exists now, only_workers {| toy_state with db := after_scoring "exact" "4" 1 now (db toy_state) |}
     (snd (run_top (still_env 7 0 refuse) (TryScore (timer_manager 2) 1) toy_state))) /\
  snd (run_top (still_env 7 0 refuse) (TryScore (timer_manager 3) 1) toy_state) = toy_state.
Proof.
  split.
  - apply (TryScore_threshold (L := pg_example_laws) (timer_manager 2) (still_env 7 0 refuse) 1 toy_state toy_question toy_bs);
      [apply still_undisturbed|apply toy_state_inv|vm_compute; reflexivity..].
  - apply (TryScore_threshold (L := pg_example_laws) (timer_manager 3) (still_env 7 0 refuse) 1 toy_state toy_question toy_bs);
      [apply still_undisturbed|apply toy_state_inv|vm_compute; reflexivity..].
Defined.
