(* ===== verification/Poll.v ===== *)
(** * Polling for work

    Models [src/internal/service/poll.go]: a worker polls, keeps the claimed
    assignment it has, or is given a random open question, in one transaction.

    [OnAssignmentCreated] is an optional program; the server sets it to
    [StartReplyTimer].  [time.Format(time.RFC3339)] of the reply is left as the
    instant.

    Theorems: a poll is its abstract operation, with the deadline tested against
    an instant that the clock shows ([PollOnline_refines]); a question
    never has more claimed and replied assignments than required answers and a
    worker never holds two claimed assignments ([PollOnline_capacity]); an
    expired assignment is timed out in the same transaction. *)

From S2P Require Import Prelude Float64 GoLang Model Prog Tables Store StoreQuestion Lifecycle Config Scoring Timer.
#[local] Open Scope prog_scope.

(** AssignmentView: the question info sent to a worker when assigned. *)
Record AssignmentView := mkAssignmentView {
  v_AssignmentID : Z;
  v_QuestionID : Z;
  v_Question : string;
  v_ReplyDDL : Z;
  v_CreatedAt : Z;
  v_QuestionRequirements : string;
  v_AnswerRequirements : string;
  v_AnswerMaxLen : Z;
  v_Prompt : string
}.

(** PollResult. *)
Record PollResult := mkPollResult { Assigned : option AssignmentView }.

Record PollService := mkPollService {
  ps_Config : PollConfig;
  ps_RtConfig : option RuntimeConfig;
  ps_OnAssignmentCreated : option (Assignment -> Prg unit)
}.

Section Poll.
Context {P : Postgres}.
Variable svc : PollService.

Definition replyTimeout : Z :=
  match ps_RtConfig svc with
  | Some c => pc_ReplyTimeout (pollConfig c)
  | None => pc_ReplyTimeout (ps_Config svc)
  end.

Definition requiredAnswers : Z :=
  match ps_RtConfig svc with
  | Some c => qc_RequiredAnswers (questionConfig c)
  | None => pc_RequiredAnswers (ps_Config svc)
  end.

Definition answerPrompt : string :=
  match ps_RtConfig svc with
  | Some c => GetAnswerPrompt c
  | None => defaultPrompt
  end.

Definition buildAssignmentResult (a : Assignment) : Prg (result PollResult) :=
  let* rq := GetQuestion (a_QuestionID a) in
  match rq with
  | Err e => Ret (Err (Wrapped "get question" e))
  | Ok None => Ret (Err (Failure "get question"))
  | Ok (Some q) =>
      let* rb := GetBenchmarkSet (q_BSID q) in
      match rb with
      | Err e => Ret (Err (Wrapped "get benchmark set" e))
      | Ok None => Ret (Err (Failure "get benchmark set"))
      | Ok (Some bs) =>
          Ret (Ok (mkPollResult (Some
            (mkAssignmentView (a_AssignmentID a) (q_QuestionID q) (q_Question q) (a_ReplyDDL a) (a_CreatedAt a)
               (bs_QuestionRequirements bs) (bs_AnswerRequirements bs) (bs_AnswerMaxLen bs) answerPrompt))))
      end
  end.

(** Pick a question and create the assignment. *)
Definition assign_new (workerAddr : string) (required replyDDL : Z) : Prg (result (option Assignment)) :=
  let? q := wrapped "pick question" (PickQuestionForWorker workerAddr required) in
  match q with
  | None => Ret (Ok None)
  | Some q =>
      let? count := wrapped "count active" (CountActiveAssignments (q_QuestionID q)) in
      if required <=? count then Ret (Ok None)
      else
        let? a := wrapped "create assignment" (CreateAssignment (q_QuestionID q) workerAddr replyDDL) in
        Ret (Ok (Some a))
  end.

(** The body of the transaction: the assignment to return, if any. *)
Definition poll_tx (workerAddr : string) (required replyDDL : Z) : Prg (result (option Assignment)) :=
  let? existing := wrapped "check existing" (FindClaimedAssignment workerAddr) in
  match existing with
  | Some ex =>
      Now (fun now =>
      if After now (a_ReplyDDL ex) then
        let* _ := TimeoutAssignment (a_AssignmentID ex) in
        assign_new workerAddr required replyDDL
      else Ret (Ok (Some ex)))
  | None => assign_new workerAddr required replyDDL
  end.

Definition PollOnline (workerAddr : string) : Prg (result PollResult) :=
  Now (fun now1 =>
  let? _ := wrapped "update poll time" (UpdateWorkerLastPollAt workerAddr now1) in
  let required := requiredAnswers in
  Now (fun now2 =>
  let replyDDL := now2 + replyTimeout in
  let? assignment := Store_Tx New (fun _ => poll_tx workerAddr required replyDDL) in
  match assignment with
  | None => Ret (Ok (mkPollResult None))
  | Some a =>
      let* _ := match ps_OnAssignmentCreated svc with Some f => f a | None => Ret tt end in
      buildAssignmentResult a
  end)).
End Poll.

(** ** Every step keeps the life cycle *)

Lemma poll_tx_safe {P : Postgres} w required ddl : tx_safe (poll_tx w required ddl).
Proof.
  unfold poll_tx, assign_new, FindClaimedAssignment, PickQuestionForWorker, CountActiveAssignments. prove_safe.
Qed.

Lemma PollOnline_safe {P : Postgres} svc w :
  (forall f a, ps_OnAssignmentCreated svc = Some f -> safe (f a)) -> safe (PollOnline svc w).
Proof.
  intros Hcb. unfold PollOnline, Store_Tx, New, buildAssignmentResult, GetQuestion, GetBenchmarkSet. prove_safe;
    first [apply poll_tx_safe | apply Hcb; reflexivity | idtac].
Qed.

(** ** What a poll does *)

(** The claimed assignment of a worker, if any, and what is left of it when its
    deadline has passed. *)
Definition claimed_by (w : string) (d : DB) : list Assignment :=
  List.filter (fun a => of_worker w a && is_claimed a) (assignments d).

Section Outcome.
Context {P : Postgres}.

(** The tables once a claim that has expired at the instant [now] is out of
    the way. *)
Inductive freed (w : string) (now : Z) (d : DB) : DB -> Prop :=
| freed_none : claimed_by w d = [] -> freed w now d d
| freed_expired ex : ex ∈ claimed_by w d -> After now (a_ReplyDDL ex) = true ->
    freed w now d (snd (update_assignments (claimed_with_id (a_AssignmentID ex)) timed_out d)).

(** The abstract transaction, whose deadline test is made at [now]: the
    assignment to return, and the tables.  [C] is what the database server's
    clock shows and what it chooses: a random number past the candidates stands
    for candidates that are all locked. *)
Inductive poll_spec (C : Clocks) (w : string) (required ddl now : Z) (d : DB) : option Assignment -> DB -> Prop :=
| poll_keeps ex : ex ∈ claimed_by w d -> After now (a_ReplyDDL ex) = false ->
    poll_spec C w required ddl now d (Some ex) d
| poll_nothing d1 env : freed w now d d1 -> sql_time C env -> candidates w required d1 !! sql_random env = None ->
    poll_spec C w required ddl now d None d1
| poll_assigns d1 env q env1 a d2 : freed w now d d1 -> sql_time C env -> candidates w required d1 !! sql_random env = Some q ->
    sql_time C env1 -> insert_assignment (q_QuestionID q) w ddl env1 d1 = (Ok a, d2) ->
    poll_spec C w required ddl now d (Some a) d2.

(** The transaction ends as the specification says, or with an error. *)
Definition poll_tx_post (C : Clocks) (w : string) (required ddl : Z) (s : St) (r : result (option Assignment)) (ab : bool) (s' : St) : Prop :=
  mem s' = mem s /\
  match r with
  | Ok o => ab = true \/ exists now, go_time C now /\ poll_spec C w required ddl now (db s) o (db s')
  | Err _ => True
  end.

(** A candidate is open and has a free slot. *)
Lemma candidate_open w required d n q : candidates w required d !! n = Some q -> q ∈ questions d /\ open_to w required d q = true.
Proof using.
  intros Hq. apply list_elem_of_lookup_2 in Hq. unfold candidates in Hq. apply elem_of_take in Hq as (i & Hi & _).
  apply list_elem_of_lookup_2 in Hi. apply elem_of_order_by, elem_of_filter_bool in Hi as [Hopen Hin]. auto.
Qed.

Lemma open_free w required d q : open_to w required d q = true -> active_count (q_QuestionID q) d < required.
Proof using. unfold open_to. rewrite !andb_true_iff. intros [_ H]. apply Z.ltb_lt, H. Qed.

Lemma assign_new_wp {C} Fault w required ddl now s0 s ab : mem s = mem s0 -> go_time C now ->
  (ab = true \/ freed w now (db s0) (db s)) ->
  wp_in (C := C) Fault any_reply true eq any_step (assign_new w required ddl) (poll_tx_post C w required ddl s0) ab s.
Proof using.
  intros Hm Hnow Hfreed. unfold assign_new, PickQuestionForWorker, poll_tx_post. destruct ab.
  { wp_norm. rewrite wp_in_query_tx. cbn [wrap_error]. auto. }
  destruct Hfreed as [|Hfreed]; [discriminate|].
  tx_statement_at env Henv; [auto|]. destruct (candidates w required (db s) !! _) as [q|] eqn:Hq.
  2: { wp_norm. split; [exact Hm|]. right. exists now. split; [exact Hnow|]. exact (poll_nothing _ _ _ _ _ _ _ env Hfreed Henv Hq). }
  unfold CountActiveAssignments. tx_statement_at env2 Henv2; [auto|].
  destruct (Z.leb_spec required (active_count (q_QuestionID q) (db s))) as [Hfull|_].
  { pose proof (open_free _ _ _ _ (proj2 (candidate_open _ _ _ _ _ Hq))). lia. }
  cbn beta iota.
  unfold CreateAssignment. tx_statement_at env1 Henv1; [auto|].
  destruct (insert_assignment _ _ _ _ _) as [[a|e] d2] eqn:Hins; cbn [fst snd]; wp_norm; (split; [exact Hm|]); [|exact I].
  right. exists now. split; [exact Hnow|]. exact (poll_assigns _ _ _ _ _ _ _ env q env1 a d2 Hfreed Henv Hq Henv1 Hins).
Qed.

Lemma poll_tx_wp {C} Fault w required ddl s : (exists now, go_time C now) ->
  wp_in (C := C) Fault any_reply true eq any_step (poll_tx w required ddl) (poll_tx_post C w required ddl s) false s.
Proof using.
  intros [now0 Hnow0]. unfold poll_tx, FindClaimedAssignment. tx_statement_at env Henv; [split; [reflexivity|exact I]|].
  fold (claimed_by w (db s)).
  destruct (first_row (order_by_desc a_CreatedAt (claimed_by w (db s)))) as [ex|] eqn:Hfirst.
  - apply first_row_in, elem_of_order_by in Hfirst. rewrite wp_in_Now. intros now Hnow.
    destruct (After now (a_ReplyDDL ex)) eqn:Hlate.
    + unfold TimeoutAssignment. tx_statement_at env2 Henv2; wp_norm; apply (assign_new_wp _ _ _ _ now); auto.
      right. eapply freed_expired; eassumption.
    + wp_norm. split; [reflexivity|]. right. exists now. split; [exact Hnow|]. apply poll_keeps; assumption.
  - apply first_row_none in Hfirst. apply (assign_new_wp _ _ _ _ now0); [reflexivity|exact Hnow0|]. right. apply freed_none.
    destruct (claimed_by w (db s)) as [|a l] eqn:E; [reflexivity|]. exfalso.
    assert (a ∈ order_by_desc a_CreatedAt (a :: l)) as Ha by (apply elem_of_order_by; left). rewrite Hfirst in Ha. inversion Ha.
Qed.

(** The last poll is noted first. *)
Definition polled (w : string) (t : Z) (d : DB) : DB :=
  update_worker w (fun wk => {| wk with w_LastPollAt := Some (pg_timestamp t) |}) d.

Variable svc : PollService.

(** The view of an assignment. *)
Definition shows (v : AssignmentView) (a : Assignment) (d : DB) : Prop :=
  exists q bs, find_question (a_QuestionID a) d = Some q /\ find_benchmark_set (q_BSID q) d = Some bs /\
    v = {| v_AssignmentID := a_AssignmentID a; v_QuestionID := q_QuestionID q; v_Question := q_Question q;
           v_ReplyDDL := a_ReplyDDL a; v_CreatedAt := a_CreatedAt a;
           v_QuestionRequirements := bs_QuestionRequirements bs; v_AnswerRequirements := bs_AnswerRequirements bs;
           v_AnswerMaxLen := bs_AnswerMaxLen bs; v_Prompt := answerPrompt svc |}.

Lemma buildAssignmentResult_wp {C} Fault a s (Q : result PollResult -> bool -> St -> Prop) :
  (forall e, Q (Err e) false s) -> (forall v, shows v a (db s) -> Q (Ok (mkPollResult (Some v))) false s) ->
  wp_in (C := C) Fault any_reply false eq any_step (buildAssignmentResult svc a) Q false s.
Proof using.
  intros He Hv. unfold buildAssignmentResult, GetQuestion. wp_statement_at env Henv; [wp_norm; auto|].
  destruct (find_question _ _) as [q|] eqn:Hq; [|wp_norm; auto]. unfold GetBenchmarkSet.
  wp_statement_at env2 Henv2; [wp_norm; auto|].
  destruct (find_benchmark_set _ _) as [bs|] eqn:Hbs; wp_norm; [|auto]. apply Hv. exists q, bs. auto.
Qed.

Hypothesis Hcallback : ps_OnAssignmentCreated svc = Some StartReplyTimer.

(** The transaction of a poll, with a deadline and a deadline test of [C]. *)
Definition poll_commits (C : Clocks) (w : string) (d : DB) (o : option Assignment) (d' : DB) : Prop :=
  exists now2 now, go_time C now2 /\ go_time C now /\
    poll_spec C w (requiredAnswers svc) (now2 + replyTimeout svc) now d o d'.

(** A poll follows the specification: after an error nothing, or the note of
    the poll, or the transaction may have happened; otherwise the reply shows
    the assignment of the transaction, and its timer is started. All instants
    are what the clocks show. *)
Definition poll_follows (C : Clocks) (w : string) (s : St) (r : result PollResult) (s' : St) : Prop :=
  match r with
  | Ok res => exists t o, go_time C t /\ poll_commits C w (polled w t (db s)) o (db s') /\
      match o, Assigned res with
      | None, None => mem s' = mem s
      | Some a, Some v => shows v a (db s') /\ exists now, go_time C now /\ mem s' = timer_started a now (mem s)
      | _, _ => False
      end
  | Err _ => db s' = db s \/ exists t, go_time C t /\
      (db s' = polled w t (db s) \/ exists o, poll_commits C w (polled w t (db s)) o (db s'))
  end.

Lemma PollOnline_wp {C} Fault w s :
  wp_in (C := C) Fault any_reply false eq any_step (PollOnline svc w) (fun r _ s' => poll_follows C w s r s') false s.
Proof using Hcallback.
  unfold PollOnline, UpdateWorkerLastPollAt, Store_Tx, New. rewrite wp_in_Now. intros t Ht.
  wp_statement_at env Henv; [wp_norm; left; reflexivity|].
  wp_norm. rewrite wp_in_Now. intros now2 Hnow2. fold (polled w t (db s)). set (s1 := mkState (polled w t (db s)) (mem s)).
  assert (forall e s2, db s2 = db s1 -> poll_follows C w s (Err e) s2) as Hnoted by (intros e s2 E; right; exists t; auto).
  wp_norm. rewrite wp_Tx. intros s2 <-. split; [intros msg _; wp_norm; apply Hnoted; reflexivity|].
  eapply wp_mono; [|apply poll_tx_wp; eauto]. intros r ab s3 [Hm Hr]. split; [exact Hm|].
  destruct r as [o|e]; [|wp_norm; apply Hnoted; reflexivity].
  destruct ab; [wp_norm; apply Hnoted; reflexivity|]. destruct Hr as [|(now & Hnow & Hr)]; [discriminate|].
  assert (poll_commits C w (polled w t (db s)) o (db s3)) as Hc by (exists now2, now; auto).
  split; [intros msg _; wp_norm; apply Hnoted; reflexivity|]. split; [exact I|].
  wp_norm. destruct o as [a|]; [|wp_norm; exists t, None; auto].
  rewrite Hcallback. wp_norm. apply StartReplyTimer_wp. intros now3 Hnow3.
  apply buildAssignmentResult_wp; cbn [db mem].
  - intros e. right. exists t. split; [exact Ht|]. right. eauto.
  - intros v Hv. exists t, (Some a). split; [exact Ht|]. split; [exact Hc|]. split; [exact Hv|].
    exists now3. split; [exact Hnow3|]. cbn [mem]. rewrite Hm. reflexivity.
Qed.

(** C10: a poll does what the abstract operation says, whatever fails: it
    returns the worker's claim while that is in time; otherwise it times the
    expired claim out and, in the same transaction, either assigns nothing,
    because there is no candidate that nobody has locked, or a new claim on one
    of the candidates: the oldest submitted questions that somebody else asked,
    that the worker has no claimed, replied or scored assignment of and at most
    one timed-out one, and that have a free slot; the reply shows that
    assignment, and its timer is started.  The deadline test, the new deadline,
    the timer and the columns are of instants that the clocks show during the
    poll, whichever these are. *)
Theorem PollOnline_refines C E w s r s' : alone E -> keeps_time C E ->
  run_top E (PollOnline svc w) s = (r, s') -> poll_follows C w s r s'.
Proof using Hcallback.
  intros HE Ht. apply (run_wp_in any_fault any_reply eq any_step E (PollOnline svc w) (fun r s' => poll_follows C w s r s') s r s' HE Ht).
  apply PollOnline_wp.
Qed.

(** *** Capacity *)

Lemma freed_active w now d d' q : freed w now d d' -> active_count q d' <= active_count q d.
Proof using.
  intros [_|ex Hex _]; [lia|]. unfold active_count, update_assignments. cbn [snd assignments].
  rewrite count_if_update_out by (intros x; apply andb_false_r). pose proof (count_if_nonneg (fun x => claimed_with_id (a_AssignmentID ex) x && (on_question q x && is_active x)) (assignments d)). lia.
Qed.

Lemma insert_active q0 w ddl env d a d' q : insert_assignment q0 w ddl env d = (Ok a, d') ->
  active_count q d' = active_count q d + (if q =? q0 then 1 else 0).
Proof using.
  unfold insert_assignment. destruct (negb _); [discriminate|]. destruct (find_worker w d); [|discriminate].
  destruct (existsb _ (assignments d)); [discriminate|]. intros [= _ <-]. unfold active_count. cbn [assignments].
  rewrite count_if_app, count_if_cons. change (count_if _ []) with 0. f_equal. unfold on_question, is_active, is_claimed. cbn.
  rewrite Z.eqb_sym. destruct (q =? q0); reflexivity.
Qed.

Lemma poll_spec_capacity C w required ddl now d o d' q : poll_spec C w required ddl now d o d' ->
  active_count q d' <= Z.max (active_count q d) required.
Proof using.
  intros [ex _ _|d1 env Hf _ _|d1 env q1 env1 a d2 Hf _ Hq _ Hins]; [lia|pose proof (freed_active _ _ _ _ q Hf); lia|].
  pose proof (freed_active _ _ _ _ q Hf). rewrite (insert_active _ _ _ _ _ _ _ q Hins).
  pose proof (open_free _ _ _ _ (proj2 (candidate_open _ _ _ _ _ Hq))).
  destruct (Z.eqb_spec q (q_QuestionID q1)) as [->|_]; lia.
Qed.

(** Capacity: a poll never takes a question past the required number of
    active (claimed or replied) assignments, whatever fails. *)
Theorem PollOnline_capacity E w s q : alone E ->
  active_count q (db (snd (run_top E (PollOnline svc w) s))) <= Z.max (active_count q (db s)) (requiredAnswers svc).
Proof using Hcallback.
  intros HE. by_wp any_fault HE. eapply wp_mono; [|apply PollOnline_wp]. intros r ab s' H. cbn beta in H.
  assert (forall t, active_count q (polled w t (db s)) = active_count q (db s)) as Ht by reflexivity.
  assert (forall t o d', poll_commits any_time w (polled w t (db s)) o d' ->
    active_count q d' <= Z.max (active_count q (db s)) (requiredAnswers svc)) as Hc
    by (intros t o d' (now2 & now & _ & _ & Hp); rewrite <- (Ht t); exact (poll_spec_capacity _ _ _ _ _ _ _ _ q Hp)).
  destruct r as [res|e].
  - destruct H as (t & o & _ & H & _). exact (Hc t o _ H).
  - destruct H as [->|(t & _ & [->|[o H]])]; [lia|rewrite Ht; lia|exact (Hc t o _ H)].
Qed.
End Outcome.

(** ** Examples *)

Definition poll_db : DB :=
  mkDB [mkWorker "asker" None 0 None 0; mkWorker "bob" None 0 None 0] [toy_bs] [toy_question] [] [] [] [] [] 2 1.
Definition poll_state : St := mkState poll_db no_timers.
Definition poll_service : PollService := mkPollService DefaultPollConfig None (Some StartReplyTimer).

(** All clocks show the fifth second, and nothing is locked. *)
Definition fifth_second : Clocks :=
  mkClocks (fun t => t = 5 * Second) (fun env => env = mkSqlEnv (5 * Second) 0).

(** Bob is given the question, with three minutes to answer. *)
Lemma PollOnline_refines_witness :
  let '(r, s') := run_top (still_env (5 * Second) 0 refuse) (PollOnline poll_service "bob") poll_state in
  poll_follows poll_service fifth_second "bob" poll_state r s' /\
  map (fun a => (a_Worker a, a_QuestionID a, a_ReplyDDL a)) (assignments (db s')) = [("bob"%string, 1, 185 * Second)] /\
  active_count 1 (db s') = 1.
Proof.
  destruct (run_top _ _ _) as [r s'] eqn:Er. split.
  - apply (PollOnline_refines poll_service eq_refl fifth_second (still_env (5 * Second) 0 refuse)); [| |exact Er].
    + apply undisturbed_alone, still_undisturbed.
    + split; intros n; reflexivity.
  - change s' with (snd (r, s')). rewrite <- Er. vm_compute. auto.
Defined.

(** The specification decides: a claim that is in time at the only instant is
    kept, and cannot be timed out. *)
Definition claimed_db (ddl : Z) : DB :=
  {| poll_db with assignments := [mkAssignment 1 1 "bob" AssignmentStatusClaimed ddl None None None fzero 0 0] |}.

Example poll_keeps_claim o d : poll_spec fifth_second "bob" 5 (185 * Second) (5 * Second) (claimed_db (6 * Second)) o d ->
  d = claimed_db (6 * Second).
Proof.
  intros [ex _ _|d1 env Hf _ _|d1 env q env1 a d2 Hf _ _ _ _]; [reflexivity|exfalso..];
    destruct Hf as [Hf|ex Hex Hl]; try discriminate Hf; apply list_elem_of_singleton in Hex as ->; discriminate Hl.
Qed.

Lemma PollOnline_capacity_witness :
  active_count 1 (db (snd (run_top (failing_at 9) (PollOnline poll_service "bob") poll_state))) <= Z.max 0 5.
Proof.
  apply (PollOnline_capacity poll_service eq_refl (failing_at 9) "bob" poll_state 1), failing_alone.
Defined.
