(* ===== verification/PollIsolation.v ===== *)
(** * Polls at the same time, statement by statement

    [Poll] runs the transaction of a poll in one piece.  PostgreSQL does not: at
    READ COMMITTED every statement of a transaction reads what is committed when
    it starts, together with the transaction's own changes, which nobody else
    sees before the commit.  This file takes the transaction of
    [src/internal/service/poll.go] apart into its statements, with those of
    [src/internal/store] and what they lock:

    - the UPDATE of the expired claim locks that row: no other statement changes
      it before the end of the transaction, and one that tries to waits;
    - the candidates are read from the statement's snapshot; then the first one
      of a random order that nobody has locked is locked ([FOR UPDATE SKIP
      LOCKED]), without another look at its status or its slots;
    - the INSERT takes its identity from the sequence at once, for good; it
      waits for another transaction of the same worker, because of the unique
      index on claims.

    [tx_step] lets any number of polls advance one statement at a time; in between
    any other program may commit any step of its life cycle ([Lifecycle.rg])
    that leaves locked rows alone and adds no assignment, which only polls do.
    A poll may fail anywhere.

    Theorems: the questions never get more active assignments than required,
    whatever the interleaving, and the invariant and the life cycle of
    [Lifecycle] survive ([polls_capacity]): the atomic transactions of
    [System] hide no step of them.  What
    [Poll.poll_tx] does alone, the statements of the same worker, required number
    and deadline do ([poll_tx_simulated]).  But the row that is locked may
    have changed since the snapshot: a question can be assigned after it was
    scored ([poll_assigns_scored]). *)

From S2P Require Import Prelude Float64 GoLang Model Prog Tables Store StoreQuestion Lifecycle Config Scoring Timer Poll.
#[local] Open Scope prog_scope.

(** ** Transactions under way *)

(** What a poll does next. *)
Inductive PollPhase :=
| Finding                                 (* the SELECT of the worker's claim *)
| Expired (id : Z)                        (* its UPDATE, when it is too late *)
| Picking                                 (* the snapshot of the candidates *)
| Choosing (cands : list Question)        (* the lock on one of them *)
| Counting (q : Z)                        (* the count of its assignments *)
| Inserting (q : Z)                       (* the INSERT *)
| Committing (o : option Assignment).     (* the COMMIT, to return [o] *)

Record PollTx := mkPollTx {
  pt_worker : string;
  pt_required : Z;
  pt_ddl : Z;
  pt_phase : PollPhase;
  pt_timed_out : option Z;                (* the claim that it has timed out *)
  pt_locked : option Z;                   (* the question that it has locked *)
  pt_inserted : option Assignment         (* the claim that it has inserted *)
}.

Definition begin_poll (worker : string) (required ddl : Z) : PollTx :=
  mkPollTx worker required ddl Finding None None None.

(** The transaction's changes to the committed rows. *)
Definition time_out_own (t : PollTx) (a : Assignment) : Assignment :=
  match pt_timed_out t with
  | Some id => if claimed_with_id id a then timed_out a else a
  | None => a
  end.

(** What the transaction sees, and what its commit leaves. *)
Definition view (t : PollTx) (d : DB) : DB :=
  set_assignments (map (time_out_own t) (assignments d) ++
    match pt_inserted t with Some a => [a] | None => [] end) d.

(** ** Steps *)

Section Isolation.
Context {P : Postgres}.

Definition Polls : Type := gmap nat PollTx.
Definition set_poll (i : nat) (t : option PollTx) (ts : Polls) : Polls := partial_alter (fun _ => t) i ts.

(** What the other transactions have locked. *)
Definition assignment_free (i : nat) (id : Z) (ts : Polls) : Prop :=
  map_Forall (fun j t => j <> i -> pt_timed_out t <> Some id) ts.
Definition question_free (i : nat) (id : Z) (ts : Polls) : Prop :=
  map_Forall (fun j t => j <> i -> pt_locked t <> Some id) ts.
Definition worker_free (i : nat) (w : string) (ts : Polls) : Prop :=
  map_Forall (fun j t => j <> i -> pt_worker t = w -> pt_timed_out t = None /\ pt_inserted t = None) ts.

(** After the SELECT of the claim, at the time [now]. *)
Definition after_find (now : Z) (t : PollTx) (d : DB) : PollPhase :=
  match first_row (order_by_desc a_CreatedAt (claimed_by (pt_worker t) d)) with
  | Some ex => if After now (a_ReplyDDL ex) then Expired (a_AssignmentID ex) else Committing (Some ex)
  | None => Picking
  end.

(** After the UPDATE: the row is locked if the UPDATE found it. *)
Definition after_timeout (id : Z) (t : PollTx) (d : DB) : PollTx :=
  {| t with pt_phase := Picking;
            pt_timed_out := if existsb (claimed_with_id id) (assignments d) then Some id else None |}.

Definition after_count (q : Z) (t : PollTx) (d : DB) : PollPhase :=
  if pt_required t <=? active_count q (view t d) then Committing None else Inserting q.

(** Another program's commit: no new assignment, and locked rows as they were. *)
Definition later_unless (locked : Assignment -> Prop) (a b : Assignment) : Prop :=
  assignment_le a b /\ (locked a -> b = a).
Definition others_commit (ts : Polls) (d d' : DB) : Prop :=
  rg d d' /\ next_assignment_id d' = next_assignment_id d /\
  Forall2 (later_unless (fun a => exists j t, ts !! j = Some t /\ pt_timed_out t = Some (a_AssignmentID a)))
    (assignments d) (assignments d') /\
  (forall j t q, ts !! j = Some t -> pt_locked t = Some q -> find_question q d' = find_question q d).

(** [bound]: every poll requires at most that many answers. *)
Variable bound : Z.

Inductive tx_step : Polls * DB -> Polls * DB -> Prop :=
| step_begin i worker required ddl ts d : ts !! i = None -> required <= bound ->
    tx_step (ts, d) (set_poll i (Some (begin_poll worker required ddl)) ts, d)
| step_find i t now ts d : ts !! i = Some t -> pt_phase t = Finding ->
    tx_step (ts, d) (set_poll i (Some {| t with pt_phase := after_find now t d |}) ts, d)
| step_timeout i t id ts d : ts !! i = Some t -> pt_phase t = Expired id -> assignment_free i id ts ->
    tx_step (ts, d) (set_poll i (Some (after_timeout id t d)) ts, d)
| step_snapshot i t ts d : ts !! i = Some t -> pt_phase t = Picking ->
    tx_step (ts, d) (set_poll i (Some {| t with pt_phase := Choosing (candidates (pt_worker t) (pt_required t) (view t d)) |}) ts, d)
| step_lock i t cands q ts d : ts !! i = Some t -> pt_phase t = Choosing cands -> q ∈ cands ->
    question_free i (q_QuestionID q) ts ->
    tx_step (ts, d) (set_poll i (Some {| t with pt_phase := Counting (q_QuestionID q); pt_locked := Some (q_QuestionID q) |}) ts, d)
| step_skip i t cands ts d : ts !! i = Some t -> pt_phase t = Choosing cands ->
    tx_step (ts, d) (set_poll i (Some {| t with pt_phase := Committing None |}) ts, d)
| step_count i t q ts d : ts !! i = Some t -> pt_phase t = Counting q ->
    tx_step (ts, d) (set_poll i (Some {| t with pt_phase := after_count q t d |}) ts, d)
| step_insert i t q env a d1 ts d : ts !! i = Some t -> pt_phase t = Inserting q -> worker_free i (pt_worker t) ts ->
    insert_assignment q (pt_worker t) (pt_ddl t) env (view t d) = (Ok a, d1) ->
    tx_step (ts, d) (set_poll i (Some {| t with pt_phase := Committing (Some a); pt_inserted := Some a |}) ts,
                  {| d with next_assignment_id := next_assignment_id d1 |})
| step_commit i t o ts d : ts !! i = Some t -> pt_phase t = Committing o -> tx_step (ts, d) (set_poll i None ts, view t d)
| step_abort i t ts d : ts !! i = Some t -> tx_step (ts, d) (set_poll i None ts, d)
| step_others ts d d' : others_commit ts d d' -> tx_step (ts, d) (ts, d').

Definition tx_steps : relation (Polls * DB) := rtc tx_step.

Definition no_polls : Polls := ∅.

(** ** The invariant *)

Lemma view_assignments t d : assignments (view t d) =
  map (time_out_own t) (assignments d) ++ match pt_inserted t with Some a => [a] | None => [] end.
Proof using. reflexivity. Qed.

Lemma time_out_own_id t a : a_AssignmentID (time_out_own t a) = a_AssignmentID a.
Proof using. unfold time_out_own. destruct (pt_timed_out t) as [id|]; [|reflexivity]. destruct (claimed_with_id id a); reflexivity. Qed.

Lemma time_out_own_le t a : assignment_le a (time_out_own t a).
Proof using.
  unfold time_out_own. destruct (pt_timed_out t) as [id|]; [|reflexivity]. destruct (claimed_with_id id a) eqn:E; [|reflexivity].
  apply andb_true_iff in E as [_ E]. apply claimed_moves; first [reflexivity|exact E].
Qed.

(** A transaction's own state fits the committed rows. *)
Record tx_ok (d : DB) (t : PollTx) : Prop := {
  ok_required : pt_required t <= bound;
  ok_phase : match pt_phase t with
    | Finding | Expired _ => pt_inserted t = None /\ pt_timed_out t = None
    | Picking | Choosing _ => pt_inserted t = None
    | Counting q => pt_inserted t = None /\ pt_locked t = Some q
    | Inserting q => pt_inserted t = None /\ pt_locked t = Some q /\ active_count q (view t d) < pt_required t
    | Committing _ => True
    end;
  ok_inserted : forall a, pt_inserted t = Some a ->
    pt_locked t = Some (a_QuestionID a) /\ is_claimed a = true /\ a_Worker a = pt_worker t /\
    a_AssignmentID a < next_assignment_id d /\ (a_AssignmentID a ∉ map a_AssignmentID (assignments d)) /\
    active_count (a_QuestionID a) (view t d) <= pt_required t /\
    (forall b, b ∈ assignments d -> is_claimed (time_out_own t b) && of_worker (pt_worker t) b = false)
}.

(** Two transactions do not hold the same lock or claim for the same worker. *)
Definition apart (t u : PollTx) : Prop :=
  (forall q, pt_locked t = Some q -> pt_locked u <> Some q) /\
  (forall id, pt_timed_out t = Some id -> pt_timed_out u <> Some id) /\
  (forall a b, pt_inserted t = Some a -> pt_inserted u = Some b ->
     pt_worker t <> pt_worker u /\ a_AssignmentID a <> a_AssignmentID b).

Definition polls_ok (c : Polls * DB) : Prop :=
  inv (snd c) /\ (forall q, active_count q (snd c) <= bound) /\
  (forall i t, fst c !! i = Some t -> tx_ok (snd c) t) /\
  (forall i j t u, i <> j -> fst c !! i = Some t -> fst c !! j = Some u -> apart t u).

(** *** What the others may do to a transaction *)

(** The rows move forward, except those that it has locked; new rows are on
    other questions and of other workers. *)
Record around (t : PollTx) (d d' : DB) : Prop := {
  around_next : next_assignment_id d <= next_assignment_id d';
  around_rows : exists l extra, assignments d' = l ++ extra /\
    Forall2 (later_unless (fun a => pt_timed_out t = Some (a_AssignmentID a))) (assignments d) l /\
    forall x, x ∈ extra -> pt_locked t <> Some (a_QuestionID x) /\
      forall a, pt_inserted t = Some a -> a_Worker x <> pt_worker t /\ a_AssignmentID x <> a_AssignmentID a
}.

(** An active row of a later state was active. *)
Lemma active_back a b : assignment_le a b -> is_active b = true -> is_active a = true.
Proof using.
  intros (_ & _ & _ & _ & _ & Hle & _). unfold is_active, is_claimed, is_replied.
  destruct (a_Status a), (a_Status b); cbv in Hle |- *; congruence.
Qed.

Lemma claimed_back a b : assignment_le a b -> is_claimed b = true -> is_claimed a = true.
Proof using.
  intros (_ & _ & _ & _ & _ & Hle & _). unfold is_claimed.
  destruct (a_Status a), (a_Status b); cbv in Hle |- *; congruence.
Qed.

(** The own time-out is seen on an unlocked row only if it changes nothing. *)
Lemma time_out_own_back t a b : later_unless (fun a => pt_timed_out t = Some (a_AssignmentID a)) a b ->
  assignment_le (time_out_own t a) (time_out_own t b) \/ (time_out_own t a = a /\ time_out_own t b = b).
Proof using.
  intros [Hle Hlock]. unfold time_out_own. destruct (pt_timed_out t) as [id|]; [|auto].
  unfold claimed_with_id. destruct Hle as (Hid & Hrest). rewrite Hid.
  destruct (Z.eqb_spec (a_AssignmentID a) id) as [<-|Hne]; [|auto]. rewrite (Hlock eq_refl). left. reflexivity.
Qed.

Lemma active_around t d d' q : around t d d' -> pt_locked t = Some q ->
  active_count q (view t d') <= active_count q (view t d).
Proof using.
  intros [_ (l & extra & Hd' & Hl & Hx)] Hq. unfold active_count. rewrite !view_assignments, Hd', map_app, !count_if_app.
  assert (count_if (fun a => on_question q a && is_active a) (map (time_out_own t) extra) = 0) as ->.
  { apply count_if_zero. intros y Hy. apply elem_of_map in Hy as (x & -> & Hxin). destruct (Hx x Hxin) as [Hne _].
    assert (a_QuestionID (time_out_own t x) = a_QuestionID x) as Hqid by apply (time_out_own_le t x).
    unfold on_question. rewrite Hqid. destruct (Z.eqb_spec (a_QuestionID x) q) as [<-|_]; [congruence|reflexivity]. }
  rewrite !count_if_map. enough (count_if (fun a => on_question q (time_out_own t a) && is_active (time_out_own t a)) l <=
    count_if (fun a => on_question q (time_out_own t a) && is_active (time_out_own t a)) (assignments d)) by lia.
  eapply count_if_forall2; [exact Hl|]. intros a b Hab Hqb. apply andb_true_iff in Hqb as [Hqb Hb].
  assert (a_QuestionID (time_out_own t a) = a_QuestionID (time_out_own t b)) as Hsame.
  { rewrite (proj1 (proj2 (time_out_own_le t a))), (proj1 (proj2 (time_out_own_le t b))). symmetry. apply Hab. }
  unfold on_question in *. rewrite Hsame, Hqb. cbn [andb].
  destruct (time_out_own_back t a b Hab) as [Hle|[-> Eb]]; [exact (active_back _ _ Hle Hb)|].
  rewrite Eb in Hb. exact (active_back a b (proj1 Hab) Hb).
Qed.

Lemma tx_ok_around t d d' : around t d d' -> tx_ok d t -> tx_ok d' t.
Proof using.
  intros Har [H1 H2 H3]. split; [exact H1| |].
  - destruct (pt_phase t) as [| | | |q|q|]; auto. destruct H2 as (H2 & Hlock & Hlt).
    pose proof (active_around t d d' q Har Hlock). repeat split; auto; lia.
  - intros a Ha. destruct (H3 a Ha) as (Hlock & Hcl & Hw & Hid & Hfresh & Hact & Hfree).
    pose proof (active_around t d d' _ Har Hlock). destruct Har as [Hnext (l & extra & Hd' & Hl & Hx)].
    split; [exact Hlock|]. split; [exact Hcl|]. split; [exact Hw|]. split; [lia|]. rewrite Hd'. split; [|split; [lia|]].
    + rewrite map_app, elem_of_app. intros [Hin|Hin]; apply elem_of_map in Hin as (b & E & Hb).
      * apply Hfresh, elem_of_map. apply list_elem_of_lookup_1 in Hb as [k Hk].
        destruct (Forall2_lookup_r _ _ _ _ _ Hl Hk) as (b0 & Hb0 & [Hle _]). exists b0.
        split; [rewrite E; apply Hle|]. apply (list_elem_of_lookup_2 _ _ _ Hb0).
      * destruct (Hx b Hb) as [_ Hother]. destruct (Hother a Ha) as [_ Hne]. congruence.
    + intros b [Hb|Hb]%elem_of_app.
      * apply list_elem_of_lookup_1 in Hb as [k Hk]. destruct (Forall2_lookup_r _ _ _ _ _ Hl Hk) as (b0 & Hb0 & Hab).
        specialize (Hfree b0 (list_elem_of_lookup_2 _ _ _ Hb0)).
        assert (a_Worker b = a_Worker b0) as Hworker by apply Hab.
        apply not_true_iff_false. intros Hb. apply not_true_iff_false in Hfree. apply Hfree.
        apply andb_true_iff in Hb as [Hbc Hbw]. unfold of_worker in Hbw |- *. rewrite <- Hworker, Hbw, andb_true_r.
        destruct (time_out_own_back t b0 b Hab) as [Hle|[-> Eb]]; [exact (claimed_back _ _ Hle Hbc)|].
        rewrite Eb in Hbc. exact (claimed_back _ _ (proj1 Hab) Hbc).
      * destruct (Hx b Hb) as [_ Hother]. destruct (Hother a Ha) as [Hne _]. unfold of_worker.
        rewrite bool_decide_eq_false_2 by exact Hne. apply andb_false_r.
Qed.

(** *** Every step keeps the invariant *)

Lemma around_refl t d : around t d d.
Proof using.
  split; [reflexivity|]. exists (assignments d), []. rewrite app_nil_r. split; [reflexivity|]. split.
  - apply Forall2_same_length_lookup_2; [reflexivity|]. intros k a b Ha Hb. assert (b = a) as -> by congruence.
    split; [reflexivity|auto].
  - intros x Hx. inversion Hx.
Qed.

Lemma around_next_id t d n : next_assignment_id d <= n -> around t d {| d with next_assignment_id := n |}.
Proof using. intros Hn. destruct (around_refl t d) as [_ H]. split; [exact Hn|exact H]. Qed.

Lemma around_others ts j t d d' : others_commit ts d d' -> ts !! j = Some t -> around t d d'.
Proof using.
  intros (_ & Hn & Hl & _) Ht. split; [lia|]. exists (assignments d'), []. rewrite app_nil_r. split; [reflexivity|]. split.
  - eapply Forall2_impl; [exact Hl|]. intros a b [Hle Hlock]. split; [exact Hle|]. intros Ha. apply Hlock. eauto.
  - intros x Hx. inversion Hx.
Qed.

(** The commit of another transaction. *)
Lemma around_commit t u d : tx_ok d t -> apart t u -> around u d (view t d).
Proof using.
  intros Hok (Hlock & Htimed & Hins). split; [reflexivity|].
  exists (map (time_out_own t) (assignments d)), (match pt_inserted t with Some a => [a] | None => [] end).
  split; [reflexivity|]. split.
  - apply Forall2_same_length_lookup_2; [rewrite length_map; reflexivity|]. intros k a b Ha Hb.
    rewrite list_lookup_map, Ha in Hb. injection Hb as <-. split; [apply time_out_own_le|]. intros Hu.
    unfold time_out_own. destruct (pt_timed_out t) as [id|] eqn:Et; [|reflexivity]. unfold claimed_with_id.
    destruct (Z.eqb_spec (a_AssignmentID a) id) as [<-|_]; [|reflexivity]. destruct (Htimed _ eq_refl Hu).
  - intros x Hx. destruct (pt_inserted t) as [a|] eqn:Ea; [|inversion Hx]. apply list_elem_of_singleton in Hx as ->.
    destruct (ok_inserted d t Hok a Ea) as (Hq & _ & Hw & _). split; [apply Hlock, Hq|]. intros b Hb.
    destruct (Hins a b eq_refl Hb) as [Hne Hid]. split; [congruence|exact Hid].
Qed.

Lemma apart_sym t u : apart t u -> apart u t.
Proof using.
  intros (H1 & H2 & H3). split; [|split].
  - intros q Hu Ht. exact (H1 q Ht Hu).
  - intros id Hu Ht. exact (H2 id Ht Hu).
  - intros a b Ha Hb. destruct (H3 b a Hb Ha) as [Hw Hid]. split; congruence.
Qed.

Lemma set_poll_cases i o ts j t : set_poll i o ts !! j = Some t -> (j = i /\ o = Some t) \/ (j <> i /\ ts !! j = Some t).
Proof using.
  unfold set_poll, Polls. rewrite lookup_partial_alter. case_decide; auto.
Qed.

(** One transaction changes, or ends; the committed rows may change around the
    others. *)
Lemma polls_ok_set i o ts d d' : polls_ok (ts, d) -> inv d' -> (forall q, active_count q d' <= bound) ->
  (forall j u, j <> i -> ts !! j = Some u -> around u d d') ->
  (forall t, o = Some t -> tx_ok d' t /\ forall j u, j <> i -> ts !! j = Some u -> apart t u) ->
  polls_ok (set_poll i o ts, d').
Proof using.
  intros (_ & _ & Hts & Hap) Hinv Hcap Har Ho. cbn [fst snd] in *. split; [exact Hinv|]. split; [exact Hcap|]. cbn [fst snd]. split.
  - intros j t Ht. apply set_poll_cases in Ht as [[-> Ht]|[Hne Ht]]; [apply Ho, Ht|].
    apply (tx_ok_around t d d'); [apply (Har j)|apply (Hts j)]; assumption.
  - intros j k t u Hjk Ht Hu. apply set_poll_cases in Ht as [[-> Ht]|[Hnj Ht]], Hu as [[-> Hu]|[Hnk Hu]]; [congruence| | |].
    + apply (Ho t Ht) with (j := k); auto.
    + apply apart_sym, (Ho u Hu) with (j := j); auto.
    + apply (Hap j k); assumption.
Qed.

(** Only what the transaction does next changes. *)
Lemma polls_ok_phase i t ph ts d : polls_ok (ts, d) -> ts !! i = Some t ->
  tx_ok d {| t with pt_phase := ph |} -> polls_ok (set_poll i (Some {| t with pt_phase := ph |}) ts, d).
Proof using.
  intros Hok Ht Hnew. pose proof Hok as (Hinv & Hcap & Hts & Hap). cbn [fst snd] in *.
  apply (polls_ok_set i _ ts d d Hok Hinv Hcap); [intros; apply around_refl|].
  intros t' [= <-]. split; [exact Hnew|]. intros j u Hne Hu. exact (Hap i j t u (not_eq_sym Hne) Ht Hu).
Qed.

(** The rows that a transaction leaves are a step of the life cycle. *)
Lemma view_rg t d : tx_ok d t -> rg d (view t d).
Proof using.
  intros Hok. set (d1 := set_assignments (map (time_out_own t) (assignments d)) d).
  assert (rg d d1) as H1.
  { unfold d1, time_out_own. destruct (pt_timed_out t) as [id|].
    - exact (rg_timeout d id).
    - rewrite map_id. destruct d. reflexivity. }
  etransitivity; [exact H1|]. unfold view. destruct (pt_inserted t) as [a|] eqn:Ea.
  2: { rewrite app_nil_r. reflexivity. }
  destruct (ok_inserted d t Hok a Ea) as (_ & Hcl & Hw & Hid & Hfresh & _ & Hfree).
  apply (rg_append_claim d1 a (next_assignment_id d)); [exact Hcl| |exact Hid|reflexivity|].
  - intros _. unfold d1. cbn [assignments set_assignments]. rewrite map_map.
    rewrite (map_ext _ a_AssignmentID) by (apply time_out_own_id). exact Hfresh.
  - intros b Hb. apply elem_of_map in Hb as (c & -> & Hc). rewrite Hw. specialize (Hfree c Hc). unfold of_worker in *.
    rewrite (proj1 (proj2 (proj2 (time_out_own_le t c)))). exact Hfree.
Qed.

(** A commit fills no question beyond the bound. *)
Lemma view_capacity t d q : tx_ok d t -> active_count q d <= bound -> active_count q (view t d) <= bound.
Proof using.
  intros Hok Hd. unfold active_count in *. rewrite view_assignments, count_if_app, count_if_map.
  assert (count_if (fun a => on_question q (time_out_own t a) && is_active (time_out_own t a)) (assignments d) <=
          count_if (fun a => on_question q a && is_active a) (assignments d)) as Hle.
  { apply count_if_le. intros a _ H. apply andb_true_iff in H as [Hq Ha]. unfold on_question in *.
    rewrite (proj1 (proj2 (time_out_own_le t a))) in Hq. rewrite Hq. exact (active_back _ _ (time_out_own_le t a) Ha). }
  destruct (pt_inserted t) as [a|] eqn:Ea; [|change (count_if _ []) with 0; lia].
  rewrite count_if_cons. change (count_if _ []) with 0. destruct (on_question q a && is_active a) eqn:E; [|lia].
  apply andb_true_iff in E as [Eq Eact]. apply Z.eqb_eq in Eq as <-.
  destruct (ok_inserted d t Hok a Ea) as (_ & _ & _ & _ & _ & Hact & _). pose proof (ok_required d t Hok).
  unfold active_count in Hact. rewrite view_assignments, count_if_app, count_if_map, Ea, count_if_cons in Hact.
  assert (on_question (a_QuestionID a) a = true) as Eon by apply Z.eqb_refl.
  change (count_if _ []) with 0 in Hact. rewrite Eon, Eact in Hact. cbn [andb] in Hact. lia.
Qed.

(** *** The statements one by one *)

Lemma ts_ok c i t : polls_ok c -> fst c !! i = Some t -> tx_ok (snd c) t.
Proof using. intros (_ & _ & H & _). apply H. Qed.

(** A transaction that has inserted nothing is fine in the phases before. *)
Lemma tx_ok_early d t : pt_required t <= bound -> pt_inserted t = None ->
  match pt_phase t with
  | Finding | Expired _ => pt_timed_out t = None
  | Counting q => pt_locked t = Some q
  | Inserting q => pt_locked t = Some q /\ active_count q (view t d) < pt_required t
  | _ => True
  end -> tx_ok d t.
Proof using.
  intros Hr Hi Hp. split; [exact Hr| |congruence]. destruct (pt_phase t); auto.
Qed.

Lemma polls_ok_begin i w required ddl ts d : polls_ok (ts, d) -> required <= bound ->
  polls_ok (set_poll i (Some (begin_poll w required ddl)) ts, d).
Proof using.
  intros Hok Hr. pose proof Hok as (Hinv & Hcap & _). apply (polls_ok_set i _ ts d d Hok Hinv Hcap); [intros; apply around_refl|].
  intros t [= <-]. split; [apply tx_ok_early; [exact Hr|reflexivity..]|]. intros j u _ _. split; [|split]; discriminate.
Qed.

Lemma polls_ok_find i t now ts d : polls_ok (ts, d) -> ts !! i = Some t -> pt_phase t = Finding ->
  polls_ok (set_poll i (Some {| t with pt_phase := after_find now t d |}) ts, d).
Proof using.
  intros Hok Ht Hp. apply polls_ok_phase; [exact Hok|exact Ht|]. destruct (ts_ok _ _ _ Hok Ht) as [H1 H2 _].
  rewrite Hp in H2. destruct H2 as [Hi Hto]. apply tx_ok_early; [exact H1|exact Hi|]. cbn. unfold after_find.
  destruct (first_row _) as [ex|]; [|exact I]. destruct (After now (a_ReplyDDL ex)); [exact Hto|exact I].
Qed.

Lemma polls_ok_timeout i t id ts d : polls_ok (ts, d) -> ts !! i = Some t -> pt_phase t = Expired id ->
  assignment_free i id ts -> polls_ok (set_poll i (Some (after_timeout id t d)) ts, d).
Proof using.
  intros Hok Ht Hp Hfree. pose proof Hok as (Hinv & Hcap & Hts & Hap). cbn [fst snd] in *.
  destruct (Hts i t Ht) as [H1 H2 _]. rewrite Hp in H2. destruct H2 as [Hi _].
  apply (polls_ok_set i _ ts d d Hok Hinv Hcap); [intros; apply around_refl|]. intros t' [= <-].
  split; [apply tx_ok_early; [exact H1|exact Hi|exact I]|]. intros j u Hne Hu. destruct (Hap i j t u (not_eq_sym Hne) Ht Hu) as (A1 & _ & A3).
  split; [exact A1|]. split; [|exact A3]. cbn. intros id' Hid. destruct (existsb _ _); [|discriminate]. injection Hid as <-.
  exact (Hfree j u Hu Hne).
Qed.

Lemma polls_ok_lock i t cands q ts d : polls_ok (ts, d) -> ts !! i = Some t -> pt_phase t = Choosing cands ->
  question_free i q ts -> polls_ok (set_poll i (Some {| t with pt_phase := Counting q; pt_locked := Some q |}) ts, d).
Proof using.
  intros Hok Ht Hp Hfree. pose proof Hok as (Hinv & Hcap & Hts & Hap). cbn [fst snd] in *.
  destruct (Hts i t Ht) as [H1 Hi _]. rewrite Hp in Hi.
  apply (polls_ok_set i _ ts d d Hok Hinv Hcap); [intros; apply around_refl|]. intros t' [= <-].
  split; [apply tx_ok_early; [exact H1|exact Hi|reflexivity]|]. intros j u Hne Hu. destruct (Hap i j t u (not_eq_sym Hne) Ht Hu) as (_ & A2 & A3).
  split; [|split; [exact A2|exact A3]]. intros q' [= <-]. exact (Hfree j u Hu Hne).
Qed.

Lemma polls_ok_count i t q ts d : polls_ok (ts, d) -> ts !! i = Some t -> pt_phase t = Counting q ->
  polls_ok (set_poll i (Some {| t with pt_phase := after_count q t d |}) ts, d).
Proof using.
  intros Hok Ht Hp. apply polls_ok_phase; [exact Hok|exact Ht|]. destruct (ts_ok _ _ _ Hok Ht) as [H1 H2 _].
  rewrite Hp in H2. destruct H2 as [Hi Hq]. apply tx_ok_early; [exact H1|exact Hi|]. cbn. unfold after_count.
  destruct (Z.leb_spec (pt_required t) (active_count q (view t d))); [exact I|]. split; [exact Hq|exact H].
Qed.

(** What the INSERT gives back. *)
Lemma insert_assignment_ok q w ddl env d a d1 : insert_assignment q w ddl env d = (Ok a, d1) ->
  a_QuestionID a = q /\ is_claimed a = true /\ a_Worker a = w /\
  next_assignment_id d <= a_AssignmentID a /\ next_assignment_id d1 = a_AssignmentID a + 1 /\
  assignments d1 = assignments d ++ [a] /\
  (forall b, b ∈ assignments d -> is_claimed b && of_worker w b = false).
Proof using.
  unfold insert_assignment. destruct (negb _); [discriminate|]. destruct (find_worker w d); [|discriminate].
  destruct (existsb _ (assignments d)) eqn:Hex; [discriminate|]. rewrite existsb_false in Hex. intros [= <- <-].
  cbn. repeat split; try lia. exact Hex.
Qed.

Lemma insert_assignment_db q w ddl env d a d1 : insert_assignment q w ddl env d = (Ok a, d1) ->
  d1 = {| d with assignments := assignments d ++ [a]; next_assignment_id := a_AssignmentID a + 1 |}.
Proof using.
  unfold insert_assignment. destruct (negb _); [discriminate|]. destruct (find_worker w d); [|discriminate].
  destruct (existsb _ (assignments d)); [discriminate|]. intros [= <- <-]. reflexivity.
Qed.

Lemma polls_ok_insert i t q env a d1 ts d : polls_ok (ts, d) -> ts !! i = Some t -> pt_phase t = Inserting q ->
  worker_free i (pt_worker t) ts -> insert_assignment q (pt_worker t) (pt_ddl t) env (view t d) = (Ok a, d1) ->
  polls_ok (set_poll i (Some {| t with pt_phase := Committing (Some a); pt_inserted := Some a |}) ts,
            {| d with next_assignment_id := next_assignment_id d1 |}).
Proof using.
  intros Hok Ht Hp Hfree Hins. pose proof Hok as (Hinv & Hcap & Hts & Hap). cbn [fst snd] in *.
  destruct (Hts i t Ht) as [H1 H2 _]. rewrite Hp in H2. destruct H2 as (Hi & Hlock & Hlt).
  destruct (insert_assignment_ok _ _ _ _ _ _ _ Hins) as (Hq & Hcl & Hw & Hid & Hnext & Hrows & Hone).
  rewrite view_assignments, Hi, app_nil_r in Hrows, Hone. cbn in Hid.
  assert (next_assignment_id d <= next_assignment_id d1) as Hle by lia.
  apply (polls_ok_set i _ ts d _ Hok); [apply (rg_next_id d _ Hle), Hinv|exact Hcap|intros; apply around_next_id, Hle|].
  intros t' [= <-]. split.
  - split; [exact H1|exact I|]. intros b [= <-]. cbn. rewrite Hq. split; [exact Hlock|]. split; [exact Hcl|]. split; [exact Hw|].
    split; [lia|]. split; [|split].
    + intros Hin. apply elem_of_map in Hin as (b & E & Hb). destruct Hinv as (_ & Hids & _). specialize (Hids b Hb). lia.
    + pose proof (insert_active _ _ _ _ _ _ _ q Hins) as Hact. rewrite Z.eqb_refl in Hact.
      assert (active_count q d1 <= pt_required t) as Hd1 by lia. unfold active_count in Hd1 |- *. rewrite Hrows in Hd1. exact Hd1.
    + intros b Hb. assert (of_worker (pt_worker t) b = of_worker (pt_worker t) (time_out_own t b)) as ->.
      { unfold of_worker. rewrite (proj1 (proj2 (proj2 (time_out_own_le t b)))). reflexivity. }
      apply Hone, elem_of_map. eauto.
  - intros j u Hne Hu. destruct (Hap i j t u (not_eq_sym Hne) Ht Hu) as (A1 & A2 & _). split; [exact A1|]. split; [exact A2|].
    cbn. intros x b [= <-] Hb. destruct (ok_inserted d u (Hts j u Hu) b Hb) as (_ & _ & _ & Hidb & _).
    split; [|lia]. intros Hsame. destruct (Hfree j u Hu Hne (eq_sym Hsame)) as [_ Hnone]. congruence.
Qed.

Lemma polls_ok_commit i t ts d : polls_ok (ts, d) -> ts !! i = Some t -> polls_ok (set_poll i None ts, view t d).
Proof using.
  intros Hok Ht. pose proof Hok as (Hinv & Hcap & Hts & Hap). cbn [fst snd] in *.
  apply (polls_ok_set i _ ts d _ Hok); [apply (view_rg t d (Hts i t Ht)), Hinv| | |discriminate].
  - intros q. apply view_capacity; [exact (Hts i t Ht)|apply Hcap].
  - intros j u Hne Hu. apply around_commit; [exact (Hts i t Ht)|]. exact (Hap i j t u (not_eq_sym Hne) Ht Hu).
Qed.

Lemma polls_ok_abort i t ts d : polls_ok (ts, d) -> ts !! i = Some t -> polls_ok (set_poll i None ts, d).
Proof using.
  intros Hok Ht. pose proof Hok as (Hinv & Hcap & _).
  apply (polls_ok_set i _ ts d d Hok Hinv Hcap); [intros; apply around_refl|discriminate].
Qed.

Lemma polls_ok_others ts d d' : polls_ok (ts, d) -> others_commit ts d d' -> polls_ok (ts, d').
Proof using.
  intros (Hinv & Hcap & Hts & Hap) Ho. cbn [fst snd] in *. pose proof Ho as (Hrg & _ & Hl & _).
  split; [apply Hrg, Hinv|]. cbn [fst snd]. split; [|split; [|exact Hap]].
  - intros q. etransitivity; [|apply (Hcap q)]. unfold active_count. eapply count_if_forall2; [exact Hl|].
    intros a b [Hle _] Hb. apply andb_true_iff in Hb as [Hq Hb]. unfold on_question in *.
    rewrite (proj1 (proj2 Hle)) in Hq. rewrite Hq. exact (active_back a b Hle Hb).
  - intros j t Ht. apply (tx_ok_around t d d'); [exact (around_others ts j t d d' Ho Ht)|exact (Hts j t Ht)].
Qed.

Lemma polls_ok_step c c' : polls_ok c -> tx_step c c' -> polls_ok c'.
Proof using.
  intros Hok H. destruct H.
  - apply polls_ok_begin; assumption.
  - apply polls_ok_find; assumption.
  - apply polls_ok_timeout; assumption.
  - apply polls_ok_phase; [assumption..|]. pose proof (ts_ok _ _ _ Hok H) as [H1 H2 _]. rewrite H0 in H2. apply tx_ok_early; [exact H1|exact H2|exact I].
  - eapply polls_ok_lock; eassumption.
  - apply polls_ok_phase; [assumption..|]. pose proof (ts_ok _ _ _ Hok H) as [H1 H2 _]. rewrite H0 in H2. apply tx_ok_early; [exact H1|exact H2|exact I].
  - apply polls_ok_count; assumption.
  - eapply polls_ok_insert; eassumption.
  - apply polls_ok_commit; assumption.
  - eapply polls_ok_abort; eassumption.
  - eapply polls_ok_others; eassumption.
Qed.

(** No step of the interleaving leaves the life cycle. *)
Lemma step_rg c c' : polls_ok c -> tx_step c c' -> rg (snd c) (snd c').
Proof using.
  intros Hok H. destruct H; cbn [snd]; try reflexivity.
  - destruct (insert_assignment_ok _ _ _ _ _ _ _ H2) as (_ & _ & _ & Hid & Hnext & _). cbn in Hid. apply rg_next_id. lia.
  - apply view_rg. exact (ts_ok _ _ _ Hok H).
  - apply H.
Qed.

Lemma polls_ok_steps c c' : polls_ok c -> tx_steps c c' -> polls_ok c' /\ rg (snd c) (snd c').
Proof using.
  intros Hok H. induction H as [c|c c1 c2 H1 _ IH]; [split; [exact Hok|reflexivity]|].
  destruct (IH (polls_ok_step _ _ Hok H1)) as [Hok2 Hrg]. split; [exact Hok2|].
  etransitivity; [exact (step_rg _ _ Hok H1)|exact Hrg].
Qed.

Lemma polls_ok_start d : inv d -> (forall q, active_count q d <= bound) -> polls_ok (no_polls, d).
Proof using. intros Hinv Hcap. split; [exact Hinv|]. split; [exact Hcap|]. split; discriminate. Qed.

(** C11: polls that run at the same time, statement by statement, with what other
    programs commit in between, whatever the order and whatever fails, never
    take a question past the required number of active assignments; nor do
    they leave the life cycle: rows only move forward, and the invariant holds
    whenever somebody looks: no worker has two claims, although each poll has
    looked for one only in its own snapshot. *)
Theorem polls_capacity d ts d' : inv d -> (forall q, active_count q d <= bound) ->
  tx_steps (no_polls, d) (ts, d') -> (forall q, active_count q d' <= bound) /\ inv d' /\ evolves d d'.
Proof using.
  intros Hinv Hcap H. destruct (polls_ok_steps _ _ (polls_ok_start d Hinv Hcap) H) as [(Hi & Hc & _) [Hev _]].
  split; [exact Hc|]. split; [exact Hi|exact Hev].
Qed.

(** ** One poll alone *)

(** The statements of a single poll, with the clock readings and the choices of
    [C]; a random number past the candidates stands for candidates that are
    all locked. *)
Inductive own_step (C : Clocks) : PollTx * DB -> PollTx * DB -> Prop :=
| own_find now t d : pt_phase t = Finding -> go_time C now ->
    own_step C (t, d) ({| t with pt_phase := after_find now t d |}, d)
| own_timeout id t d : pt_phase t = Expired id -> own_step C (t, d) (after_timeout id t d, d)
| own_snapshot t d : pt_phase t = Picking ->
    own_step C (t, d) ({| t with pt_phase := Choosing (candidates (pt_worker t) (pt_required t) (view t d)) |}, d)
| own_choose env cands t d : pt_phase t = Choosing cands -> sql_time C env ->
    own_step C (t, d)
      (match cands !! sql_random env with
       | Some q => {| t with pt_phase := Counting (q_QuestionID q); pt_locked := Some (q_QuestionID q) |}
       | None => {| t with pt_phase := Committing None |}
       end, d)
| own_count q t d : pt_phase t = Counting q -> own_step C (t, d) ({| t with pt_phase := after_count q t d |}, d)
| own_insert env q a d1 t d : pt_phase t = Inserting q -> sql_time C env ->
    insert_assignment q (pt_worker t) (pt_ddl t) env (view t d) = (Ok a, d1) ->
    own_step C (t, d) ({| t with pt_phase := Committing (Some a); pt_inserted := Some a |},
                       {| d with next_assignment_id := next_assignment_id d1 |}).

(** A poll of [w] has executed all its statements and is about to commit, to
    return [o] and to leave [d']. *)
Definition ends (C : Clocks) (w : string) (required ddl : Z) (d0 : DB) (o : option Assignment) (d' : DB) : Prop :=
  exists t d, rtc (own_step C) (begin_poll w required ddl, d0) (t, d) /\ pt_phase t = Committing o /\ view t d = d'.

Lemma alone_lookup (t : PollTx) : ({[0%nat := t]} : Polls) !! 0%nat = Some t.
Proof using. apply lookup_singleton_eq. Qed.

Lemma alone_free (t : PollTx) (Q : PollTx -> Prop) : map_Forall (fun j u => j <> 0%nat -> Q u) ({[0%nat := t]} : Polls).
Proof using. intros j u [<- _]%lookup_singleton_Some Hne. destruct (Hne eq_refl). Qed.

(** These are steps of the polls. *)
Lemma own_step_tx C c c' : own_step C c c' -> tx_step ({[0%nat := fst c]}, snd c) ({[0%nat := fst c']}, snd c').
Proof using.
  assert (forall t t' : PollTx, ({[0%nat := t']} : Polls) = set_poll 0%nat (Some t') {[0%nat := t]}) as E
    by (intros t t'; symmetry; exact (insert_singleton_eq (M := gmap nat) 0%nat t' t)).
  intros H. destruct H as [now t d Hp _|id t d Hp|t d Hp|env cands t d Hp _|q t d Hp|env q a d1 t d Hp _ Hins];
    cbn [fst snd]; match goal with |- tx_step _ ({[_ := ?t']}, _) => rewrite (E t t') end.
  - apply step_find; [apply alone_lookup|exact Hp].
  - apply step_timeout; [apply alone_lookup|exact Hp|apply (alone_free _ (fun u => pt_timed_out u <> Some id))].
  - apply step_snapshot; [apply alone_lookup|exact Hp].
  - destruct (cands !! sql_random env) as [q|] eqn:Hq.
    + apply (step_lock 0 t cands); [apply alone_lookup|exact Hp|exact (list_elem_of_lookup_2 _ _ _ Hq)|].
      apply (alone_free _ (fun u => pt_locked u <> Some (q_QuestionID q))).
    + apply (step_skip 0 t cands); [apply alone_lookup|exact Hp].
  - apply step_count; [apply alone_lookup|exact Hp].
  - apply (step_insert 0 t q env a d1); [apply alone_lookup|exact Hp|apply alone_free|exact Hins].
Qed.

Lemma own_steps_tx C w required ddl d0 t d : required <= bound -> rtc (own_step C) (begin_poll w required ddl, d0) (t, d) ->
  tx_steps (no_polls, d0) ({[0%nat := t]}, d).
Proof using.
  intros Hr H. eapply rtc_l; [apply (step_begin 0 w required ddl no_polls d0 eq_refl Hr)|].
  change (set_poll 0%nat (Some (begin_poll w required ddl)) no_polls) with ({[0%nat := begin_poll w required ddl]} : Polls).
  change (tx_steps ({[0%nat := fst (begin_poll w required ddl, d0)]}, snd (begin_poll w required ddl, d0))
            ({[0%nat := fst (t, d)]}, snd (t, d))).
  generalize dependent (t, d). generalize (begin_poll w required ddl, d0). intros c c' H.
  induction H as [c|c1 c2 c3 H1 _ IH]; [apply rtc_refl|]. eapply rtc_l; [exact (own_step_tx C c1 c2 H1)|exact IH].
Qed.

(** Nothing changed so far. *)
Lemma view_begin w required ddl d : view (begin_poll w required ddl) d = d.
Proof using. unfold view, time_out_own. cbn [pt_timed_out begin_poll pt_inserted]. rewrite map_id, app_nil_r. destruct d. reflexivity. Qed.

(** Its own UPDATE, in its view. *)
Lemma view_timeout t id d : pt_timed_out t = None -> pt_inserted t = None ->
  view (after_timeout id t d) d = snd (update_assignments (claimed_with_id id) timed_out d).
Proof using.
  intros Ht Hi. unfold view, time_out_own, after_timeout, update_assignments. cbn. rewrite Hi, app_nil_r.
  destruct (existsb _ _) eqn:E; [reflexivity|]. rewrite existsb_false in E. cbn [snd].
  unfold update_rows. rewrite (map_ext_in (fun x => if claimed_with_id id x then timed_out x else x) (fun x => x)); [reflexivity|].
  intros a Ha. rewrite E by (apply list_elem_of_In; exact Ha). reflexivity.
Qed.

(** The statements from the choice of a question on. *)
Lemma assign_new_steps {C} Fault c0 t d s ab : ab = true \/
    (rtc (own_step C) c0 (t, d) /\ pt_phase t = Picking /\ pt_inserted t = None /\ view t d = db s) ->
  wp_in (C := C) Fault any_reply true eq any_step (assign_new (pt_worker t) (pt_required t) (pt_ddl t))
    (fun r ab' s' => mem s' = mem s /\ match r with
       | Ok o => ab' = true \/ exists t' d', rtc (own_step C) c0 (t', d') /\ pt_phase t' = Committing o /\ view t' d' = db s'
       | Err _ => True
       end) ab s.
Proof using.
  intros Hs. unfold assign_new, PickQuestionForWorker. destruct ab.
  { wp_norm. rewrite wp_in_query_tx. cbn [wrap_error]. auto. }
  destruct Hs as [|(Hreach & Hp & Hi & Hv)]; [discriminate|].
  set (cands := candidates (pt_worker t) (pt_required t) (view t d)).
  set (t1 := {| t with pt_phase := Choosing cands |}). pose proof (rtc_r _ _ _ Hreach (own_snapshot C t d Hp)) as H1. fold cands t1 in H1.
  tx_statement_at env Henv; [auto|]. rewrite <- Hv. fold cands.
  pose proof (rtc_r _ _ _ H1 (own_choose C env cands t1 d eq_refl Henv)) as H2.
  destruct (cands !! sql_random env) as [q|] eqn:Hq.
  2: { wp_norm. split; [reflexivity|]. right. eexists _, d. split; [exact H2|]. split; [reflexivity|]. rewrite <- Hv. reflexivity. }
  set (n := q_QuestionID q) in *. set (t2 := {| t1 with pt_phase := Counting n; pt_locked := Some n |}) in H2.
  pose proof (rtc_r _ _ _ H2 (own_count C n t2 d eq_refl)) as H3.
  unfold CountActiveAssignments. tx_statement_at env2 Henv2; [auto|]. rewrite <- Hv. unfold after_count in H3.
  change (view t2 d) with (view t d) in H3. change (pt_required t2) with (pt_required t) in H3.
  destruct (pt_required t <=? active_count n (view t d)).
  { wp_norm. split; [reflexivity|]. right. exists {| t2 with pt_phase := Committing None |}, d. auto. }
  unfold CreateAssignment. tx_statement_at env1 Henv1; [auto|]. rewrite <- Hv.
  destruct (insert_assignment _ _ _ _ _) as [[a|e] d1] eqn:Hins; cbn [fst snd]; wp_norm; (split; [reflexivity|]); [|exact I].
  right. eexists _, _. split; [exact (rtc_r _ _ _ H3 (own_insert C env1 n a d1 {| t2 with pt_phase := Inserting n |} d eq_refl Henv1 Hins))|].
  split; [reflexivity|]. destruct (insert_assignment_ok _ _ _ _ _ _ _ Hins) as (_ & _ & _ & _ & _ & Hrows & _).
  pose proof (insert_assignment_db _ _ _ _ _ _ _ Hins) as ->. cbn. unfold view. cbn. rewrite Hi, app_nil_r. reflexivity.
Qed.

Lemma poll_tx_steps {C} Fault w required ddl s : (exists now, go_time C now) ->
  wp_in (C := C) Fault any_reply true eq any_step (poll_tx w required ddl)
    (fun r ab s' => mem s' = mem s /\ match r with
       | Ok o => ab = true \/ ends C w required ddl (db s) o (db s')
       | Err _ => True
       end) false s.
Proof using.
  intros [now0 Hnow0]. set (t := begin_poll w required ddl).
  assert (forall now, go_time C now -> rtc (own_step C) (t, db s) ({| t with pt_phase := after_find now t (db s) |}, db s)) as H1
    by (intros now Hnow; apply rtc_once, own_find; [reflexivity|exact Hnow]).
  unfold after_find in H1. change (pt_worker t) with w in H1.
  unfold poll_tx, FindClaimedAssignment. tx_statement_at env Henv; [auto|]. fold (claimed_by w (db s)).
  destruct (first_row (order_by_desc a_CreatedAt (claimed_by w (db s)))) as [ex|].
  - rewrite wp_in_Now. intros now Hnow. specialize (H1 now Hnow). destruct (After now (a_ReplyDDL ex)).
    + set (id := a_AssignmentID ex) in H1 |- *. set (t1 := {| t with pt_phase := Expired id |}) in H1.
      pose proof (rtc_r _ _ _ H1 (own_timeout C id t1 (db s) eq_refl)) as H2.
      unfold TimeoutAssignment. tx_statement_at env2 Henv2; wp_norm.
      * apply (assign_new_steps Fault (t, db s) (after_timeout id t1 (db s)) (db s)). auto.
      * apply (assign_new_steps Fault (t, db s) (after_timeout id t1 (db s)) (db s) {| s with db := _ |} false). right.
        split; [exact H2|]. split; [reflexivity|]. split; [reflexivity|]. apply view_timeout; reflexivity.
    + wp_norm. split; [reflexivity|]. right. exists {| t with pt_phase := Committing (Some ex) |}, (db s).
      split; [exact H1|]. split; [reflexivity|apply view_begin].
  - apply (assign_new_steps Fault (t, db s) {| t with pt_phase := Picking |} (db s)). right.
    split; [exact (H1 now0 Hnow0)|]. split; [reflexivity|]. split; [reflexivity|apply view_begin].
Qed.

(** C12: the statements are those of the poll: what the transaction of a poll
    alone returns and leaves is what the statements of a poll of the same
    worker, with the same required number and deadline and at instants that
    the clocks show, are about to return and to commit, and these statements
    are steps of [tx_step]; a poll that fails leaves nothing. *)
Theorem poll_tx_simulated C E w required ddl s r s' : required <= bound -> alone E -> keeps_time C E ->
  run_top E (Store_Tx New (fun _ => poll_tx w required ddl)) s = (r, s') ->
  match r with
  | Ok o => exists t d, rtc (own_step C) (begin_poll w required ddl, db s) (t, d) /\
      tx_steps (no_polls, db s) ({[0%nat := t]}, d) /\ pt_phase t = Committing o /\ view t d = db s'
  | Err _ => db s' = db s
  end.
Proof using.
  intros Hr HE Ht Er. cut (match r with Ok o => ends C w required ddl (db s) o (db s') | Err _ => db s' = db s end).
  { destruct r as [o|e]; [|auto]. intros (t & d & H & Hp & Hv). exists t, d. split; [exact H|].
    split; [exact (own_steps_tx C w required ddl (db s) t d Hr H)|auto]. }
  revert Er. apply (run_wp_in any_fault any_reply eq any_step E _ (fun r s' =>
    match r with Ok o => ends C w required ddl (db s) o (db s') | Err _ => db s' = db s end) s r s' HE Ht).
  unfold Store_Tx, New. rewrite wp_Tx. intros s1 <-. split; [intros msg _; wp_norm; reflexivity|].
  eapply wp_mono; [|apply poll_tx_steps; exists (clock E 0); apply Ht]. intros res ab s2 [Hm Hres]. split; [exact Hm|].
  destruct res as [o|e]; [|wp_norm; reflexivity]. destruct ab; [wp_norm; reflexivity|].
  destruct Hres as [|Hends]; [discriminate|]. split; [intros msg _; wp_norm; reflexivity|]. split; [exact I|]. wp_norm. exact Hends.
Qed.

End Isolation.

(** ** Examples *)

(** A statement of another program, while no poll has locked anything. *)
Lemma others_statement {P : Postgres} ts d d' : rg d d' -> next_assignment_id d' = next_assignment_id d ->
  Forall2 assignment_le (assignments d) (assignments d') ->
  map_Forall (fun _ t => pt_timed_out t = None /\ pt_locked t = None) ts -> others_commit ts d d'.
Proof.
  intros Hrg Hn Hl Hts. split; [exact Hrg|]. split; [exact Hn|]. split.
  - eapply Forall2_impl; [exact Hl|]. intros a b Hab. split; [exact Hab|]. intros (j & t & Hj & Ht).
    destruct (Hts j t Hj) as [Hnone _]. congruence.
  - intros j t q Hj Hq. destruct (Hts j t Hj) as [_ Hnone]. congruence.
Qed.

(** One step of a given history: the poll is in the phase for the step; what is
    left, if anything, is about the locks of the others. *)
Ltac evaluated :=
  match goal with |- rtc ?R ?c ?e => let c' := eval vm_compute in c in change (rtc R c' e) end.
Ltac later_rows :=
  match goal with |- Forall2 ?R ?l ?l' =>
    let k := eval vm_compute in l in let k' := eval vm_compute in l' in change (Forall2 R k k') end;
  repeat (apply Forall2_cons; split; [repeat split; first [reflexivity|discriminate|match goal with H : _ <> _ |- _ => destruct (H eq_refl) end]|]);
  apply Forall2_nil; exact I.
Ltac go s := eapply rtc_l; [eapply s; [reflexivity|reflexivity|..]|evaluated].
Ltac other_polls := apply (bool_decide_eq_true_1 _); vm_compute; reflexivity.
Ltac statement r :=
  eapply rtc_l; [eapply step_others, others_statement; [apply r|reflexivity|later_rows|other_polls]|evaluated].

(** One answer is enough; alice and bob poll at once. *)
Definition race_db : DB :=
  mkDB [mkWorker "asker" None 0 None 0; mkWorker "alice" None 0 None 0; mkWorker "bob" None 0 None 0]
    [toy_bs] [toy_question] [] [] [] [] [] 2 1.

Lemma race_db_inv : inv race_db.
Proof.
  repeat split; try (apply (bool_decide_eq_true_1 _); vm_compute; reflexivity);
    try (intros a Ha; first [apply list_elem_of_singleton in Ha as ->|inversion Ha]; reflexivity).
Qed.

Lemma race_db_free q : active_count q race_db <= 1.
Proof. discriminate. Qed.

Definition race_claim (id : Z) (w : string) (now : Z) : Assignment :=
  mkAssignment id 1 w AssignmentStatusClaimed (10 * Second) None None None fzero 0 now.

(** Both see the question free; bob is first, and alice's count finds his
    claim. *)
Lemma race_run : tx_steps 1 (no_polls, race_db)
  (no_polls, {| race_db with assignments := [race_claim 1 "bob" 0]; next_assignment_id := 2 |}).
Proof.
  go (step_begin 1 0 "alice" 1 (10 * Second)). go (step_begin 1 1 "bob" 1 (10 * Second)).
  go (fun t => step_find 1 0 t 0). go (fun t => step_find 1 1 t 0).
  go (step_snapshot 1 0). go (step_snapshot 1 1).
  go (fun t c => step_lock 1 1 t c toy_question); [left|other_polls|].
  go (step_count 1 1). go (fun t q => step_insert 1 1 t q (mkSqlEnv 0 0)); [other_polls|reflexivity|].
  go (step_commit 1 1).
  go (fun t c => step_lock 1 0 t c toy_question); [left|other_polls|].
  go (step_count 1 0). go (step_commit 1 0). reflexivity.
Qed.

Lemma polls_capacity_witness : exists ts d, tx_steps 1 (no_polls, race_db) (ts, d) /\ length (assignments d) = 1%nat /\
  active_count 1 d <= 1 /\ inv d.
Proof.
  eexists _, _. split; [exact race_run|]. split; [reflexivity|].
  destruct (polls_capacity 1 race_db _ _ race_db_inv race_db_free race_run) as (Hc & Hi & _). split; [apply Hc|exact Hi].
Defined.

Lemma poll_tx_simulated_witness : exists a s' t d,
  run_top (still_env (5 * Second) 0 refuse) (Store_Tx New (fun _ => poll_tx "bob" 1 (10 * Second))) (mkState race_db no_timers) = (Ok (Some a), s') /\
  rtc (own_step fifth_second) (begin_poll "bob" 1 (10 * Second), race_db) (t, d) /\
  pt_phase t = Committing (Some a) /\ view t d = db s'.
Proof.
  destruct (run_top (still_env (5 * Second) 0 refuse) (Store_Tx New (fun _ => poll_tx "bob" 1 (10 * Second))) (mkState race_db no_timers)) as [r s'] eqn:E.
  pose proof (poll_tx_simulated 1 fifth_second _ _ _ _ _ _ _ ltac:(reflexivity) (undisturbed_alone _ (still_undisturbed (5 * Second) 0 refuse))
    ltac:(split; intros n; reflexivity) E) as H.
  assert (r = Ok (Some (race_claim 1 "bob" (5 * Second)))) as -> by (apply (f_equal fst) in E; vm_compute in E; symmetry; exact E).
  destruct H as (t & d & H1 & _ & H2 & H3). exists (race_claim 1 "bob" (5 * Second)), s', t, d. auto.
Defined.

(** The status is read before the lock and not again: when another worker
    is given the question, answers it and has it scored in between, the poll
    assigns the scored question all the same: scored assignments do not count
    as active. *)
Theorem poll_assigns_scored : exists d q a, tx_steps 1 (no_polls, race_db) (no_polls, d) /\
  find_question 1 d = Some q /\ q_Status q = QuestionStatusScored /\ q_ScoredAt q = Some 5000 /\
  a ∈ assignments d /\ a_QuestionID a = 1 /\ a_Worker a = "alice"%string /\ is_claimed a = true /\ a_CreatedAt a = 6000.
Proof.
  eexists _, _, _. split.
  - go (step_begin 1 0 "alice" 1 (10 * Second)). go (step_begin 1 1 "bob" 1 (10 * Second)).
    go (fun t => step_find 1 0 t 0). go (fun t => step_find 1 1 t 0).
    go (step_snapshot 1 0). go (step_snapshot 1 1).
    go (fun t c => step_lock 1 1 t c toy_question); [left|other_polls|].
    go (step_count 1 1). go (fun t q => step_insert 1 1 t q (mkSqlEnv 3000 0)); [other_polls|reflexivity|].
    go (step_commit 1 1).
    statement (fun d => rg_reply d 1 true "4" 4000).
    statement (fun d => rg_score_question d 1 0 fzero fzero 5000).
    statement (fun d => rg_score d 1 0 fzero); [intros a [= <-]; split; [reflexivity|eexists; split; reflexivity]|].
    go (fun t c => step_lock 1 0 t c toy_question); [left|other_polls|].
    go (step_count 1 0). go (fun t q => step_insert 1 0 t q (mkSqlEnv 6000 0)); [other_polls|reflexivity|].
    go (step_commit 1 0). reflexivity.
  - repeat (split; [reflexivity|]). split; [right; left|]. repeat split.
Qed.
