(* ===== verification/Answer.v ===== *)
(** * Submitting an answer

    Models [src/internal/service/answer.go].  [OnAnswerSubmitted] is an optional
    program; the server sets it to cancelling the timer and starting a
    goroutine that tries to score ([server_on_answer], from
    [src/cmd/benchmarkd/main.go]).

    Theorems: a submission equals its abstract operation, with the deadline
    tested against the clock ([SubmitAnswer_refines]);
    an error records no reply ([SubmitAnswer_errors]); a worker whose first
    assignment of a question timed out may be refused although the second one
    is claimed ([SubmitAnswer_wrong_row]). *)

From S2P Require Import Prelude Float64 GoLang Model Prog Tables Store StoreQuestion Lifecycle Config Scoring Timer.
#[local] Open Scope prog_scope.

Record SubmitAnswerRequest := mkSubmitAnswerRequest {
  sa_QuestionID : Z;
  sa_Valid : bool;
  sa_Answer : string;
  sa_Worker : string
}.

Section Answer.
Context {P : Postgres}.
Variable OnAnswerSubmitted : option (Assignment -> Prg unit).

Definition SubmitAnswer (req : SubmitAnswerRequest) : Prg (result unit) :=
  let? a := wrapped "get assignment" (GetAssignmentByWorker (sa_QuestionID req) (sa_Worker req)) in
  match a with
  | None => Ret (Err (UserError "no_assignment" "no assignment found"))
  | Some a =>
      if negb (is_claimed a) then Ret (Err (UserError "no_assignment" "assignment not in claimed state"))
      else
        Now (fun now =>
        if After now (a_ReplyDDL a) then
          let* _ := TimeoutAssignment (a_AssignmentID a) in
          Ret (Err (UserError "deadline_passed" "reply deadline has passed"))
        else
          let? q := wrapped "get question" (GetQuestion (sa_QuestionID req)) in
          match q with
          | None => Ret (Err (UserError "not_found" "question not found"))
          | Some q =>
              let? bs := wrapped "get benchmark set" (GetBenchmarkSet (q_BSID q)) in
              match bs with
              | None => Ret (Err (Failure "benchmark set not found"))
              | Some bs =>
                  if str_len (sa_Answer req) >? bs_AnswerMaxLen bs then
                    Ret (Err (UserError "field_too_long" "answer exceeds max length"))
                  else
                    let? _ := wrapped "set reply"
                      (SetAssignmentReply (a_AssignmentID a) (sa_Valid req) (sa_Answer req)) in
                    let* _ := match OnAnswerSubmitted with Some f => f a | None => Ret tt end in
                    Ret (Ok tt)
              end
          end)
  end.
End Answer.

(** The server's callback: cancel the timer, start a scoring check. *)
Definition server_on_answer (a : Assignment) : Prg unit :=
  let* _ := CancelTimer (a_AssignmentID a) in
  Atomic (spawn (TryScoreTask (a_QuestionID a))) Ret.

(** ** Every step keeps the life cycle *)

Lemma server_on_answer_safe a : safe (server_on_answer a).
Proof. unfold server_on_answer. prove_safe. Qed.

Lemma SubmitAnswer_safe {P : Postgres} cb req : (forall f a, cb = Some f -> safe (f a)) -> safe (SubmitAnswer cb req).
Proof.
  intros Hcb. unfold SubmitAnswer, GetAssignmentByWorker, GetQuestion, GetBenchmarkSet.
  prove_safe; apply Hcb; reflexivity.
Qed.

(** ** The outcome of a submission *)

Section Outcome.
Context {P : Postgres}.
Implicit Types (req : SubmitAnswerRequest) (d : DB) (s : St).

(** The worker's assignments of the question. *)
Definition worker_rows req d : list Assignment :=
  List.filter (fun a => on_question (sa_QuestionID req) a && of_worker (sa_Worker req) a) (assignments d).

(** The row that the query returned: none only when there is none. *)
Definition is_row req d (row : option Assignment) : Prop :=
  match row with Some a => a ∈ worker_rows req d | None => worker_rows req d = [] end.

(** What an accepted answer does to memory: the timer is stopped and
    forgotten, a scoring check is started. *)
Definition answered_memory (a : Assignment) (m : Timers) : Timers :=
  mkTimers (delete (a_AssignmentID a) (timers m))
    (match timers m !! a_AssignmentID a with Some n => delete n (pending m) | None => pending m end)
    (next_timer m) (TryScoreTask (a_QuestionID a) :: spawned m).

(** The abstract operation: the reply to the request and the new state, from
    the row and the clocks. *)
Definition answer_spec req (row : option Assignment) (now sqlnow : Z) s : result unit * St :=
  match row with
  | None => (Err (UserError "no_assignment" "no assignment found"), s)
  | Some a =>
      if negb (is_claimed a) then (Err (UserError "no_assignment" "assignment not in claimed state"), s)
      else if After now (a_ReplyDDL a) then
        (Err (UserError "deadline_passed" "reply deadline has passed"),
         {| s with db := snd (update_assignments (claimed_with_id (a_AssignmentID a)) timed_out (db s)) |})
      else match find_question (sa_QuestionID req) (db s) with
      | None => (Err (UserError "not_found" "question not found"), s)
      | Some q =>
          match find_benchmark_set (q_BSID q) (db s) with
          | None => (Err (Failure "benchmark set not found"), s)
          | Some bs =>
              if str_len (sa_Answer req) >? bs_AnswerMaxLen bs
              then (Err (UserError "field_too_long" "answer exceeds max length"), s)
              else (Ok tt, mkState
                (snd (update_assignments (claimed_with_id (a_AssignmentID a))
                       (with_reply (sa_Valid req) (sa_Answer req) sqlnow) (db s)))
                (answered_memory a (mem s)))
          end
      end
  end.

Lemma server_on_answer_wp Fault a s (Q : unit -> bool -> St -> Prop) :
  Q tt false (mkState (db s) (answered_memory a (mem s))) ->
  wp Fault any_reply false eq any_step (server_on_answer a) Q false s.
Proof using.
  intros HQ. unfold server_on_answer, CancelTimer. rewrite wp_bind, wp_Atomic. intros s1 <-. split; [exact I|].
  unfold timers_load_and_delete, answered_memory in *. cbn [fst snd].
  destruct (timers (mem s) !! a_AssignmentID a) as [n|].
  - rewrite wp_Atomic. intros s2 <-. split; [exact I|]. rewrite wp_Ret, wp_Atomic. intros s3 <-. split; [exact I|].
    exact HQ.
  - rewrite wp_Ret, wp_Atomic. intros s2 <-. split; [exact I|]. exact HQ.
Qed.

Lemma claimed_update_count req d a : a ∈ worker_rows req d -> is_claimed a = true ->
  (count_if (claimed_with_id (a_AssignmentID a)) (assignments d) =? 0) = false.
Proof using.
  intros Ha Hc. apply elem_of_filter_bool in Ha as [_ Ha]. apply Z.eqb_neq.
  assert (0 < count_if (claimed_with_id (a_AssignmentID a)) (assignments d)); [|lia].
  apply (count_if_pos _ _ a Ha). unfold claimed_with_id. rewrite Z.eqb_refl, Hc. reflexivity.
Qed.

Lemma run_server_on_answer E a n s : (forall t s, interfere E t s = s) ->
  fst (run E false (server_on_answer a) (mkPos n false) s) = (tt, mkState (db s) (answered_memory a (mem s))).
Proof using.
  intros Hi. unfold server_on_answer, CancelTimer, answered_memory, timers_load_and_delete, timer_stop, spawn.
  cbn [bind run]. rewrite Hi. destruct (timers (mem s) !! a_AssignmentID a) as [m|]; cbn; rewrite !Hi; reflexivity.
Qed.

(** C13: an undisturbed submission does what the abstract operation says: the
    row that the query happens to return is looked at, and its deadline is
    tested against the clock as it then is; a refusal leaves everything alone,
    a late answer times the assignment out, an accepted one is recorded with
    its judgment, at the database's time, in that assignment only, its timer is
    stopped and a scoring check is started. *)
Theorem SubmitAnswer_refines E req s : undisturbed E ->
  let row := any_row (sql_random (sql_env E 0)) (worker_rows req (db s)) in
  is_row req (db s) row /\
  run_top E (SubmitAnswer (Some server_on_answer) req) s = answer_spec req row (clock E 1) (sql_now (sql_env E 4)) s.
Proof using.
  intros HE row. pose proof (alone_still E (undisturbed_alone E HE)) as Hi.
  pose proof (undisturbed_no_fault E HE) as Hf.
  assert (is_row req (db s) row) as Hrow by (destruct row eqn:Er; [exact (any_row_in _ _ _ Er)|exact (proj1 (any_row_none _ _) Er)]).
  split; [exact Hrow|]. unfold run_top, SubmitAnswer, GetAssignmentByWorker, answer_spec. rewrite run_bind_query by assumption.
  fold (worker_rows req (db s)). fold row. destruct row as [a|]; [|reflexivity].
  destruct (is_claimed a) eqn:Hc; cbn [negb]; [|reflexivity]. cbn [run]. unfold next_pos. cbn [tick aborted].
  destruct (After _ _).
  { unfold TimeoutAssignment, bind_ok. rewrite !run_bind, run_exec, Hf by exact Hi. reflexivity. }
  unfold GetQuestion, GetBenchmarkSet.
  rewrite run_bind_query by assumption. destruct (find_question _ _) as [q|]; [|reflexivity].
  rewrite run_bind_query by assumption. destruct (find_benchmark_set _ _) as [bs|]; [|reflexivity].
  destruct (_ >? _); [reflexivity|]. unfold SetAssignmentReply, bind_ok, wrapped. rewrite !run_bind, run_exec, Hf by exact Hi.
  cbn [wrap_error fst snd update_assignments]. rewrite (claimed_update_count req (db s) a Hrow Hc). cbn [wrap_error run].
  rewrite run_bind.
  pose proof (run_server_on_answer E a 5 (mkState (snd (update_assignments (claimed_with_id (a_AssignmentID a))
    (with_reply (sa_Valid req) (sa_Answer req) (sql_now (sql_env E 4))) (db s))) (mem s)) Hi) as Hcb.
  cbn [update_assignments snd] in Hcb. destruct (run E false (server_on_answer a) _ _) as [[u s1] pos]. cbn [fst] in Hcb.
  injection Hcb as -> ->. reflexivity.
Qed.

(** The state after an error. *)
Definition no_reply_recorded s s' : Prop :=
  mem s' = mem s /\
  (db s' = db s \/ exists id, db s' = snd (update_assignments (claimed_with_id id) timed_out (db s))).

Lemma no_reply_same s : no_reply_recorded s s.
Proof using. split; auto. Qed.

(** What is left after the checks. *)
Lemma reply_errors a req s :
  wp any_fault any_reply false eq any_step
    (let? _ := wrapped "set reply" (SetAssignmentReply (a_AssignmentID a) (sa_Valid req) (sa_Answer req)) in
     let* _ := server_on_answer a in Ret (Ok tt))
    (fun r _ s' => match r with Ok _ => True | Err _ => no_reply_recorded s s' end) false s.
Proof using.
  unfold SetAssignmentReply. wp_statement; [wp_norm; apply no_reply_same|]. wp_norm. cbn [fst snd update_assignments wrap_error].
  cbv beta iota. destruct (_ =? 0) eqn:E; wp_norm; cbn [wrap_error]; wp_norm.
  - apply Z.eqb_eq in E. pose proof (update_rows_none _ (with_reply (sa_Valid req) (sa_Answer req) (sql_now env)) _ E) as ->.
    split; [reflexivity|]. left. destruct s as [[] m]. reflexivity.
  - apply server_on_answer_wp. exact I.
Qed.

(** C25: error paths: whatever statement fails, a submission that returns an
    error has not recorded a reply, and has left timers and goroutines alone;
    at most it has timed the late assignment out. *)
Theorem SubmitAnswer_errors E req s e s' : alone E ->
  run_top E (SubmitAnswer (Some server_on_answer) req) s = (Err e, s') -> no_reply_recorded s s'.
Proof using.
  intros HE. apply (run_wp any_fault any_reply eq any_step E (SubmitAnswer (Some server_on_answer) req)
    (fun r s' => match r with Ok _ => True | Err _ => no_reply_recorded s s' end) s (Err e) s' HE).
  unfold SubmitAnswer, GetAssignmentByWorker. wp_statement; [wp_norm; apply no_reply_same|].
  destruct (any_row _ _) as [a|]; [|wp_norm; apply no_reply_same].
  destruct (negb (is_claimed a)); [wp_norm; apply no_reply_same|].
  rewrite wp_Now. intros now. destruct (After now (a_ReplyDDL a)).
  { unfold TimeoutAssignment. wp_statement; wp_norm; [apply no_reply_same|]. split; [reflexivity|]. right. eexists. reflexivity. }
  unfold GetQuestion. wp_statement; [wp_norm; apply no_reply_same|].
  destruct (find_question _ _) as [q|]; [|wp_norm; apply no_reply_same].
  unfold GetBenchmarkSet. wp_statement; [wp_norm; apply no_reply_same|].
  destruct (find_benchmark_set _ _) as [bs|]; [|wp_norm; apply no_reply_same].
  destruct (_ >? _); [wp_norm; apply no_reply_same|]. apply reply_errors.
Qed.

(** C38: with several assignments of a worker for one question the query takes
    any of them: if one of them is no longer claimed (a time-out before a
    retry), there is an undisturbed run that refuses the answer and changes
    nothing, whether or not another of them is claimed and in time. *)
Theorem SubmitAnswer_wrong_row req s a : a ∈ worker_rows req (db s) -> is_claimed a = false ->
  exists E, undisturbed E /\
    run_top E (SubmitAnswer (Some server_on_answer) req) s =
    (Err (UserError "no_assignment" "assignment not in claimed state"), s).
Proof using.
  intros Ha Hc. apply list_elem_of_lookup in Ha as [i Hi]. pose proof (lookup_lt_Some _ _ _ Hi) as Hlt.
  exists (still_env 0 i refuse). split; [apply still_undisturbed|].
  unfold run_top, SubmitAnswer, GetAssignmentByWorker, query. cbn. fold (worker_rows req (db s)). unfold any_row.
  rewrite Nat.mod_small, Hi by exact Hlt. cbn. rewrite Hc. destruct s. reflexivity.
Qed.
End Outcome.

(** A worker with a timed-out assignment and a claimed retry. *)
Definition retry_rows : list Assignment :=
  [mkAssignment 1 1 "bob" AssignmentStatusTimedOut 5 None None None fzero 0 0;
   mkAssignment 2 1 "bob" AssignmentStatusClaimed 30 None None None fzero 0 10].
Definition retry_state : St :=
  mkState (mkDB [mkWorker "asker" None 0 None 0; mkWorker "bob" None 0 None 0] [toy_bs] [toy_question] retry_rows [] [] [] [] 2 3)
    no_timers.
Definition retry_answer : SubmitAnswerRequest := mkSubmitAnswerRequest 1 true "4" "bob".

Lemma SubmitAnswer_wrong_row_witness : exists E, undisturbed E /\
  run_top E (SubmitAnswer (Some server_on_answer) retry_answer) retry_state =
  (Err (UserError "no_assignment" "assignment not in claimed state"), retry_state).
Proof.
  apply (SubmitAnswer_wrong_row retry_answer retry_state (mkAssignment 1 1 "bob" AssignmentStatusTimedOut 5 None None None fzero 0 0));
    [left|reflexivity].
Defined.

(** The second row, in time: the answer is recorded in it. *)
Lemma SubmitAnswer_refines_witness :
  run_top (still_env 20 1 refuse) (SubmitAnswer (Some server_on_answer) retry_answer) retry_state =
  answer_spec retry_answer (worker_rows retry_answer (db retry_state) !! 1%nat) 20 20 retry_state.
Proof. apply (SubmitAnswer_refines (still_env 20 1 refuse) retry_answer retry_state), still_undisturbed. Defined.

(** The statement that records the reply fails. *)
Lemma SubmitAnswer_errors_witness :
  let E := mkEnv (fun _ => 20) (fun _ => mkSqlEnv 20 1) (fun t => if (t =? 4)%nat then Some "connection lost"%string else None)
             (fun _ => []) (fun _ => refuse) (fun _ s => s) in
  let '(r, s') := run_top E (SubmitAnswer (Some server_on_answer) retry_answer) retry_state in
  is_ok r = false /\ no_reply_recorded retry_state s'.
Proof.
  intros E. destruct (run_top E (SubmitAnswer (Some server_on_answer) retry_answer) retry_state) as [r s'] eqn:Er.
  assert (is_ok r = false) as Hr.
  { change r with (fst (r, s')). rewrite <- Er. vm_compute. reflexivity. }
  split; [exact Hr|]. destruct r as [u|e]; [discriminate|].
  apply (SubmitAnswer_errors E retry_answer retry_state e s'); [repeat split|exact Er].
Defined.

(** The claimed one, when the query happens to return it, is accepted. *)
Example retry_accepted : fst (run_top (still_env 20 1 refuse) (SubmitAnswer (Some server_on_answer) retry_answer) retry_state) = Ok tt.
Proof. vm_compute. reflexivity. Qed.
