(* ===== verification/QuestionService.v ===== *)
(** * Submitting a question

    Models [src/internal/service/question.go].

    Theorems: a submission is refused for its first failing check without any
    change, or stored once, with its signature, and counted
    ([SubmitQuestion_refines]); a stored question is refused from then on
    ([SubmitQuestion_no_duplicate]), whatever its score
    ([SubmitQuestion_ignores_min_score]), but two submissions at the same time can
    both be accepted ([SubmitQuestion_race]). *)

From S2P Require Import Prelude Float64 GoLang MinHash Model Prog Tables Store StoreQuestion Lifecycle Config.
#[local] Open Scope prog_scope.

Record SubmitQuestionRequest := mkSubmitQuestionRequest {
  sq_BSID : string;
  sq_Question : string;
  sq_Answer : string;
  sq_Worker : string
}.

Record QuestionService := mkQuestionService {
  qs_Config : QuestionConfig;
  qs_RtConfig : option RuntimeConfig
}.

Definition qs_cfg (svc : QuestionService) : QuestionConfig :=
  match qs_RtConfig svc with
  | Some c => questionConfig c
  | None => qs_Config svc
  end.

Section Question.
Context {P : Postgres}.

(** The rate limit: whether it is exceeded.  [time.Since] reads the clock only
    when there is an earlier question. *)
Definition rate_limited (cfg : QuestionConfig) (worker : string) : Prg (result bool) :=
  if 0 <? qc_RateLimit cfg then
    let? lastTime := wrapped "check rate limit" (GetLastQuestionTime worker) in
    match lastTime with
    | Some t => Now (fun now => Ret (Ok (time_Sub now t <? qc_RateLimit cfg)))
    | None => Ret (Ok false)
    end
  else Ret (Ok false).

(** The similarity check against one stored signature. *)
Definition too_similar (cfg : QuestionConfig) (newSig : Signature) (h : list byte) : bool :=
  fleb (qc_SimilarityMaxJaccard cfg) (Jaccard newSig (FromBytes h)).

(** The transaction: insert, count. *)
Definition store_question (req : SubmitQuestionRequest) (minhash : list byte) : Prg (result Z) :=
  let? q := wrapped "create question"
    (CreateQuestion (sq_BSID req) (sq_Worker req) (sq_Question req) (sq_Answer req) minhash) in
  let? _ := wrapped "increment total" (IncrementBSTotalQuestions (sq_BSID req)) in
  Ret (Ok (q_QuestionID q)).

Definition SubmitQuestion (svc : QuestionService) (req : SubmitQuestionRequest) : Prg (result Z) :=
  let cfg := qs_cfg svc in
  let? bs := wrapped "get benchmark set" (GetBenchmarkSet (sq_BSID req)) in
  match bs with
  | None => Ret (Err (UserError "invalid_bs" "benchmark set not found or inactive"))
  | Some bs =>
      if negb (bool_decide (bs_Status bs = BSStatusActive)) then
        Ret (Err (UserError "invalid_bs" "benchmark set not found or inactive"))
      else
        let? limited := rate_limited cfg (sq_Worker req) in
        if limited : bool then Ret (Err (UserError "rate_limited" "too many questions, please wait"))
        else if str_len (sq_Question req) >? bs_QuestionMaxLen bs then
          Ret (Err (UserError "field_too_long" "question exceeds max length"))
        else if str_len (sq_Answer req) >? bs_AnswerMaxLen bs then
          Ret (Err (UserError "field_too_long" "answer exceeds max length"))
        else
          let newSig := Generate (sq_Question req) in
          let? existingHashes := wrapped "list minhashes" (ListAllQuestionMinHashes (sq_BSID req)) in
          if existsb (too_similar cfg newSig) existingHashes then
            Ret (Err (UserError "duplicate" "question too similar to an existing one"))
          else Store_Tx New (fun _ => store_question req (ToBytes newSig))
  end.
End Question.

(** ** Every step keeps the life cycle *)

Lemma store_question_safe {P : Postgres} req h : tx_safe (store_question req h).
Proof. unfold store_question. prove_safe. Qed.

Lemma SubmitQuestion_safe {P : Postgres} svc req : safe (SubmitQuestion svc req).
Proof.
  unfold SubmitQuestion, Store_Tx, New, rate_limited, GetBenchmarkSet, GetLastQuestionTime, ListAllQuestionMinHashes.
  prove_safe; apply store_question_safe.
Qed.

(** ** The outcome of a submission *)

Section Outcome.
Context {P : Postgres}.
Implicit Types (req : SubmitQuestionRequest) (d : DB) (s : St).

(** When the worker asked last. *)
Definition last_question (w : string) d : option Z :=
  q_CreatedAt <$> first_row (order_by_desc q_CreatedAt (List.filter (fun q => bool_decide (q_Questioner q = w)) (questions d))).

(** The refusal of a request, if any: the checks in the order of the code. *)
Definition question_refusal (cfg : QuestionConfig) req (now : Z) d : option error :=
  match find_benchmark_set (sq_BSID req) d with
  | None => Some (UserError "invalid_bs" "benchmark set not found or inactive")
  | Some bs =>
      if negb (bool_decide (bs_Status bs = BSStatusActive)) then
        Some (UserError "invalid_bs" "benchmark set not found or inactive")
      else if (0 <? qc_RateLimit cfg) &&
              match last_question (sq_Worker req) d with Some t => time_Sub now t <? qc_RateLimit cfg | None => false end
      then Some (UserError "rate_limited" "too many questions, please wait")
      else if str_len (sq_Question req) >? bs_QuestionMaxLen bs then
        Some (UserError "field_too_long" "question exceeds max length")
      else if str_len (sq_Answer req) >? bs_AnswerMaxLen bs then
        Some (UserError "field_too_long" "answer exceeds max length")
      else if existsb (fun h => fleb (qc_SimilarityMaxJaccard cfg) (Jaccard (Generate (sq_Question req)) (FromBytes h)))
                (minhashes (fun q => bool_decide (q_BSID q = sq_BSID req)) d)
      then Some (UserError "duplicate" "question too similar to an existing one")
      else None
  end.

(** What an accepted request stores: the question, submitted and unscored, with
    its signature, and one more question in the count of the set. *)
Definition stored_question req (id created : Z) : Question :=
  mkQuestion id (sq_BSID req) (sq_Worker req) (sq_Question req) (sq_Answer req) QuestionStatusSubmitted
    fzero 0 fzero false (Some (ToBytes (Generate (sq_Question req)))) created None.

Definition question_stored req (id created : Z) d : DB :=
  {| d with questions := questions d ++ [stored_question req id created];
            next_question_id := id + 1;
            benchmark_sets := update_rows (fun b => bool_decide (bs_SetID b = sq_BSID req))
              (fun b => {| b with bs_TotalQuestions := bs_TotalQuestions b + 1 |}) (benchmark_sets d) |}.

(** The schema lets an accepted question in: the worker's row is there, and the
    set's counter does not overflow. *)
Definition can_store req d : Prop :=
  is_Some (find_worker (sq_Worker req) d) /\
  forall b, b ∈ benchmark_sets d -> bs_SetID b = sq_BSID req -> int4 (bs_TotalQuestions b + 1) = true.

(** The outcome, whatever fails: an error leaves everything alone; the checks
    that passed are those at an instant that the clock shows, and the question
    is stored at a time that the database's clock shows. *)
Definition submission_follows (C : Clocks) (cfg : QuestionConfig) req s (r : result Z) s' : Prop :=
  match r with
  | Ok id => exists now env, go_time C now /\ sql_time C env /\ question_refusal cfg req now (db s) = None /\
      id = next_question_id (db s) + Z.of_nat (sql_random env) /\
      s' = {| s with db := question_stored req id (sql_now env) (db s) |}
  | Err _ => s' = s
  end.

(** The outcome that the checks call for at the instant [now]. *)
Definition decided (cfg : QuestionConfig) req s (now : Z) (r : result Z) : Prop :=
  match question_refusal cfg req now (db s) with
  | Some e => r = Err e
  | None => can_store req (db s) -> is_ok r = true
  end.

Lemma store_question_wp {C} Fault req s : is_Some (find_benchmark_set (sq_BSID req) (db s)) ->
  wp_in (C := C) Fault any_reply true eq any_step (store_question req (ToBytes (Generate (sq_Question req))))
    (fun r ab s' => mem s' = mem s /\
       ((forall m, ~ Fault m) -> can_store req (db s) -> is_ok r = true /\ ab = false) /\
       match r with
       | Ok id => ab = true \/ exists env, sql_time C env /\ id = next_question_id (db s) + Z.of_nat (sql_random env) /\
           db s' = question_stored req id (sql_now env) (db s)
       | Err _ => True
       end) false s.
Proof using.
  intros [bs Hbs]. unfold store_question, CreateQuestion.
  tx_statement_at env Henv; [split; [reflexivity|]; split; [intros Hno; destruct (Hno _ ltac:(eassumption))|exact I]|].
  unfold insert_question. rewrite Hbs.
  destruct (find_worker _ _) as [wk|] eqn:Hwk; cbn [fst snd wrap_error violates].
  2: { wp_norm. split; [reflexivity|]. split; [|exact I]. intros _ [[wk Hs] _]. congruence. }
  unfold IncrementBSTotalQuestions. tx_statement_at env2 Henv2; [split; [reflexivity|]; split; [intros Hno; destruct (Hno _ ltac:(eassumption))|exact I]|].
  unfold update_bs. destruct (forallb _ _) eqn:Hfit; cbn [fst snd wrap_error violates]; wp_norm; (split; [reflexivity|]).
  - split; [auto|]. right. exists env. split; [exact Henv|]. split; reflexivity.
  - split; [|exact I]. intros _ [_ Hok]. exfalso. apply not_true_iff_false in Hfit. apply Hfit, forallb_forall.
    intros b Hb. apply list_elem_of_In, elem_of_filter_bool in Hb as [Hid Hb]. bool_props. exact (Hok b Hb Hid).
Qed.

Variable svc : QuestionService.

(** The outcome, and the decision when nothing fails. *)
Definition submit_post (C : Clocks) (Fault : string -> Prop) req s (r : result Z) s' : Prop :=
  submission_follows C (qs_cfg svc) req s r s' /\
  exists now, go_time C now /\ ((forall m, ~ Fault m) -> decided (qs_cfg svc) req s now r).

Lemma refused C Fault req s now e : go_time C now -> question_refusal (qs_cfg svc) req now (db s) = Some e ->
  submit_post C Fault req s (Err e) s.
Proof using. intros Hn He. split; [reflexivity|]. exists now. split; [exact Hn|]. intros _. unfold decided. rewrite He. reflexivity. Qed.

Lemma faulted (C : Clocks) (Fault : string -> Prop) req s e m now : go_time C now -> Fault m -> submit_post C Fault req s (Err e) s.
Proof using. intros Hn Hm. split; [reflexivity|]. exists now. split; [exact Hn|]. intros Hno. destruct (Hno m Hm). Qed.

Lemma passed C (Fault : string -> Prop) req s r s' now : go_time C now -> question_refusal (qs_cfg svc) req now (db s) = None ->
  ((forall m, ~ Fault m) -> can_store req (db s) -> is_ok r = true) ->
  submission_follows C (qs_cfg svc) req s r s' -> submit_post C Fault req s r s'.
Proof using.
  intros Ht Hn Hok H. split; [exact H|]. exists now. split; [exact Ht|]. intros Hno. unfold decided. rewrite Hn. auto.
Qed.

(** What is left after the rate limit. *)
Lemma submit_checks_wp {C} Fault req bs s now : go_time C now ->
  find_benchmark_set (sq_BSID req) (db s) = Some bs -> bool_decide (bs_Status bs = BSStatusActive) = true ->
  (0 <? qc_RateLimit (qs_cfg svc)) && match last_question (sq_Worker req) (db s) with
     Some t => time_Sub now t <? qc_RateLimit (qs_cfg svc) | None => false end = false ->
  wp_in (C := C) Fault any_reply false eq any_step
    (if str_len (sq_Question req) >? bs_QuestionMaxLen bs then
       Ret (Err (UserError "field_too_long" "question exceeds max length"))
     else if str_len (sq_Answer req) >? bs_AnswerMaxLen bs then
       Ret (Err (UserError "field_too_long" "answer exceeds max length"))
     else
       let newSig := Generate (sq_Question req) in
       let? existingHashes := wrapped "list minhashes" (ListAllQuestionMinHashes (sq_BSID req)) in
       if existsb (too_similar (qs_cfg svc) newSig) existingHashes then
         Ret (Err (UserError "duplicate" "question too similar to an existing one"))
       else Store_Tx New (fun _ => store_question req (ToBytes newSig)))
    (fun r _ s' => submit_post C Fault req s r s') false s.
Proof using.
  intros Hnow Hbs Hact Hrate. pose proof (eq_refl (question_refusal (qs_cfg svc) req now (db s))) as Href.
  unfold question_refusal in Href at 2. rewrite Hbs, Hact, Hrate in Href. cbn [negb] in Href.
  destruct (str_len (sq_Question req) >? bs_QuestionMaxLen bs); [exact (refused C Fault req s now _ Hnow Href)|].
  destruct (str_len (sq_Answer req) >? bs_AnswerMaxLen bs); [exact (refused C Fault req s now _ Hnow Href)|].
  cbv zeta. unfold ListAllQuestionMinHashes. wp_statement_at env Henv; [wp_norm; eapply faulted; eassumption|].
  destruct (existsb _ _); [wp_norm; exact (refused C Fault req s now _ Hnow Href)|].
  assert (forall e m, Fault m -> submit_post C Fault req s (Err e) s) as Hfail by (intros e m; apply faulted with (1 := Hnow)).
  unfold Store_Tx, New. rewrite wp_Tx. intros s1 <-. split; [intros m Hm; exact (Hfail _ m Hm)|].
  eapply wp_mono; [|apply store_question_wp; rewrite Hbs; eauto]. intros r ab s1 (Hm & Hok & Hr). split; [exact Hm|].
  assert (forall e, (is_ok r = true /\ ab = false -> False) -> submit_post C Fault req s (Err e) s) as Hundone.
  { intros e Hno. apply (passed C Fault req s (Err e) s now Hnow Href); [|reflexivity]. intros Hf Hc. destruct (Hno (Hok Hf Hc)). }
  destruct r as [id|e]; [|apply Hundone; intros [H _]; discriminate H].
  destruct ab; [apply Hundone; intros [_ H]; discriminate H|]. destruct Hr as [|(env1 & Henv1 & Hid & Hdb)]; [discriminate|].
  split; [intros m Hf; exact (Hfail _ m Hf)|]. split; [exact I|]. wp_norm.
  apply (passed C Fault req s _ s1 now Hnow Href); [reflexivity|]. exists now, env1.
  split; [exact Hnow|]. split; [exact Henv1|]. split; [exact Href|]. split; [exact Hid|].
  destruct s1; cbn in *; congruence.
Qed.

Lemma SubmitQuestion_wp {C} Fault req s : (exists now, go_time C now) ->
  wp_in (C := C) Fault any_reply false eq any_step (SubmitQuestion svc req) (fun r _ s' => submit_post C Fault req s r s') false s.
Proof using.
  intros [now0 Hnow0]. unfold SubmitQuestion, GetBenchmarkSet. wp_statement_at env Henv; [wp_norm; eapply faulted; eassumption|].
  assert (forall now, question_refusal (qs_cfg svc) req now (db s) = question_refusal (qs_cfg svc) req now (db s)) as Href by auto.
  unfold question_refusal in Href at 2. destruct (find_benchmark_set (sq_BSID req) (db s)) as [bs|] eqn:Hbs;
    [|wp_norm; exact (refused C Fault req s now0 _ Hnow0 (Href now0))].
  destruct (bool_decide (bs_Status bs = BSStatusActive)) eqn:Hact; cbn [negb] in *;
    [|wp_norm; exact (refused C Fault req s now0 _ Hnow0 (Href now0))].
  unfold rate_limited. destruct (0 <? qc_RateLimit (qs_cfg svc)) eqn:Hrl; cbn [andb] in Href.
  - unfold GetLastQuestionTime. wp_statement_at env2 Henv2; [wp_norm; eapply faulted; eassumption|].
    fold (last_question (sq_Worker req) (db s)).
    destruct (last_question (sq_Worker req) (db s)) as [t|] eqn:Hlast.
    + rewrite wp_in_Now. intros now Hnow. wp_norm. destruct (time_Sub now t <? qc_RateLimit (qs_cfg svc)) eqn:Hlim.
      * wp_norm. specialize (Href now). rewrite Hlim in Href. exact (refused C Fault req s now _ Hnow Href).
      * apply (submit_checks_wp Fault req bs s now); auto. rewrite Hrl, Hlast. exact Hlim.
    + wp_norm. apply (submit_checks_wp Fault req bs s now0); auto. rewrite Hrl, Hlast. reflexivity.
  - wp_norm. apply (submit_checks_wp Fault req bs s now0); auto. rewrite Hrl. reflexivity.
Qed.

(** C14: a submitted question is refused for the first check that it fails, in
    the order of the code and at an instant that the clock shows, and stored
    when it passes all of them and the schema lets it in; whatever statement
    fails, an error leaves everything alone (the transaction is rolled back)
    and an accepted question has passed all checks, is stored exactly once, as
    submitted and with its signature, and is counted exactly once. *)
Theorem SubmitQuestion_refines C E req s : alone E -> keeps_time C E ->
  let '(r, s') := run_top E (SubmitQuestion svc req) s in
  submission_follows C (qs_cfg svc) req s r s' /\
  (undisturbed E -> exists now, go_time C now /\ decided (qs_cfg svc) req s now r).
Proof using.
  intros HE Ht. destruct (run_top E (SubmitQuestion svc req) s) as [r s'] eqn:Er.
  assert (exists now, go_time C now) as Hnow by (exists (clock E 0); apply Ht). split.
  - apply (run_wp_in any_fault any_reply eq any_step E (SubmitQuestion svc req)
      (fun r s' => submission_follows C (qs_cfg svc) req s r s') s r s' HE Ht); [|exact Er].
    eapply wp_mono; [|apply SubmitQuestion_wp, Hnow]. intros r0 ab s0 [H _]. exact H.
  - intros HU. destruct (run_wp_in no_fault any_reply eq any_step E (SubmitQuestion svc req)
      (fun r s' => submit_post C no_fault req s r s') s r s' HU Ht) as (_ & now & Hn & H); [apply SubmitQuestion_wp, Hnow|exact Er|].
    exists now. split; [exact Hn|]. apply H. intros m Hm. exact Hm.
Qed.

(** C26: no duplicates: once a question is stored in a set, its text is refused
    in that set and nothing changes, whoever submits it, whenever, and whatever
    fails, as long as the configured similarity limit is at most one.  That
    holds whatever the status and the score of the stored question are: the
    documents compare only with questions of [question.similarity_min_score] or
    more, which the code never looks at. *)
Theorem SubmitQuestion_no_duplicate E req s q : alone E -> fleb (qc_SimilarityMaxJaccard (qs_cfg svc)) (of_ratio 1 1) = true ->
  q ∈ questions (db s) -> q_BSID q = sq_BSID req -> q_MinHash q = Some (ToBytes (Generate (sq_Question req))) ->
  exists e, run_top E (SubmitQuestion svc req) s = (Err e, s).
Proof using.
  intros HE Hlim Hq Hset Hsig. pose proof (SubmitQuestion_wp (C := any_time) any_fault req s (ex_intro _ 0 I)) as H.
  destruct (run_top E (SubmitQuestion svc req) s) as [r s'] eqn:Er.
  apply (run_wp any_fault any_reply eq any_step E (SubmitQuestion svc req)
    (fun r s' => submit_post any_time any_fault req s r s') s r s' HE) in H; [|exact Er]. destruct H as [H _].
  destruct r as [id|e]; [|exists e; rewrite H; reflexivity]. exfalso.
  destruct H as (now & env & _ & _ & Href & _).
  assert (existsb (fun h => fleb (qc_SimilarityMaxJaccard (qs_cfg svc)) (Jaccard (Generate (sq_Question req)) (FromBytes h)))
    (minhashes (fun q => bool_decide (q_BSID q = sq_BSID req)) (db s)) = true) as Hdup.
  { apply existsb_true. exists (ToBytes (Generate (sq_Question req))). split.
    - unfold minhashes. apply list_elem_of_omap. exists q. split; [|exact Hsig].
      apply elem_of_filter_bool. split; [apply bool_decide_eq_true_2, Hset|exact Hq].
    - rewrite stored_signature by apply Generate_wf. rewrite Jaccard_self by apply length_Generate. exact Hlim. }
  revert Href. unfold question_refusal. rewrite Hdup. repeat case_goal; discriminate.
Qed.

(** The parameter of the least score has no effect at all. *)
Lemma SubmitQuestion_ignores_min_score cfg n req :
  let cfg' := {| qc_RequiredAnswers := qc_RequiredAnswers cfg; qc_RateLimit := qc_RateLimit cfg;
                 qc_ReplyTimeout := qc_ReplyTimeout cfg; qc_SimilarityMinScore := n;
                 qc_SimilarityMaxJaccard := qc_SimilarityMaxJaccard cfg |} in
  SubmitQuestion (mkQuestionService cfg' None) req = SubmitQuestion (mkQuestionService cfg None) req.
Proof using. reflexivity. Qed.
End Outcome.

(** ** Examples *)

Definition ask_db : DB :=
  mkDB [mkWorker "asker" None 0 None 0; mkWorker "bob" None 0 None 0] [toy_bs] [] [] [] [] [] [] 1 1.
Definition ask_state : St := mkState ask_db no_timers.
Definition ask_service : QuestionService := mkQuestionService DefaultQuestionConfig None.
Definition ask_request (w : string) : SubmitQuestionRequest := mkSubmitQuestionRequest "bs" "What is 2 + 2?" "4" w.

Definition at_five : Clocks := mkClocks (fun t => t = 5) (fun env => env = mkSqlEnv 5 0).

Lemma SubmitQuestion_refines_witness :
  let '(r, s') := run_top (still_env 5 0 refuse) (SubmitQuestion ask_service (ask_request "asker")) ask_state in
  submission_follows at_five DefaultQuestionConfig (ask_request "asker") ask_state r s' /\ r = Ok 1 /\ length (questions (db s')) = 1%nat.
Proof.
  pose proof (SubmitQuestion_refines ask_service at_five (still_env 5 0 refuse) (ask_request "asker") ask_state
    (undisturbed_alone _ (still_undisturbed 5 0 refuse)) ltac:(split; intros n; reflexivity)) as H.
  destruct (run_top _ _ _) as [r s'] eqn:Er. destruct H as [H _]. split; [exact H|].
  split; [change (fst (r, s') = Ok 1)|change (length (questions (db (snd (r, s')))) = 1%nat)];
    rewrite <- Er; vm_compute; reflexivity.
Defined.

(** The stored question was scored 1, below the least score of 2. *)
Definition low_question : Question := scored_as 1 fzero fzero 6 (stored_question (ask_request "asker") 1 5).
Definition low_state : St := mkState {| ask_db with questions := [low_question] |} no_timers.

Lemma SubmitQuestion_no_duplicate_witness : q_Score low_question < qc_SimilarityMinScore DefaultQuestionConfig /\
  exists e, run_top (failing_at 8) (SubmitQuestion ask_service (ask_request "bob")) low_state = (Err e, low_state).
Proof.
  split; [reflexivity|].
  apply (SubmitQuestion_no_duplicate ask_service (failing_at 8) (ask_request "bob") low_state low_question).
  - apply failing_alone.
  - vm_compute. reflexivity.
  - left.
  - reflexivity.
  - reflexivity.
Defined.

(** ** Two submissions at once *)

(** Bob's submission runs between the similarity check and the transaction of
    the asker's. *)
Definition bob_submits (s : St) : St :=
  snd (run_top (still_env 5 0 refuse) (SubmitQuestion ask_service (ask_request "bob")) s).
Definition racing_env : ServerEnv :=
  mkEnv (fun _ => 5) (fun _ => mkSqlEnv 5 0) (fun _ => None) (fun _ => []) (fun _ => refuse)
    (fun t s => if (t =? 3)%nat then bob_submits s else s).

(** The similarity check is not part of the transaction: two submissions of
    the same text at the same time can both be accepted into the same set. *)
Theorem SubmitQuestion_race :
  (forall t s, interfere racing_env t s = s \/ interfere racing_env t s = bob_submits s) /\
  let '(r, s') := run_top racing_env (SubmitQuestion ask_service (ask_request "asker")) ask_state in
  is_ok r = true /\
  map (fun q => (q_BSID q, q_Questioner q, q_Question q)) (questions (db s')) =
    [("bs", "bob", "What is 2 + 2?"); ("bs", "asker", "What is 2 + 2?")]%string.
Proof.
  split; [intros t s; cbn; destruct (t =? 3)%nat; auto|]. vm_compute. auto.
Qed.
