(* ===== verification/RootNet.v ===== *)
(** * The RootNet client

    Models [src/internal/service/rootnet.go].  The HTTP round trip with the
    decoding of the body is the request [HttpCheck] or [HttpUser]; what the
    client makes of the reply is modelled.

    Lemma [recipient_reply_lower]: a recipient is always in lower case. *)

From S2P Require Import Prelude Float64 GoLang Model Prog Tables Config.
#[local] Open Scope prog_scope.

(** RootNetClient: the base URL given at construction, and the dynamic
    configuration. *)
Record RootNetClient := mkRootNetClient {
  rn_BaseURL : string;
  rn_RtConfig : option RuntimeConfig
}.

(** [strings.TrimRight(s, "/")]. *)
Fixpoint trim_slashes (l : list byte) : list byte :=
  match l with
  | [] => []
  | b :: l => match trim_slashes l with
              | [] => if bool_decide (b = x2f) then [] else [b]
              | l' => b :: l'
              end
  end.
Definition TrimRightSlash (s : string) : string := string_of_bytes (trim_slashes (bytes_of_string s)).

Definition NewRootNetClient (baseURL : string) : RootNetClient := mkRootNetClient (TrimRightSlash baseURL) None.

Definition baseURL (c : RootNetClient) : string :=
  match rn_RtConfig c with
  | Some rt =>
      let u := GetRootNetAPIURL rt in
      if bool_decide (u = ""%string) then rn_BaseURL c else TrimRightSlash u
  | None => rn_BaseURL c
  end.

Definition IsRegistered (c : RootNetClient) (address : string) : Prg (result bool) :=
  let url := (baseURL c +:+ "/api/address/" +:+ address +:+ "/check")%string in
  Call (HttpCheck url) (fun resp => Ret
  match resp with
  | Err e => Err (Wrapped "request rootnet" e)
  | Ok (status, body) =>
      if negb (status =? 200) then Err (Failure "rootnet returned status")
      else match body with
      | Err e => Err (Wrapped "decode response" e)
      | Ok r => Ok (ac_IsRegistered r || ac_IsRegisteredUser r || ac_IsRegisteredAgent r)
      end
  end).

Definition zero_address : string := "0x0000000000000000000000000000000000000000".

(** The recipient of a decoded reply. *)
Definition recipient_of (workerAddress : string) (r : userResponse) : string :=
  let recipient := u_RecipientAddress r in
  if bool_decide (recipient = ""%string) || bool_decide (recipient = zero_address)
  then ToLower workerAddress
  else ToLower recipient.

Definition recipient_reply (workerAddress : string) (resp : HttpReply userResponse) : result string :=
  match resp with
  | Err e => Err (Wrapped "request rootnet" e)
  | Ok (status, body) =>
      if negb (status =? 200) then Err (Failure "rootnet returned status")
      else match body with
      | Err e => Err (Wrapped "decode response" e)
      | Ok r => Ok (recipient_of workerAddress r)
      end
  end.

Definition GetRewardRecipient (c : RootNetClient) (workerAddress : string) : Prg (result string) :=
  let url := (baseURL c +:+ "/api/users/" +:+ workerAddress)%string in
  Call (HttpUser url) (fun resp => Ret (recipient_reply workerAddress resp)).

(** ** Recipients *)

Lemma lower_byte_idem b : lower_byte (lower_byte b) = lower_byte b.
Proof. destruct b; reflexivity. Qed.

Lemma ToLower_idem s : ToLower (ToLower s) = ToLower s.
Proof.
  unfold ToLower. rewrite bytes_of_string_of_bytes, map_map. f_equal. apply map_ext, lower_byte_idem.
Qed.

(** The recipient that a lookup returns is in lower case, so that the rewards of
    one address are added up however RootNet writes it. *)
Lemma recipient_reply_lower workerAddress resp r : recipient_reply workerAddress resp = Ok r -> ToLower r = r.
Proof.
  unfold recipient_reply. destruct resp as [[status body]|e]; [|discriminate].
  destruct (negb (status =? 200)); [discriminate|]. destruct body as [u|e]; [|discriminate].
  intros [= <-]. unfold recipient_of. destruct (_ || _); apply ToLower_idem.
Qed.
