(* ===== verification/Http.v ===== *)
(** * Requests and replies

    What [net/http] hands to a handler, and what a handler writes
    ([src/internal/handler/response.go]).  A handler is a program that returns
    its reply.  The JSON text of a reply is left out: the reply carries the
    value that is encoded.

    A request has the method, [r.URL.Path], the decoded query and the body as
    [io.ReadAll] returns it.  [w.WriteHeader] and the writing of the body cannot
    fail for the handler. *)

From S2P Require Import Prelude GoLang.

Record HttpRequest := mkHttpRequest {
  rq_Method : string;
  rq_Path : string;
  rq_Query : list (string * string);
  rq_Header : list (string * string);
  rq_Body : result (list byte)
}.

(** The first value of a key, or the empty string ([url.Values.Get],
    [http.Header.Get]; header names are compared in their canonical form). *)
Definition first_value (key : string) (l : list (string * string)) : string :=
  match List.find (fun kv => bool_decide (fst kv = key)) l with
  | Some (_, v) => v
  | None => ""
  end.
Definition Header_Get (r : HttpRequest) (key : string) : string := first_value key (rq_Header r).
Definition Query_Get (r : HttpRequest) (key : string) : string := first_value key (rq_Query r).

(** [writeJSON(w, status, data)], [writeError(w, status, msg)], a reply of the
    router itself, or a panic of the handler, for which [net/http] closes the
    connection. *)
Inductive HttpResponse (D : Type) : Type :=
| writeJSON (status : Z) (data : D)
| writeError (status : Z) (msg : string)
| plainReply (status : Z)
| panicked.
Arguments writeJSON {D} status data.
Arguments writeError {D} status msg.
Arguments plainReply {D} status.
Arguments panicked {D}.

Definition map_response {D D'} (f : D -> D') (r : HttpResponse D) : HttpResponse D' :=
  match r with
  | writeJSON status data => writeJSON status (f data)
  | writeError status msg => writeError status msg
  | plainReply status => plainReply status
  | panicked => panicked
  end.

Definition response_status {D} (r : HttpResponse D) : option Z :=
  match r with
  | writeJSON status _ => Some status
  | writeError status _ => Some status
  | plainReply status => Some status
  | panicked => None
  end.

(** The status codes that the handlers use. *)
Definition StatusOK : Z := 200.
Definition StatusCreated : Z := 201.
Definition StatusMovedPermanently : Z := 301.
Definition StatusBadRequest : Z := 400.
Definition StatusUnauthorized : Z := 401.
Definition StatusForbidden : Z := 403.
Definition StatusNotFound : Z := 404.
Definition StatusMethodNotAllowed : Z := 405.
Definition StatusConflict : Z := 409.
Definition StatusInternalServerError : Z := 500.
Definition StatusServiceUnavailable : Z := 503.

(** The reply of a failed call whose error is not for the client. *)
Definition internal_error {D} : HttpResponse D := writeError StatusInternalServerError "internal error".
Definition not_found {D} : HttpResponse D := writeError StatusNotFound "not found".
Definition bad_request {D} (msg : string) : HttpResponse D := writeError StatusBadRequest msg.
Definition unauthorized {D} (msg : string) : HttpResponse D := writeError StatusUnauthorized msg.
