(* ===== verification/Auth.v ===== *)
(** * Authentication

    Models [src/internal/auth/auth.go], [src/internal/handler/worker_auth.go]
    and [src/internal/handler/middleware.go].

    go-ethereum's key recovery and address functions are section variables;
    SHA-256 is computed ([Sha256]).

    [authorize] is the part of [WorkerAuth] before [next.ServeHTTP]: it ends with
    a reply (an early return) or with the address that is put in the context.

    Theorems: a request is let through only for the address whose key signed
    it, in time, registered, and not suspended where that is checked
    ([WorkerAuth_sound]); a request without such a signature changes nothing;
    for time stamps of ten digits the signed message determines method, path,
    time stamp and body hash ([BuildSignMessage_determines]), but time stamps of
    the far future never expire ([timestamp_window]) and with other lengths
    digits can move between path and time stamp ([BuildSignMessage_ambiguous]);
    lifting an expired suspension can erase a new one ([unsuspend_race]). *)

From S2P Require Import Prelude Float64 GoLang Strconv Sha256 Merkle Model Calendar Prog Tables Store StoreQuestion Lifecycle Config RootNet Http.
#[local] Open Scope prog_scope.

(** ** auth.go *)

(** [BuildSignMessage]. *)
Definition BuildSignMessage (method path timestamp bodyHash : string) : string :=
  (method +:+ path +:+ timestamp +:+ bodyHash)%string.

(** [HashBody]. *)
Definition HashBody (body : list byte) : string := string_of_bytes (hex_encode (Sum256 body)).

(** [hexDecode]. *)
Definition hexDecode (s : string) : option (list byte) :=
  hex_decode (TrimPrefix (bytes_of_string s) (bytes_of_string "0x")).

(** The personal_sign format. *)
Definition prefixed (message : string) : list byte :=
  x19 :: bytes_of_string "Ethereum Signed Message:" ++ x0a :: bytes_of_string (Itoa (str_len message) +:+ message).

Section Auth.
Context {P : Postgres}.
Variable Keccak256 : list byte -> list byte.
Variable PublicKey : Type.
Variable SigToPub : list byte -> list byte -> result PublicKey.
Variable PubkeyToAddress : PublicKey -> Address.
Variable IsHexAddress : string -> bool.
Variable HexToAddress : string -> Address.
Variable Address_Hex : Address -> string.

(** V as 27 or 28 becomes 0 or 1; on a byte. *)
Definition normalize_v (sig : list byte) : list byte :=
  match sig !! 64%nat with
  | Some v => if 27 <=? byte_val v then <[64%nat := byte_of (byte_val v - 27)]> sig else sig
  | None => sig
  end.

Definition VerifySignature (message signatureHex : string) : result Address :=
  match hexDecode signatureHex with
  | None => Err (Failure "decode signature")
  | Some sigBytes =>
      if negb (Z.of_nat (length sigBytes) =? 65) then Err (Failure "invalid signature length")
      else
        match SigToPub (Keccak256 (prefixed message)) (normalize_v sigBytes) with
        | Err e => Err (Wrapped "recover public key" e)
        | Ok pubKey => Ok (PubkeyToAddress pubKey)
        end
  end.

(** [AddressFromHex]. *)
Definition AddressFromHex (s : string) : result Address :=
  if negb (IsHexAddress s) then Err (Failure ("invalid ethereum address: " +:+ s)) else Ok (HexToAddress s).

(** ** worker_auth.go *)

(** WorkerAuthConfig, without the store.  [wc_RtConfig] is the dynamic limit of
    the time difference. *)
Record WorkerAuthConfig := mkWorkerAuthConfig {
  wc_TimestampMaxDiff : Z;
  wc_CheckSuspension : bool;
  wc_SignatureOnly : bool;
  wc_RegisterCheck : option (string -> Prg (result bool));
  wc_RtConfig : option Z
}.

Definition timestampMaxDiff (cfg : WorkerAuthConfig) : Z :=
  match wc_RtConfig cfg with
  | Some d => d
  | None => if wc_TimestampMaxDiff cfg =? 0 then 30 * Second else wc_TimestampMaxDiff cfg
  end.

Definition registerCheck (cfg : WorkerAuthConfig) (address : string) : Prg (result bool) :=
  match wc_RegisterCheck cfg with
  | Some f => f address
  | None => Ret (Ok true)
  end.

(** [diff := time.Since(time.Unix(ts, 0)); if diff < 0 { diff = -diff }] and
    [diff > maxDiff]. *)
Definition timestamp_diff (now ts : Z) : Z :=
  let diff := time_Sub now (time_Unix ts) in
  if diff <? 0 then wrap64 (- diff) else diff.
Definition timestamp_expired (maxDiff now ts : Z) : bool := timestamp_diff now ts >? maxDiff.

(** The address that signed the request: steps 3 to 5. *)
Definition signer {D} (r : HttpRequest) : HttpResponse D + Address :=
  match rq_Body r with
  | Err _ => inl (bad_request "read body failed")
  | Ok body =>
      let msg := BuildSignMessage (rq_Method r) (rq_Path r) (Header_Get r "X-Timestamp") (HashBody body) in
      match VerifySignature msg (Header_Get r "X-Signature") with
      | Err _ => inl (unauthorized "invalid signature")
      | Ok recovered =>
          match AddressFromHex (Header_Get r "X-Worker-Address") with
          | Err _ => inl (unauthorized "invalid address")
          | Ok claimedAddr =>
              if bool_decide (recovered = claimedAddr) then inr recovered
              else inl (unauthorized "signature mismatch")
          end
      end
  end.

(** Step 6: the worker's row, created for a worker that may register. *)
Definition find_or_create {D} (cfg : WorkerAuthConfig) (address : string) : Prg (HttpResponse D + Worker) :=
  let* miner := GetWorker address in
  match miner with
  | Err _ => Ret (inl internal_error)
  | Ok (Some miner) => Ret (inr miner)
  | Ok None =>
      let* ok := registerCheck cfg address in
      match ok with
      | Err _ => Ret (inl internal_error)
      | Ok false => Ret (inl (writeError StatusForbidden "not registered on AWP RootNet, use AWP skill to register first"))
      | Ok true =>
          let* miner := CreateWorker address in
          match miner with
          | Err _ => Ret (inl internal_error)
          | Ok None => Ret (inl panicked)
          | Ok (Some miner) => Ret (inr miner)
          end
      end
  end.

(** Step 7: the suspension.  The instant in the text is left out. *)
Definition check_suspension {D} (cfg : WorkerAuthConfig) (address : string) (miner : Worker) : Prg (HttpResponse D + string) :=
  Now (fun now1 =>
  if wc_CheckSuspension cfg && IsSuspended now1 miner then
    Ret (inl (writeError StatusForbidden "suspended until"))
  else
    Now (fun now2 =>
    let* _ := if bool_decide (is_Some (w_SuspendedUntil miner)) && negb (IsSuspended now2 miner)
              then UnsuspendWorker address else Ret (Ok tt) in
    Ret (inr address))).

Definition authorize {D} (cfg : WorkerAuthConfig) (r : HttpRequest) : Prg (HttpResponse D + string) :=
  if bool_decide (Header_Get r "X-Worker-Address" = ""%string) || bool_decide (Header_Get r "X-Signature" = ""%string) ||
     bool_decide (Header_Get r "X-Timestamp" = ""%string)
  then Ret (inl (unauthorized "missing auth headers"))
  else
    match Atoi (Header_Get r "X-Timestamp") with
    | None => Ret (inl (unauthorized "invalid timestamp"))
    | Some ts =>
        Now (fun now =>
        if timestamp_expired (timestampMaxDiff cfg) now ts then Ret (inl (unauthorized "timestamp expired"))
        else
          match signer r with
          | inl resp => Ret (inl resp)
          | inr recovered =>
              let address := ToLower (Address_Hex recovered) in
              if wc_SignatureOnly cfg then Ret (inr address)
              else
                let* miner := find_or_create cfg address in
                match miner with
                | inl resp => Ret (inl resp)
                | inr miner => check_suspension cfg address miner
                end
          end)
    end.

(** [WorkerAuth(cfg)(next)]: [next] gets the request and the address of the
    context. *)
Definition WorkerAuth {D} (cfg : WorkerAuthConfig) (next : string -> HttpRequest -> Prg (HttpResponse D))
    (r : HttpRequest) : Prg (HttpResponse D) :=
  let* a := authorize cfg r in
  match a with
  | inl resp => Ret resp
  | inr address => next address r
  end.

(** [FullWorkerAuth] and [LightWorkerAuth]. *)
Definition FullWorkerAuth : WorkerAuthConfig := mkWorkerAuthConfig 0 true false None None.
Definition LightWorkerAuth : WorkerAuthConfig := mkWorkerAuthConfig 0 false false None None.
End Auth.

(** ** middleware.go *)

(** [AdminAuth(token)]: the comparison in constant time is equality. *)
Definition AdminAuth {D} (token : string) (next : HttpRequest -> Prg (HttpResponse D)) (r : HttpRequest) : Prg (HttpResponse D) :=
  let auth := bytes_of_string (Header_Get r "Authorization") in
  if negb (HasPrefix auth (bytes_of_string "Bearer ")) then Ret (unauthorized "missing or invalid authorization")
  else if negb (bool_decide (TrimPrefix auth (bytes_of_string "Bearer ") = bytes_of_string token)) then
    Ret (unauthorized "invalid token")
  else next r.

(** ** Programs that only read *)

Lemma run_read_only {A} (E : ServerEnv) (p : Prg A) n s : alone E -> read_only p ->
  exists a n', run E false p (mkPos n false) s = (a, s, mkPos n' false).
Proof.
  intros HE Hp. pose proof (wp_run_from any_fault any_reply eq (fun _ _ => True) E p false _ (mkPos n false) s HE
    (wp_read_only any_fault any_reply p (fun _ _ => True) (fun _ => I) Hp s)) as H.
  destruct (run _ _ _ _ _) as [[a s'] [n' ab]]. destruct H as [Hab ->]. cbn in Hab. subst ab. eauto.
Qed.

(** ** The time stamp

    A request is let through from [maxDiff] before its time stamp to [maxDiff]
    after it - and always, if the time stamp is so far in the future that the
    difference does not fit a [time.Duration]: the saturated difference is the
    least int64, which is its own negation. *)

(** C32: a time stamp is accepted exactly in the window of [maxDiff] around the
    clock, or when it lies 2^63 ns (292 years) or more ahead, for ever: the
    negation of the saturated difference overflows. *)
Theorem timestamp_window maxDiff now ts : 0 <= now < 2 ^ 62 -> 0 <= maxDiff < 2 ^ 63 - 1 ->
  0 <= ts < 2 ^ 63 - unixToInternal ->
  timestamp_expired maxDiff now ts = false <->
  Z.abs (now - ts * Second) <= maxDiff \/ 2 ^ 63 <= ts * Second - now.
Proof.
  intros Hnow Hmax Hts. unfold timestamp_expired, timestamp_diff, time_Unix.
  assert (wrap64 (ts + unixToInternal) - unixToInternal = ts) as ->
    by (unfold wrap64, unixToInternal in *; rewrite Z.mod_small; lia).
  set (t := ts * Second). assert (0 <= t) by (unfold t, Second; lia). unfold time_Sub.
  rewrite Z.gtb_ltb, Z.ltb_ge.
  destruct (Z.le_gt_cases (2 ^ 63) (t - now)).
  - replace (Z.max _ _) with (- 2 ^ 63) by lia. change (- 2 ^ 63 <? 0) with true.
    change (wrap64 (- - 2 ^ 63)) with (- 2 ^ 63). lia.
  - replace (Z.max _ _) with (now - t) by lia. destruct (Z.ltb_spec (now - t) 0); [|lia].
    assert (wrap64 (- (now - t)) = - (now - t)) as -> by (unfold wrap64; rewrite Z.mod_small; lia). lia.
Qed.

(** A time stamp of the year 2657, seen in 2024 and in 2100. *)
Lemma timestamp_window_witness :
  timestamp_expired (30 * Second) (1728000000 * Second) 21700000000 = false /\
  timestamp_expired (30 * Second) (4102444800 * Second) 21700000000 = false.
Proof.
  split; (apply timestamp_window; [vm_compute; intuition congruence | vm_compute; intuition congruence |
    vm_compute; intuition congruence | right; vm_compute; congruence]).
Defined.

(** ** Who is let through *)

Section Sound.
Context {P : Postgres}.
Variable Keccak256 : list byte -> list byte.
Variable PublicKey : Type.
Variable SigToPub : list byte -> list byte -> result PublicKey.
Variable PubkeyToAddress : PublicKey -> Address.
Variable IsHexAddress : string -> bool.
Variable HexToAddress : string -> Address.
Variable Address_Hex : Address -> string.
Abbreviation VerifySignature := (VerifySignature Keccak256 PublicKey SigToPub PubkeyToAddress).
Abbreviation signer := (signer Keccak256 PublicKey SigToPub PubkeyToAddress IsHexAddress HexToAddress).
Abbreviation authorize := (authorize Keccak256 PublicKey SigToPub PubkeyToAddress IsHexAddress HexToAddress Address_Hex).
Abbreviation WorkerAuth := (WorkerAuth Keccak256 PublicKey SigToPub PubkeyToAddress IsHexAddress HexToAddress Address_Hex).

(** The key of [address] signed method, path, time stamp and body of the
    request, and the request names that address. *)
Definition signed_by (r : HttpRequest) (address : string) : Prop :=
  exists body recovered, rq_Body r = Ok body /\
    VerifySignature (BuildSignMessage (rq_Method r) (rq_Path r) (Header_Get r "X-Timestamp") (HashBody body))
      (Header_Get r "X-Signature") = Ok recovered /\
    IsHexAddress (Header_Get r "X-Worker-Address") = true /\
    HexToAddress (Header_Get r "X-Worker-Address") = recovered /\
    address = ToLower (Address_Hex recovered).

Lemma signer_signed {D} r recovered : (signer r : HttpResponse D + Address) = inr recovered -> signed_by r (ToLower (Address_Hex recovered)).
Proof using.
  unfold Auth.signer. destruct (rq_Body r) as [body|e] eqn:Eb; [|discriminate].
  destruct (VerifySignature _ _) as [rec|e] eqn:Ev; [|discriminate].
  unfold AddressFromHex. destruct (IsHexAddress _) eqn:Eh; [|discriminate]. cbn [negb].
  destruct (bool_decide _) eqn:Ed; [|discriminate]. intros [= <-]. apply bool_decide_eq_true_1 in Ed.
  exists body, rec. auto.
Qed.

(** The worker's row when the request comes in, or a new one if the
    registration check says yes in this run. *)
Inductive registered (cfg : WorkerAuthConfig) (E : ServerEnv) (address : string) (s : St) : Worker -> St -> Prop :=
| registered_known w : find_worker address (db s) = Some w -> registered cfg E address s w s
| registered_new w n pos : find_worker address (db s) = None ->
    run E false (registerCheck cfg address) (mkPos n false) s = (Ok true, s, pos) ->
    w_Address w = address -> w_SuspendedUntil w = None ->
    registered cfg E address s w {| s with db := set_workers (workers (db s) ++ [w]) (db s) |}.

Lemma find_or_create_run {D} cfg E address n s : alone E -> read_only (registerCheck cfg address) ->
  exists out s' n', run E false (find_or_create cfg address : Prg (HttpResponse D + Worker)) (mkPos n false) s = (out, s', mkPos n' false) /\
    match out with inl _ => s' = s | inr w => registered cfg E address s w s' end.
Proof using.
  intros HE Hro. pose proof (alone_still E HE) as Hi. unfold find_or_create, GetWorker.
  rewrite run_bind, run_query by exact Hi. destruct (fault E n) as [m|]; cbn [wrap_error].
  { eexists _, _, _. split; reflexivity. }
  destruct (find_worker address (db s)) as [w|] eqn:Ew.
  { eexists _, _, _. split; [reflexivity|]. apply registered_known, Ew. }
  rewrite run_bind. destruct (run_read_only E (registerCheck cfg address) (S n) s HE Hro) as (ok & n1 & Hrun).
  rewrite Hrun. destruct ok as [[]|e]; [|eexists _, _, _; split; reflexivity..].
  rewrite run_bind. unfold CreateWorker, bind_ok. rewrite run_bind, run_exec by exact Hi.
  destruct (fault E n1) as [m|]; cbn [wrap_error].
  { eexists _, _, _. split; [reflexivity|]. destruct s; reflexivity. }
  unfold insert_worker. rewrite Ew. cbn [fst snd wrap_error run]. eexists _, _, _. split; [reflexivity|].
  eapply (registered_new cfg E address s); [exact Ew|exact Hrun|reflexivity|reflexivity].
Qed.

(** The end of step 7 on a state: the expired suspension may be lifted. *)
Definition admitted (E : ServerEnv) (address : string) (w : Worker) (s s' : St) : Prop :=
  s' = s \/ ((exists until n, w_SuspendedUntil w = Some until /\ until <= clock E n) /\
    s' = {| s with db := update_worker address (fun w => {| w with w_SuspendedUntil := None |}) (db s) |}).

Lemma check_suspension_run {D} cfg E address w n s : alone E ->
  exists out s' n', run E false (check_suspension cfg address w : Prg (HttpResponse D + string)) (mkPos n false) s = (out, s', mkPos n' false) /\
    match out with
    | inl _ => s' = s
    | inr a => a = address /\ (wc_CheckSuspension cfg = true -> IsSuspended (clock E n) w = false) /\ admitted E address w s s'
    end.
Proof using.
  intros HE. pose proof (alone_still E HE) as Hi. unfold check_suspension. cbn [run tick next_pos].
  destruct (wc_CheckSuspension cfg && IsSuspended (clock E n) w) eqn:Es.
  { eexists _, _, _. split; reflexivity. }
  cbn [run]. rewrite run_bind. destruct (bool_decide (is_Some (w_SuspendedUntil w)) && _) eqn:Eu.
  - unfold UnsuspendWorker. cbn [tick next_pos]. change (next_pos (next_pos {| tick := n; aborted := false |})) with (mkPos (S (S n)) false).
    rewrite run_exec by exact Hi. eexists _, _, _. split; [reflexivity|]. split; [reflexivity|]. split.
    + intros Hc. rewrite Hc in Es. exact Es.
    + destruct (fault E (S (S n))); [left; destruct s; reflexivity|]. right. split; [|reflexivity].
      apply andb_true_iff in Eu as [Eu1 Eu2]. apply bool_decide_eq_true_1 in Eu1 as [until Hu].
      unfold IsSuspended in Eu2. rewrite Hu in Eu2. exists until, (S n). bool_props. auto.
  - eexists _, _, _. split; [reflexivity|]. split; [reflexivity|]. split; [|left; reflexivity].
    intros Hc. rewrite Hc in Es. exact Es.
Qed.

(** A request that nobody signed in time. *)
Definition unsigned_request (maxDiff : Z) (E : ServerEnv) (r : HttpRequest) : Prop :=
  forall address ts, signed_by r address -> Atoi (Header_Get r "X-Timestamp") = Some ts ->
    timestamp_expired maxDiff (clock E 0) ts = true.

Lemma authorize_refuses {D} cfg r E s : unsigned_request (timestampMaxDiff cfg) E r ->
  exists resp pos, run E false (authorize cfg r : Prg (HttpResponse D + string)) (mkPos 0 false) s = (inl resp, s, pos).
Proof using.
  intros Hu. unfold Auth.authorize. destruct (_ || _); [cbn; eauto|].
  destruct (Atoi _) as [ts|] eqn:Ets; [|cbn; eauto]. cbn [run tick].
  destruct (timestamp_expired _ _ _) eqn:Eexp; [cbn; eauto|].
  destruct (signer r : HttpResponse D + Address) as [resp|rec] eqn:Esig; [cbn; eauto|]. apply signer_signed in Esig.
  rewrite (Hu _ ts Esig Ets) in Eexp. discriminate Eexp.
Qed.

Lemma WorkerAuth_refuses {D} cfg (next : string -> HttpRequest -> Prg (HttpResponse D)) r E s :
  unsigned_request (timestampMaxDiff cfg) E r ->
  exists resp pos, run E false (WorkerAuth cfg next r) (mkPos 0 false) s = (resp, s, pos).
Proof using.
  intros Hu. unfold Auth.WorkerAuth. rewrite run_bind.
  destruct (authorize_refuses (D := D) cfg r E s Hu) as (resp & pos & ->). cbn [run]. eauto.
Qed.

(** C8: a request is let through as an address only if the key of that address
    signed exactly its method, path, time stamp and body, the time stamp is
    accepted at the moment of the check, the worker has a row or the registry
    allows it one now, and it is not suspended at the moment where that is
    checked; what has changed then is the worker's own row, and a request that
    is not let through has changed nothing. *)
Theorem WorkerAuth_sound {D} cfg r E s : alone E -> (forall address, read_only (registerCheck cfg address)) ->
  let '(out, s') := run_top E (authorize cfg r : Prg (HttpResponse D + string)) s in
  match out with
  | inl _ => s' = s
  | inr address =>
      signed_by r address /\
      (exists ts, Atoi (Header_Get r "X-Timestamp") = Some ts /\
         timestamp_expired (timestampMaxDiff cfg) (clock E 0) ts = false) /\
      if wc_SignatureOnly cfg then s' = s
      else exists w s1, registered cfg E address s w s1 /\ admitted E address w s1 s' /\
             (wc_CheckSuspension cfg = true -> exists n, IsSuspended (clock E n) w = false)
  end.
Proof using.
  intros HE Hro. unfold run_top, Auth.authorize. destruct (_ || _); [reflexivity|].
  destruct (Atoi _) as [ts|] eqn:Ets; [|reflexivity]. cbn [run tick].
  destruct (timestamp_expired _ _ _) eqn:Eexp; [reflexivity|].
  destruct (signer r : HttpResponse D + Address) as [resp|rec] eqn:Esig; [reflexivity|]. apply signer_signed in Esig.
  set (address := ToLower (Address_Hex rec)) in *.
  destruct (wc_SignatureOnly cfg) eqn:Eso; [cbn; eauto 10|].
  rewrite run_bind. change (next_pos (mkPos 0 false)) with (mkPos 1 false).
  destruct (find_or_create_run (D := D) cfg E address 1 s HE (Hro address)) as (out & s1 & n1 & Hrun & Hout).
  rewrite Hrun. destruct out as [resp|w]; [exact Hout|].
  destruct (check_suspension_run (D := D) cfg E address w n1 s1 HE) as (out & s2 & n2 & Hrun2 & Hout2).
  rewrite Hrun2. cbn [fst]. destruct out as [resp|a].
  - subst s2. destruct Hout as [w Hw|w n pos Hw Hok Ha Hs]; [reflexivity|].
    unfold check_suspension in Hrun2. cbn [run] in Hrun2. unfold IsSuspended in Hrun2. rewrite Hs, andb_false_r in Hrun2.
    cbn in Hrun2. discriminate Hrun2.
  - destruct Hout2 as (-> & Hsusp & Hadm). split; [exact Esig|]. split; [eauto|]. exists w, s1. eauto.
Qed.
End Sound.

(** ** What a signature covers *)

Lemma string_append_inj (a b c d : string) : String.length b = String.length d ->
  (a +:+ b = c +:+ d)%string -> a = c /\ b = d.
Proof.
  intros Hl H. apply (f_equal bytes_of_string) in H.
  rewrite !bytes_of_string_app in H. apply app_inj_2 in H as [H1 H2]; [|rewrite !length_bytes_of_string; exact Hl].
  split; [apply (f_equal string_of_bytes) in H1 | apply (f_equal string_of_bytes) in H2];
    rewrite !string_of_bytes_of_string in *; assumption.
Qed.

Lemma length_HashBody body : String.length (HashBody body) = 64%nat.
Proof.
  unfold HashBody. rewrite length_string_of_bytes, length_hex_encode, length_Sum256. reflexivity.
Qed.

(** A method, and the path after it: the path begins at the first slash. *)
Definition slash : Ascii.ascii := Ascii.ascii_of_nat 47.

Fixpoint no_slash (s : string) : bool :=
  match s with
  | EmptyString => true
  | String c s => negb (Ascii.eqb c slash) && no_slash s
  end.
Definition begins_with_slash (s : string) : Prop := exists t, s = String slash t.

Lemma first_slash m1 : forall m2 p1 p2, no_slash m1 = true -> no_slash m2 = true ->
  begins_with_slash p1 -> begins_with_slash p2 -> (m1 +:+ p1 = m2 +:+ p2)%string -> m1 = m2 /\ p1 = p2.
Proof.
  induction m1 as [|c m1 IH]; intros [|c2 m2] p1 p2 H1 H2 [t1 ->] [t2 ->] E; cbn in *.
  - auto.
  - injection E as <- _. discriminate H2.
  - injection E as -> _. discriminate H1.
  - apply andb_true_iff in H1 as [_ H1], H2 as [_ H2]. injection E as <- E.
    destruct (IH m2 (String slash t1) (String slash t2) H1 H2) as [-> Hp]; unfold begins_with_slash; eauto.
Qed.

(** C33: for time stamps of one length (seconds have ten digits until 2286) the
    signed text determines method, path, time stamp and body hash: a signature
    authorizes one request only. *)
Theorem BuildSignMessage_determines m1 m2 p1 p2 t1 t2 b1 b2 :
  no_slash m1 = true -> no_slash m2 = true -> begins_with_slash p1 -> begins_with_slash p2 ->
  String.length t1 = String.length t2 ->
  BuildSignMessage m1 p1 t1 (HashBody b1) = BuildSignMessage m2 p2 t2 (HashBody b2) ->
  m1 = m2 /\ p1 = p2 /\ t1 = t2 /\ HashBody b1 = HashBody b2.
Proof.
  intros Hm1 Hm2 Hp1 Hp2 Hl H. unfold BuildSignMessage in H.
  assert (forall a b c : string, (a +:+ (b +:+ c) = (a +:+ b) +:+ c)%string) as Hassoc
    by (induction a as [|x a IH]; intros b c; [reflexivity | exact (f_equal (String x) (IH b c))]).
  rewrite !Hassoc in H. apply string_append_inj in H as [H Hb]; [|rewrite !length_HashBody; reflexivity].
  apply string_append_inj in H as [H Ht]; [|exact Hl].
  apply first_slash in H as [Hm Hp]; auto.
Qed.

(** The signature for a poll is one for the same poll only, not for that of the
    next second. *)
Lemma BuildSignMessage_determines_witness :
  ("/api/v1/poll" = "/api/v1/poll" /\ HashBody [x31] = HashBody [x31])%string /\
  BuildSignMessage "GET" "/api/v1/poll" "1728000000" (HashBody []) <>
  BuildSignMessage "GET" "/api/v1/poll" "1728000001" (HashBody []).
Proof.
  split.
  - destruct (BuildSignMessage_determines "GET" "GET" "/api/v1/poll" "/api/v1/poll" "1728000000" "1728000000" [x31] [x31])
      as (_ & Hp & _ & Hb); try reflexivity; [eexists; reflexivity..|]. exact (conj Hp Hb).
  - intros H.
    apply BuildSignMessage_determines in H as (_ & _ & H & _);
      [discriminate H|reflexivity|reflexivity|eexists; reflexivity|eexists; reflexivity|reflexivity].
Defined.

(** With time stamps of different lengths it does not: what is signed for
    question 12 now is also what is signed for question 1 with a time stamp of
    the year 2657, which never expires. *)
Theorem BuildSignMessage_ambiguous body : BuildSignMessage "GET" "/api/v1/my/questions/12" "1700000000" (HashBody body) =
    BuildSignMessage "GET" "/api/v1/my/questions/1" "21700000000" (HashBody body) /\
  (forall maxDiff now, 0 <= now < 2 ^ 62 -> 0 <= maxDiff < 2 ^ 63 - 1 ->
     2 ^ 63 <= 21700000000 * Second - now -> timestamp_expired maxDiff now 21700000000 = false) /\
  timestamp_expired (30 * Second) (1728000000 * Second) 1700000000 = true.
Proof.
  split; [reflexivity|]. split; [|reflexivity]. intros maxDiff now Hnow Hmax Hfar.
  unfold timestamp_expired, timestamp_diff, time_Sub. change (time_Unix 21700000000) with (21700000000 * Second).
  rewrite (Z.max_l (- 2 ^ 63)) by lia. change (- 2 ^ 63 <? 0) with true.
  change (wrap64 (- - 2 ^ 63)) with (- 2 ^ 63). rewrite Z.gtb_ltb. apply Z.ltb_ge. lia.
Qed.

(** ** The administrator *)

(** A request is handled exactly if its header is "Bearer " and the token. *)
Lemma AdminAuth_exact {D} token (next : HttpRequest -> Prg (HttpResponse D)) r :
  (Header_Get r "Authorization" = ("Bearer " +:+ token)%string /\ AdminAuth token next r = next r) \/
  (Header_Get r "Authorization" <> ("Bearer " +:+ token)%string /\
   exists msg, AdminAuth token next r = Ret (unauthorized msg)).
Proof.
  unfold AdminAuth. set (h := Header_Get r "Authorization"). set (pre := bytes_of_string "Bearer ").
  assert (bytes_of_string ("Bearer " +:+ token) = pre ++ bytes_of_string token) as Happ by reflexivity.
  unfold HasPrefix, TrimPrefix. destruct (trim_prefix pre (bytes_of_string h)) as [rest|] eqn:Et; cbn [negb].
  - assert (bytes_of_string h = pre ++ rest) as Eh.
    { clear Happ. revert Et. generalize (bytes_of_string h) as l. clearbody pre. induction pre as [|x p IH]; intros l; cbn.
      - intros [= ->]. reflexivity.
      - destruct l as [|y l]; [discriminate|]. destruct (Byte.eqb x y) eqn:E; [|discriminate].
        apply Byte.byte_dec_bl in E as ->. intros Et. rewrite (IH l Et). reflexivity. }
    destruct (bool_decide _) eqn:Ed; cbn [negb].
    + apply bool_decide_eq_true_1 in Ed. left. split; [|reflexivity].
      rewrite <- (string_of_bytes_of_string h), Eh, Ed, <- Happ. apply string_of_bytes_of_string.
    + apply bool_decide_eq_false_1 in Ed. right. split; [|eauto]. intros E. rewrite E, Happ in Eh.
      apply app_inv_head in Eh. congruence.
  - right. split; [|eauto]. intros E. rewrite E, Happ, trim_prefix_app in Et. discriminate.
Qed.

(** ** A request

    Toy cryptography: a signature begins with the signer's address, followed by
    the head of the signed hash. *)

Definition toy_sig_to_pub (hash sig : list byte) : result (list byte) :=
  if bool_decide (take 44 (drop 20 sig) = take 44 (hash ++ replicate 44 x00)) then Ok (take 20 sig) else Err (Failure "no key").
Definition toy_hex_to_address (s : string) : Address := default [] (hexDecode s).
Definition toy_address_hex (a : Address) : string := ("0x" +:+ string_of_bytes (hex_encode a))%string.

Definition toy_address : Address := replicate 20 xab.
Definition toy_worker : string := toy_address_hex toy_address.
Definition toy_sign (message : string) : string :=
  toy_address_hex (toy_address ++ take 44 (toy_hash (prefixed message) ++ replicate 44 x00) ++ [x1b]).

Definition toy_request (method path timestamp : string) (body : list byte) : HttpRequest :=
  mkHttpRequest method path []
    [("X-Worker-Address"%string, toy_worker); ("X-Timestamp"%string, timestamp);
     ("X-Signature"%string, toy_sign (BuildSignMessage method path timestamp (HashBody body)))] (Ok body).

Abbreviation toy_authorize := (authorize toy_hash (list byte) toy_sig_to_pub id (fun _ => true) toy_hex_to_address toy_address_hex).

Definition auth_db : DB := mkDB [mkWorker toy_worker (Some (1000 * Second)) 3 None 0] [] [] [] [] [] [] [] 1 1.
Definition auth_state : St := mkState auth_db no_timers.
Definition poll_request : HttpRequest := toy_request "GET" "/api/v1/poll" "2000" [].

(** The suspension has ended at 1000; at 2000 the worker is let through and the
    suspension is lifted. *)
Lemma WorkerAuth_sound_witness :
  let out := run_top (still_env (2000 * Second) 0 refuse) (toy_authorize FullWorkerAuth poll_request : Prg (HttpResponse unit + string)) auth_state in
  out = (inr toy_worker, mkState (set_workers [mkWorker toy_worker None 3 None 0] auth_db) no_timers) /\
  signed_by toy_hash (list byte) toy_sig_to_pub id (fun _ => true) toy_hex_to_address toy_address_hex poll_request toy_worker.
Proof.
  intros out. assert (out = (inr toy_worker, mkState (set_workers [mkWorker toy_worker None 3 None 0] auth_db) no_timers)) as E
    by (vm_compute; reflexivity).
  split; [exact E|].
  pose proof (WorkerAuth_sound (D := unit) toy_hash (list byte) toy_sig_to_pub id (fun _ => true) toy_hex_to_address toy_address_hex
    FullWorkerAuth poll_request (still_env (2000 * Second) 0 refuse) auth_state
    (undisturbed_alone _ (still_undisturbed _ _ _)) (fun a => I)) as H.
  fold out in H. rewrite E in H. apply H.
Defined.

(** ** Lifting a suspension races with a new one *)

(** While the request is on its way to the UPDATE, the worker's score is found
    too low and it is suspended until 9000. *)
Definition suspended_again (s : St) : St :=
  {| s with db := update_worker toy_worker (fun w => {| w with w_SuspendedUntil := Some (9000 * Second); w_EpochViolations := 4 |}) (db s) |}.
Definition racing_suspension : ServerEnv :=
  {| (still_env (2000 * Second) 0 refuse) with interfere := fun t s => if bool_decide (t = 4%nat) then suspended_again s else s |}.

(** The end of an expired suspension is not tested again where it is
    lifted: a suspension that is set in between is erased, and the violation
    goes without its suspension. *)
Theorem unsuspend_race :
  let '(out, s) := run_top racing_suspension (toy_authorize FullWorkerAuth poll_request : Prg (HttpResponse unit + string)) auth_state in
  out = inr toy_worker /\ workers (db s) = [mkWorker toy_worker None 4 None 0] /\
  workers (db (suspended_again auth_state)) = [mkWorker toy_worker (Some (9000 * Second)) 4 None 0].
Proof. vm_compute. auto. Qed.
