(* ===== verification/Signing.v ===== *)
(** * The client's side of the authentication

    Models the rest of [src/internal/auth/auth.go]: how a client signs a
    message, and the forms of keys and addresses.

    go-ethereum's curve operations are section variables ([Sign], [HexToECDSA],
    the generator of keys); what the code relies on is stated as laws:
    [SigToPub] finds the key that signed, a signature has 65 bytes of which the
    last is 0 or 1, a printed address is read back, a key is read from the 32
    bytes of its number.

    Theorems: a signature verifies as the address of its key, in all the forms
    that wallets give it ([SignMessage_verifies]); a client that signs its request
    is let through ([WorkerAuth_complete], the companion of
    [Auth.WorkerAuth_sound]); a private key survives its text
    ([PrivateKeyFromHex_ToHex]). *)

From S2P Require Import Prelude Float64 GoLang Strconv Sha256 Merkle Model Calendar Prog Tables Store StoreQuestion Lifecycle Config RootNet Http Auth.
#[local] Open Scope prog_scope.

(** [FillBytes] of a [big.Int]: the absolute value as [n] bytes, big endian;
    it panics when that does not fit. *)
Definition FillBytes (x : Z) (n : nat) : option (list byte) :=
  let bytes := big_bytes (Z.abs x) in
  if (length bytes <=? n)%nat then Some (replicate (n - length bytes) x00 ++ bytes) else None.

Section Signing.
Context {P : Postgres}.
Variable Keccak256 : list byte -> list byte.
Variable PublicKey : Type.
Variable SigToPub : list byte -> list byte -> result PublicKey.
Variable PubkeyToAddress : PublicKey -> Address.
Variable IsHexAddress : string -> bool.
Variable HexToAddress : string -> Address.
Variable Address_Hex : Address -> string.

(** [ecdsa.PrivateKey]: its number and its public key. *)
Variable PrivateKey : Type.
Variable key_D : PrivateKey -> Z.
Variable key_PublicKey : PrivateKey -> PublicKey.
Variable Sign : list byte -> PrivateKey -> result (list byte).
Variable HexToECDSA : string -> result PrivateKey.
Variable Randomness : Type.
Variable crypto_GenerateKey : Randomness -> result PrivateKey.

(** [SignMessage]. *)
Definition SignMessage (privKey : PrivateKey) (message : string) : result (list byte) :=
  Sign (Keccak256 (prefixed message)) privKey.

(** [AddressFromPrivateKey]. *)
Definition AddressFromPrivateKey (privKey : PrivateKey) : Address := PubkeyToAddress (key_PublicKey privKey).

(** [ChecksumAddress]. *)
Definition ChecksumAddress (addr : Address) : string := Address_Hex addr.

(** [PrivateKeyFromHex]. *)
Definition PrivateKeyFromHex (hexKey : string) : result PrivateKey :=
  HexToECDSA (string_of_bytes (TrimPrefix (bytes_of_string hexKey) (bytes_of_string "0x"))).

(** [GenerateKey]. *)
Definition GenerateKey (random : Randomness) : result PrivateKey := crypto_GenerateKey random.

(** [PrivateKeyToHex]; [None] is the panic of [FillBytes]. *)
Definition PrivateKeyToHex (key : PrivateKey) : option string :=
  string_of_bytes ∘ hex_encode <$> FillBytes (key_D key) 32.

(** ** Text of signatures and keys *)

(** How wallets write a signature: with V as 0 or 1, or as 27 or 28, with or
    without the prefix 0x. *)
Definition wallet_v (v27 : bool) (sig : list byte) : list byte :=
  if v27 then match sig !! 64%nat with Some v => <[64%nat := byte_of (byte_val v + 27)]> sig | None => sig end else sig.
Definition sig_text (with_0x v27 : bool) (sig : list byte) : string :=
  ((if with_0x then "0x" else "") +:+ string_of_bytes (hex_encode (wallet_v v27 sig)))%string.

(** The digits of [hex_encode] do not begin with 0x. *)
Lemma hex_digit_not_x n : 0 <= n < 16 -> Byte.eqb x78 (hex_digit n) = false.
Proof using.
  intros Hn. pose proof (hex_value_digit n Hn) as H. destruct (Byte.eqb x78 (hex_digit n)) eqn:E; [|reflexivity].
  apply Byte.byte_dec_bl in E. rewrite <- E in H. discriminate.
Qed.

Lemma TrimPrefix_hex l : TrimPrefix (hex_encode l) (bytes_of_string "0x") = hex_encode l.
Proof using.
  unfold TrimPrefix. destruct l as [|b l]; [reflexivity|]. cbn [hex_encode trim_prefix bytes_of_string String.list_byte_of_string].
  change (trim_prefix (bytes_of_string "0x") (?x :: ?y :: ?l)) with
    (if Byte.eqb x30 x then if Byte.eqb x78 y then Some l else None else None).
  pose proof (byte_val_bound b). rewrite (hex_digit_not_x (byte_val b mod 16)) by (apply Z.mod_pos_bound; lia).
  destruct (Byte.eqb x30 _); reflexivity.
Qed.

Lemma TrimPrefix_text (with_0x : bool) l :
  TrimPrefix (bytes_of_string ((if with_0x then "0x" else "") +:+ string_of_bytes (hex_encode l))) (bytes_of_string "0x") = hex_encode l.
Proof using.
  rewrite bytes_of_string_app, bytes_of_string_of_bytes. destruct with_0x; [apply TrimPrefix_app|apply TrimPrefix_hex].
Qed.

Lemma hexDecode_text with_0x v27 sig : hexDecode (sig_text with_0x v27 sig) = Some (wallet_v v27 sig).
Proof using. unfold hexDecode, sig_text. rewrite TrimPrefix_text. apply hex_decode_encode. Qed.

Lemma length_wallet_v v27 sig : length (wallet_v v27 sig) = length sig.
Proof using. unfold wallet_v. destruct v27; [|reflexivity]. destruct (sig !! 64%nat); [apply length_insert|reflexivity]. Qed.

Lemma normalize_wallet_v v27 sig v : sig !! 64%nat = Some v -> byte_val v < 2 -> normalize_v (wallet_v v27 sig) = sig.
Proof using.
  intros Hv Hlt. pose proof (byte_val_bound v). unfold wallet_v, normalize_v. rewrite Hv. destruct v27.
  - assert (64 < length sig)%nat as Hlen by (apply lookup_lt_Some in Hv; exact Hv).
    rewrite list_lookup_insert_eq by exact Hlen. rewrite byte_val_of, Z.mod_small by lia.
    destruct (Z.leb_spec 27 (byte_val v + 27)); [|lia]. rewrite list_insert_insert_eq.
    replace (byte_val v + 27 - 27) with (byte_val v) by lia. rewrite byte_of_val. apply list_insert_id, Hv.
  - rewrite Hv. destruct (Z.leb_spec 27 (byte_val v)); [lia|reflexivity].
Qed.

(** ** What the client's functions promise the server *)

(** The documented behaviour of go-ethereum. *)
Hypothesis Sign_format : forall hash key sig, Sign hash key = Ok sig ->
  length sig = 65%nat /\ exists v, sig !! 64%nat = Some v /\ byte_val v < 2.
Hypothesis SigToPub_Sign : forall hash key sig, Sign hash key = Ok sig -> SigToPub hash sig = Ok (key_PublicKey key).

Abbreviation VerifySignature := (VerifySignature Keccak256 PublicKey SigToPub PubkeyToAddress).

(** C40: a signature of SignMessage verifies, for exactly that message, as the
    address of the signing key, whether its text has the prefix 0x or not and
    V is 0 or 1 or, as wallets write it, 27 or 28. *)
Theorem SignMessage_verifies key message sig with_0x v27 : SignMessage key message = Ok sig ->
  VerifySignature message (sig_text with_0x v27 sig) = Ok (AddressFromPrivateKey key).
Proof using Sign_format SigToPub_Sign.
  intros Hsig. destruct (Sign_format _ _ _ Hsig) as (Hlen & v & Hv & Hlt).
  unfold Auth.VerifySignature. rewrite hexDecode_text, length_wallet_v, Hlen. cbn [Z.of_nat Z.eqb negb].
  rewrite (normalize_wallet_v v27 sig v Hv Hlt). rewrite (SigToPub_Sign _ _ _ Hsig). reflexivity.
Qed.

(** ** A signed request is let through *)

Hypothesis Address_Hex_text : forall a, IsHexAddress (Address_Hex a) = true /\ HexToAddress (Address_Hex a) = a /\ Address_Hex a <> ""%string.

Abbreviation signer := (signer Keccak256 PublicKey SigToPub PubkeyToAddress IsHexAddress HexToAddress).
Abbreviation authorize := (authorize Keccak256 PublicKey SigToPub PubkeyToAddress IsHexAddress HexToAddress Address_Hex).

(** The client's part: the headers of a request that [key] signs. *)
Definition signed_request (key : PrivateKey) (r : HttpRequest) : Prop :=
  exists body sig with_0x v27, rq_Body r = Ok body /\
    SignMessage key (BuildSignMessage (rq_Method r) (rq_Path r) (Header_Get r "X-Timestamp") (HashBody body)) = Ok sig /\
    Header_Get r "X-Signature" = sig_text with_0x v27 sig /\
    Header_Get r "X-Worker-Address" = ChecksumAddress (AddressFromPrivateKey key).

(** The address under which the server knows the key. *)
Definition worker_of (key : PrivateKey) : string := ToLower (Address_Hex (AddressFromPrivateKey key)).

(** A known worker that is not suspended where that is checked, or a new one
    that the registry accepts. *)
Definition welcome (cfg : WorkerAuthConfig) (E : ServerEnv) (address : string) (s : St) : Prop :=
  match find_worker address (db s) with
  | Some w => wc_CheckSuspension cfg = true -> forall n, IsSuspended (clock E n) w = false
  | None => forall n, exists n', run E false (registerCheck cfg address) (mkPos n false) s = (Ok true, s, mkPos n' false)
  end.

Lemma sig_text_nonempty with_0x v27 sig : length sig = 65%nat -> sig_text with_0x v27 sig <> ""%string.
Proof using.
  intros Hlen H. assert (bytes_of_string (sig_text with_0x v27 sig) = []) as E by (rewrite H; reflexivity).
  unfold sig_text in E. rewrite bytes_of_string_app, bytes_of_string_of_bytes in E.
  apply app_nil in E as [_ E]. apply (f_equal length) in E. rewrite length_hex_encode, length_wallet_v, Hlen in E. discriminate.
Qed.

Lemma signer_signed_request {D} key r : signed_request key r -> (signer r : HttpResponse D + Address) = inr (AddressFromPrivateKey key).
Proof using Sign_format SigToPub_Sign Address_Hex_text.
  intros (body & sig & with_0x & v27 & Hbody & Hsig & Hhs & Hha). unfold Auth.signer. rewrite Hbody, Hhs, Hha.
  rewrite (SignMessage_verifies key _ sig with_0x v27 Hsig). unfold AddressFromHex, ChecksumAddress.
  destruct (Address_Hex_text (AddressFromPrivateKey key)) as (-> & -> & _). cbn [negb]. rewrite bool_decide_eq_true_2 by reflexivity. reflexivity.
Qed.

Lemma admit_run {D} cfg E address w n s : (wc_CheckSuspension cfg = true -> IsSuspended (clock E n) w = false) ->
  (forall t s, interfere E t s = s) ->
  exists s' pos, run E false (check_suspension cfg address w : Prg (HttpResponse D + string)) (mkPos n false) s = (inr address, s', pos).
Proof using.
  intros Hs Hi. unfold check_suspension. cbn [run tick next_pos].
  destruct (wc_CheckSuspension cfg); [rewrite Hs by reflexivity|]; cbn [andb run tick next_pos]; rewrite run_bind.
  all: destruct (bool_decide (is_Some (w_SuspendedUntil w)) && _); [unfold UnsuspendWorker|].
  all: try (change (next_pos (next_pos {| tick := n; aborted := false |})) with (mkPos (S (S n)) false); rewrite run_exec by exact Hi).
  all: cbn [run]; eauto.
Qed.

(** C9: no client that follows the protocol is locked out: a request that a key
    signed, for its own address, in time, is let through as that address when
    the worker is known and not suspended, or is new and registered, as long
    as the database answers. *)
Theorem WorkerAuth_complete {D} cfg key r ts E s : undisturbed E ->
  signed_request key r -> Atoi (Header_Get r "X-Timestamp") = Some ts ->
  timestamp_expired (timestampMaxDiff cfg) (clock E 0) ts = false ->
  welcome cfg E (worker_of key) s ->
  fst (run_top E (authorize cfg r : Prg (HttpResponse D + string)) s) = inr (worker_of key).
Proof using Sign_format SigToPub_Sign Address_Hex_text.
  intros HE Hr Hts Htime Hw. pose proof (alone_still E (undisturbed_alone E HE)) as Hi.
  assert (forall n, fault E n = None) as Hf.
  { intros n. destruct (fault E n) as [m|] eqn:Ef; [|reflexivity]. destruct HE as (_ & HE & _). destruct (HE n m Ef). }
  pose proof (signer_signed_request (D := D) key r Hr) as Hsigner.
  destruct Hr as (body & sig & with_0x & v27 & _ & Hsig & Hhs & Hha). destruct (Sign_format _ _ _ Hsig) as [Hlen _].
  unfold run_top, Auth.authorize. rewrite (bool_decide_eq_false_2 (Header_Get r "X-Worker-Address" = ""%string))
    by (rewrite Hha; apply Address_Hex_text).
  rewrite (bool_decide_eq_false_2 (Header_Get r "X-Signature" = ""%string)) by (rewrite Hhs; apply sig_text_nonempty, Hlen).
  rewrite (bool_decide_eq_false_2 (Header_Get r "X-Timestamp" = ""%string)) by (intros H0; rewrite H0 in Hts; discriminate).
  cbn [orb]. rewrite Hts. cbn [run tick]. rewrite Htime, Hsigner. fold (worker_of key).
  destruct (wc_SignatureOnly cfg); [reflexivity|]. rewrite run_bind. change (next_pos (mkPos 0 false)) with (mkPos 1 false).
  unfold find_or_create, GetWorker. rewrite run_bind, run_query by exact Hi. rewrite Hf. cbn [wrap_error].
  unfold welcome in Hw. destruct (find_worker (worker_of key) (db s)) as [w|] eqn:Ew.
  - cbn [run]. destruct (admit_run (D := D) cfg E (worker_of key) w 2 s (fun H => Hw H 2%nat) Hi) as (s' & pos & ->). reflexivity.
  - rewrite run_bind. destruct (Hw 2%nat) as (n1 & ->). rewrite run_bind. unfold CreateWorker, bind_ok.
    rewrite run_bind, run_exec by exact Hi. rewrite Hf. unfold insert_worker. rewrite Ew. cbn [fst snd wrap_error run].
    set (w := mkWorker _ _ _ _ _). set (s1 := mkState _ _).
    destruct (admit_run (D := D) cfg E (worker_of key) w (S n1) s1 (fun _ => eq_refl) Hi) as (s' & pos & ->). reflexivity.
Qed.

(** ** Keys *)

Hypothesis key_D_range : forall key, 0 <= key_D key < 2 ^ 256.
Hypothesis HexToECDSA_bytes : forall key s bytes, hex_decode (bytes_of_string s) = Some bytes -> length bytes = 32%nat ->
  be_value bytes = key_D key -> HexToECDSA s = Ok key.

Lemma FillBytes_value x n : 0 <= x < 256 ^ Z.of_nat n -> exists bytes, FillBytes x n = Some bytes /\ length bytes = n /\ be_value bytes = x.
Proof using.
  intros Hx. unfold FillBytes. rewrite Z.abs_eq by lia. pose proof (big_len_bound x n Hx) as Hlen. rewrite <- length_big_bytes in Hlen.
  rewrite (proj2 (Nat.leb_le _ _) Hlen). eexists. split; [reflexivity|]. split.
  - rewrite length_app, length_replicate. lia.
  - unfold be_value. rewrite rev_app_distr.
    assert (forall k, rev (replicate k x00) = replicate k x00) as -> by (intros k; rewrite rev_alt; apply reverse_replicate).
    rewrite le_value_zeros. apply be_value_big_bytes. lia.
Qed.

(** A private key survives its text: PrivateKeyToHex never panics, and
    PrivateKeyFromHex reads the text back, with the prefix 0x or without. *)
Theorem PrivateKeyFromHex_ToHex key (with_0x : bool) : exists text, PrivateKeyToHex key = Some text /\
  PrivateKeyFromHex ((if with_0x then "0x" else "") +:+ text)%string = Ok key.
Proof using key_D_range HexToECDSA_bytes.
  destruct (FillBytes_value (key_D key) 32 (key_D_range key)) as (bytes & Hb & Hlen & Hval).
  exists (string_of_bytes (hex_encode bytes)). unfold PrivateKeyToHex, PrivateKeyFromHex. rewrite Hb. split; [reflexivity|].
  rewrite TrimPrefix_text. apply (HexToECDSA_bytes key _ bytes); [|exact Hlen|exact Hval].
  rewrite bytes_of_string_of_bytes. apply hex_decode_encode.
Qed.
End Signing.

(** ** Examples

    The toy cryptography of [Auth]: a key is a byte, which its address
    repeats. *)

Definition toy_public (key : byte) : list byte := replicate 20 key.
Definition toy_Sign (hash : list byte) (key : byte) : result (list byte) :=
  Ok (toy_public key ++ take 44 (hash ++ replicate 44 x00) ++ [x00]).
Definition toy_HexToECDSA (s : string) : result byte :=
  match hex_decode (bytes_of_string s) with
  | Some bytes => if (length bytes =? 32)%nat then Ok (byte_of (be_value bytes)) else Err (Failure "invalid length")
  | None => Err (Failure "invalid hex data")
  end.

Lemma toy_head_length (hash : list byte) : length (take 44 (hash ++ replicate 44 x00)) = 44%nat.
Proof. rewrite length_take, length_app, length_replicate. lia. Qed.

Lemma toy_Sign_format hash key sig : toy_Sign hash key = Ok sig ->
  length sig = 65%nat /\ exists v, sig !! 64%nat = Some v /\ byte_val v < 2.
Proof.
  unfold toy_Sign. generalize (toy_public key) (eq_refl : length (toy_public key) = 20%nat). intros pub Hpub.
  generalize (take 44 (hash ++ replicate 44 x00)) (toy_head_length hash). intros h Hlen [= <-].
  split; [rewrite !length_app, Hlen, Hpub; reflexivity|]. exists x00. split; [|reflexivity].
  rewrite app_assoc, list_lookup_middle; [reflexivity|]. rewrite length_app, Hlen, Hpub. reflexivity.
Qed.

Lemma toy_SigToPub_Sign hash key sig : toy_Sign hash key = Ok sig -> toy_sig_to_pub hash sig = Ok (toy_public key).
Proof.
  unfold toy_Sign. generalize (toy_public key) (eq_refl : length (toy_public key) = 20%nat). intros pub Hpub.
  unfold toy_sig_to_pub. generalize (take 44 (hash ++ replicate 44 x00)) (toy_head_length hash). intros h Hlen [= <-].
  rewrite (drop_app_length' pub) by (symmetry; exact Hpub). rewrite (take_app_length' h) by (symmetry; exact Hlen).
  rewrite bool_decide_eq_true_2 by reflexivity. rewrite (take_app_length' pub) by (symmetry; exact Hpub). reflexivity.
Qed.

Lemma toy_address_text a : (fun _ => true) (toy_address_hex a) = true /\ toy_hex_to_address (toy_address_hex a) = a /\ toy_address_hex a <> ""%string.
Proof.
  split; [reflexivity|]. split; [|discriminate]. unfold toy_hex_to_address. change (toy_address_hex a) with (sig_text true false a).
  rewrite hexDecode_text. reflexivity.
Qed.

Lemma toy_key_range key : 0 <= byte_val key < 2 ^ 256.
Proof. pose proof (byte_val_bound key). split; [lia|]. apply Z.lt_trans with 256; [lia|reflexivity]. Qed.

Lemma toy_HexToECDSA_bytes key s bytes : hex_decode (bytes_of_string s) = Some bytes -> length bytes = 32%nat ->
  be_value bytes = byte_val key -> toy_HexToECDSA s = Ok key.
Proof. intros Hs Hlen Hval. unfold toy_HexToECDSA. rewrite Hs, Hlen, Hval, byte_of_val. reflexivity. Qed.

(** A message, signed in the form of a wallet. *)
Lemma SignMessage_verifies_witness : exists sig,
  SignMessage toy_hash byte toy_Sign xab "hello" = Ok sig /\
  VerifySignature toy_hash (list byte) toy_sig_to_pub id "hello" (sig_text true true sig) = Ok (replicate 20 xab).
Proof.
  eexists. split; [reflexivity|].
  exact (SignMessage_verifies toy_hash (list byte) toy_sig_to_pub id byte toy_public toy_Sign
    toy_Sign_format toy_SigToPub_Sign xab "hello" _ true true eq_refl).
Defined.

(** The suspended worker of [Auth.auth_state] after the end of its suspension. *)
Lemma WorkerAuth_complete_witness :
  fst (run_top (still_env (2000 * Second) 0 refuse) (toy_authorize FullWorkerAuth poll_request : Prg (HttpResponse unit + string)) auth_state)
  = inr toy_worker.
Proof.
  assert (worker_of (list byte) id toy_address_hex byte toy_public xab = toy_worker) as <- by (vm_compute; reflexivity).
  apply (WorkerAuth_complete toy_hash (list byte) toy_sig_to_pub id (fun _ => true) toy_hex_to_address toy_address_hex
    byte toy_public toy_Sign toy_Sign_format toy_SigToPub_Sign toy_address_text FullWorkerAuth xab poll_request 2000).
  - apply still_undisturbed.
  - eexists [], _, true, true. split; [reflexivity|]. split; [reflexivity|]. split; vm_compute; reflexivity.
  - vm_compute. reflexivity.
  - vm_compute. reflexivity.
  - intros _ n. vm_compute. reflexivity.
Defined.

Lemma PrivateKeyFromHex_ToHex_witness :
  let text := "00000000000000000000000000000000000000000000000000000000000000ab"%string in
  PrivateKeyToHex byte byte_val xab = Some text /\ PrivateKeyFromHex byte toy_HexToECDSA ("0x" +:+ text)%string = Ok xab.
Proof.
  destruct (PrivateKeyFromHex_ToHex byte byte_val toy_HexToECDSA toy_key_range toy_HexToECDSA_bytes xab true) as (t & Ht & Hk).
  assert (PrivateKeyToHex byte byte_val xab = Some "00000000000000000000000000000000000000000000000000000000000000ab"%string) as E
    by (vm_compute; reflexivity).
  split; [exact E|]. rewrite E in Ht. injection Ht as <-. exact Hk.
Defined.
