(* ===== verification/HandlersWorker.v ===== *)
(** * The workers' API

    Models [src/internal/handler/poll.go], [answer.go], [question.go] and
    [worker_scores.go].  A handler gets the address that [WorkerAuth] put in the
    request's context (the empty string if there is none) and the request.

    The texts of instants in replies are left as instants: a TIMESTAMPTZ is
    shown in the time zone of the database session.  Dates are texts.

    What these handlers keep of the shared state is shown in [Server], and what
    a worker can learn from them in [Secrecy]. *)

From S2P Require Import Prelude Float64 GoLang Strconv Json Model Calendar Prog Tables Store StoreQuestion StoreEpoch StoreQueries Lifecycle Config Scoring Timer Poll Answer QuestionService Http.
#[local] Open Scope Z_scope.
#[local] Open Scope prog_scope.

(** [json.NewDecoder(r.Body).Decode(&req)]: the first value of the body. *)
Definition body_json (r : HttpRequest) : option json :=
  match rq_Body r with Ok body => parse body | Err _ => None end.

(** [if worker == "" { ... }]. *)
Definition authenticated {D} (worker : string) (p : Prg (HttpResponse D)) : Prg (HttpResponse D) :=
  if bool_decide (worker = ""%string) then Ret (unauthorized "not authenticated") else p.

Section Handlers.
Context {P : Postgres}.

(** ** poll.go *)

Definition HandlePoll (svc : PollService) (worker : string) : Prg (HttpResponse PollResult) :=
  authenticated worker (
  let* result := PollOnline svc worker in
  match result with
  | Err _ => Ret internal_error
  | Ok result => Ret (writeJSON StatusOK result)
  end).

(** ** answer.go *)

Record submitAnswerRequest := mkSubmitAnswerBody { ab_QuestionID : Z; ab_Valid : bool; ab_Answer : string }.

Definition decode_submitAnswerRequest (v : json) : option submitAnswerRequest :=
  ms ← struct_members v;
  questionID ← int_field "question_id" ms;
  valid ← bool_field "valid" ms;
  answer ← string_field "answer" ms;
  Some (mkSubmitAnswerBody questionID valid answer).

(** [map[string]bool{"accepted": true}]. *)
Definition HandleSubmitAnswer (OnAnswerSubmitted : option (Assignment -> Prg unit)) (worker : string) (r : HttpRequest) :
    Prg (HttpResponse bool) :=
  authenticated worker (
  match v ← body_json r; decode_submitAnswerRequest v with
  | None => Ret (bad_request "invalid json")
  | Some req =>
      if ab_QuestionID req =? 0 then Ret (bad_request "question_id is required")
      else
        let* res := SubmitAnswer OnAnswerSubmitted
          (mkSubmitAnswerRequest (ab_QuestionID req) (ab_Valid req) (ab_Answer req) worker) in
        match res with
        | Ok _ => Ret (writeJSON StatusOK true)
        | Err e =>
            match errors_As e with
            | Some (Code, Message) => Ret (bad_request (Code +:+ ": " +:+ Message))
            | None => Ret internal_error
            end
        end
  end).

(** ** question.go *)

Record submitQuestionRequest := mkSubmitQuestionBody { qb_BSID : string; qb_Question : string; qb_Answer : string }.

Definition decode_submitQuestionRequest (v : json) : option submitQuestionRequest :=
  ms ← struct_members v;
  bsID ← string_field "bs_id" ms;
  question ← string_field "question" ms;
  answer ← string_field "answer" ms;
  Some (mkSubmitQuestionBody bsID question answer).

(** The status of a user error. *)
Definition question_error_status (Code : string) : Z :=
  if bool_decide (Code = "not_enough_miners"%string) then StatusServiceUnavailable else StatusBadRequest.

(** [map[string]int64{"question_id": ...}]. *)
Definition HandleSubmitQuestion (svc : QuestionService) (worker : string) (r : HttpRequest) : Prg (HttpResponse Z) :=
  authenticated worker (
  match v ← body_json r; decode_submitQuestionRequest v with
  | None => Ret (bad_request "invalid json")
  | Some req =>
      if bool_decide (qb_BSID req = ""%string) || bool_decide (qb_Question req = ""%string) ||
         bool_decide (qb_Answer req = ""%string)
      then Ret (bad_request "bs_id, question, and answer are required")
      else
        let* result := SubmitQuestion svc (mkSubmitQuestionRequest (qb_BSID req) (qb_Question req) (qb_Answer req) worker) in
        match result with
        | Ok id => Ret (writeJSON StatusCreated id)
        | Err e =>
            match errors_As e with
            | Some (Code, Message) => Ret (writeError (question_error_status Code) (Code +:+ ": " +:+ Message))
            | None => Ret internal_error
            end
        end
  end).

(** ** worker_scores.go *)

Record minerStatusView := mkMinerStatusView {
  ms_Address : string;
  ms_Suspended : bool;
  ms_SuspendedUntil : option Z;
  ms_EpochViolations : Z;
  ms_LastPollAt : option Z;
  ms_CreatedAt : Z;
  ms_Stats : WorkerAggregateStats
}.

(** [wk.IsSuspended()] reads the clock. *)
Definition HandleMyStatus (worker : string) : Prg (HttpResponse minerStatusView) :=
  authenticated worker (
  let* wk := GetWorker worker in
  match wk with
  | Ok (Some wk) =>
      let* stats := GetWorkerAggregateStats worker in
      match stats with
      | Err _ => Ret internal_error
      | Ok stats =>
          Now (fun now =>
          Ret (writeJSON StatusOK (mkMinerStatusView (w_Address wk) (IsSuspended now wk) (w_SuspendedUntil wk)
                 (w_EpochViolations wk) (w_LastPollAt wk) (w_CreatedAt wk) stats)))
      end
  | _ => Ret internal_error
  end).

Record questionScoreView := mkQuestionScoreView {
  qv_QuestionID : Z;
  qv_BSID : string;
  qv_Question : string;
  qv_Answer : string;
  qv_Status : string;
  qv_Score : Z;
  qv_Share : float64;
  qv_PassRate : float64;
  qv_Benchmark : bool;
  qv_CreatedAt : Z;
  qv_ScoredAt : option Z
}.

Definition toQuestionScoreView (q : Question) : questionScoreView :=
  mkQuestionScoreView (q_QuestionID q) (q_BSID q) (q_Question q) (q_Answer q) (question_status_string (q_Status q))
    (q_Score q) (q_Share q) (q_PassRate q) (q_Benchmark q) (q_CreatedAt q) (q_ScoredAt q).

Record assignmentScoreView := mkAssignmentScoreView {
  av_AssignmentID : Z;
  av_QuestionID : Z;
  av_Question : string;
  av_Status : string;
  av_Score : Z;
  av_Share : float64;
  av_ReplyDDL : Z;
  av_ReplyValid : option bool;
  av_ReplyAnswer : option string;
  av_CreatedAt : Z
}.

Definition toAssignmentScoreView (a : Assignment) (questionText : string) : assignmentScoreView :=
  mkAssignmentScoreView (a_AssignmentID a) (a_QuestionID a) questionText (assignment_status_string (a_Status a))
    (a_Score a) (a_Share a) (a_ReplyDDL a) (a_ReplyValid a) (a_ReplyAnswer a) (a_CreatedAt a).

(** A time of the query: absent, present, or no RFC 3339 time. *)
Definition time_param (r : HttpRequest) (key : string) : option (option Z) :=
  let s := Query_Get r key in
  if bool_decide (s = ""%string) then Some None
  else t ← ParseRFC3339 s; Some (Some t).

Definition HandleMyQuestions (worker : string) (r : HttpRequest) : Prg (HttpResponse (list questionScoreView)) :=
  authenticated worker (
  match time_param r "from" with
  | None => Ret (bad_request "invalid 'from' time format")
  | Some from =>
      match time_param r "to" with
      | None => Ret (bad_request "invalid 'to' time format")
      | Some to =>
          let* questions := ListQuestionsByFilter (mkQuestionFilter worker (Query_Get r "status") from to) in
          match questions with
          | Err _ => Ret internal_error
          | Ok questions => Ret (writeJSON StatusOK (map toQuestionScoreView questions))
          end
      end
  end).

Definition HandleMyQuestion (worker questionID : string) : Prg (HttpResponse questionScoreView) :=
  authenticated worker (
  match Atoi questionID with
  | None => Ret (bad_request "invalid question_id")
  | Some qID =>
      let* q := GetQuestion qID in
      match q with
      | Ok (Some q) =>
          if bool_decide (q_Questioner q = worker) then Ret (writeJSON StatusOK (toQuestionScoreView q)) else Ret not_found
      | _ => Ret not_found
      end
  end).

(** The texts of the questions, in the order of iteration over their ids. *)
Fixpoint question_texts (ids : list Z) (qMap : gmap Z string) : Prg (result (gmap Z string)) :=
  match ids with
  | [] => Ret (Ok qMap)
  | qID :: ids =>
      let? q := GetQuestion qID in
      question_texts ids (match q with Some q => <[qID := q_Question q]> qMap | None => qMap end)
  end.

Definition buildAssignmentViews (assignments : list Assignment) : Prg (result (list assignmentScoreView)) :=
  Range (remove_dups (map a_QuestionID assignments)) (fun ids =>
  let? qMap := question_texts ids ∅ in
  Ret (Ok (map (fun a => toAssignmentScoreView a (default ""%string (qMap !! a_QuestionID a))) assignments))).

Definition HandleMyAssignments (worker : string) (r : HttpRequest) : Prg (HttpResponse (list assignmentScoreView)) :=
  authenticated worker (
  match time_param r "from" with
  | None => Ret (bad_request "invalid 'from' time format")
  | Some from =>
      match time_param r "to" with
      | None => Ret (bad_request "invalid 'to' time format")
      | Some to =>
          let* assignments := ListAssignmentsByFilter (mkAssignmentFilter worker (Query_Get r "status") from to) in
          match assignments with
          | Err _ => Ret internal_error
          | Ok assignments =>
              let* views := buildAssignmentViews assignments in
              match views with
              | Err _ => Ret internal_error
              | Ok views => Ret (writeJSON StatusOK views)
              end
          end
      end
  end).

Definition HandleMyAssignment (worker assignmentID : string) : Prg (HttpResponse assignmentScoreView) :=
  authenticated worker (
  match Atoi assignmentID with
  | None => Ret (bad_request "invalid assignment_id")
  | Some aID =>
      let* a := GetAssignment aID in
      match a with
      | Ok (Some a) =>
          if negb (bool_decide (a_Worker a = worker)) then Ret not_found
          else
            let* q := GetQuestion (a_QuestionID a) in
            let qText := match q with Ok (Some q) => q_Question q | _ => ""%string end in
            Ret (writeJSON StatusOK (toAssignmentScoreView a qText))
      | _ => Ret not_found
      end
  end).

Record epochRewardView := mkEpochRewardView {
  ev_EpochDate : string;
  ev_ScoredAsks : Z;
  ev_ScoredAnswers : Z;
  ev_TimedOutAnswers : Z;
  ev_AskScoreSum : Z;
  ev_AnswerScoreSum : Z;
  ev_RawReward : Z;
  ev_CompositeScore : float64;
  ev_FinalReward : Z
}.

Definition toEpochRewardView (r : WorkerEpochReward) : epochRewardView :=
  mkEpochRewardView (FormatDate (r_EpochDate r)) (r_ScoredAsks r) (r_ScoredAnswers r) (r_TimedOutAnswers r)
    (r_AskScoreSum r) (r_AnswerScoreSum r) (r_RawReward r) (r_CompositeScore r) (r_FinalReward r).

Definition HandleMyEpochs (worker : string) : Prg (HttpResponse (list epochRewardView)) :=
  authenticated worker (
  let* rewards := ListWorkerEpochRewards worker in
  match rewards with
  | Err _ => Ret internal_error
  | Ok rewards => Ret (writeJSON StatusOK (map toEpochRewardView rewards))
  end).

Definition HandleMyEpoch (worker epoch_date : string) : Prg (HttpResponse epochRewardView) :=
  authenticated worker (
  match ParseDate epoch_date with
  | None => Ret (bad_request "invalid epoch_date")
  | Some epochDate =>
      let* reward := GetWorkerEpochReward worker epochDate in
      match reward with
      | Ok (Some reward) => Ret (writeJSON StatusOK (toEpochRewardView reward))
      | _ => Ret not_found
      end
  end).
End Handlers.
