(* ===== verification/HandlersPublic.v ===== *)
(** * The public API

    Models [src/internal/handler/claims.go] and
    [src/internal/handler/public.go], which need no authentication.
    [Server] shows that they change nothing, [Secrecy] that they show no answer
    of an open question, [Claims] that the claims they serve verify. *)

From S2P Require Import Prelude Float64 GoLang Strconv Model Calendar Prog Tables Store StoreQuestion StoreEpoch StoreQueries Lifecycle Config Http.
#[local] Open Scope Z_scope.
#[local] Open Scope prog_scope.

Section Public.
Context {P : Postgres} {N : PostgresNumeric}.

(** ** claims.go *)

Record claimView := mkClaimView {
  cv_EpochDate : string;
  cv_Recipient : string;
  cv_Amount : Z;
  cv_LeafHash : string;
  cv_Proof : list string;
  cv_MerkleRoot : string;
  cv_Claimed : bool
}.

Definition claim_view (p : MerkleProofRow) (root : string) : claimView :=
  mkClaimView (FormatDate (m_EpochDate p)) (m_Recipient p) (m_Amount p) (m_LeafHash p) (m_Proof p) root (m_Claimed p).

(** The loop over the proofs: one whose root is missing or cannot be read is
    left out. *)
Fixpoint claim_views (proofs : list MerkleProofRow) : Prg (list claimView) :=
  match proofs with
  | [] => Ret []
  | p :: proofs =>
      let* root := GetEpochMerkleRoot (m_EpochDate p) in
      let* views := claim_views proofs in
      match root with
      | Ok root => if bool_decide (root = ""%string) then Ret views else Ret (claim_view p root :: views)
      | Err _ => Ret views
      end
  end.

Definition HandleClaims (address : string) : Prg (HttpResponse (list claimView)) :=
  let address := ToLower address in
  if bool_decide (address = ""%string) then Ret (bad_request "missing address")
  else
    let* proofs := ListMerkleProofsByRecipient address in
    match proofs with
    | Err _ => Ret internal_error
    | Ok proofs =>
        let* views := claim_views proofs in
        Ret (writeJSON StatusOK views)
    end.

(** An error of the second query is only logged: the root is empty then. *)
Definition HandleClaim (address epoch_date : string) : Prg (HttpResponse claimView) :=
  let address := ToLower address in
  if bool_decide (address = ""%string) then Ret (bad_request "missing address")
  else
    match ParseDate epoch_date with
    | None => Ret (bad_request "invalid epoch_date, use YYYY-MM-DD")
    | Some epochDate =>
        let* proof := GetMerkleProof epochDate address in
        match proof with
        | Err _ => Ret internal_error
        | Ok None => Ret not_found
        | Ok (Some proof) =>
            let* root := GetEpochMerkleRoot epochDate in
            Ret (writeJSON StatusOK (claim_view proof (match root with Ok root => root | Err _ => ""%string end)))
        end
    end.

(** ** public.go *)

Definition HandleStats : Prg (HttpResponse ProtocolStats) :=
  let* stats := GetProtocolStats in
  match stats with
  | Err _ => Ret internal_error
  | Ok stats => Ret (writeJSON StatusOK stats)
  end.

(** The limit of the query: a positive number, or the default. *)
Definition limit_param (r : HttpRequest) (dflt : Z) : Z :=
  match Atoi (Query_Get r "limit") with
  | Some n => if 0 <? n then n else dflt
  | None => dflt
  end.

Definition HandleLeaderboard (r : HttpRequest) : Prg (HttpResponse (list LeaderboardEntry)) :=
  let* entries := GetLeaderboard (limit_param r 20) in
  match entries with
  | Err _ => Ret internal_error
  | Ok entries => Ret (writeJSON StatusOK entries)
  end.

Definition HandlePublicQuestions (r : HttpRequest) : Prg (HttpResponse (list PublicQuestion)) :=
  let* questions := GetRecentQuestions (ToLower (Query_Get r "worker")) (limit_param r 20) in
  match questions with
  | Err _ => Ret internal_error
  | Ok questions => Ret (writeJSON StatusOK questions)
  end.

Definition HandlePublicAssignments (r : HttpRequest) : Prg (HttpResponse (list PublicAssignment)) :=
  let v := Query_Get r "question_id" in
  match (if bool_decide (v = ""%string) then Some 0 else Atoi v) with
  | None => Ret (bad_request "invalid question_id")
  | Some qID =>
      let* assignments := ListPublicAssignments
        (mkPublicAssignmentFilter qID (ToLower (Query_Get r "worker")) (limit_param r 20)) in
      match assignments with
      | Err _ => Ret internal_error
      | Ok assignments => Ret (writeJSON StatusOK assignments)
      end
  end.

Record epochView := mkEpochView { pe_EpochDate : string; pe_TotalReward : Z; pe_TotalScored : Z }.

Definition HandlePublicEpochs : Prg (HttpResponse (list epochView)) :=
  let* epochs := ListEpochs in
  match epochs with
  | Err _ => Ret internal_error
  | Ok epochs =>
      Ret (writeJSON StatusOK (map (fun e => mkEpochView (FormatDate (e_EpochDate e)) (e_TotalReward e) (e_TotalScored e)) epochs))
  end.

Record minerRewardView := mkMinerRewardView {
  mr_EpochDate : string;
  mr_WorkerAddress : string;
  mr_ScoredAsks : Z;
  mr_ScoredAnswers : Z;
  mr_CompositeScore : float64;
  mr_FinalReward : Z
}.

Definition HandleRecipientRewards (address : string) : Prg (HttpResponse (list minerRewardView)) :=
  let addr := ToLower address in
  if bool_decide (addr = ""%string) then Ret (bad_request "missing address")
  else
    let* rewards := ListRecipientEpochRewards addr in
    match rewards with
    | Err _ => Ret internal_error
    | Ok rewards =>
        Ret (writeJSON StatusOK (map (fun rw =>
          mkMinerRewardView (FormatDate (r_EpochDate rw)) (r_WorkerAddress rw) (r_ScoredAsks rw) (r_ScoredAnswers rw)
            (r_CompositeScore rw) (r_FinalReward rw)) rewards))
    end.

Definition HandleWorkerToday (rtConfig : RuntimeConfig) (address : string) : Prg (HttpResponse WorkerTodayStats) :=
  let addr := ToLower address in
  if bool_decide (addr = ""%string) then Ret (bad_request "missing address")
  else
    let cfg := settlementConfig rtConfig in
    let* stats := GetWorkerTodayStats addr (sc_TotalReward cfg) (sc_MinTasks cfg) in
    match stats with
    | Err _ => Ret internal_error
    | Ok stats => Ret (writeJSON StatusOK stats)
    end.
End Public.
