(* ===== verification/Onchain.v ===== *)
(** * Publishing the Merkle root on chain

    Models [src/internal/service/onchain.go].  The go-ethereum library is
    third-party code: connecting, the node's replies and sending are requests;
    the private key, the signature and the ABI's method are the section variables
    [key_address], [sign_ok] and [setMerkleRoot].  The reply to
    [TransactionReceipts] is the list of the node's answers to the polls of
    [waitForReceipt], one every two seconds, up to the end of the context.

    Theorems: an epoch is marked published only when the node confirmed the
    transaction that carries its stored root and its epoch number, and an error
    leaves the database alone ([PublishMerkleRoot_sound]); the epoch number
    identifies the date and fits a uint32 ([dateToEpochUint32_identifies]). *)

From S2P Require Import Prelude Float64 GoLang Strconv Calendar Merkle Model Prog Tables Store StoreQuestion StoreEpoch Lifecycle Config.
#[local] Open Scope prog_scope.

(** [dateToEpochUint32]: YYYYMMDD. *)
Definition dateToEpochUint32 (t : Z) : Z :=
  let '(y, m, d) := civil (day_number t) in wrapu32 (y * 10000 + m * 100 + d).

(** What [abi.NewMethod] makes of setMerkleRoot(uint32,bytes32): its selector
    and the encoding of its arguments. *)
Record AbiMethod := mkAbiMethod {
  method_ID : list byte;
  Inputs_Pack : Z -> Hash -> result (list byte)
}.

(** [packSetMerkleRoot]: the call data. *)
Definition packSetMerkleRoot (method : AbiMethod) (epoch : Z) (root : Hash) : result (list byte) :=
  match Inputs_Pack method epoch root with
  | Err e => Err e
  | Ok packed => Ok (method_ID method ++ packed)
  end.

Record OnchainService := mkOnchainService {
  os_Config : OnchainConfig;
  os_RtConfig : option RuntimeConfig
}.

Definition os_cfg (svc : OnchainService) : OnchainConfig :=
  match os_RtConfig svc with
  | Some c => GetOnchainConfig c
  | None => os_Config svc
  end.

(** [waitForReceipt]: the first receipt, and whether its status is a success;
    the context's error when there was none before it was done. *)
Fixpoint waitForReceipt (polls : list (result bool)) : result bool :=
  match polls with
  | Ok success :: _ => Ok success
  | Err _ :: polls => waitForReceipt polls
  | [] => Err (Failure "context canceled")
  end.

Section Onchain.
Context {P : Postgres}.
Variable key_address : string -> result Address.
Variable sign_ok : Z -> Z -> Z -> result unit.
Variable setMerkleRoot : AbiMethod.
Variable ethHexToHash : string -> Hash.
Variable HexToAddress : string -> Address.

Definition PublishMerkleRoot (svc : OnchainService) (epochDate : Z) : Prg (result unit) :=
  let cfg := os_cfg svc in
  if bool_decide (oc_RPCURL cfg = ""%string) || bool_decide (oc_ContractAddress cfg = ""%string) ||
     bool_decide (oc_PrivateKeyHex cfg = ""%string)
  then Ret (Err (Failure "on-chain publishing not configured"))
  else
    let? root := wrapped "get merkle root" (GetEpochMerkleRoot epochDate) in
    if bool_decide (root = ""%string) then Ret (Err (Failure "no merkle root for epoch"))
    else
      let? _ := Call (DialContext (oc_RPCURL cfg)) (fun r => Ret (wrap_error "dial rpc" r)) in
      match key_address (oc_PrivateKeyHex cfg) with
      | Err e => Ret (Err (Wrapped "parse private key" e))
      | Ok fromAddress =>
          match packSetMerkleRoot setMerkleRoot (dateToEpochUint32 epochDate) (ethHexToHash root) with
          | Err e => Ret (Err (Wrapped "pack call data" e))
          | Ok data =>
              let? nonce := Call (PendingNonceAt fromAddress) (fun r => Ret (wrap_error "get nonce" r)) in
              let? gasPrice := Call SuggestGasPrice (fun r => Ret (wrap_error "suggest gas price" r)) in
              match sign_ok nonce gasPrice (oc_ChainID cfg) with
              | Err e => Ret (Err (Wrapped "sign tx" e))
              | Ok _ =>
                  let? _ := Call (SendTransaction nonce gasPrice (HexToAddress (oc_ContractAddress cfg)) data)
                              (fun r => Ret (wrap_error "send tx" r)) in
                  let? success := Call TransactionReceipts (fun l => Ret (wrap_error "wait for receipt" (waitForReceipt l))) in
                  if negb success then Ret (Err (Failure "tx reverted"))
                  else
                    let? _ := wrapped "set epoch published" (SetEpochPublished epochDate) in
                    Ret (Ok tt)
              end
          end
      end.
End Onchain.

(** Publishing keeps the life cycle of questions and assignments. *)
Lemma PublishMerkleRoot_safe {P : Postgres} key sign pack h2h h2a svc t :
  safe (PublishMerkleRoot key sign pack h2h h2a svc t).
Proof.
  unfold PublishMerkleRoot, GetEpochMerkleRoot, SetEpochPublished. prove_safe.
  apply safe_exec. intros env d. apply rg_other_tables; reflexivity.
Qed.

(** ** What is published *)

Section Published.
Context {P : Postgres}.
Variable key_address : string -> result Address.
Variable sign_ok : Z -> Z -> Z -> result unit.
Variable setMerkleRoot : AbiMethod.
Variable ethHexToHash : string -> Hash.
Variable HexToAddress : string -> Address.

(** The node accepted the transaction with the epoch's number and the root, and
    the first receipt it gave is that of a success. *)
Definition confirmed (E : ServerEnv) (svc : OnchainService) (t : Z) (root : string) : Prop :=
  exists data nonce gasPrice i j,
    packSetMerkleRoot setMerkleRoot (dateToEpochUint32 t) (ethHexToHash root) = Ok data /\
    reply E i (SendTransaction nonce gasPrice (HexToAddress (oc_ContractAddress (os_cfg svc))) data) = Ok tt /\
    (i < j)%nat /\ waitForReceipt (reply E j TransactionReceipts) = Ok true.

(** C31: an epoch is marked as published only when the node accepted the
    transaction with its date's number and its stored Merkle root and confirmed
    it by a receipt of success; nothing else changes, and whatever fails, a
    publication that returns an error changes nothing. *)
Theorem PublishMerkleRoot_sound E svc t s : alone E ->
  let '(out, s') := run_top E (PublishMerkleRoot key_address sign_ok setMerkleRoot ethHexToHash HexToAddress svc t) s in
  match out with
  | Err _ => s' = s
  | Ok _ => exists e root now, find_epoch t (db s) = Some e /\ e_MerkleRoot e = Some root /\ root <> ""%string /\
      confirmed E svc t root /\
      s' = {| s with db := update_epochs t (fun e => {| e with e_PublishedAt := Some now |}) (db s) |}
  end.
Proof using.
  intros HE. assert (forall u v, interfere E u v = v) as Hi by (intros u v; symmetry; apply (proj1 HE)).
  unfold run_top, PublishMerkleRoot. destruct (_ || _); [reflexivity|].
  unfold wrapped, bind_ok, GetEpochMerkleRoot, SetEpochPublished. rewrite !run_bind, run_query by exact Hi.
  destruct (fault E 0); [reflexivity|]. cbn [wrap_error run].
  destruct (find_epoch t (db s)) as [e|] eqn:Ee; [|reflexivity].
  destruct (e_MerkleRoot e) as [root|] eqn:Er; [|reflexivity]. change (default ""%string (Some root)) with root.
  destruct (bool_decide (root = ""%string)) eqn:Ed; [reflexivity|]. apply bool_decide_eq_false_1 in Ed.
  rewrite run_bind. cbn [run tick next_pos]. destruct (reply E 1 _) as [[]|err]; [|reflexivity]. cbn [wrap_error].
  destruct (key_address _) as [from|err]; [|reflexivity].
  destruct (packSetMerkleRoot _ _ _) as [data|err] eqn:Epack; [|reflexivity].
  rewrite run_bind. cbn [run tick next_pos]. destruct (reply E 2 _) as [nonce|err]; [|reflexivity]. cbn [wrap_error].
  rewrite run_bind. cbn [run tick next_pos]. destruct (reply E 3 _) as [gasPrice|err]; [|reflexivity]. cbn [wrap_error].
  destruct (sign_ok _ _ _); [|reflexivity].
  rewrite run_bind. cbn [run tick next_pos]. destruct (reply E 4 _) as [[]|err] eqn:Esend; [|reflexivity]. cbn [wrap_error].
  rewrite run_bind. cbn [run tick next_pos]. destruct (waitForReceipt _) as [ok|err] eqn:Ewait; [|reflexivity]. cbn [wrap_error].
  destruct ok; [|reflexivity]. cbn [negb]. unfold next_pos. cbn [tick aborted]. rewrite !run_bind, run_exec by exact Hi.
  destruct (fault E 6); [destruct s; reflexivity|]. cbn.
  exists e, root, (sql_now (sql_env E 6)). split; [reflexivity|]. split; [exact Er|]. split; [exact Ed|].
  split; [exists data, nonce, gasPrice, 4%nat, 5%nat|]; auto with lia.
Qed.
End Published.

Definition no_abi : AbiMethod := mkAbiMethod [] (fun _ _ => Err (Failure "no abi")).

(** An epoch of 2024-10-04 whose root is stored; the node answers the second
    poll. *)
Definition toy_epoch_db : DB := mkDB [] [] [] [] [mkEpoch (20000 * (24 * Hour)) 1000 1 None (Some "0xroot"%string) None] [] [] [] 1 1.
Definition toy_abi : AbiMethod := mkAbiMethod [x01; x02; x03; x04] (fun n _ => Ok (bytes_of_string (Itoa n))).
Definition toy_node (req : Request) : Response req :=
  match req with
  | HttpCheck url => refuse (HttpCheck url)
  | HttpUser url => refuse (HttpUser url)
  | DialContext _ => Ok tt
  | PendingNonceAt _ => Ok 7
  | SuggestGasPrice => Ok 10
  | SendTransaction _ _ _ _ => Ok tt
  | TransactionReceipts => [Err (Failure "not found"); Ok true]
  end.

Lemma PublishMerkleRoot_sound_witness :
  let run := run_top (still_env 5000 0 toy_node)
    (PublishMerkleRoot (fun _ => Ok []) (fun _ _ _ => Ok tt) toy_abi (fun _ => []) (fun _ => [])
       (mkOnchainService (mkOnchainConfig "http://node" "0xmanager" "key" 1) None) (20000 * (24 * Hour)))
    (mkState toy_epoch_db no_timers) in
  fst run = Ok tt /\
  exists now, snd run = mkState (update_epochs (20000 * (24 * Hour)) (fun e => {| e with e_PublishedAt := Some now |}) toy_epoch_db) no_timers.
Proof.
  intros run. subst run.
  pose proof (PublishMerkleRoot_sound (fun _ => Ok []) (fun _ _ _ => Ok tt) toy_abi (fun _ => []) (fun _ => [])
    (still_env 5000 0 toy_node) (mkOnchainService (mkOnchainConfig "http://node" "0xmanager" "key" 1) None) (20000 * (24 * Hour))
    (mkState toy_epoch_db no_timers) (undisturbed_alone _ (still_undisturbed _ _ _))) as H.
  destruct (run_top _ _ _) as [out s'] eqn:Er.
  assert (out = Ok tt) as -> by (apply (f_equal fst) in Er; cbn [fst] in Er; rewrite <- Er; vm_compute; reflexivity).
  destruct H as (e & root & now & _ & _ & _ & _ & ->). split; [reflexivity|]. exists now. reflexivity.
Defined.

(** ** The epoch number *)

(** The epoch number on chain is the date written YYYYMMDD; it fits the
    uint32 and identifies the date, for every date from 1970 to 9999. *)
Theorem dateToEpochUint32_identifies t u : 0 <= t < year_10000 -> 0 <= u < year_10000 ->
  let '(y, m, d) := civil (day_number t) in
  dateToEpochUint32 t = y * 10000 + m * 100 + d /\ 1 <= m <= 12 /\ 1 <= d <= 31 /\
  (dateToEpochUint32 t = dateToEpochUint32 u <-> date_of t = date_of u).
Proof.
  intros Ht Hu. unfold dateToEpochUint32.
  assert (forall v, 0 <= v < year_10000 -> 0 <= day_number v < 2932897) as Hday.
  { intros v Hv. unfold year_10000, day_number in *. split; [apply Z.div_pos; lia|apply Z.div_lt_upper_bound; lia]. }
  assert (forall days y, 0 <= days < 2932897 ->
    400 * ((days + 719468) / 146097) <= y <= 400 * ((days + 719468) / 146097) + 400 -> 0 <= y <= 10000) as Hyear.
  { intros days y Hd Hy. pose proof (Z.div_mod (days + 719468) 146097 ltac:(lia)).
    pose proof (Z.mod_pos_bound (days + 719468) 146097 ltac:(lia)). lia. }
  assert (date_of t = date_of u <-> day_number t = day_number u) as Hdate
    by (unfold date_of, day_number; assert (0 < 24 * Hour) by reflexivity; nia).
  specialize (Hday t Ht) as Ht'. specialize (Hday u Hu) as Hu'.
  pose proof (civil_spec (day_number t)) as Hct. pose proof (civil_spec (day_number u)) as Hcu.
  destruct (civil (day_number t)) as [[y m] d] eqn:Et, (civil (day_number u)) as [[y2 m2] d2] eqn:Eu.
  destruct Hct as (Hm & Hd & Hdays & Hy). destruct Hcu as (Hm2 & Hd2 & Hdays2 & Hy2).
  apply (Hyear _ _ Ht') in Hy. apply (Hyear _ _ Hu') in Hy2. unfold wrapu32.
  rewrite !Z.mod_small by lia. split; [reflexivity|]. split; [exact Hm|]. split; [exact Hd|]. rewrite Hdate. split.
  - intros E. assert (y = y2 /\ m = m2 /\ d = d2) as (-> & -> & ->) by lia. congruence.
  - intros E. assert ((y, m, d) = (y2, m2, d2)) as [= -> -> ->] by congruence. reflexivity.
Qed.

(** Two instants of 2024-10-04. *)
Lemma dateToEpochUint32_identifies_witness :
  let t := 20000 * (24 * Hour) in
  dateToEpochUint32 t = 20241004 /\
  (dateToEpochUint32 t = dateToEpochUint32 (t + 5 * Hour) <-> date_of t = date_of (t + 5 * Hour)).
Proof.
  intros t. assert (0 <= t < year_10000) as H1 by (vm_compute; split; [discriminate|reflexivity]).
  assert (0 <= t + 5 * Hour < year_10000) as H2 by (vm_compute; split; [discriminate|reflexivity]).
  split; [vm_compute; reflexivity|].
  pose proof (dateToEpochUint32_identifies t (t + 5 * Hour) H1 H2) as H.
  destruct (civil (day_number t)) as [[y m] d]. apply H.
Defined.
