(* ===== verification/Settlement.v ===== *)
(** * Epoch settlement

    Models [src/internal/service/settlement.go]: the clean-up that makes a retry
    possible, the statistics per worker, composite scores and rewards, the
    benchmark judgment, and the Merkle tree of the rewards with its proofs.

    A range over a Go map is [Prog.Range] over the entries.  The concurrent
    RootNet lookups of [buildMerkleTree] do not touch the shared state; they
    run one after the other here, and the error that is returned is any of the
    errors that occurred.  Sums of scores and counts of rows stay far below
    2^63 (the columns are INTs) and are written without wrap-around; sums of
    rewards wrap.  The Keccak hash, the conversions of go-ethereum and the
    on-chain publication are section variables, the last one a program.

    Theorems: the final rewards of an epoch never exceed its total and are never
    negative ([settlement_conserves]); settling keeps the life cycle of
    questions and assignments ([Settle_safe]). *)

From Stdlib Require Import QArith Lqa.
From S2P Require Import Prelude Float64 GoLang Merkle Model Prog Tables Store StoreQuestion StoreEpoch Lifecycle Config RootNet.
#[local] Open Scope Z_scope.
#[local] Open Scope prog_scope.

Record SettlementService := mkSettlementService {
  st_Config : SettlementConfig;
  st_RtConfig : option RuntimeConfig;
  st_RootNet : RootNetClient;
  st_Onchain : option (Z -> Prg (result unit))
}.

Definition st_cfg (svc : SettlementService) : SettlementConfig :=
  match st_RtConfig svc with
  | Some c => settlementConfig c
  | None => st_Config svc
  end.

Definition isTestnet (svc : SettlementService) : bool :=
  match st_RtConfig svc with Some c => IsTestnetMode c | None => false end.

(** ** Statistics *)

Record minerStats := mkMinerStats {
  scoredAsks : Z;
  scoredAnswers : Z;
  timedOutAnswers : Z;
  askScoreSum : Z;
  answerScoreSum : Z;
  rawReward : Z
}.

Definition no_stats : minerStats := mkMinerStats 0 0 0 0 0 0.

Abbreviation Stats := (gmap string minerStats).

(** [ensureStats(addr)] and the updates through the pointer it returns. *)
Definition update_stats (addr : string) (u : minerStats -> minerStats) (stats : Stats) : Stats :=
  <[addr := u (default no_stats (stats !! addr))]> stats.

(** [int64(float64(pool) * share)]. *)
Definition pay (pool : Z) (share : float64) : Z := to_int64 (fmul (of_int pool) share).

Definition add_ask (askPool : Z) (q : Question) (ms : minerStats) : minerStats :=
  {| ms with scoredAsks := scoredAsks ms + 1; askScoreSum := askScoreSum ms + q_Score q;
             rawReward := wrap64 (rawReward ms + pay askPool (q_Share q)) |}.

Definition add_answer (ansPool : Z) (a : Assignment) (ms : minerStats) : minerStats :=
  {| ms with scoredAnswers := scoredAnswers ms + (if is_scored a then 1 else 0);
             timedOutAnswers := timedOutAnswers ms +
               (if negb (is_scored a) && is_timed_out a then 1 else 0);
             answerScoreSum := answerScoreSum ms + a_Score a;
             rawReward := wrap64 (rawReward ms + pay ansPool (a_Share a)) |}.

(** [aByQ]: the assignments of each question, in the order of the query. *)
Definition aByQ (assignments : list Assignment) : gmap Z (list Assignment) :=
  fold_left (fun m a => <[a_QuestionID a := default [] (m !! a_QuestionID a) ++ [a]]> m) assignments ∅.

Definition add_question (askPool ansPool : Z) (byQ : gmap Z (list Assignment)) (stats : Stats) (q : Question) : Stats :=
  fold_left (fun stats a => update_stats (a_Worker a) (add_answer ansPool a) stats)
    (default [] (byQ !! q_QuestionID q))
    (update_stats (q_Questioner q) (add_ask askPool q) stats).

Definition aggregate (askPool ansPool : Z) (questions : list Question) (assignments : list Assignment) : Stats :=
  fold_left (add_question askPool ansPool (aByQ assignments)) questions ∅.

(** The pools of one question. *)
Definition base_reward (totalReward totalQuestions : Z) : Z := go_div totalReward totalQuestions.
Definition ask_pool (baseReward : Z) : Z := go_div baseReward 3.
Definition ans_pool (baseReward : Z) : Z := wrap64 (baseReward - ask_pool baseReward).

(** ** Scores and rewards *)

Definition hasAsks (ms : minerStats) : bool := scoredAsks ms >? 0.
Definition hasAnswers (ms : minerStats) : bool := scoredAnswers ms + timedOutAnswers ms >? 0.
Definition askAvg (ms : minerStats) : float64 :=
  if hasAsks ms then of_ratio (askScoreSum ms) (scoredAsks ms) else fzero.
Definition ansAvg (ms : minerStats) : float64 :=
  if hasAnswers ms then of_ratio (answerScoreSum ms) (scoredAnswers ms + timedOutAnswers ms) else fzero.

Definition composite (ms : minerStats) : float64 :=
  if hasAsks ms && hasAnswers ms then fdiv (fadd (askAvg ms) (ansAvg ms)) (of_int 10)
  else if hasAsks ms then fdiv (askAvg ms) (of_int 10)
  else if hasAnswers ms then fdiv (ansAvg ms) (of_int 10)
  else fzero.

Definition finalReward (minTasks : Z) (ms : minerStats) : Z :=
  if scoredAsks ms + scoredAnswers ms >=? minTasks
  then to_int64 (fmul (of_int (rawReward ms)) (composite ms))
  else 0.

Definition reward_of (epochDate minTasks : Z) (entry : string * minerStats) : WorkerEpochReward :=
  let '(addr, ms) := entry in
  mkWorkerEpochReward epochDate addr None (scoredAsks ms) (scoredAnswers ms) (timedOutAnswers ms)
    (askScoreSum ms) (answerScoreSum ms) (rawReward ms) (composite ms) (finalReward minTasks ms).

Section Settlement.
Context {P : Postgres}.
Variable Keccak256 : list byte -> list byte.
Variable BytesToHash : list byte -> Hash.
Variable HexToAddress : string -> Address.
Variable svc : SettlementService.

(** ** The Merkle tree *)

(** An eligible worker, its recipient once it is known, and its reward. *)
Record recipientResult := mkRecipientResult {
  rr_workerAddr : string;
  rr_recipient : string;
  rr_reward : Z
}.

Definition maxRetries : nat := 3.

(** Up to [n] more attempts. *)
Fixpoint lookup_recipient (n : nat) (workerAddr : string) : Prg (result string) :=
  match n with
  | O => Ret (Err (Failure "no attempts"))
  | S n =>
      let* r := GetRewardRecipient (st_RootNet svc) workerAddr in
      match r, n with
      | Ok r, _ => Ret (Ok r)
      | Err e, O => Ret (Err e)
      | Err _, S _ => lookup_recipient n workerAddr
      end
  end.

(** The lookups of all eligible workers: their results, in order. *)
Fixpoint lookup_all (l : list (string * Z)) : Prg (list (string * Z * result string)) :=
  match l with
  | [] => Ret []
  | (addr, reward) :: l =>
      let* r := lookup_recipient maxRetries addr in
      let* rest := lookup_all l in
      Ret ((addr, reward, r) :: rest)
  end.

Definition lookup_errors (l : list (string * Z * result string)) : list error :=
  omap (fun '(_, _, r) => match r with Err e => Some e | Ok _ => None end) l.
Definition lookup_successes (l : list (string * Z * result string)) : list recipientResult :=
  omap (fun '(addr, reward, r) => match r with Ok r => Some (mkRecipientResult addr r reward) | Err _ => None end) l.

(** The recipients of the eligible workers. *)
Definition resolve_recipients (eligible : list (string * Z)) : Prg (result (list recipientResult)) :=
  if isTestnet svc then
    Ret (Ok (map (fun '(addr, reward) => mkRecipientResult addr (ToLower addr) reward) eligible))
  else
    let* results := lookup_all eligible in
    Range (lookup_errors results) (fun errs =>
    match errs with
    | e :: _ => Ret (Err (Wrapped "RootNet lookup failed" e))
    | [] => Ret (Ok (lookup_successes results))
    end).

(** [recipientRewards[e.recipient] += e.reward]. *)
Definition add_reward (m : gmap string Z) (e : recipientResult) : gmap string Z :=
  <[rr_recipient e := wrap64 (default 0 (m !! rr_recipient e) + rr_reward e)]> m.

Definition leaf_of (info : string * Z) : LeafT := Leaf (HexToAddress (fst info)) (snd info).

Definition save_proof (epochDate : Z) (tree : TreeT) (info : string * Z) : Prg (result unit) :=
  match Proof Keccak256 BytesToHash tree (leaf_of info) with
  | Err e => Ret (Err (Wrapped "proof" e))
  | Ok proof =>
      wrapped "save proof" (SaveMerkleProof
        (mkMerkleProofRow epochDate (fst info) (snd info)
           (HashToHex (HashLeaf Keccak256 BytesToHash (leaf_of info))) (ProofToHex proof) false))
  end.

Definition buildMerkleTree (epochDate : Z) (minerFinalRewards : gmap string Z) : Prg (result unit) :=
  Range (map_to_list minerFinalRewards) (fun entries =>
  let eligible := List.filter (fun e => 0 <? snd e) entries in
  let? resolved := resolve_recipients eligible in
  for_each resolved (fun e => wrapped "set recipient"
    (SetWorkerEpochRecipient epochDate (rr_workerAddr e) (rr_recipient e))) ;;?
  Range (map_to_list (fold_left add_reward resolved ∅)) (fun infos =>
  match infos with
  | [] => Ret (Ok tt)
  | _ =>
      match NewTree Keccak256 BytesToHash (map leaf_of infos) with
      | Err e => Ret (Err (Wrapped "new tree" e))
      | Ok tree =>
          wrapped "set root" (SetEpochMerkleRoot epochDate (HashToHex (Root tree))) ;;?
          for_each infos (save_proof epochDate tree)
      end
  end)).

(** ** Settle *)

(** One question of the benchmark judgment. *)
Definition judge_benchmark (composites : gmap string float64) (minScore : float64) (q : Question) : Prg (result unit) :=
  if q_Score q <? 4 then Ret (Ok tt)
  else
    let? invalidCount := wrapped "count invalid" (CountInvalidReports (q_QuestionID q)) in
    if invalidCount >? 1 then Ret (Ok tt)
    else if fltb (default fzero (composites !! q_Questioner q)) minScore then Ret (Ok tt)
    else wrapped "mark benchmark" (MarkBenchmark (q_QuestionID q) (q_BSID q)).

(** The end of a settlement: the epoch is finished, the violations are reset,
    and the root is published; an error of that is only logged. *)
Definition finish_settlement (epochDate totalQuestions : Z) : Prg (result unit) :=
  wrapped "finish epoch" (FinishEpoch epochDate totalQuestions) ;;?
  wrapped "reset violations" ResetAllEpochViolations ;;?
  let* _ := match st_Onchain svc with
            | Some publish => if negb (isTestnet svc)
                              then let* _ := publish epochDate in Ret tt else Ret tt
            | None => Ret tt
            end in
  Ret (Ok tt).

Definition Settle (epochDate : Z) : Prg (result unit) :=
  let cfg := st_cfg svc in
  let? _ := wrapped "create epoch" (CreateOrResetEpoch epochDate (sc_TotalReward cfg)) in
  let start := epochDate in
  let stop := epochDate + 24 * Hour in
  wrapped "cleanup merkle proofs" (DeleteEpochMerkleProofs epochDate) ;;?
  wrapped "cleanup rewards" (DeleteEpochRewards epochDate) ;;?
  wrapped "cleanup benchmark flags" (ResetBenchmarkFlags start stop) ;;?
  let? questions := wrapped "list questions" (ListScoredQuestionsInRange start stop) in
  let totalQuestions := Z.of_nat (length questions) in
  if totalQuestions =? 0 then wrapped "finish epoch" (FinishEpoch epochDate 0)
  else
    let? assignments := wrapped "list assignments"
      (ListScoredAssignmentsForQuestions (map q_QuestionID questions)) in
    let baseReward := base_reward (sc_TotalReward cfg) totalQuestions in
    let stats := aggregate (ask_pool baseReward) (ans_pool baseReward) questions assignments in
    Range (map_to_list stats) (fun entries =>
    wrapped "batch save rewards"
      (BatchSaveWorkerEpochRewards (map (reward_of epochDate (sc_MinTasks cfg)) entries)) ;;?
    for_each questions (judge_benchmark (composite <$> stats) (sc_BenchmarkMinScore cfg)) ;;?
    wrapped "build merkle tree" (buildMerkleTree epochDate (finalReward (sc_MinTasks cfg) <$> stats)) ;;?
    finish_settlement epochDate totalQuestions).
End Settlement.

(** ** Every step keeps the life cycle *)

Section Safety.
Context {P : Postgres}.

Lemma update_epochs_rg t u d : rg d (update_epochs t u d).
Proof using. apply rg_other_tables; reflexivity. Qed.

Lemma CreateOrResetEpoch_safe t r : safe (CreateOrResetEpoch t r).
Proof using.
  apply safe_exec. intros env d. unfold upsert_epoch. destruct (find_epoch t d); apply rg_other_tables; reflexivity.
Qed.

Lemma DeleteEpochRewards_safe t : safe (DeleteEpochRewards t).
Proof using. apply safe_exec. intros env d. apply rg_other_tables; reflexivity. Qed.

Lemma DeleteEpochMerkleProofs_safe t : safe (DeleteEpochMerkleProofs t).
Proof using. apply safe_exec. intros env d. apply rg_other_tables; reflexivity. Qed.

Lemma ResetBenchmarkFlags_safe a b : safe (ResetBenchmarkFlags a b).
Proof using. apply safe_exec. intros env d. apply rg_benchmark_flag. Qed.

Lemma FinishEpoch_safe t n : safe (FinishEpoch t n).
Proof using. apply safe_exec. intros env d. destruct (int4 n); [apply update_epochs_rg|reflexivity]. Qed.

Lemma MarkBenchmark_safe q b : safe (MarkBenchmark q b).
Proof using.
  unfold MarkBenchmark. prove_safe; apply safe_exec; intros env d; [apply rg_benchmark_flag|apply update_bs_rg].
Qed.

Lemma insert_reward_rg r d d' : insert_reward r d = Ok d' -> rg d d'.
Proof using.
  unfold insert_reward. repeat (case_goal; try discriminate).
  intros [= <-]. apply rg_other_tables; reflexivity.
Qed.

Lemma insert_rewards_rg rs : forall d d', insert_rewards rs d = Ok d' -> rg d d'.
Proof using.
  induction rs as [|r rs IH]; intros d d'; cbn [insert_rewards]; [intros [= <-]; reflexivity|].
  destruct (insert_reward r d) as [d1|e] eqn:E; [|discriminate].
  intros H. etransitivity; [apply (insert_reward_rg r d d1 E) | apply IH, H].
Qed.

Lemma BatchSaveWorkerEpochRewards_safe rs : safe (BatchSaveWorkerEpochRewards rs).
Proof using.
  unfold BatchSaveWorkerEpochRewards. prove_safe. apply safe_exec. intros env d. unfold insert_rewards_stmt.
  destruct (insert_rewards x d) as [d'|e] eqn:E; [apply (insert_rewards_rg x), E | reflexivity].
Qed.

Lemma SetWorkerEpochRecipient_safe t w r : safe (SetWorkerEpochRecipient t w r).
Proof using. apply safe_exec. intros env d. apply rg_other_tables; reflexivity. Qed.

Lemma ResetAllEpochViolations_safe : safe ResetAllEpochViolations.
Proof using. apply safe_exec. intros env d. apply rg_other_tables; reflexivity. Qed.

Lemma SetEpochMerkleRoot_safe t r : safe (SetEpochMerkleRoot t r).
Proof using. apply safe_exec. intros env d. apply update_epochs_rg. Qed.

Lemma SetEpochPublished_safe t : safe (SetEpochPublished t).
Proof using. apply safe_exec. intros env d. apply update_epochs_rg. Qed.

Lemma SaveMerkleProof_safe p : safe (SaveMerkleProof p).
Proof using.
  apply safe_exec. intros env d. unfold insert_proof. destruct (find_epoch _ d); [|reflexivity].
  destruct (existsb _ _); [reflexivity|]. apply rg_other_tables; reflexivity.
Qed.
End Safety.

#[export] Hint Resolve CreateOrResetEpoch_safe DeleteEpochRewards_safe DeleteEpochMerkleProofs_safe
  ResetBenchmarkFlags_safe FinishEpoch_safe MarkBenchmark_safe BatchSaveWorkerEpochRewards_safe
  SetWorkerEpochRecipient_safe ResetAllEpochViolations_safe SetEpochMerkleRoot_safe SetEpochPublished_safe
  SaveMerkleProof_safe : safe.

Section SettleSafe.
Context {P : Postgres}.
Variable Keccak256 : list byte -> list byte.
Variable BytesToHash : list byte -> Hash.
Variable HexToAddress : string -> Address.
Variable svc : SettlementService.

Lemma lookup_recipient_safe n w : safe (lookup_recipient svc n w).
Proof using.
  induction n as [|n IH]; [apply safe_Ret|]. cbn [lookup_recipient]. unfold GetRewardRecipient. prove_safe.
Qed.

Lemma lookup_all_safe l : safe (lookup_all svc l).
Proof using.
  induction l as [|[addr reward] l IH]; [apply safe_Ret|]. cbn [lookup_all].
  apply safe_bind; [apply lookup_recipient_safe|]. intros r. apply safe_bind; [exact IH|]. intros rest. apply safe_Ret.
Qed.

Lemma buildMerkleTree_safe t m : safe (buildMerkleTree Keccak256 BytesToHash HexToAddress svc t m).
Proof using.
  unfold buildMerkleTree, resolve_recipients, save_proof. prove_safe. apply lookup_all_safe.
Qed.

Lemma Settle_safe t : (forall f, st_Onchain svc = Some f -> forall t', safe (f t')) ->
  safe (Settle Keccak256 BytesToHash HexToAddress svc t).
Proof using.
  intros Hcb. unfold Settle, finish_settlement, judge_benchmark, ListScoredQuestionsInRange, ListScoredAssignmentsForQuestions, CountInvalidReports.
  prove_safe; first [apply buildMerkleTree_safe | apply Hcb; reflexivity].
Qed.
End SettleSafe.

(** ** Conservation *)

(** The ten-thousandths of a stored share. *)
Definition share_units (f : float64) : Z := default 0 (round_numeric f).
Definition stored_share (f : float64) : Prop := f = of_numeric (share_units f) /\ 0 <= share_units f <= 10000.

(** The sum of a quantity over the workers. *)
Definition total {X} (f : X -> Z) (m : gmap string X) : Z := sum_by (fun e => f (snd e)) (map_to_list m).

Section Totals.
Context {X : Type}.
Implicit Types (m : gmap string X) (f : X -> Z).

Lemma total_empty f : total f ∅ = 0.
Proof using. unfold total. rewrite map_to_list_empty. reflexivity. Qed.

Lemma total_insert_new f m k x : m !! k = None -> total f (<[k := x]> m) = f x + total f m.
Proof using.
  intros H. unfold total. rewrite (sum_by_perm _ _ _ (map_to_list_insert m k x H)). reflexivity.
Qed.

Lemma total_insert f m k x : total f (<[k := x]> m) = total f m + f x - match m !! k with Some y => f y | None => 0 end.
Proof using.
  destruct (m !! k) as [y|] eqn:E; [|rewrite total_insert_new by exact E; lia].
  rewrite <- (insert_delete_eq m k x), total_insert_new by apply lookup_delete_eq.
  rewrite <- (insert_id m k y E) at 2. rewrite <- (insert_delete_eq m k y), total_insert_new by apply lookup_delete_eq.
  lia.
Qed.

Lemma total_le f m B : (forall k x, m !! k = Some x -> 0 <= f x) -> total f m <= B ->
  forall k x, m !! k = Some x -> f x <= B.
Proof using.
  intros Hp Ht k x H. rewrite <- (insert_id m k x H), <- (insert_delete_eq m k x), total_insert_new in Ht
    by apply lookup_delete_eq.
  assert (0 <= total f (delete k m)); [|lia]. apply sum_by_nonneg. intros [k' x'] H'.
  apply elem_of_map_to_list, lookup_delete_Some in H'. cbn. destruct H'. eauto.
Qed.

Lemma total_mono f g m : (forall k x, m !! k = Some x -> f x <= g x) -> total f m <= total g m.
Proof using. intros H. apply sum_by_le. intros [k x] Hx. apply elem_of_map_to_list in Hx. cbn. eauto. Qed.

Lemma total_fmap {Y} (g : Y -> X) f (m : gmap string Y) : total f (g <$> m) = total (fun y => f (g y)) m.
Proof using.
  unfold total. rewrite map_to_list_fmap.
  change ((prod_map id g) <$> map_to_list m) with (map (prod_map id g) (map_to_list m)).
  rewrite sum_by_map. reflexivity.
Qed.
End Totals.

(** What holds of a worker's statistics: rewards are not negative, scores are
    at most 5 each, and there are at most [N] tasks of each kind. *)
Definition wf_stats (N : Z) (ms : minerStats) : Prop :=
  0 <= rawReward ms /\ 0 <= scoredAsks ms <= N /\ 0 <= scoredAnswers ms /\ 0 <= timedOutAnswers ms /\
  scoredAnswers ms + timedOutAnswers ms <= N /\
  0 <= askScoreSum ms <= 5 * scoredAsks ms /\
  0 <= answerScoreSum ms <= 5 * (scoredAnswers ms + timedOutAnswers ms).

Definition stats_ok (N B : Z) (stats : Stats) : Prop :=
  (forall addr ms, stats !! addr = Some ms -> wf_stats N ms) /\ total rawReward stats <= B.

(** One update that adds [d] to the reward and at most one task of a kind. *)
Lemma update_stats_ok N B d stats addr u :
  stats_ok N B stats -> 0 <= d -> B + d < 2 ^ 63 -> 0 <= N ->
  (forall ms, wf_stats N ms -> rawReward ms <= B ->
     wf_stats (N + 1) (u ms) /\ rawReward (u ms) = wrap64 (rawReward ms + d)) ->
  stats_ok (N + 1) (B + d) (update_stats addr u stats).
Proof.
  intros [Hwf Ht] Hd Hb HN Hu.
  set (old := default no_stats (stats !! addr)).
  assert (wf_stats N old /\ rawReward old <= B) as [Hold Hle].
  { subst old. destruct (stats !! addr) as [ms|] eqn:E; cbn.
    - split; [exact (Hwf addr ms E)|]. apply (total_le rawReward stats B) with (k := addr); auto.
      intros k x H. apply (Hwf k x H).
    - split; [unfold wf_stats; cbn; lia|]. assert (0 <= total rawReward stats); [|lia].
      apply sum_by_nonneg. intros [k x] H. apply elem_of_map_to_list in H. apply (Hwf k x H). }
  destruct (Hu old Hold Hle) as [H1 H2]. pose proof (proj1 Hold) as H0. rewrite wrap64_id in H2 by lia.
  split.
  - intros a ms H. unfold update_stats in H. fold old in H. destruct (decide (addr = a)) as [<-|Hne].
    + rewrite lookup_insert_eq in H. injection H as <-. exact H1.
    + rewrite lookup_insert_ne in H by exact Hne. specialize (Hwf a ms H). unfold wf_stats in *. lia.
  - unfold update_stats. fold old. rewrite total_insert, H2. subst old.
    destruct (stats !! addr) as [ms|]; cbn in *; lia.
Qed.

Definition good_question (q : Question) : Prop := stored_share (q_Share q) /\ 0 <= q_Score q <= 5.
Definition good_assignment (a : Assignment) : Prop :=
  stored_share (a_Share a) /\ 0 <= a_Score a <= 5 /\ finished a = true.

Lemma pay_le pool f : 0 <= pool < 2 ^ 37 -> stored_share f ->
  0 <= pay pool f /\ 10000 * pay pool f <= pool * share_units f.
Proof.
  intros Hp [Hf Hu]. unfold pay. rewrite Hf at 1 2. unfold of_numeric. apply pool_share_le; assumption.
Qed.

Lemma pay_all_le pool l : 0 <= pool < 2 ^ 37 -> (forall a, a ∈ l -> stored_share (a_Share a)) ->
  sum_by (fun a => share_units (a_Share a)) l <= 10000 ->
  0 <= sum_by (fun a => pay pool (a_Share a)) l <= pool.
Proof.
  intros Hp Hl Hs.
  assert (sum_by (fun a => 10000 * pay pool (a_Share a)) l <= sum_by (fun a => pool * share_units (a_Share a)) l) as H
    by (apply sum_by_le; intros a Ha; apply pay_le; auto).
  rewrite !sum_by_mul in H. split; [|nia].
  apply sum_by_nonneg. intros a Ha. apply (pay_le pool (a_Share a) Hp (Hl a Ha)).
Qed.

Lemma add_ask_ok N B pool q ms : wf_stats N ms -> 0 <= N -> good_question q -> 0 <= pool < 2 ^ 37 ->
  rawReward ms <= B -> B + pay pool (q_Share q) < 2 ^ 63 ->
  wf_stats (N + 1) (add_ask pool q ms) /\
  rawReward (add_ask pool q ms) = wrap64 (rawReward ms + pay pool (q_Share q)).
Proof.
  intros Hwf HN [Hs Hsc] Hp Hle Hb. split; [|reflexivity]. destruct (pay_le pool _ Hp Hs) as [H0 _].
  unfold wf_stats, add_ask in *. cbn. rewrite wrap64_id by lia. lia.
Qed.

Lemma add_answer_ok N B pool a ms : wf_stats N ms -> 0 <= N -> good_assignment a -> 0 <= pool < 2 ^ 37 ->
  rawReward ms <= B -> B + pay pool (a_Share a) < 2 ^ 63 ->
  wf_stats (N + 1) (add_answer pool a ms) /\
  rawReward (add_answer pool a ms) = wrap64 (rawReward ms + pay pool (a_Share a)).
Proof.
  intros Hwf HN (Hs & Hsc & Hfin) Hp Hle Hb. split; [|reflexivity]. destruct (pay_le pool _ Hp Hs) as [H0 _].
  unfold wf_stats, add_answer in *. cbn. rewrite wrap64_id by lia.
  unfold finished in Hfin. destruct (is_scored a); cbn in *; [lia|]. rewrite Hfin. cbn. lia.
Qed.

Lemma fold_answers_ok pool l : forall N B stats, stats_ok N B stats -> 0 <= N -> 0 <= pool < 2 ^ 37 ->
  (forall a, a ∈ l -> good_assignment a) -> B + sum_by (fun a => pay pool (a_Share a)) l < 2 ^ 63 ->
  stats_ok (N + Z.of_nat (length l)) (B + sum_by (fun a => pay pool (a_Share a)) l)
    (fold_left (fun stats a => update_stats (a_Worker a) (add_answer pool a) stats) l stats).
Proof.
  induction l as [|a l IH]; intros N B stats Hok HN Hp Hl Hb; cbn [fold_left sum_by length] in *.
  - replace (N + Z.of_nat 0) with N by lia. replace (B + 0) with B by lia. exact Hok.
  - assert (good_assignment a) as Ha by (apply Hl; left).
    destruct (pay_le pool (a_Share a) Hp (proj1 Ha)) as [Hpay _].
    assert (0 <= sum_by (fun a => pay pool (a_Share a)) l) as Hrest.
    { apply sum_by_nonneg. intros b Hb'. apply (pay_le pool (a_Share b) Hp). apply Hl. right. exact Hb'. }
    replace (N + Z.of_nat (S (length l))) with ((N + 1) + Z.of_nat (length l)) by lia.
    replace (B + (pay pool (a_Share a) + sum_by (fun a => pay pool (a_Share a)) l))
      with ((B + pay pool (a_Share a)) + sum_by (fun a => pay pool (a_Share a)) l) by lia.
    apply IH; try lia; [|intros b Hb'; apply Hl; right; exact Hb'].
    apply update_stats_ok; try lia; [exact Hok|].
    intros ms Hms Hle. apply (add_answer_ok N B); auto. lia.
Qed.

Lemma aByQ_lookup l k : default [] (aByQ l !! k) = List.filter (on_question k) l.
Proof.
  induction l as [|a l IH] using rev_ind; [reflexivity|].
  unfold aByQ in *. rewrite fold_left_app, List.filter_app. cbn [fold_left List.filter]. unfold on_question at 2.
  destruct (Z.eqb_spec (a_QuestionID a) k) as [<-|Hne].
  - rewrite lookup_insert_eq. cbn [default]. rewrite IH. reflexivity.
  - rewrite lookup_insert_ne, app_nil_r by exact Hne. exact IH.
Qed.

(** The hypotheses on what the two queries return. *)
Definition good_epoch (questions : list Question) (assignments : list Assignment) : Prop :=
  (forall q, q ∈ questions -> good_question q) /\
  (forall a, a ∈ assignments -> good_assignment a) /\
  (forall q, q ∈ questions ->
     sum_by (fun a => share_units (a_Share a)) (List.filter (on_question (q_QuestionID q)) assignments) <= 10000).

Lemma count_if_length {A} (p : A -> bool) l : Z.of_nat (length (List.filter p l)) <= Z.of_nat (length l).
Proof. apply (count_if_le_length p l). Qed.

Lemma aggregate_ok askPool ansPool assignments qs : forall N B stats,
  good_epoch qs assignments -> 0 <= askPool < 2 ^ 37 -> 0 <= ansPool < 2 ^ 37 ->
  stats_ok N B stats -> 0 <= N -> 0 <= B ->
  B + Z.of_nat (length qs) * (askPool + ansPool) < 2 ^ 63 ->
  exists N', N' <= N + Z.of_nat (length qs) * (1 + Z.of_nat (length assignments)) /\
    stats_ok N' (B + Z.of_nat (length qs) * (askPool + ansPool))
      (fold_left (add_question askPool ansPool (aByQ assignments)) qs stats).
Proof.
  induction qs as [|q qs IH]; intros N B stats (Hq & Ha & Hsum) Hask Hans Hok HN HB Hb.
  - exists N. cbn [length fold_left Z.of_nat]. split; [lia|]. replace (B + Z.of_nat 0 * (askPool + ansPool)) with B by lia. exact Hok.
  - cbn [length fold_left] in *. set (l := List.filter (on_question (q_QuestionID q)) assignments).
    assert (good_question q) as Hgq by (apply Hq; left).
    destruct (pay_le askPool (q_Share q) Hask (proj1 Hgq)) as [Hp0 Hp1].
    assert (pay askPool (q_Share q) <= askPool) as Hp2 by (destruct Hgq as [[_ ?] _]; nia).
    assert (forall a, a ∈ l -> good_assignment a) as Hgl by (intros a Hin; apply elem_of_filter_bool in Hin; apply Ha, Hin).
    destruct (pay_all_le ansPool l Hans) as [Hs0 Hs1]; [intros a Hin; apply (Hgl a Hin) | apply Hsum; left|].
    assert (stats_ok (N + 1) (B + pay askPool (q_Share q)) (update_stats (q_Questioner q) (add_ask askPool q) stats)) as H1.
    { apply update_stats_ok; try lia; [exact Hok|]. intros ms Hms Hle. apply (add_ask_ok N B); auto. lia. }
    apply (fold_answers_ok ansPool l) in H1; try lia; [|exact Hgl].
    destruct (IH (N + 1 + Z.of_nat (length l)) (B + (askPool + ansPool))
      (add_question askPool ansPool (aByQ assignments) stats q)) as (N' & HN' & Hok'); try lia; try assumption.
    { split; [|split; [exact Ha|]]; intros q' Hin; [apply Hq | apply Hsum]; right; exact Hin. }
    { unfold add_question. rewrite aByQ_lookup. fold l. destruct H1 as [H1 H2]. split; [exact H1|lia]. }
    exists N'. pose proof (count_if_length (on_question (q_QuestionID q)) assignments). fold l in H.
    split; [nia|]. destruct Hok' as [H2 H3]. split; [exact H2|lia].
Qed.

(** A composite score is between 0 and 1. *)
Lemma composite_unit N ms : wf_stats N ms -> N < 2 ^ 50 ->
  rounds (fval (composite ms)) (composite ms) /\ (fval (composite ms) <= 1)%Q.
Proof.
  intros (Hr & Ha & Hs & Ht & Hn & Hsa & Hsb) HN.
  assert (forall n d, 0 <= n <= 5 * d -> 0 < d <= N -> rounds (fval (of_ratio n d)) (of_ratio n d) /\
    (fval (of_ratio n d) <= inject_Z 5)%Q) as Havg.
  { intros n d Hnd Hd. split; [apply (rounds_self _ _ (of_ratio_rounds n d ltac:(lia) ltac:(lia)))|].
    apply (of_ratio_bound n d 5); lia. }
  assert (forall f, rounds (fval f) f -> (fval f <= inject_Z 10)%Q ->
    rounds (fval (fdiv f (of_int 10))) (fdiv f (of_int 10)) /\ (fval (fdiv f (of_int 10)) <= 1)%Q) as Hdiv.
  { intros f Hf Hle. destruct (fdiv_int_bound f 10 1 Hf ltac:(lia) Hle ltac:(lia)) as (H1 & _ & H2). auto. }
  assert (inject_Z 5 <= inject_Z 10)%Q as H510 by discriminate.
  unfold composite, askAvg, ansAvg, hasAsks, hasAnswers.
  destruct (Z.gtb_spec (scoredAsks ms) 0) as [H1|H1], (Z.gtb_spec (scoredAnswers ms + timedOutAnswers ms) 0) as [H2|H2];
    cbn [andb].
  - destruct (Havg (askScoreSum ms) (scoredAsks ms)) as [A1 A2]; [lia..|].
    destruct (Havg (answerScoreSum ms) (scoredAnswers ms + timedOutAnswers ms)) as [B1 B2]; [lia..|].
    destruct (fadd_bound _ _ 5 5 A1 B1 A2 B2 ltac:(lia)) as (C1 & _ & C2).
    apply Hdiv; [apply (rounds_self _ _ C1) | exact C2].
  - destruct (Havg (askScoreSum ms) (scoredAsks ms)) as [A1 A2]; [lia..|].
    apply Hdiv; [exact A1 | eapply Qle_trans; eassumption].
  - destruct (Havg (answerScoreSum ms) (scoredAnswers ms + timedOutAnswers ms)) as [B1 B2]; [lia..|].
    apply Hdiv; [exact B1 | eapply Qle_trans; eassumption].
  - split; [apply rounds_self with 0%Q, rounds_zero | discriminate].
Qed.

(** The statistics of one epoch as [Settle] computes them. *)
Definition epoch_stats (totalReward : Z) (questions : list Question) (assignments : list Assignment) : Stats :=
  let baseReward := base_reward totalReward (Z.of_nat (length questions)) in
  aggregate (ask_pool baseReward) (ans_pool baseReward) questions assignments.

Lemma pools_split T n : 0 <= T < 2 ^ 37 -> 0 < n ->
  0 <= ask_pool (base_reward T n) < 2 ^ 37 /\ 0 <= ans_pool (base_reward T n) < 2 ^ 37 /\
  n * (ask_pool (base_reward T n) + ans_pool (base_reward T n)) <= T.
Proof.
  intros HT Hn. unfold ans_pool, ask_pool, base_reward, go_div.
  rewrite (Z.quot_div_nonneg T n) by lia. pose proof (Z.mul_div_le T n Hn). pose proof (Z.div_pos T n ltac:(lia) Hn).
  assert (T / n < 2 ^ 37) by nia. rewrite Z.quot_div_nonneg by lia.
  pose proof (Z.mul_div_le (T / n) 3 ltac:(lia)). pose proof (Z.div_pos (T / n) 3 ltac:(lia) ltac:(lia)).
  rewrite wrap64_id by lia. lia.
Qed.

Lemma epoch_stats_ok T questions assignments : 0 <= T < 2 ^ 37 -> questions <> [] ->
  good_epoch questions assignments ->
  Z.of_nat (length questions) * (1 + Z.of_nat (length assignments)) < 2 ^ 50 ->
  exists N, N < 2 ^ 50 /\ stats_ok N T (epoch_stats T questions assignments).
Proof.
  intros HT Hne Hg Hb. set (n := Z.of_nat (length questions)).
  assert (0 < n) as Hn by (subst n; destruct questions; [congruence|cbn; lia]).
  destruct (pools_split T n HT Hn) as (Hask & Hans & Hle).
  destruct (aggregate_ok _ _ assignments questions 0 0 ∅ Hg Hask Hans) as (N & HN & Hok); try lia.
  - split; [intros a ms H; rewrite lookup_empty in H; discriminate | rewrite total_empty; lia].
  - exists N. fold n in HN. split; [lia|]. destruct Hok as [H1 H2]. split; [exact H1|]. fold n in H2.
    unfold epoch_stats, aggregate. cbv zeta. fold n. lia.
Qed.

Lemma finalReward_le N minTasks ms : wf_stats N ms -> N < 2 ^ 50 -> rawReward ms < 2 ^ 53 ->
  0 <= finalReward minTasks ms <= rawReward ms.
Proof.
  intros Hwf HN Hr. unfold finalReward. pose proof (proj1 Hwf).
  destruct (_ >=? minTasks); [|lia]. destruct (composite_unit N ms Hwf HN) as [H1 H2].
  apply fraction_le_amount; [lia|exact H1|exact H2].
Qed.

(** The rewards of an epoch. *)
Lemma epoch_rewards T minTasks questions assignments :
  0 <= T < 2 ^ 37 -> questions <> [] -> good_epoch questions assignments ->
  Z.of_nat (length questions) * (1 + Z.of_nat (length assignments)) < 2 ^ 50 ->
  let stats := epoch_stats T questions assignments in
  total rawReward stats <= T /\
  (forall addr ms, stats !! addr = Some ms -> 0 <= finalReward minTasks ms <= rawReward ms) /\
  0 <= total (finalReward minTasks) stats <= T.
Proof.
  intros HT Hne Hg Hb stats. destruct (epoch_stats_ok T questions assignments HT Hne Hg Hb) as (N & HN & Hwf & Ht).
  fold stats in Hwf, Ht.
  assert (forall addr ms, stats !! addr = Some ms -> 0 <= finalReward minTasks ms <= rawReward ms) as Hf.
  { intros addr ms H. apply (finalReward_le N); [apply (Hwf addr ms H)|exact HN|].
    assert (rawReward ms <= T); [|lia]. apply (total_le rawReward stats T) with (k := addr); auto.
    intros k x Hx. apply (Hwf k x Hx). }
  split; [exact Ht|]. split; [exact Hf|]. split.
  - apply sum_by_nonneg. intros [k x] Hx. apply elem_of_map_to_list in Hx. apply (Hf k x Hx).
  - assert (total (finalReward minTasks) stats <= total rawReward stats); [|lia].
    apply total_mono. intros k x Hx. apply (Hf k x Hx).
Qed.

(** C5: settlement never pays more than the pool.  When the shares of every
    question's answers add up to at most one whole (which scoring ensures for
    up to five answers), scores are between 0 and 5 and the pool is below 2^37,
    then, whatever the rounding of shares, products and averages, the raw
    rewards of all workers together are at most TotalReward, every final reward
    is between 0 and the worker's raw reward, and so the final rewards together
    are at most TotalReward as well. *)
Theorem settlement_conserves T minTasks questions assignments :
  0 <= T < 2 ^ 37 -> questions <> [] -> good_epoch questions assignments ->
  Z.of_nat (length questions) * (1 + Z.of_nat (length assignments)) < 2 ^ 50 ->
  let stats := epoch_stats T questions assignments in
  total rawReward stats <= T /\
  (forall addr ms, stats !! addr = Some ms -> 0 <= finalReward minTasks ms <= rawReward ms) /\
  0 <= total (finalReward minTasks) stats <= T.
Proof. apply epoch_rewards. Qed.

(** A settled epoch: one question scored 5 with two correct answers of three,
    and one that everybody judged invalid. *)
Definition scored_question (id : Z) (asker : string) (share : float64) (score : Z) : Question :=
  mkQuestion id "bs" asker "q" "a" QuestionStatusScored share score (of_numeric 6667) false None 0 (Some 5).
Definition scored_assignment (id q : Z) (w : string) (share : float64) (score : Z) : Assignment :=
  mkAssignment id q w AssignmentStatusScored 0 (Some true) (Some "a"%string) None share score 0.
Definition toy_epoch_questions : list Question :=
  [scored_question 1 "alice" (of_numeric 9000) 5; scored_question 2 "bob" (of_numeric 0) 0].
Definition toy_epoch_assignments : list Assignment :=
  [scored_assignment 1 1 "bob" (of_numeric 5000) 5; scored_assignment 2 1 "carol" (of_numeric 5000) 5;
   scored_assignment 3 1 "dave" (of_numeric 0) 3;
   scored_assignment 4 2 "alice" (of_numeric 3333) 5; scored_assignment 5 2 "carol" (of_numeric 3333) 5;
   scored_assignment 6 2 "dave" (of_numeric 3333) 5].

#[export] Instance spec_float_eq_dec : EqDecision float64.
Proof. solve_decision. Defined.

Definition share_ok (f : float64) : bool :=
  bool_decide (f = of_numeric (share_units f)) && (0 <=? share_units f) && (share_units f <=? 10000).

Lemma share_ok_spec f : share_ok f = true -> stored_share f.
Proof. unfold share_ok. intros H. bool_props. split; [assumption|lia]. Qed.

(** Decided by computation. *)
Definition good_epochb (qs : list Question) (l : list Assignment) : bool :=
  forallb (fun q => share_ok (q_Share q) && (0 <=? q_Score q) && (q_Score q <=? 5)) qs &&
  forallb (fun a => share_ok (a_Share a) && (0 <=? a_Score a) && (a_Score a <=? 5) && finished a) l &&
  forallb (fun q => sum_by (fun a => share_units (a_Share a)) (List.filter (on_question (q_QuestionID q)) l) <=? 10000) qs.

Lemma good_epoch_computed qs l : good_epochb qs l = true -> good_epoch qs l.
Proof.
  unfold good_epochb. rewrite !andb_true_iff, !forallb_true. intros [[Hq Ha] Hs]. split; [|split].
  - intros q Hin. specialize (Hq q Hin). cbn beta in Hq. bool_props. split; [apply share_ok_spec; assumption|lia].
  - intros a Hin. specialize (Ha a Hin). cbn beta in Ha. bool_props. split; [apply share_ok_spec; assumption|].
    split; [lia|assumption].
  - intros q Hin. apply Z.leb_le, (Hs q Hin).
Qed.

Lemma toy_epoch_good : good_epoch toy_epoch_questions toy_epoch_assignments.
Proof. apply good_epoch_computed. vm_compute. reflexivity. Qed.

Lemma settlement_conserves_witness :
  let stats := epoch_stats 1000000 toy_epoch_questions toy_epoch_assignments in
  total rawReward stats = 816633 /\ total (finalReward 2) stats = 527755 /\
  0 <= total (finalReward 2) stats <= 1000000.
Proof.
  cbv zeta. split; [vm_compute; reflexivity|]. split; [vm_compute; reflexivity|].
  apply (settlement_conserves 1000000 2 toy_epoch_questions toy_epoch_assignments);
    [lia | discriminate | exact toy_epoch_good | vm_compute; reflexivity].
Defined.
