(* ===== verification/Server.v ===== *)
(** * The server: wiring, routes, scheduler

    Models [src/cmd/benchmarkd/main.go]: how [run] builds the services from one
    runtime configuration, the table of routes with the authentication of each,
    the start-up, and the settlement scheduler.

    The rest of the process, from the environment to the exit, is [Shutdown].
    The configuration is a snapshot for the duration of a request; a request
    that changes it returns the new one.

    Theorems: every request, the start and the scheduler keep the life cycle of
    questions and assignments ([serve_safe]); a request without a valid signature of a worker or the
    administrator's token changes nothing, whatever it asks for
    ([unauthorized_changes_nothing]); the scheduler settles consecutive days as
    long as no settlement lasts a day ([scheduler_days],
    [settled_days_consecutive]), and nothing once it has received the stop
    ([scheduler_stops]); a start that cannot read the configuration runs with
    zeros, not with the defaults ([startup_without_config]). *)

From S2P Require Import Prelude Float64 GoLang Strconv Json Calendar Merkle Model Prog Tables Store StoreQuestion StoreEpoch StoreQueries Lifecycle Config Scoring Timer Poll Answer QuestionService RootNet Http Auth HandlersWorker HandlersPublic HandlersAdmin Onchain Settlement.
#[local] Open Scope Z_scope.
#[local] Open Scope prog_scope.

(** ** Routes *)

(** The values that are encoded in the replies. *)
Inductive Data :=
| DPoll (r : PollResult)
| DAccepted (b : bool)
| DQuestionID (id : Z)
| DStatus (v : minerStatusView)
| DMyQuestions (l : list questionScoreView)
| DMyQuestion (v : questionScoreView)
| DMyAssignments (l : list assignmentScoreView)
| DMyAssignment (v : assignmentScoreView)
| DMyEpochs (l : list epochRewardView)
| DMyEpoch (v : epochRewardView)
| DSets (l : list PublicBenchmarkSetView)
| DSet (v : PublicBenchmarkSetView)
| DStats (v : ProtocolStats)
| DLeaderboard (l : list LeaderboardEntry)
| DQuestions (l : list PublicQuestion)
| DAssignments (l : list PublicAssignment)
| DEpochs (l : list epochView)
| DRewards (l : list minerRewardView)
| DToday (v : WorkerTodayStats)
| DClaims (l : list claimView)
| DClaim (v : claimView)
| DCreated (v : created)
| DAdminSet (v : AdminBenchmarkSetView)
| DAdminSets (l : list AdminBenchmarkSetView)
| DWorkers (l : list adminWorkerView)
| DWorker (v : adminWorkerView)
| DAdminQuestions (l : list adminQuestionView)
| DAdminQuestion (v : adminQuestionView)
| DAdminAssignments (l : list adminAssignmentView)
| DAdminEpochs (l : list adminEpochView)
| DAdminEpoch (v : adminEpochView)
| DText (s : string)
| DConfig (l : list configView).

(** A segment of a pattern: literal, or a wildcard with its name. *)
Inductive segment := Lit (s : string) | Wild (name : string).

(** The segments of a path, without the first slash. *)
Fixpoint split_slash (cur l : list byte) : list (list byte) :=
  match l with
  | [] => [rev cur]
  | b :: l => if Byte.eqb b x2f then rev cur :: split_slash [] l else split_slash (b :: cur) l
  end.
Definition segments (path : string) : list string :=
  match bytes_of_string path with
  | b :: l => map string_of_bytes (split_slash [] l)
  | [] => []
  end.

(** [cleanPath] leaves the path alone: it begins with a slash, no segment is
    "." or "..", and only the last may be empty. *)
Definition clean_path (path : string) : bool :=
  HasPrefix (bytes_of_string path) [x2f] &&
  forallb (fun s => negb (bool_decide (s = "."%string)) && negb (bool_decide (s = ".."%string))) (segments path) &&
  forallb (fun s => negb (bool_decide (s = ""%string))) (removelast (segments path)).

(** A pattern's wildcards against the segments; a wildcard is not empty. *)
Fixpoint match_segments (p : list segment) (l : list string) : option (list (string * string)) :=
  match p, l with
  | [], [] => Some []
  | Lit s :: p, x :: l => if bool_decide (s = x) then match_segments p l else None
  | Wild name :: p, x :: l =>
      if bool_decide (x = ""%string) then None
      else match match_segments p l with Some vars => Some ((name, x) :: vars) | None => None end
  | _, _ => None
  end.

(** [r.PathValue(name)]. *)
Definition PathValue (vars : list (string * string)) (name : string) : string := first_value name vars.

(** A pattern for GET also matches HEAD. *)
Definition method_matches (m method : string) : bool :=
  bool_decide (m = method) || (bool_decide (m = "GET"%string) && bool_decide (method = "HEAD"%string)).

(** The reply, and the configuration in force afterwards. *)
Abbreviation Served := (HttpResponse Data * RuntimeConfig)%type.

Record Route := mkRoute {
  ro_Method : string;
  ro_Pattern : list segment;
  ro_Handler : list (string * string) -> HttpRequest -> Prg Served
}.

Fixpoint find_map {X Y} (f : X -> option Y) (l : list X) : option Y :=
  match l with
  | [] => None
  | x :: l => match f x with Some y => Some y | None => find_map f l end
  end.

Definition find_route (routes : list Route) (r : HttpRequest) : option (Route * list (string * string)) :=
  find_map (fun ro =>
    if method_matches (ro_Method ro) (rq_Method r)
    then match match_segments (ro_Pattern ro) (segments (rq_Path r)) with Some vars => Some (ro, vars) | None => None end
    else None) routes.

(** [mux.ServeHTTP]. *)
Definition serve_mux (rt : RuntimeConfig) (routes : list Route) (r : HttpRequest) : Prg Served :=
  if negb (clean_path (rq_Path r)) then Ret (plainReply StatusMovedPermanently, rt)
  else
    match find_route routes r with
    | Some (ro, vars) => ro_Handler ro vars r
    | None =>
        if existsb (fun ro => bool_decide (is_Some (match_segments (ro_Pattern ro) (segments (rq_Path r))))) routes
        then Ret (plainReply StatusMethodNotAllowed, rt)
        else Ret (plainReply StatusNotFound, rt)
    end.

(** ** run *)

Section Server.
Context {P : Postgres} {N : PostgresNumeric}.
Variable Keccak256 : list byte -> list byte.
Variable BytesToHash : list byte -> Hash.
Variable HexToAddress : string -> Address.
Variable PublicKey : Type.
Variable SigToPub : list byte -> list byte -> result PublicKey.
Variable PubkeyToAddress : PublicKey -> Address.
Variable IsHexAddress : string -> bool.
Variable Address_Hex : Address -> string.
Variable key_address : string -> result Address.
Variable sign_ok : Z -> Z -> Z -> result unit.
Variable setMerkleRoot : AbiMethod.
Variable ethHexToHash : string -> Hash.
Variable pq_float : float64 -> string.

(** What [run] reads from the environment and fixes at start. *)
Record Settings := mkSettings { adminToken : string; rootNetURL : string; requiredAtStart : Z }.

Section Services.
Variable settings : Settings.
Variable rtConfig : RuntimeConfig.

Definition rootNet : RootNetClient :=
  mkRootNetClient (rn_BaseURL (NewRootNetClient (rootNetURL settings))) (Some rtConfig).
Definition scoringSvc : ScoringService :=
  mkScoringService (ss_BaseSuspensionMinutes NewScoringService) (Some rtConfig).
Definition timerMgr : TimerManager := mkTimerManager scoringSvc (Some rtConfig) (requiredAtStart settings).
Definition questionSvc : QuestionService := mkQuestionService DefaultQuestionConfig (Some rtConfig).
Definition pollSvc : PollService := mkPollService DefaultPollConfig (Some rtConfig) (Some StartReplyTimer).
Definition onchainSvc : OnchainService := mkOnchainService (mkOnchainConfig "" "" "" 0) (Some rtConfig).
Definition publish : Z -> Prg (result unit) :=
  PublishMerkleRoot key_address sign_ok setMerkleRoot ethHexToHash HexToAddress onchainSvc.
Definition settlementSvc : SettlementService :=
  mkSettlementService DefaultSettlementConfig (Some rtConfig) rootNet (Some publish).
Definition settle : Z -> Prg (result unit) := Settle Keccak256 BytesToHash HexToAddress settlementSvc.

(** ** registerRoutes *)

(** In testnet mode everybody may register. *)
Definition may_register (addr : string) : Prg (result bool) :=
  if IsTestnetMode rtConfig then Ret (Ok true) else IsRegistered rootNet addr.

Definition fullAuth : WorkerAuthConfig :=
  mkWorkerAuthConfig 0 true false (Some may_register) (Some (GetTimestampMaxDiff rtConfig)).
Definition lightAuth : WorkerAuthConfig :=
  mkWorkerAuthConfig 0 false false (Some may_register) (Some (GetTimestampMaxDiff rtConfig)).

(** A handler that keeps the configuration, with its reply's encoding. *)
Definition served {T} (inj : T -> Data) (p : Prg (HttpResponse T)) : Prg Served :=
  let* resp := p in Ret (map_response inj resp, rtConfig).

(** The three kinds of routes: public, behind a worker's signature, behind the
    administrator's token. *)
Definition public {T} (inj : T -> Data) (h : list (string * string) -> HttpRequest -> Prg (HttpResponse T))
    (vars : list (string * string)) (r : HttpRequest) : Prg Served :=
  served inj (h vars r).

Definition by_worker {T} (cfg : WorkerAuthConfig) (inj : T -> Data)
    (h : string -> list (string * string) -> HttpRequest -> Prg (HttpResponse T))
    (vars : list (string * string)) (r : HttpRequest) : Prg Served :=
  served inj (WorkerAuth Keccak256 PublicKey SigToPub PubkeyToAddress IsHexAddress HexToAddress Address_Hex cfg
                (fun worker r => h worker vars r) r).

Definition by_admin {T} (inj : T -> Data) (h : list (string * string) -> HttpRequest -> Prg (HttpResponse T))
    (vars : list (string * string)) (r : HttpRequest) : Prg Served :=
  served inj (AdminAuth (adminToken settings) (h vars) r).

(** PUT /admin/v1/config changes the configuration. *)
Definition by_admin_config (vars : list (string * string)) (r : HttpRequest) : Prg Served :=
  let* out := AdminAuth (adminToken settings) (fun r =>
    let* res := HandleUpdateConfig (Some rtConfig) r in
    Ret (writeJSON StatusOK (fst res, default rtConfig (snd res)))) r in
  Ret match out with
      | writeJSON _ (resp, rt) => (map_response DText resp, rt)
      | writeError status msg => (writeError status msg, rtConfig)
      | plainReply status => (plainReply status, rtConfig)
      | panicked => (panicked, rtConfig)
      end.

Abbreviation api l := (Lit "api" :: Lit "v1" :: l).
Abbreviation admin l := (Lit "admin" :: Lit "v1" :: l).

Definition public_routes : list Route := [
  mkRoute "GET" (api [Lit "benchmark-sets"]) (public DSets (fun _ r => HandlePublicList r));
  mkRoute "GET" (api [Lit "benchmark-sets"; Wild "set_id"]) (public DSet (fun v _ => HandlePublicGet (PathValue v "set_id")));
  mkRoute "GET" (api [Lit "stats"]) (public DStats (fun _ _ => HandleStats));
  mkRoute "GET" (api [Lit "leaderboard"]) (public DLeaderboard (fun _ r => HandleLeaderboard r));
  mkRoute "GET" (api [Lit "questions"]) (public DQuestions (fun _ r => HandlePublicQuestions r));
  mkRoute "GET" (api [Lit "assignments"]) (public DAssignments (fun _ r => HandlePublicAssignments r));
  mkRoute "GET" (api [Lit "epochs"]) (public DEpochs (fun _ _ => HandlePublicEpochs));
  mkRoute "GET" (api [Lit "rewards"; Wild "address"]) (public DRewards (fun v _ => HandleRecipientRewards (PathValue v "address")));
  mkRoute "GET" (api [Lit "workers"; Wild "address"; Lit "today"])
    (public DToday (fun v _ => HandleWorkerToday rtConfig (PathValue v "address")));
  mkRoute "GET" (api [Lit "claims"; Wild "address"]) (public DClaims (fun v _ => HandleClaims (PathValue v "address")));
  mkRoute "GET" (api [Lit "claims"; Wild "address"; Wild "epoch_date"])
    (public DClaim (fun v _ => HandleClaim (PathValue v "address") (PathValue v "epoch_date")))]%string.

Definition worker_routes : list Route := [
  mkRoute "POST" (api [Lit "questions"]) (by_worker fullAuth DQuestionID (fun w _ r => HandleSubmitQuestion questionSvc w r));
  mkRoute "GET" (api [Lit "poll"]) (by_worker fullAuth DPoll (fun w _ _ => HandlePoll pollSvc w));
  mkRoute "POST" (api [Lit "answers"]) (by_worker lightAuth DAccepted (fun w _ r => HandleSubmitAnswer (Some server_on_answer) w r));
  mkRoute "GET" (api [Lit "my"; Lit "status"]) (by_worker lightAuth DStatus (fun w _ _ => HandleMyStatus w));
  mkRoute "GET" (api [Lit "my"; Lit "questions"]) (by_worker lightAuth DMyQuestions (fun w _ r => HandleMyQuestions w r));
  mkRoute "GET" (api [Lit "my"; Lit "questions"; Wild "question_id"])
    (by_worker lightAuth DMyQuestion (fun w v _ => HandleMyQuestion w (PathValue v "question_id")));
  mkRoute "GET" (api [Lit "my"; Lit "assignments"]) (by_worker lightAuth DMyAssignments (fun w _ r => HandleMyAssignments w r));
  mkRoute "GET" (api [Lit "my"; Lit "assignments"; Wild "assignment_id"])
    (by_worker lightAuth DMyAssignment (fun w v _ => HandleMyAssignment w (PathValue v "assignment_id")));
  mkRoute "GET" (api [Lit "my"; Lit "epochs"]) (by_worker lightAuth DMyEpochs (fun w _ _ => HandleMyEpochs w));
  mkRoute "GET" (api [Lit "my"; Lit "epochs"; Wild "epoch_date"])
    (by_worker lightAuth DMyEpoch (fun w v _ => HandleMyEpoch w (PathValue v "epoch_date")))]%string.

Definition admin_routes : list Route := [
  mkRoute "POST" (admin [Lit "benchmark-sets"]) (by_admin DCreated (fun _ r => HandleAdminCreate r));
  mkRoute "PUT" (admin [Lit "benchmark-sets"; Wild "set_id"])
    (by_admin DAdminSet (fun v r => HandleAdminUpdate pq_float (PathValue v "set_id") r));
  mkRoute "GET" (admin [Lit "benchmark-sets"]) (by_admin DAdminSets (fun _ r => HandleAdminList r));
  mkRoute "GET" (admin [Lit "benchmark-sets"; Wild "set_id"])
    (by_admin DAdminSet (fun v _ => HandleAdminGet (PathValue v "set_id")));
  mkRoute "GET" (admin [Lit "workers"]) (by_admin DWorkers (fun _ _ => HandleListWorkers));
  mkRoute "GET" (admin [Lit "workers"; Wild "address"]) (by_admin DWorker (fun v _ => HandleGetWorker (PathValue v "address")));
  mkRoute "GET" (admin [Lit "questions"]) (by_admin DAdminQuestions (fun _ r => HandleListQuestions r));
  mkRoute "GET" (admin [Lit "questions"; Wild "question_id"])
    (by_admin DAdminQuestion (fun v _ => HandleGetQuestion (PathValue v "question_id")));
  mkRoute "GET" (admin [Lit "questions"; Wild "question_id"; Lit "assignments"])
    (by_admin DAdminAssignments (fun v _ => HandleListAssignments (PathValue v "question_id")));
  mkRoute "GET" (admin [Lit "epochs"]) (by_admin DAdminEpochs (fun _ _ => HandleListEpochs));
  mkRoute "GET" (admin [Lit "epochs"; Wild "epoch_date"])
    (by_admin DAdminEpoch (fun v _ => HandleGetEpoch (PathValue v "epoch_date")));
  mkRoute "POST" (admin [Lit "settle"]) (by_admin DText (fun _ r => HandleTriggerSettlement (Some settle) r));
  mkRoute "POST" (admin [Lit "publish"]) (by_admin DText (fun _ r => HandlePublishMerkleRoot publish r));
  mkRoute "GET" (admin [Lit "config"]) (by_admin DConfig (fun _ _ => HandleListConfig));
  mkRoute "PUT" (admin [Lit "config"]) by_admin_config]%string.

Definition registerRoutes : list Route := public_routes ++ worker_routes ++ admin_routes.

(** The server's reply to a request. *)
Definition serve (r : HttpRequest) : Prg Served := serve_mux rtConfig registerRoutes r.
End Services.

(** ** Start-up and scheduler *)

(** [run] until it listens: an error of [Load] is only a warning, the
    configuration then stays as [NewRuntimeConfig] made it. *)
Definition startup (token : string) : Prg (result (Settings * RuntimeConfig)) :=
  let* loaded := Load NewRuntimeConfig in
  let rtConfig := snd loaded in
  let settings := mkSettings token (GetRootNetAPIURL rtConfig) (qc_RequiredAnswers (questionConfig rtConfig)) in
  let? _ := wrapped "recover timers" (RecoverOnStartup (timerMgr settings rtConfig)) in
  Ret (Ok (settings, rtConfig)).

(** The next 01:00 UTC, and the day that is settled then. *)
Definition next_settlement (now : Z) : Z :=
  let next := date_of now + Hour in
  if negb (now <? next) then next + 24 * Hour else next.
Definition settled_day (next : Z) : Z := date_of (next - 24 * Hour).

(** One round of the scheduler's loop; it sleeps for the delay between the two
    readings of the clock and the settlement.  An error is only printed. *)
Definition scheduler_round (settings : Settings) (rtConfig : RuntimeConfig) : Prg unit :=
  Now (fun now =>
  let next := next_settlement now in
  Now (fun now2 =>
  let _delay := time_Sub next now2 in
  let* _ := settle settings rtConfig (settled_day next) in
  Ret tt)).

(** What the [select] of the loop receives. When both channels are ready, the
    choice is free. *)
Inductive Wake := TimerFired | DoneClosed.

(** The goroutine of the scheduler, up to the last of the given events; the
    configuration may change from one round to the next. *)
Fixpoint startSettlementScheduler (settings : Settings) (events : list (RuntimeConfig * Wake)) : Prg unit :=
  match events with
  | [] => Ret tt
  | (rtConfig, TimerFired) :: rest =>
      let* _ := scheduler_round settings rtConfig in startSettlementScheduler settings rest
  | (_, DoneClosed) :: _ => Now (fun _now => Now (fun _now2 => Ret tt))
  end.

(** The goroutine is at most a sequence of rounds and then a last reading of
    the clock: nothing is settled after [done] is closed and received. *)
Lemma scheduler_stops settings pre rtConfig post :
  startSettlementScheduler settings (pre ++ (rtConfig, DoneClosed) :: post) =
  startSettlementScheduler settings (pre ++ [(rtConfig, DoneClosed)]).
Proof using.
  induction pre as [|[rt []] pre IH]; [reflexivity| |reflexivity]. cbn [app startSettlementScheduler]. rewrite IH. reflexivity.
Qed.
End Server.

(** ** What only reads *)

Create HintDb read_only.

Ltac read_only_handler := repeat first [read_only_step | progress cbv beta | solve [eauto with read_only]].

(** A property of every route of a table. *)
Ltac each_route :=
  repeat match goal with
  | |- Forall _ (_ :: _) => apply List.Forall_cons
  | |- Forall _ [] => apply List.Forall_nil
  end.

Section Reads.
Context {P : Postgres} {N : PostgresNumeric}.

Lemma question_texts_reads ids : forall m, read_only (question_texts ids m).
Proof using. induction ids as [|q ids IH]; intros m; cbn [question_texts]; unfold GetQuestion; read_only_handler. Qed.

Lemma claim_views_reads proofs : read_only (claim_views proofs).
Proof using. induction proofs as [|p proofs IH]; cbn [claim_views]; unfold GetEpochMerkleRoot; read_only_handler. Qed.

Lemma worker_views_reads l : read_only (worker_views l).
Proof using. induction l as [|w l IH]; cbn [worker_views]; unfold toAdminWorkerView; read_only_handler. Qed.
End Reads.
#[local] Hint Resolve question_texts_reads claim_views_reads worker_views_reads : read_only.

Section PublicReads.
Context {P : Postgres} {N : PostgresNumeric}.

Lemma public_routes_read rt : Forall (fun ro => forall vars r, exists T (inj : T -> Data) p,
  ro_Handler ro vars r = served rt inj p /\ read_only p) (public_routes rt).
Proof using.
  unfold public_routes. each_route; intros vars r; unfold ro_Handler, public; do 3 eexists; (split; [reflexivity|]);
    unfold HandlePublicList, HandlePublicGet, HandleStats, HandleLeaderboard, HandlePublicQuestions, HandlePublicAssignments,
      HandlePublicEpochs, HandleRecipientRewards, HandleWorkerToday, HandleClaims, HandleClaim,
      ListBenchmarkSets, GetBenchmarkSet, GetProtocolStats, GetLeaderboard, GetRecentQuestions, ListPublicAssignments,
      ListEpochs, ListRecipientEpochRewards, GetWorkerTodayStats, ListMerkleProofsByRecipient, GetMerkleProof, GetEpochMerkleRoot;
    read_only_handler.
Qed.
End PublicReads.

Lemma find_map_elem {X Y} (f : X -> option Y) l y : find_map f l = Some y -> exists x, x ∈ l /\ f x = Some y.
Proof.
  induction l as [|x l IH]; [discriminate|]. cbn. destruct (f x) as [z|] eqn:E.
  - intros [= <-]. exists x. split; [left|exact E].
  - intros H. destruct (IH H) as (x' & Hx & Hf). exists x'. split; [right; exact Hx|exact Hf].
Qed.

Lemma find_route_elem routes r ro vars : find_route routes r = Some (ro, vars) -> ro ∈ routes.
Proof.
  intros H. apply find_map_elem in H as (ro' & Hro & E). destruct (method_matches _ _); [|discriminate].
  destruct (match_segments _ _); [|discriminate]. injection E as -> ->. exact Hro.
Qed.

(** ** Every request keeps the life cycle *)

Section Safety.
Context {P : Postgres} {N : PostgresNumeric}.
Variable Keccak256 : list byte -> list byte.
Variable BytesToHash : list byte -> Hash.
Variable HexToAddress : string -> Address.
Variable PublicKey : Type.
Variable SigToPub : list byte -> list byte -> result PublicKey.
Variable PubkeyToAddress : PublicKey -> Address.
Variable IsHexAddress : string -> bool.
Variable Address_Hex : Address -> string.
Variable key_address : string -> result Address.
Variable sign_ok : Z -> Z -> Z -> result unit.
Variable setMerkleRoot : AbiMethod.
Variable ethHexToHash : string -> Hash.
Variable pq_float : float64 -> string.
Variable settings : Settings.
Variable rt : RuntimeConfig.

Lemma served_safe {T} (inj : T -> Data) (p : Prg (HttpResponse T)) : safe p -> safe (served rt inj p).
Proof using. intros Hp. apply safe_bind; [exact Hp|]. intros r. apply safe_Ret. Qed.

Lemma authorize_safe {D} cfg r : (forall a, safe (registerCheck cfg a)) ->
  safe (authorize Keccak256 PublicKey SigToPub PubkeyToAddress IsHexAddress HexToAddress Address_Hex cfg r : Prg (HttpResponse D + string)).
Proof using.
  intros Hreg. unfold authorize, find_or_create, check_suspension, GetWorker. prove_safe.
Qed.

Lemma may_register_safe a : safe (may_register settings rt a).
Proof using. unfold may_register, IsRegistered. prove_safe. Qed.

Lemma by_worker_safe {T} cfg (inj : T -> Data) h vars r : wc_RegisterCheck cfg = Some (may_register settings rt) ->
  (forall w, safe (h w vars r)) ->
  safe (by_worker Keccak256 HexToAddress PublicKey SigToPub PubkeyToAddress IsHexAddress Address_Hex rt cfg inj h vars r).
Proof using.
  intros Hcfg Hh. apply served_safe, safe_bind.
  - apply authorize_safe. intros a. unfold registerCheck. rewrite Hcfg. apply may_register_safe.
  - intros [resp|w]; [apply safe_Ret|apply Hh].
Qed.

Lemma AdminAuth_safe {T} (h : HttpRequest -> Prg (HttpResponse T)) r : safe (h r) -> safe (AdminAuth (adminToken settings) h r).
Proof using. intros Hh. unfold AdminAuth. prove_safe. Qed.

Lemma CreateBenchmarkSet_safe i d qr ar ql al m st : safe (CreateBenchmarkSet i d qr ar ql al m st).
Proof using.
  apply safe_exec. intros env db. unfold insert_bs. destruct (parse_bs_status st); [|reflexivity].
  destruct (negb _); [reflexivity|]. destruct (find_benchmark_set i db); [reflexivity|]. apply rg_other_tables; reflexivity.
Qed.

Lemma UpdateBenchmarkSet_safe i fields : safe (UpdateBenchmarkSet i fields).
Proof using.
  unfold UpdateBenchmarkSet, GetBenchmarkSet. prove_safe. apply safe_exec. intros env d. unfold update_fields.
  destruct (negb _); [reflexivity|]. destruct (find_benchmark_set i d) as [b|]; [|reflexivity].
  destruct (set_columns _ b); [apply rg_other_tables; reflexivity|reflexivity].
Qed.

Lemma SetConfig_safe k v : safe (SetConfig k v).
Proof using. unfold SetConfig. prove_safe. Qed.

Lemma create_sets_safe reqs : forall results, safe (create_sets reqs results).
Proof using.
  induction reqs as [|req reqs IH]; intros results; cbn [create_sets]; [prove_safe|].
  destruct (bool_decide _); [prove_safe|]. apply safe_bind; [apply CreateBenchmarkSet_safe|].
  intros [bs|e]; [apply IH|prove_safe].
Qed.

Lemma publish_safe t : safe (publish HexToAddress key_address sign_ok setMerkleRoot ethHexToHash rt t).
Proof using P. apply PublishMerkleRoot_safe. Qed.

Lemma settle_safe t : safe (settle Keccak256 BytesToHash HexToAddress key_address sign_ok setMerkleRoot ethHexToHash settings rt t).
Proof using P. apply Settle_safe. intros f [= <-] t'. apply publish_safe. Qed.

Lemma HandleSubmitQuestion_safe svc w r : safe (HandleSubmitQuestion svc w r).
Proof using P. unfold HandleSubmitQuestion, authenticated. prove_safe. apply SubmitQuestion_safe. Qed.

Lemma HandlePoll_safe w : safe (HandlePoll (pollSvc rt) w).
Proof using.
  unfold HandlePoll, authenticated. prove_safe. apply PollOnline_safe. intros f a [= <-]. apply StartReplyTimer_safe.
Qed.

Lemma HandleSubmitAnswer_safe w r : safe (HandleSubmitAnswer (Some server_on_answer) w r).
Proof using P.
  unfold HandleSubmitAnswer, authenticated. prove_safe. apply SubmitAnswer_safe. intros f a [= <-]. apply server_on_answer_safe.
Qed.

Lemma worker_views_read w vars r :
  read_only (HandleMyStatus w) /\ read_only (HandleMyQuestions w r) /\
  read_only (HandleMyQuestion w (PathValue vars "question_id")) /\ read_only (HandleMyAssignments w r) /\
  read_only (HandleMyAssignment w (PathValue vars "assignment_id")) /\ read_only (HandleMyEpochs w) /\
  read_only (HandleMyEpoch w (PathValue vars "epoch_date")).
Proof using.
  repeat split; unfold HandleMyStatus, HandleMyQuestions, HandleMyQuestion, HandleMyAssignments, HandleMyAssignment,
    HandleMyEpochs, HandleMyEpoch, authenticated, GetWorker, GetWorkerAggregateStats, ListQuestionsByFilter, GetQuestion,
    ListAssignmentsByFilter, buildAssignmentViews, GetAssignment, ListWorkerEpochRewards, GetWorkerEpochReward;
    read_only_handler.
Qed.

Lemma registerRoutes_safe :
  Forall (fun ro => forall vars r, safe (ro_Handler ro vars r))
    (registerRoutes Keccak256 BytesToHash HexToAddress PublicKey SigToPub PubkeyToAddress IsHexAddress Address_Hex
       key_address sign_ok setMerkleRoot ethHexToHash pq_float settings rt).
Proof using P.
  unfold registerRoutes. apply List.Forall_app. split; [|apply List.Forall_app; split].
  - eapply List.Forall_impl; [|exact (public_routes_read rt)]. intros ro Hro vars r.
    destruct (Hro vars r) as (T & inj & p & -> & Hp). apply served_safe, safe_read_only, Hp.
  - unfold worker_routes. each_route; intros vars r; apply by_worker_safe; try reflexivity; intros w;
      first [apply HandleSubmitQuestion_safe | apply HandlePoll_safe | apply HandleSubmitAnswer_safe
            | apply safe_read_only; apply (worker_views_read w vars r)].
  - unfold admin_routes. each_route; intros vars r; unfold ro_Handler, by_admin, by_admin_config;
      try apply served_safe; try (apply safe_bind; [|intros resp; apply safe_Ret]); apply AdminAuth_safe.
    all: unfold HandleAdminCreate, HandleAdminUpdate, HandleAdminList, HandleAdminGet, HandleListWorkers, HandleGetWorker,
      HandleListQuestions, HandleGetQuestion, HandleListAssignments, HandleListEpochs, HandleGetEpoch, HandleTriggerSettlement,
      HandlePublishMerkleRoot, HandleListConfig, HandleUpdateConfig, ListBenchmarkSets, GetBenchmarkSet, ListWorkers, GetWorker,
      ListAllQuestions, GetQuestion, ListAssignmentsByQuestion, ListEpochs, GetEpoch, ListConfig, Load, ListConfig, toAdminWorkerView;
      prove_safe; first [apply create_sets_safe | apply UpdateBenchmarkSet_safe | apply SetConfig_safe | apply settle_safe
        | apply publish_safe | apply safe_read_only, worker_views_reads].
Qed.

Lemma serve_safe r : safe (serve Keccak256 BytesToHash HexToAddress PublicKey SigToPub PubkeyToAddress IsHexAddress Address_Hex
  key_address sign_ok setMerkleRoot ethHexToHash pq_float settings rt r).
Proof using P.
  unfold serve, serve_mux. destruct (negb _); [apply safe_Ret|].
  match goal with |- context [find_route ?l r] => destruct (find_route l r) as [[ro vars]|] eqn:Ef end.
  - apply find_route_elem in Ef. pose proof registerRoutes_safe as H. rewrite List.Forall_forall in H.
    apply H, list_elem_of_In, Ef.
  - destruct (existsb _ _); apply safe_Ret.
Qed.
End Safety.

(** ** Nothing happens without authorization *)

Section Authorization.
Context {P : Postgres} {N : PostgresNumeric}.
Variable Keccak256 : list byte -> list byte.
Variable BytesToHash : list byte -> Hash.
Variable HexToAddress : string -> Address.
Variable PublicKey : Type.
Variable SigToPub : list byte -> list byte -> result PublicKey.
Variable PubkeyToAddress : PublicKey -> Address.
Variable IsHexAddress : string -> bool.
Variable Address_Hex : Address -> string.
Variable key_address : string -> result Address.
Variable sign_ok : Z -> Z -> Z -> result unit.
Variable setMerkleRoot : AbiMethod.
Variable ethHexToHash : string -> Hash.
Variable pq_float : float64 -> string.
Variable settings : Settings.
Variable rt : RuntimeConfig.
Abbreviation serve := (serve Keccak256 BytesToHash HexToAddress PublicKey SigToPub PubkeyToAddress IsHexAddress Address_Hex
  key_address sign_ok setMerkleRoot ethHexToHash pq_float settings rt).
Abbreviation unsigned_request := (unsigned_request Keccak256 PublicKey SigToPub PubkeyToAddress IsHexAddress HexToAddress Address_Hex).

(** Neither a worker's signature that is in time, nor the administrator's
    token. *)
Definition unauthorized_request (E : ServerEnv) (r : HttpRequest) : Prop :=
  unsigned_request (GetTimestampMaxDiff rt) E r /\
  Header_Get r "Authorization" <> ("Bearer " +:+ adminToken settings)%string.

Definition harmless (p : Prg Served) (E : ServerEnv) : Prop :=
  forall s, exists resp pos, run E false p (mkPos 0 false) s = ((resp, rt), s, pos).

Lemma served_harmless {T} (inj : T -> Data) (p : Prg (HttpResponse T)) E :
  (forall s, exists resp pos, run E false p (mkPos 0 false) s = (resp, s, pos)) -> harmless (served rt inj p) E.
Proof using.
  intros H s. unfold served. rewrite run_bind. destruct (H s) as (resp & pos & ->). cbn [run]. eauto.
Qed.

Lemma public_harmless {T} (inj : T -> Data) p E : alone E -> read_only p -> harmless (served rt inj p) E.
Proof using.
  intros HE Hr. apply served_harmless. intros s. destruct (run_read_only E p 0 s HE Hr) as (a & n & ->). eauto.
Qed.

Lemma admin_refuses {T} (h : HttpRequest -> Prg (HttpResponse T)) r :
  Header_Get r "Authorization" <> ("Bearer " +:+ adminToken settings)%string ->
  exists msg, AdminAuth (adminToken settings) h r = Ret (unauthorized msg).
Proof using. intros H. destruct (AdminAuth_exact (adminToken settings) h r) as [[E _]|[_ E]]; [contradiction|exact E]. Qed.

Lemma routes_harmless E r : alone E -> unauthorized_request E r ->
  Forall (fun ro => forall vars, harmless (ro_Handler ro vars r) E)
    (registerRoutes Keccak256 BytesToHash HexToAddress PublicKey SigToPub PubkeyToAddress IsHexAddress Address_Hex
       key_address sign_ok setMerkleRoot ethHexToHash pq_float settings rt).
Proof using.
  intros HE [Hw Ha]. unfold registerRoutes. apply List.Forall_app. split; [|apply List.Forall_app; split].
  - eapply List.Forall_impl; [|exact (public_routes_read rt)]. intros ro Hro vars.
    destruct (Hro vars r) as (T & inj & p & -> & Hp). apply public_harmless; assumption.
  - unfold worker_routes. each_route; intros vars; apply served_harmless; intros s; apply WorkerAuth_refuses; exact Hw.
  - unfold admin_routes. each_route; intros vars; unfold ro_Handler, by_admin, by_admin_config;
      match goal with |- context [AdminAuth _ ?h r] => destruct (admin_refuses h r Ha) as [msg ->] end;
      intros s; cbn; eauto.
Qed.

(** C6: whatever it asks for, a request that carries neither a worker's
    signature accepted at that moment nor the administrator's token leaves the
    database, the timers and the configuration alone, whatever fails. *)
Theorem unauthorized_changes_nothing E r s : alone E -> unauthorized_request E r ->
  let '(out, s') := run_top E (serve r) s in s' = s /\ snd out = rt.
Proof using.
  intros HE Hu. unfold Server.serve, serve_mux, run_top. destruct (negb _); [cbn; auto|].
  match goal with |- context [find_route ?l r] => destruct (find_route l r) as [[ro vars]|] eqn:Ef end.
  - apply find_route_elem in Ef.
    pose proof (routes_harmless E r HE Hu) as H. rewrite List.Forall_forall in H. apply list_elem_of_In in Ef.
    destruct (H _ Ef vars s) as (resp & pos & ->). cbn. auto.
  - destruct (existsb _ _); cbn; auto.
Qed.
End Authorization.

(** A POST of an answer without any header. *)
Definition bare_request : HttpRequest := mkHttpRequest "POST" "/api/v1/answers" [] [] (Ok (quoted "{'question_id': 1, 'valid': true, 'answer': '4'}")).
Definition toy_settings : Settings := mkSettings "secret" "http://rootnet" 5.
#[export] Instance exact_numeric : PostgresNumeric := {| pg_float := fun q => of_ratio (Qnum q) (Z.pos (Qden q)) |}.

Abbreviation toy_serve := (serve toy_hash id toy_hex_to_address (list byte) toy_sig_to_pub id (fun _ => true) toy_address_hex
  (fun _ => Err (Failure "no key")) (fun _ _ _ => Ok tt) no_abi (fun _ => []) (fun _ => ""%string)).

Lemma unauthorized_changes_nothing_witness :
  let out := run_top (still_env (3 * Second) 0 refuse) (toy_serve toy_settings (load_config toy_config) bare_request) toy_state in
  fst (fst out) = writeError StatusUnauthorized "missing auth headers" /\ snd out = toy_state.
Proof.
  intros out. split; [vm_compute; reflexivity|].
  assert (unauthorized_request toy_hash toy_hex_to_address (list byte) toy_sig_to_pub id (fun _ => true) toy_address_hex
    toy_settings (load_config toy_config) (still_env (3 * Second) 0 refuse) bare_request) as Hu.
  { split; [|discriminate]. intros address ts _ Hts. discriminate Hts. }
  pose proof (unauthorized_changes_nothing toy_hash id toy_hex_to_address (list byte) toy_sig_to_pub id (fun _ => true) toy_address_hex
    (fun _ => Err (Failure "no key")) (fun _ _ _ => Ok tt) no_abi (fun _ => []) (fun _ => ""%string)
    toy_settings (load_config toy_config) (still_env (3 * Second) 0 refuse) bare_request toy_state
    (undisturbed_alone _ (still_undisturbed _ _ _)) Hu) as H.
  subst out. destruct (run_top _ _ _) as [o s']. apply H.
Defined.

(** ** The scheduler *)

(** The scheduler waits for the next 01:00 UTC, at most a day, and then
    settles the day that ended an hour before; if the next round begins before
    the 01:00 after, it settles the following day: no day is settled twice or
    left out. *)
Theorem scheduler_days now : let next := next_settlement now in
  now < next <= now + 24 * Hour /\ next mod (24 * Hour) = Hour /\ settled_day next + 24 * Hour = date_of next /\
  (forall now2, next <= now2 < next + 24 * Hour ->
     next_settlement now2 = next + 24 * Hour /\ settled_day (next_settlement now2) = settled_day next + 24 * Hour).
Proof.
  unfold next_settlement, settled_day, date_of. set (D := 24 * Hour). assert (D = 86400000000000) as HD by reflexivity.
  assert (Hour = 3600000000000) as HH by reflexivity. clearbody D. rewrite HH. cbv zeta.
  pose proof (Z.div_mod now D ltac:(lia)) as Hn. pose proof (Z.mod_pos_bound now D ltac:(lia)).
  set (k := now / D) in *. set (next := if negb (now <? D * k + 3600000000000) then _ else _).
  assert (exists j, next = D * j + 3600000000000 /\ now < next <= now + D) as (j & Hj & Hb).
  { subst next. destruct (Z.ltb_spec now (D * k + 3600000000000)); cbn [negb]; [exists k|exists (k + 1)]; lia. }
  assert (forall x i, D * i <= x < D * (i + 1) -> x / D = i) as Hdiv
    by (intros x i Hx; symmetry; apply (Z.div_unique x D i (x - D * i)); lia).
  clearbody next. split; [exact Hb|]. split; [symmetry; apply (Z.mod_unique next D j); lia|].
  rewrite (Hdiv next j), (Hdiv (next - D) (j - 1)) by lia. split; [lia|].
  intros now2 Hnow2. assert (D * (now2 / D) + 3600000000000 <= now2 < D * (now2 / D) + D + 3600000000000 \/
    now2 < D * (now2 / D) + 3600000000000) as Hcase by (pose proof (Z.mod_pos_bound now2 D ltac:(lia)); pose proof (Z.div_mod now2 D ltac:(lia)); lia).
  assert ((if negb (now2 <? D * (now2 / D) + 3600000000000) then D * (now2 / D) + 3600000000000 + D else D * (now2 / D) + 3600000000000) = next + D) as ->.
  { pose proof (Z.mod_pos_bound now2 D ltac:(lia)). pose proof (Z.div_mod now2 D ltac:(lia)).
    destruct (Z.ltb_spec now2 (D * (now2 / D) + 3600000000000)); cbn [negb].
    - assert (now2 / D = j + 1) as -> by nia. lia.
    - assert (now2 / D = j) as -> by nia. lia. }
  split; [reflexivity|]. replace (next + D - D) with next by lia. rewrite (Hdiv next j) by lia. lia.
Qed.

(** The days that the rounds of the loop settle, from the clock at the
    beginning of each. *)
Definition settled_days (clocks : list Z) : list Z := map (fun now => settled_day (next_settlement now)) clocks.

(** Each round begins after the 01:00 of the one before it, and before the
    01:00 after: the settlement between them takes less than a day. *)
Fixpoint punctual (now : Z) (clocks : list Z) : Prop :=
  match clocks with
  | [] => True
  | now2 :: rest => next_settlement now <= now2 < next_settlement now + 24 * Hour /\ punctual now2 rest
  end.

(** The loop then settles consecutive days. *)
Lemma settled_days_consecutive clocks : forall now, punctual now clocks ->
  settled_days (now :: clocks) =
  map (fun k => settled_day (next_settlement now) + Z.of_nat k * (24 * Hour)) (seq 0 (S (length clocks))).
Proof.
  induction clocks as [|now2 clocks IH]; intros now Hp.
  - cbn [settled_days map seq length]. f_equal. lia.
  - destruct Hp as [Hb Hp]. destruct (scheduler_days now) as (_ & _ & _ & Hd). destruct (Hd now2 Hb) as [_ Hnext].
    change (settled_days (now :: now2 :: clocks)) with (settled_day (next_settlement now) :: settled_days (now2 :: clocks)).
    rewrite (IH now2 Hp), Hnext. cbn [length]. change (seq 0 (S (S (length clocks)))) with (0%nat :: seq 1 (S (length clocks))).
    cbn [map]. f_equal; [lia|]. rewrite <- seq_shift, map_map. apply map_ext. intros k. lia.
Qed.

(** A settlement that takes longer leaves days out: from one that ends after
    the next 01:00, the day between is never settled. *)
Example late_round_skips_a_day :
  settled_days [0; next_settlement 0 + 25 * Hour] = [- 24 * Hour; 24 * Hour].
Proof. reflexivity. Qed.

(** ** Starting without a configuration *)

Definition question_status (id : Z) (s : St) : option QuestionStatus := fmap q_Status (find_question id (db s)).

(** When the configuration cannot be read at the start, the server announces
    its defaults but starts with a zero configuration; a question with two
    replies is then scored at once, where the defaults wait for five, and every
    signed request is refused unless its time stamp is the clock's nanosecond
    or 292 years ahead. *)
Theorem startup_without_config :
  (forall E token s msg out s', alone E -> fault E 0 = Some msg ->
     run_top E (startup token) s = (Ok out, s') -> out = (mkSettings token "" 0, NewRuntimeConfig)) /\
  (exists s', run_top (failing_at 0) (startup "secret") toy_state = (Ok (mkSettings "secret" "" 0, NewRuntimeConfig), s') /\
     question_status 1 s' = Some QuestionStatusScored) /\
  (exists s', run_top (still_env 0 0 refuse) (startup "secret") toy_state =
       (Ok (mkSettings "secret" "https://tapi.awp.sh" 5, load_config []), s') /\
     question_status 1 s' = Some QuestionStatusSubmitted) /\
  (forall token now ts, 0 <= now < 2 ^ 62 -> 0 <= ts < 2 ^ 63 - unixToInternal ->
     timestamp_expired (timestampMaxDiff (fullAuth (mkSettings token "" 0) NewRuntimeConfig)) now ts = false ->
     now = ts * Second \/ 2 ^ 63 <= ts * Second - now).
Proof.
  split; [|split; [|split]].
  - intros E token s msg out s' HE Hf. unfold run_top, startup, Load, ListConfig. rewrite run_bind, run_bind.
    rewrite run_query by apply (alone_still E HE). rewrite Hf. cbn [wrap_error run fst snd].
    unfold bind_ok, wrapped. rewrite !run_bind. destruct (run _ _ (RecoverOnStartup _) _ _) as [[[x|e] s1] pos]; cbn; [|discriminate].
    intros [= <- _]. reflexivity.
  - eexists. split; [vm_compute; reflexivity|]. vm_compute. reflexivity.
  - eexists. split; [vm_compute; reflexivity|]. vm_compute. reflexivity.
  - intros token now ts Hn Ht H. apply timestamp_window in H; [|exact Hn| |exact Ht]; cbn in *; lia.
Qed.
