(* ===== verification/Pages.v ===== *)
(** * The HTML pages

    Models [src/internal/handler/frontend.go] and [admin_ui.go]: the three pages
    embedded in the binary.  [embed]'s [ReadFile] is its result, per page.

    [registerRoutes] has no route to them (theirs is commented out):
    whatever is asked for outside of [/api] and [/admin] is not found
    ([pages_unreachable]). *)

From S2P Require Import Prelude Float64 GoLang Merkle Model Prog Tables Store StoreQueries Config Http Auth Onchain Server.
#[local] Open Scope Z_scope.
#[local] Open Scope prog_scope.

(** A page, or the reply of [http.Error]. *)
Inductive PageReply :=
| page (contentType : string) (data : list byte)
| httpError (msg : string) (status : Z).

Definition text_html : string := "text/html; charset=utf-8".

Section Pages.
(** [indexHTML], [appHTML] and [adminHTML], read. *)
Variable indexHTML appHTML adminHTML : result (list byte).

Definition HandleIndex : PageReply :=
  match indexHTML with
  | Err _ => httpError "internal error" StatusInternalServerError
  | Ok data => page text_html data
  end.

Definition HandleApp : PageReply :=
  match appHTML with
  | Err _ => httpError "internal error" StatusInternalServerError
  | Ok data => page text_html data
  end.

(** The error is not looked at; the data is then empty. *)
Definition HandleAdminUI : PageReply :=
  page text_html (match adminHTML with Ok data => data | Err _ => [] end).
End Pages.

Section Routes.
Context {P : Postgres} {N : PostgresNumeric}.
Variable Keccak256 : list byte -> list byte.
Variable BytesToHash : list byte -> Hash.
Variable HexToAddress : string -> Address.
Variable PublicKey : Type.
Variable SigToPub : list byte -> list byte -> result PublicKey.
Variable PubkeyToAddress : PublicKey -> Address.
Variable IsHexAddress : string -> bool.
Variable Address_Hex : Address -> string.
Variable key_address : string -> result Address.
Variable sign_ok : Z -> Z -> Z -> result unit.
Variable setMerkleRoot : AbiMethod.
Variable ethHexToHash : string -> Hash.
Variable pq_float : float64 -> string.
Variable settings : Settings.
Variable rt : RuntimeConfig.

Abbreviation registerRoutes := (registerRoutes Keccak256 BytesToHash HexToAddress PublicKey SigToPub PubkeyToAddress IsHexAddress Address_Hex
  key_address sign_ok setMerkleRoot ethHexToHash pq_float settings rt).
Abbreviation serve := (serve Keccak256 BytesToHash HexToAddress PublicKey SigToPub PubkeyToAddress IsHexAddress Address_Hex
  key_address sign_ok setMerkleRoot ethHexToHash pq_float settings rt).

(** The first segment of every pattern. *)
Lemma routes_begin : Forall (fun ro => exists s p, ro_Pattern ro = Lit s :: p /\ (s = "api" \/ s = "admin")%string) registerRoutes.
Proof using. unfold Server.registerRoutes, public_routes, worker_routes, admin_routes. cbn [app]. each_route; cbn; eauto. Qed.

Lemma find_map_none {X Y} (f : X -> option Y) l : (forall x, x ∈ l -> f x = None) -> find_map f l = None.
Proof using.
  induction l as [|x l IH]; intros H; [reflexivity|]. cbn. rewrite (H x) by left. apply IH. intros y Hy. apply H. right. exact Hy.
Qed.

(** Outside of the two interfaces there is nothing, whatever the method. *)
Theorem pages_unreachable r x l : clean_path (rq_Path r) = true -> segments (rq_Path r) = x :: l ->
  x <> "api"%string -> x <> "admin"%string -> serve r = Ret (plainReply StatusNotFound, rt).
Proof using.
  intros Hc Hs H1 H2. unfold Server.serve, serve_mux. rewrite Hc. cbn [negb].
  assert (forall ro, ro ∈ registerRoutes -> match_segments (ro_Pattern ro) (segments (rq_Path r)) = None) as Hnone.
  { intros ro Hro. apply list_elem_of_In in Hro.
    destruct (proj1 (List.Forall_forall _ _) routes_begin ro Hro) as (s & p & -> & Hsp).
    rewrite Hs. cbn [match_segments]. rewrite bool_decide_eq_false_2 by (destruct Hsp; congruence). reflexivity. }
  unfold find_route. rewrite find_map_none.
  - match goal with |- context [existsb ?f ?rs] => assert (existsb f rs = false) as -> end; [|reflexivity].
    apply existsb_false. intros ro Hro. apply bool_decide_eq_false_2. rewrite (Hnone ro Hro). intros [v Hv]. discriminate.
  - intros ro Hro. destruct (method_matches _ _); [|reflexivity]. rewrite (Hnone ro Hro). reflexivity.
Qed.
End Routes.

(** The page of the front end. *)
Lemma pages_unreachable_witness :
  toy_serve toy_settings (load_config toy_config) (mkHttpRequest "GET" "/app/" [] [] (Ok [])) =
  Ret (plainReply StatusNotFound, load_config toy_config).
Proof. apply (pages_unreachable _ _ _ _ _ _ _ _ _ _ _ _ _ _ _ _ "app" [""]%string); first [reflexivity|discriminate]. Defined.
