(* ===== verification/Secrecy.v ===== *)
(** * Reference answers stay secret

    The answer of an open question decides who is paid.  This file shows that
    the workers' and the public API do not depend on it: two states that differ
    only in the answers of open questions of other workers give the same reply
    to a request, and end in states that differ only there.

    [hide] blanks those answers.  A program is the [same] under hiding when its
    runs from [s] and from [hide s] agree: same result, same effects, and final
    states that agree under [hide]; [hides g] is the form for a program whose
    result still carries a question, which [g] blanks.

    Theorems: the rules of [hides], the services and handlers as instances, and
    the whole server for a request without the administrator's token
    ([answers_stay_secret]).  Scoring, which a request only starts, reads the
    answers and publishes them with the scores. *)

From S2P Require Import Prelude Float64 GoLang Strconv Json Calendar Merkle MinHash Model Prog Tables Store StoreQuestion StoreEpoch StoreQueries Lifecycle Config Scoring Timer Poll Answer QuestionService RootNet Http Auth HandlersWorker HandlersPublic HandlersAdmin Onchain Settlement Server.
#[local] Open Scope Z_scope.
#[local] Open Scope prog_scope.

(** A function on results. *)
Definition rmap {X Y} (g : X -> Y) (r : result X) : result Y :=
  match r with Ok x => Ok (g x) | Err e => Err e end.

Section Hiding.
Context {P : Postgres}.
(** The workers whose answers are hidden. *)
Variable others : string -> bool.

Definition hidden (q : Question) : bool := is_submitted q && others (q_Questioner q).
Definition hide_answer (q : Question) : Question := if hidden q then {| q with q_Answer := ""%string |} else q.
Definition hide_db (d : DB) : DB := {| d with questions := map hide_answer (questions d) |}.
Definition hide (s : St) : St := {| s with db := hide_db (db s) |}.

(** ** Hiding and the columns of a question *)

Lemma hide_columns q : q_QuestionID (hide_answer q) = q_QuestionID q /\ q_BSID (hide_answer q) = q_BSID q /\
  q_Questioner (hide_answer q) = q_Questioner q /\ q_Question (hide_answer q) = q_Question q /\
  q_Status (hide_answer q) = q_Status q /\ q_Share (hide_answer q) = q_Share q /\ q_Score (hide_answer q) = q_Score q /\
  q_PassRate (hide_answer q) = q_PassRate q /\ q_Benchmark (hide_answer q) = q_Benchmark q /\
  q_MinHash (hide_answer q) = q_MinHash q /\ q_CreatedAt (hide_answer q) = q_CreatedAt q /\ q_ScoredAt (hide_answer q) = q_ScoredAt q.
Proof using. unfold hide_answer. destruct (hidden q); repeat split. Qed.

(** A function of a question that does not read the answer. *)
Definition blind {Y} (f : Question -> Y) : Prop := forall q, f (hide_answer q) = f q.

Ltac see_columns :=
  let q := fresh in
  let C1 := fresh in let C2 := fresh in let C3 := fresh in let C4 := fresh in let C5 := fresh in let C6 := fresh in
  let C7 := fresh in let C8 := fresh in let C9 := fresh in let C10 := fresh in let C11 := fresh in let C12 := fresh in
  intros q; cbv beta; unfold is_submitted, question_scored;
  destruct (hide_columns q) as (C1 & C2 & C3 & C4 & C5 & C6 & C7 & C8 & C9 & C10 & C11 & C12);
  rewrite ?C1, ?C2, ?C3, ?C4, ?C5, ?C6, ?C7, ?C8, ?C9, ?C10, ?C11, ?C12; reflexivity.

Lemma hide_idem q : hide_answer (hide_answer q) = hide_answer q.
Proof using.
  unfold hide_answer at 2 3. destruct (hidden q) eqn:E; [|unfold hide_answer; rewrite E; reflexivity].
  unfold hide_answer, hidden, is_submitted in *. cbn. rewrite E. reflexivity.
Qed.

Lemma filter_hide p l : blind p -> List.filter p (map hide_answer l) = map hide_answer (List.filter p l).
Proof using. intros Hp. induction l as [|q l IH]; [reflexivity|]. cbn. rewrite Hp, IH. destruct (p q); reflexivity. Qed.

Lemma map_hide {Y} (f : Question -> Y) l : blind f -> map f (map hide_answer l) = map f l.
Proof using. intros Hf. rewrite map_map. apply map_ext. exact Hf. Qed.

Lemma count_hide p l : blind p -> count_if p (map hide_answer l) = count_if p l.
Proof using. intros Hp. induction l as [|q l IH]; [reflexivity|]. cbn [map]. rewrite !count_if_cons, Hp, IH. reflexivity. Qed.

Lemma existsb_hide p l : blind p -> existsb p (map hide_answer l) = existsb p l.
Proof using. intros Hp. induction l as [|q l IH]; [reflexivity|]. cbn. rewrite Hp, IH. reflexivity. Qed.

Lemma find_hide p l : blind p -> List.find p (map hide_answer l) = option_map hide_answer (List.find p l).
Proof using. intros Hp. induction l as [|q l IH]; [reflexivity|]. cbn. rewrite Hp, IH. destruct (p q); reflexivity. Qed.

Lemma sort_hide (R : Question -> Question -> Prop) `{forall x y, Decision (R x y)} l :
  (forall x y, R (hide_answer x) (hide_answer y) <-> R x y) ->
  merge_sort R (map hide_answer l) = map hide_answer (merge_sort R l).
Proof using.
  intros HR. unfold merge_sort.
  assert (forall l1 l2, list_merge R (map hide_answer l1) (map hide_answer l2) = map hide_answer (list_merge R l1 l2)) as Hm.
  { induction l1 as [|x l1 IH1]; [intros []; reflexivity|]. induction l2 as [|y l2 IH2]; [reflexivity|].
    cbn [map] in *. change (list_merge R (?a :: ?b) (?c :: ?d)) with
      (if decide (R a c) then a :: list_merge R b (c :: d) else c :: list_merge R (a :: b) d).
    rewrite (decide_ext _ _ _ _ (HR x y)), IH2. destruct (decide (R x y)); [|reflexivity].
    cbn [map]. f_equal. apply (IH1 (y :: l2)). }
  assert (forall st l, merge_list_to_stack R (map (option_map (map hide_answer)) st) (map hide_answer l) =
    map (option_map (map hide_answer)) (merge_list_to_stack R st l)) as Hs.
  { induction st as [|[l1|] st IH]; intros l0; [reflexivity| |reflexivity]. cbn. rewrite Hm, IH. reflexivity. }
  assert (forall st, merge_stack R (map (option_map (map hide_answer)) st) = map hide_answer (merge_stack R st)) as Hst
    by (induction st as [|[l1|] st IH]; cbn; rewrite ?IH, ?Hm; reflexivity).
  change (@nil (option (list Question))) with (map (option_map (map hide_answer)) []) at 1. generalize (@nil (option (list Question))) as st.
  induction l as [|x l IH]; intros st; cbn; [apply Hst|]. rewrite <- IH. f_equal. apply (Hs st [x]).
Qed.

Lemma order_by_hide key l : blind key -> order_by key (map hide_answer l) = map hide_answer (order_by key l).
Proof using. intros Hk. apply sort_hide. intros x y. unfold key_le. rewrite !Hk. reflexivity. Qed.

Lemma order_by_desc_hide key l : blind key -> order_by_desc key (map hide_answer l) = map hide_answer (order_by_desc key l).
Proof using. intros Hk. apply order_by_hide. intros q. rewrite Hk. reflexivity. Qed.

Lemma order_by2_hide k1 k2 l : blind k1 -> blind k2 -> order_by2 k1 k2 (map hide_answer l) = map hide_answer (order_by2 k1 k2 l).
Proof using. intros H1 H2. apply sort_hide. intros x y. unfold keys_le. rewrite !H1, !H2. reflexivity. Qed.

(** ** Programs *)

(** [p'] behaves on the hidden state as [p] does on the state, and its result is
    that of [p] after [g]. *)
Definition hides {A} (g : A -> A) (p p' : Prg A) : Prop := forall E in_tx pos s, alone E ->
  run E in_tx p' pos (hide s) = let '(a, s', pos') := run E in_tx p pos s in (g a, hide s', pos').

(** A program whose result does not carry hidden answers. *)
Definition same {A} (p : Prg A) : Prop := hides id p p.

Lemma alone_quiet (E : ServerEnv) : alone E -> alone (quiet E).
Proof using. intros (_ & H1 & H2). split; [intros t s; reflexivity|]. split; [exact H1|exact H2]. Qed.

Lemma hides_Ret {A} g (a a' : A) : a' = g a -> hides g (Ret a) (Ret a').
Proof using. intros -> E in_tx pos s _. reflexivity. Qed.

Lemma hides_Now {A} g (k k' : Z -> Prg A) : (forall t, hides g (k t) (k' t)) -> hides g (Now k) (Now k').
Proof using. intros H E in_tx pos s HE. apply H, HE. Qed.

Lemma hides_Range {A X} g (l : list X) (k k' : list X -> Prg A) : (forall l', hides g (k l') (k' l')) -> hides g (Range l k) (Range l k').
Proof using. intros H E in_tx pos s HE. apply H, HE. Qed.

Lemma hides_Call {A} g req (k k' : Response req -> Prg A) : (forall r, hides g (k r) (k' r)) -> hides g (Call req k) (Call req k').
Proof using. intros H E in_tx pos s HE. apply H, HE. Qed.

Lemma hides_Atomic {A X} g (f : Timers -> X * Timers) (k k' : X -> Prg A) : (forall x, hides g (k x) (k' x)) ->
  hides g (Atomic f k) (Atomic f k').
Proof using.
  intros H E in_tx pos s HE. cbn [run]. rewrite !(alone_still E HE). cbn. destruct (f (mem s)) as [x m].
  exact (H x E in_tx (next_pos pos) {| s with mem := m |} HE).
Qed.

Lemma hides_bind {A B} g h (p p' : Prg A) (f f' : A -> Prg B) :
  hides g p p' -> (forall a, hides h (f a) (f' (g a))) -> hides h (bind p f) (bind p' f').
Proof using.
  intros Hp Hf E in_tx pos s HE. rewrite !run_bind, (Hp E in_tx pos s HE).
  destruct (run E in_tx p pos s) as [[a s'] pos']. apply Hf, HE.
Qed.

(** The rest of a program after one whose results satisfy [Q]. *)
Lemma hides_bind_returns {A B} (Q : A -> Prop) g h (p p' : Prg A) (f f' : A -> Prg B) :
  hides g p p' -> returns Q p -> (forall a, Q a -> hides h (f a) (f' (g a))) -> hides h (bind p f) (bind p' f').
Proof using.
  intros Hp HQ Hf E in_tx pos s HE. rewrite !run_bind, (Hp E in_tx pos s HE).
  pose proof (run_returns Q E p HQ in_tx pos s) as Ha. destruct (run E in_tx p pos s) as [[a s'] pos']. apply (Hf a Ha), HE.
Qed.

(** A statement whose result and effect commute with hiding. *)
Lemma hides_Sql {A X} g h (st : stmt X) (k k' : result X -> Prg A) :
  (forall env d, st env (hide_db d) = (rmap g (fst (st env d)), hide_db (snd (st env d)))) ->
  (forall r, hides h (k r) (k' (rmap g r))) -> hides h (Sql st k) (Sql st k').
Proof using.
  intros Hst Hk E in_tx pos s HE. cbn [run]. rewrite !(alone_still E HE). unfold run_stmt.
  assert (forall msg pos', run E in_tx (k' (Err (Failure msg))) pos' {| (hide s) with db := db (hide s) |} =
    let '(a, s', p) := run E in_tx (k (Err (Failure msg))) pos' {| s with db := db s |} in (h a, hide s', p)) as Hfail.
  { intros msg pos'. destruct s as [d m]. exact (Hk (Err (Failure msg)) E in_tx pos' (mkState d m) HE). }
  destruct (aborted pos); [apply Hfail|]. destruct (fault E (tick pos)) as [msg|]; [apply Hfail|].
  cbn [db hide]. rewrite Hst. destruct (st (sql_env E (tick pos)) (db s)) as [r d']. cbn [fst snd].
  destruct r as [x|e]; cbn [rmap]; [exact (Hk (Ok x) E in_tx _ {| s with db := d' |} HE) | exact (Hk (Err e) E in_tx _ {| s with db := d' |} HE)].
Qed.

Lemma hides_Tx {A X} g h (body body' : Prg (result X)) (k k' : result X -> Prg A) :
  hides (rmap g) body body' -> (forall r, hides h (k r) (k' (rmap g r))) -> hides h (Tx body k) (Tx body' k').
Proof using.
  intros Hb Hk E in_tx pos s HE. cbn [run]. rewrite !(alone_still E HE).
  destruct (fault E (tick pos)) as [msg|]; [exact (Hk (Err (Wrapped "begin tx" (Failure msg))) E in_tx _ s HE)|].
  rewrite (Hb (quiet E) true (next_pos pos) s (alone_quiet E HE)).
  destruct (run (quiet E) true body (next_pos pos) s) as [[r s1] pos1].
  assert (forall r pos', run E in_tx (k' (rmap g r)) pos' {| (hide s1) with db := db (hide s) |} =
    let '(a, s', p) := run E in_tx (k r) pos' {| s1 with db := db s |} in (h a, hide s', p)) as Hback
    by (intros r0 pos'; exact (Hk r0 E in_tx pos' {| s1 with db := db s |} HE)).
  destruct r as [x|e]; cbn [rmap]; [|exact (Hback (Err e) _)].
  destruct (if aborted pos1 then _ else _) as [msg|]; [exact (Hback (Err (Failure msg)) _)|].
  exact (Hk (Ok x) E in_tx _ s1 HE).
Qed.

(** *** The derived rules *)

Lemma hides_ext {A} (g h : A -> A) p p' : (forall a, g a = h a) -> hides g p p' -> hides h p p'.
Proof using.
  intros He H E in_tx pos s HE. rewrite (H E in_tx pos s HE). destruct (run _ _ _ _ _) as [[a s'] pos']. rewrite He. reflexivity.
Qed.

Lemma rmap_id {X} (r : result X) : rmap id r = r.
Proof using. destruct r; reflexivity. Qed.

Lemma hides_query {X} g msg (f : SqlEnv -> DB -> result X) : (forall env d, f env (hide_db d) = rmap g (f env d)) ->
  hides (rmap g) (query msg f) (query msg f).
Proof using.
  intros H. apply (hides_Sql g).
  - intros env d. cbn [fst snd]. rewrite H. reflexivity.
  - intros [x|e]; apply hides_Ret; reflexivity.
Qed.

Lemma same_query {X} msg (f : SqlEnv -> DB -> result X) : (forall env d, f env (hide_db d) = f env d) -> same (query msg f).
Proof using.
  intros H. eapply hides_ext; [|apply (hides_query id); intros env d; rewrite rmap_id; apply H]. intros r. apply rmap_id.
Qed.

Lemma same_exec {X} msg (f : SqlEnv -> DB -> result X * DB) :
  (forall env d, f env (hide_db d) = (fst (f env d), hide_db (snd (f env d)))) -> same (exec msg f).
Proof using.
  intros H. apply (hides_Sql id); [intros env d; rewrite rmap_id; apply H|]. intros r. apply hides_Ret. rewrite rmap_id. reflexivity.
Qed.

Lemma same_Ret {A} (a : A) : same (Ret a).
Proof using. apply hides_Ret. reflexivity. Qed.

Lemma same_bind {A B} (p : Prg A) (f : A -> Prg B) : same p -> (forall a, same (f a)) -> same (bind p f).
Proof using. intros Hp Hf. apply (hides_bind id); [exact Hp|exact Hf]. Qed.

Lemma same_bind_ok {A B} (p : Prg (result A)) (f : A -> Prg (result B)) : same p -> (forall a, same (f a)) -> same (bind_ok p f).
Proof using. intros Hp Hf. apply same_bind; [exact Hp|]. intros [a|e]; [apply Hf|apply same_Ret]. Qed.

Lemma same_wrapped {A} msg (p : Prg (result A)) : same p -> same (wrapped msg p).
Proof using. intros Hp. apply same_bind; [exact Hp|]. intros r. apply same_Ret. Qed.

Lemma same_Now {A} (k : Z -> Prg A) : (forall t, same (k t)) -> same (Now k).
Proof using. apply hides_Now. Qed.

Lemma same_Range {A X} (l : list X) (k : list X -> Prg A) : (forall l', same (k l')) -> same (Range l k).
Proof using. apply hides_Range. Qed.

Lemma same_Call {A} req (k : Response req -> Prg A) : (forall r, same (k r)) -> same (Call req k).
Proof using. apply hides_Call. Qed.

Lemma same_Atomic {A X} (f : Timers -> X * Timers) (k : X -> Prg A) : (forall x, same (k x)) -> same (Atomic f k).
Proof using. apply hides_Atomic. Qed.

Lemma same_Tx {X A} (body : Prg (result X)) (k : result X -> Prg A) : same body -> (forall r, same (k r)) -> same (Tx body k).
Proof using.
  intros Hb Hk. apply (hides_Tx id); [|intros r; rewrite rmap_id; apply Hk].
  eapply hides_ext; [|exact Hb]. intros r. symmetry. apply rmap_id.
Qed.

(** After a query of a question, a program that does not read its answer. *)
Lemma same_question {B} (p : Prg (result (option Question))) (f : result (option Question) -> Prg B) :
  hides (rmap (option_map hide_answer)) p p ->
  (forall e, same (f (Err e))) -> same (f (Ok None)) -> (forall q, hides id (f (Ok (Some q))) (f (Ok (Some (hide_answer q))))) ->
  same (bind p f).
Proof using.
  intros Hp He Hn Hq. apply (hides_bind (rmap (option_map hide_answer))); [exact Hp|].
  intros [[q|]|e]; [apply Hq|exact Hn|apply He].
Qed.

Lemma same_question_ok {B} (p : Prg (result (option Question))) (f : option Question -> Prg (result B)) :
  hides (rmap (option_map hide_answer)) p p ->
  same (f None) -> (forall q, hides id (f (Some q)) (f (Some (hide_answer q)))) -> same (bind_ok p f).
Proof using. intros Hp Hn Hq. apply same_question; [exact Hp|intros e; apply same_Ret|exact Hn|exact Hq]. Qed.

Lemma hides_wrapped {A} g msg (p : Prg (result A)) : hides (rmap g) p p -> hides (rmap g) (wrapped msg p) (wrapped msg p).
Proof using. intros Hp. eapply hides_bind; [exact Hp|]. intros [a|e]; apply hides_Ret; reflexivity. Qed.

Lemma same_refl {A} (p p' : Prg A) : p' = p -> same p -> hides id p p'.
Proof using. intros ->. auto. Qed.

(** ** The store *)

Lemma hide_BSID q : q_BSID (hide_answer q) = q_BSID q. Proof using. apply hide_columns. Qed.
Lemma hide_QuestionID q : q_QuestionID (hide_answer q) = q_QuestionID q. Proof using. apply hide_columns. Qed.
Lemma hide_Question q : q_Question (hide_answer q) = q_Question q. Proof using. apply hide_columns. Qed.
Lemma hide_Questioner q : q_Questioner (hide_answer q) = q_Questioner q. Proof using. apply hide_columns. Qed.

Lemma hide_CreatedAt q : q_CreatedAt (hide_answer q) = q_CreatedAt q. Proof using. apply hide_columns. Qed.
Lemma hide_Status q : q_Status (hide_answer q) = q_Status q. Proof using. apply hide_columns. Qed.

Lemma GetQuestion_hides id : hides (rmap (option_map hide_answer)) (GetQuestion id) (GetQuestion id).
Proof using.
  apply hides_query. intros env d. cbn. unfold find_question. cbn. rewrite find_hide by see_columns. reflexivity.
Qed.

Lemma PickQuestion_hides w n : hides (rmap (option_map hide_answer)) (PickQuestionForWorker w n) (PickQuestionForWorker w n).
Proof using.
  apply hides_query. intros env d. cbn [rmap]. f_equal. unfold candidates. cbn [hide_db questions].
  assert (blind (open_to w n d)) as Hb
    by (intros q; unfold open_to, is_submitted; rewrite hide_QuestionID, hide_Questioner, hide_Status; reflexivity).
  change (open_to w n (hide_db d)) with (open_to w n d). rewrite (filter_hide _ _ Hb), order_by_hide by see_columns.
  rewrite firstn_map. apply list_lookup_map.
Qed.

Lemma insert_assignment_same q w ddl env d :
  insert_assignment q w ddl env (hide_db d) = (fst (insert_assignment q w ddl env d), hide_db (snd (insert_assignment q w ddl env d))).
Proof using.
  unfold insert_assignment. cbn [hide_db questions assignments]. rewrite existsb_hide by (intros r; rewrite hide_QuestionID; reflexivity).
  change (find_worker w (hide_db d)) with (find_worker w d).
  destruct (negb _); [reflexivity|]. destruct (find_worker w d); [|reflexivity]. destruct (existsb _ (assignments d)); reflexivity.
Qed.

Lemma insert_question_same bsID w q a mh env d : others w = false ->
  insert_question bsID w q a mh env (hide_db d) = (fst (insert_question bsID w q a mh env d), hide_db (snd (insert_question bsID w q a mh env d))).
Proof using.
  intros Hw. unfold insert_question. change (find_benchmark_set bsID (hide_db d)) with (find_benchmark_set bsID d).
  change (find_worker w (hide_db d)) with (find_worker w d).
  destruct (find_benchmark_set bsID d); [|reflexivity]. destruct (find_worker w d); [|reflexivity].
  cbn [fst snd]. f_equal. unfold hide_db. cbn. rewrite map_app. cbn. do 3 f_equal. unfold hide_answer, hidden. cbn. rewrite Hw. reflexivity.
Qed.

Lemma minhashes_same p d : blind p -> minhashes p (hide_db d) = minhashes p d.
Proof using.
  intros Hp. unfold minhashes. cbn. rewrite filter_hide by exact Hp. induction (List.filter p (questions d)) as [|q l IH]; [reflexivity|].
  cbn. rewrite IH. destruct (hide_columns q) as (_ & _ & _ & _ & _ & _ & _ & _ & _ & -> & _). reflexivity.
Qed.
End Hiding.

(** A function of columns other than the answer. *)
Ltac see_columns :=
  let q := fresh in
  let C1 := fresh in let C2 := fresh in let C3 := fresh in let C4 := fresh in let C5 := fresh in let C6 := fresh in
  let C7 := fresh in let C8 := fresh in let C9 := fresh in let C10 := fresh in let C11 := fresh in let C12 := fresh in
  intros q; cbv beta; unfold is_submitted, question_scored;
  match goal with |- context [hide_answer ?o q] =>
    destruct (hide_columns o q) as (C1 & C2 & C3 & C4 & C5 & C6 & C7 & C8 & C9 & C10 & C11 & C12)
  end; rewrite ?C1, ?C2, ?C3, ?C4, ?C5, ?C6, ?C7, ?C8, ?C9, ?C10, ?C11, ?C12; reflexivity.

(** One rule of [same]. *)
Create HintDb same.

Ltac same_step :=
  lazymatch goal with
  | |- same _ (Ret _) => apply same_Ret
  | |- same _ (Now _) => apply same_Now; intros ?
  | |- same _ (Range _ _) => apply same_Range; intros ?
  | |- same _ (Call _ _) => apply same_Call; intros ?
  | |- same _ (Atomic _ _) => apply same_Atomic; intros ?
  | |- same _ (Tx _ _) => apply same_Tx; [|intros ?]
  | |- same _ (wrapped _ _) => apply same_wrapped
  | |- same _ (bind_ok _ _) => apply same_bind_ok; [|intros ?]
  | |- same _ (bind _ _) => apply same_bind; [|intros ?]
  | |- same _ (query _ _) => apply same_query; intros ? ?; reflexivity
  | |- same _ (exec _ _) => apply same_exec; intros ? ?; reflexivity
  | |- same _ (if ?b then _ else _) => destruct b
  | |- same _ (match ?x with _ => _ end) => destruct x
  | |- same _ (let _ := _ in _) => cbv zeta
  end.
(** After the query of a question: a program that does not read its answer. *)
Ltac question_step :=
  match goal with
  | |- same _ (bind_ok _ _) =>
      apply same_question_ok;
        [first [apply GetQuestion_hides | apply hides_wrapped; first [apply GetQuestion_hides | apply PickQuestion_hides]]
        | | intros ?; apply same_refl; [rewrite ?hide_QuestionID, ?hide_BSID, ?hide_Question; reflexivity|]]
  | |- same _ (bind _ _) =>
      apply same_question;
        [apply GetQuestion_hides
        | intros ? | | intros ?; apply same_refl; [rewrite ?hide_QuestionID, ?hide_BSID, ?hide_Question; reflexivity|]]
  end.
Ltac prove_same := repeat first [solve [eauto with same nocore] | progress cbv beta | question_step | same_step].

(** ** The services *)

Section Services.
Context {P : Postgres} {N : PostgresNumeric}.
Variable others : string -> bool.
Abbreviation same := (same others).

Lemma StartReplyTimer_same a : same (StartReplyTimer a).
Proof using. unfold StartReplyTimer. prove_same. Qed.

Lemma server_on_answer_same a : same (server_on_answer a).
Proof using. unfold server_on_answer, CancelTimer. prove_same. Qed.

Lemma TimeoutAssignment_same id : same (TimeoutAssignment id).
Proof using. unfold TimeoutAssignment. prove_same. Qed.

Lemma assign_new_same w required ddl : same (assign_new w required ddl).
Proof using.
  unfold assign_new, CountActiveAssignments, CreateAssignment.
  prove_same. apply same_exec. intros env d. apply insert_assignment_same.
Qed.

Lemma PollOnline_same svc w : (forall f a, ps_OnAssignmentCreated svc = Some f -> same (f a)) -> same (PollOnline svc w).
Proof using.
  intros Hcb. unfold PollOnline, Store_Tx, New, UpdateWorkerLastPollAt, poll_tx, FindClaimedAssignment, buildAssignmentResult, GetBenchmarkSet.
  prove_same; first [apply TimeoutAssignment_same | apply assign_new_same | apply Hcb; reflexivity].
Qed.

Lemma SubmitAnswer_same cb req : (forall f a, cb = Some f -> same (f a)) -> same (SubmitAnswer cb req).
Proof using.
  intros Hcb. unfold SubmitAnswer, GetAssignmentByWorker, GetBenchmarkSet, SetAssignmentReply.
  prove_same; first [apply TimeoutAssignment_same | apply Hcb; reflexivity].
Qed.

Lemma SubmitQuestion_same svc req : others (sq_Worker req) = false -> same (SubmitQuestion svc req).
Proof using.
  intros Hw. unfold SubmitQuestion, Store_Tx, New, GetBenchmarkSet, rate_limited, GetLastQuestionTime, ListAllQuestionMinHashes,
    store_question, CreateQuestion, IncrementBSTotalQuestions. prove_same.
  - apply same_query. intros env d. cbn [hide_db questions]. rewrite filter_hide, order_by_desc_hide by see_columns.
    destruct (order_by_desc _ _) as [|q l]; [reflexivity|]. cbn. rewrite hide_CreatedAt. reflexivity.
  - apply same_query. intros env d. rewrite minhashes_same by see_columns. reflexivity.
  - apply same_exec. intros env d. apply insert_question_same, Hw.
  - apply same_exec. intros env d. unfold update_bs. destruct (forallb _ _); reflexivity.
Qed.
End Services.

(** ** The public and the workers' queries *)

Section Queries.
Context {P : Postgres} {N : PostgresNumeric}.
Variable others : string -> bool.
Abbreviation same := (same others).
Abbreviation hide_answer := (hide_answer others).
Abbreviation hide_db := (hide_db others).

Lemma scored_shown q : question_scored q = true -> hidden others q = false.
Proof using. unfold question_scored, hidden, is_submitted. intros H. bool_props. rewrite H. reflexivity. Qed.

(** Rows of which nothing is hidden: the scored ones, and one's own. *)
Lemma filter_shown p l : blind others p -> (forall q, p q = true -> hidden others q = false) ->
  List.filter p (map hide_answer l) = List.filter p l.
Proof using.
  intros Hb Hp. rewrite filter_hide by exact Hb. rewrite <- (map_id (List.filter p l)) at 2. apply map_ext_in.
  intros q Hq. apply filter_In in Hq as [_ Hq]. unfold Secrecy.hide_answer. rewrite (Hp q Hq). reflexivity.
Qed.

Ltac shown := first [see_columns | intros ? ?; bool_props; apply scored_shown; assumption].

Lemma GetProtocolStats_same : same GetProtocolStats.
Proof using.
  apply same_query. intros env d. cbn [Secrecy.hide_db questions workers epochs]. rewrite length_map, count_hide by see_columns. reflexivity.
Qed.

Lemma leader_of_same d w : leader_of (hide_db d) w = leader_of d w.
Proof using.
  unfold leader_of. cbn [Secrecy.hide_db questions assignments worker_epoch_rewards]. rewrite filter_shown by shown. reflexivity.
Qed.

Lemma GetLeaderboard_same limit : same (GetLeaderboard limit).
Proof using.
  apply same_query. intros env d. cbn [Secrecy.hide_db workers]. rewrite (map_ext _ _ (leader_of_same d)). reflexivity.
Qed.

Lemma GetRecentQuestions_same w limit : same (GetRecentQuestions w limit).
Proof using. apply same_query. intros env d. cbn [Secrecy.hide_db questions]. rewrite filter_shown by shown. reflexivity. Qed.

Lemma ListPublicAssignments_same f : same (ListPublicAssignments f).
Proof using.
  apply same_query. intros env d. cbn [Secrecy.hide_db assignments].
  rewrite (filter_ext _ (fun a => question_is_scored d a && is_scored a && ((pf_QuestionID f <=? 0) || on_question (pf_QuestionID f) a) &&
    (bool_decide (pf_Worker f = ""%string) || of_worker (pf_Worker f) a))); [reflexivity|].
  intros a. unfold question_is_scored. cbn [Secrecy.hide_db questions]. rewrite existsb_hide by see_columns. reflexivity.
Qed.

Lemma scored_between_blind start end_ : blind others (scored_between start end_).
Proof using. unfold scored_between. see_columns. Qed.

Lemma scored_between_shown start end_ q : scored_between start end_ q = true -> hidden others q = false.
Proof using. unfold scored_between. intros H. apply andb_true_iff in H as [H _]. apply scored_shown, H. Qed.

Lemma GetWorkerTodayStats_same w total min : same (GetWorkerTodayStats w total min).
Proof using.
  unfold GetWorkerTodayStats. prove_same.
  - apply same_query. intros env d. unfold ask_stats. cbn [Secrecy.hide_db questions].
    rewrite filter_shown; [reflexivity|..].
    + intros q. rewrite scored_between_blind, hide_Questioner. reflexivity.
    + intros q H. apply andb_true_iff in H as [_ H]. apply scored_between_shown in H. exact H.
  - apply same_query. intros env d. unfold count_today. cbn [Secrecy.hide_db questions].
    rewrite count_hide by apply scored_between_blind. reflexivity.
  - apply same_query. intros env d. unfold answer_stats. cbn [Secrecy.hide_db questions assignments].
    set (p := scored_between _ _).
    assert (forall qs, List.filter (fun a => of_worker w a && existsb (fun q => (q_QuestionID q =? a_QuestionID a) && p q) (map hide_answer qs)) (assignments d)
      = List.filter (fun a => of_worker w a && existsb (fun q => (q_QuestionID q =? a_QuestionID a) && p q) qs) (assignments d)) as ->.
    { intros qs. apply filter_ext. intros b. rewrite existsb_hide; [reflexivity|]. intros q.
      unfold p. rewrite scored_between_blind, hide_QuestionID. reflexivity. }
    reflexivity.
Qed.

Lemma GetWorkerAggregateStats_same w : same (GetWorkerAggregateStats w).
Proof using.
  apply same_query. intros env d. cbn [Secrecy.hide_db questions assignments worker_epoch_rewards].
  rewrite !count_hide by see_columns. reflexivity.
Qed.

Lemma ListQuestionsByFilter_same f : others (qf_Questioner f) = false -> same (ListQuestionsByFilter f).
Proof using.
  intros Hw. apply same_query. intros env d. cbn [Secrecy.hide_db questions].
  rewrite filter_shown; [reflexivity|see_columns|].
  intros q H. bool_props. unfold hidden. destruct (is_submitted q); [|reflexivity]. cbn. congruence.
Qed.

Lemma question_texts_same ids : forall m, same (question_texts ids m).
Proof using.
  induction ids as [|id ids IH]; intros m; cbn [question_texts]; [prove_same|]. question_step; apply IH.
Qed.

Lemma HandleMyQuestion_same w id : others w = false -> same (HandleMyQuestion w id).
Proof using.
  intros Hw. unfold HandleMyQuestion, authenticated. destruct (bool_decide _); [prove_same|]. destruct (Atoi id); [|prove_same].
  apply same_question; [apply GetQuestion_hides|intros e; prove_same|prove_same|]. intros q.
  rewrite hide_Questioner. destruct (bool_decide _) eqn:E; [|apply same_Ret]. apply bool_decide_eq_true_1 in E.
  unfold Secrecy.hide_answer, hidden. rewrite E, Hw, andb_false_r. apply same_Ret.
Qed.

Lemma claim_views_same proofs : same (claim_views proofs).
Proof using. induction proofs as [|p proofs IH]; cbn [claim_views]; unfold GetEpochMerkleRoot; prove_same; exact IH. Qed.
End Queries.

#[export] Hint Resolve GetProtocolStats_same GetLeaderboard_same GetRecentQuestions_same ListPublicAssignments_same
  GetWorkerTodayStats_same GetWorkerAggregateStats_same question_texts_same claim_views_same : same.

(** ** The server *)

Section Server.
Context {P : Postgres} {N : PostgresNumeric}.
Variable Keccak256 : list byte -> list byte.
Variable BytesToHash : list byte -> Hash.
Variable HexToAddress : string -> Address.
Variable PublicKey : Type.
Variable SigToPub : list byte -> list byte -> result PublicKey.
Variable PubkeyToAddress : PublicKey -> Address.
Variable IsHexAddress : string -> bool.
Variable Address_Hex : Address -> string.
Variable key_address : string -> result Address.
Variable sign_ok : Z -> Z -> Z -> result unit.
Variable setMerkleRoot : AbiMethod.
Variable ethHexToHash : string -> Hash.
Variable pq_float : float64 -> string.
Variable settings : Settings.
Variable rt : RuntimeConfig.
Abbreviation signed_by := (signed_by Keccak256 PublicKey SigToPub PubkeyToAddress IsHexAddress HexToAddress Address_Hex).
Abbreviation authorize := (authorize Keccak256 PublicKey SigToPub PubkeyToAddress IsHexAddress HexToAddress Address_Hex).
Abbreviation serve := (serve Keccak256 BytesToHash HexToAddress PublicKey SigToPub PubkeyToAddress IsHexAddress Address_Hex
  key_address sign_ok setMerkleRoot ethHexToHash pq_float settings rt).
Variable others : string -> bool.
Variable r : HttpRequest.
(** Not the administrator's request; the answers of its signer are not hidden. *)
Hypothesis not_admin : Header_Get r "Authorization" <> ("Bearer " +:+ adminToken settings)%string.
Hypothesis own_shown : forall a, signed_by r a -> others a = false.
Abbreviation same := (same others).

Lemma served_same {T} (inj : T -> Data) (p : Prg (HttpResponse T)) : same p -> same (served rt inj p).
Proof using. intros Hp. apply same_bind; [exact Hp|]. intros resp. apply same_Ret. Qed.

(** The authentication does not look at questions, and lets a request through
    for its signer only. *)
Lemma authorize_same {D} cfg : (forall a, same (registerCheck cfg a)) -> same (authorize cfg r : Prg (HttpResponse D + string)).
Proof using.
  intros Hreg. unfold Auth.authorize, find_or_create, check_suspension, CreateWorker, GetWorker, UnsuspendWorker. prove_same.
  apply same_exec. intros env d. unfold insert_worker. change (find_worker ?a (hide_db _ d)) with (find_worker a d).
  destruct (find_worker _ d); reflexivity.
Qed.

Lemma authorize_returns {D} cfg :
  returns (fun out => match out with inl _ => True | inr a => signed_by r a end) (authorize cfg r : Prg (HttpResponse D + string)).
Proof using.
  unfold Auth.authorize. destruct (_ || _); [exact I|]. destruct (Atoi _) as [ts|]; [|exact I]. intros now.
  destruct (timestamp_expired _ _ _); [exact I|]. destruct (signer _ _ _ _ _ _ r) as [resp|rec] eqn:Es; [exact I|].
  apply (signer_signed _ _ _ _ _ _ Address_Hex) in Es. destruct (wc_SignatureOnly cfg); [exact Es|].
  apply returns_bind. intros [resp|w]; [exact I|]. unfold check_suspension. intros now1. destruct (_ && _); [exact I|].
  intros now2. apply returns_bind. intros _. exact Es.
Qed.

Lemma by_worker_same {T} cfg (inj : T -> Data) h vars : wc_RegisterCheck cfg = Some (may_register settings rt) ->
  (forall w, others w = false -> same (h w vars r)) ->
  same (by_worker Keccak256 HexToAddress PublicKey SigToPub PubkeyToAddress IsHexAddress Address_Hex rt cfg inj h vars r).
Proof using own_shown.
  intros Hcfg Hh. apply served_same. unfold WorkerAuth. eapply hides_bind_returns; [|apply authorize_returns|].
  - apply authorize_same. intros a. unfold registerCheck. rewrite Hcfg. unfold may_register, IsRegistered. prove_same.
  - intros [resp|w] Hw; [apply same_Ret|]. apply Hh, own_shown, Hw.
Qed.

Lemma routes_same : Forall (fun ro => forall vars, same (ro_Handler ro vars r))
  (registerRoutes Keccak256 BytesToHash HexToAddress PublicKey SigToPub PubkeyToAddress IsHexAddress Address_Hex
     key_address sign_ok setMerkleRoot ethHexToHash pq_float settings rt).
Proof using not_admin own_shown.
  unfold registerRoutes. apply List.Forall_app. split; [|apply List.Forall_app; split].
  - unfold public_routes. each_route; intros vars; apply served_same;
      unfold HandlePublicList, HandlePublicGet, HandleStats, HandleLeaderboard, HandlePublicQuestions, HandlePublicAssignments,
      HandlePublicEpochs, HandleRecipientRewards, HandleWorkerToday, HandleClaims, HandleClaim,
      ListBenchmarkSets, GetBenchmarkSet, ListEpochs, ListRecipientEpochRewards, ListMerkleProofsByRecipient, GetMerkleProof, GetEpochMerkleRoot;
      prove_same.
  - unfold worker_routes. each_route; intros vars; apply by_worker_same; try reflexivity; intros w Hw;
      unfold HandleSubmitQuestion, HandlePoll, HandleSubmitAnswer, HandleMyStatus, HandleMyQuestions, HandleMyAssignments,
      HandleMyAssignment, HandleMyEpochs, HandleMyEpoch, authenticated, buildAssignmentViews, GetWorker, ListAssignmentsByFilter,
      GetAssignment, ListWorkerEpochRewards, GetWorkerEpochReward;
      first [apply HandleMyQuestion_same; exact Hw | prove_same].
    all: first [apply SubmitQuestion_same; exact Hw | apply PollOnline_same; intros f a [= <-]; apply StartReplyTimer_same
      | apply SubmitAnswer_same; intros f a [= <-]; apply server_on_answer_same | apply ListQuestionsByFilter_same; exact Hw].
  - unfold admin_routes. each_route; intros vars; unfold ro_Handler, by_admin, by_admin_config;
      match goal with |- context [AdminAuth _ ?h r] => destruct (admin_refuses settings h r not_admin) as [msg ->] end;
      try apply served_same; prove_same.
Qed.

Lemma serve_same : same (serve r).
Proof using not_admin own_shown.
  unfold Server.serve, serve_mux. destruct (negb _); [apply same_Ret|].
  match goal with |- context [find_route ?l r] => destruct (find_route l r) as [[ro vars]|] eqn:Ef end.
  - apply find_route_elem in Ef. pose proof routes_same as H. rewrite List.Forall_forall in H. apply H, list_elem_of_In, Ef.
  - destruct (existsb _ _); apply same_Ret.
Qed.

(** C7: nobody but the administrator learns the reference answer of an open
    question of another worker: whatever the request and whatever fails, two
    states that differ only in such answers give the same reply and the same
    configuration, and end in states that differ only in them. *)
Theorem answers_stay_secret E s1 s2 : alone E -> hide others s1 = hide others s2 ->
  let '(out1, s1') := run_top E (serve r) s1 in
  let '(out2, s2') := run_top E (serve r) s2 in
  out1 = out2 /\ hide others s1' = hide others s2'.
Proof using not_admin own_shown.
  intros HE Hs. pose proof (serve_same E false (mkPos 0 false) s1 HE) as H1.
  pose proof (serve_same E false (mkPos 0 false) s2 HE) as H2. unfold run_top. rewrite Hs, H2 in H1.
  destruct (run _ _ _ _ s1) as [[out1 s1'] pos1], (run _ _ _ _ s2) as [[out2 s2'] pos2].
  pose proof (f_equal (fun x => fst (fst x)) H1) as Ho. pose proof (f_equal (fun x => snd (fst x)) H1) as Hst. cbn [fst snd] in Ho, Hst |- *. unfold id in Ho. auto.
Qed.
End Server.

(** ** A poll

    The worker is given the open question of the asker; the reply does not
    depend on its answer. *)

Definition poll_db (answer : string) : DB :=
  mkDB [mkWorker "asker" None 0 None 0; mkWorker toy_worker None 0 None 0] [toy_bs]
    [{| toy_question with q_Answer := answer |}] [] [] [] [] [] 2 1.
Definition poll_now : HttpRequest := toy_request "GET" "/api/v1/poll" "2000" [].
Definition everyone_else (w : string) : bool := negb (bool_decide (w = toy_worker)).

Lemma answers_stay_secret_witness :
  let out answer := run_top (still_env (2000 * Second) 0 refuse) (toy_serve toy_settings (load_config []) poll_now) (mkState (poll_db answer) no_timers) in
  fst (out "4"%string) = fst (out "5"%string) /\
  response_status (fst (fst (out "4"%string))) = Some StatusOK /\ length (assignments (db (snd (out "4"%string)))) = 1%nat.
Proof.
  intros out. split; [|vm_compute; auto].
  assert (forall a, signed_by toy_hash (list byte) toy_sig_to_pub id (fun _ => true) toy_hex_to_address toy_address_hex poll_now a ->
    everyone_else a = false) as Hown.
  { intros a (body & rec & Hb & Hv & _ & _ & ->). injection Hb as <-.
    assert (Ok toy_address = Ok rec) as [= <-] by (rewrite <- Hv; vm_compute; reflexivity). vm_compute. reflexivity. }
  pose proof (answers_stay_secret toy_hash id toy_hex_to_address (list byte) toy_sig_to_pub id (fun _ => true) toy_address_hex
    (fun _ => Err (Failure "no key")) (fun _ _ _ => Ok tt) no_abi (fun _ => []) (fun _ => ""%string)
    toy_settings (load_config []) everyone_else poll_now ltac:(discriminate) Hown (still_env (2000 * Second) 0 refuse)
    (mkState (poll_db "4") no_timers) (mkState (poll_db "5") no_timers)
    (undisturbed_alone _ (still_undisturbed _ _ _)) ltac:(vm_compute; reflexivity)) as H.
  subst out. cbv beta. destruct (run_top _ _ _) as [o1 s1], (run_top _ _ (mkState (poll_db "5") _)) as [o2 s2]. apply H.
Defined.
