(* ===== verification/Claims.v ===== *)
(** * Claims: what a settlement leaves to be claimed

    The end of [src/internal/service/settlement.go] on the tables: when
    [buildMerkleTree] succeeds, the stored claims of the epoch are those of a
    Merkle tree whose root is stored with the epoch, every stored proof verifies
    against that root, and the claims hand out exactly the positive final
    rewards, added up by recipient, who is the worker on a test net and
    otherwise as RootNet has answered ([paid_to]); [Settle] keeps this to its end.

    Theorems: the end of [Settle] ([buildMerkleTree_wp]), the whole of it
    ([Settle_claims]), and that the public API of [HandlersPublic] serves the
    claim of every paid worker's recipient with the stored root and a proof
    that verifies ([claims_served]). *)

From S2P Require Import Prelude Float64 GoLang Merkle Model Prog Tables Store StoreQuestion StoreEpoch Calendar StoreQueries Lifecycle Config RootNet Http Auth HandlersPublic Onchain Settlement.
#[local] Open Scope Z_scope.
#[local] Open Scope prog_scope.

(** ** Recipients *)

Section Recipients.
Context {P : Postgres} {Reply : forall req, Response req -> Prop}.
Variable svc : SettlementService.

Definition lower (r : string) : Prop := ToLower r = r.

(** What [buildMerkleTree] asks RootNet about a worker. *)
Definition user_request (w : string) : Request := HttpUser (baseURL (st_RootNet svc) +:+ "/api/users/" +:+ w).

(** Who is to be paid for the worker [w] when RootNet has [address] on record
    for it: the worker itself when that is no address. *)
Definition payee (w address : string) : string :=
  if decide (address = "" \/ address = zero_address)%string then w else address.

(** The recipient of a worker's reward: on a test net the worker itself, and
    otherwise the payee of an answer that RootNet has given for that worker,
    with status 200; in lower case. *)
Definition paid_to (w r : string) : Prop :=
  if isTestnet svc then r = ToLower w
  else exists u, Reply (user_request w) (Ok (200, Ok u)) /\ r = ToLower (payee w (u_RecipientAddress u)).

Lemma recipient_reply_payee w resp r : recipient_reply w resp = Ok r ->
  exists u, resp = Ok (200, Ok u) /\ r = ToLower (payee w (u_RecipientAddress u)).
Proof using.
  unfold recipient_reply, recipient_of, payee. destruct resp as [[status body]|e]; [|discriminate].
  destruct (Z.eqb_spec status 200) as [->|]; [|discriminate]. destruct body as [u|e]; [|discriminate].
  intros [= <-]. exists u. split; [reflexivity|]. cbv zeta. symmetry. case_decide as D.
  - destruct D as [->| ->]; reflexivity.
  - rewrite !bool_decide_eq_false_2 by tauto. reflexivity.
Qed.

Lemma paid_to_lower w r : paid_to w r -> lower r.
Proof using.
  unfold paid_to. destruct (isTestnet svc); [intros ->; apply ToLower_idem|].
  intros (u & _ & ->). apply ToLower_idem.
Qed.

Lemma ToLower_nonempty r : r <> ""%string -> ToLower r <> ""%string.
Proof using.
  intros Hr H. apply Hr. apply (f_equal bytes_of_string) in H. unfold ToLower in H. rewrite bytes_of_string_of_bytes in H.
  rewrite <- (string_of_bytes_of_string r). destruct (bytes_of_string r); [reflexivity|discriminate H].
Qed.

Lemma paid_to_nonempty w r : w <> ""%string -> paid_to w r -> r <> ""%string.
Proof using.
  intros Hw. unfold paid_to. destruct (isTestnet svc); [intros ->; apply ToLower_nonempty, Hw|].
  intros (u & _ & ->). apply ToLower_nonempty. unfold payee. case_decide; [exact Hw|tauto].
Qed.

Lemma lookup_recipient_wp Fault w n : forall s,
  wp Fault Reply false eq any_step (lookup_recipient svc n w)
    (fun r ab s' => ab = false /\ s' = s /\
       match r with Ok r => exists resp, Reply (user_request w) resp /\ recipient_reply w resp = Ok r | Err _ => True end) false s.
Proof using.
  induction n as [|n IH]; intros s; cbn [lookup_recipient]; [wp_norm; auto|]. unfold GetRewardRecipient.
  cbv zeta. rewrite wp_bind, wp_Call. intros resp Hresp. rewrite wp_Ret.
  destruct (recipient_reply w resp) as [r|e] eqn:Er; [wp_norm; split; [reflexivity|]; split; [reflexivity|]|].
  - exists resp. split; [exact Hresp|exact Er].
  - destruct n as [|n]; [wp_norm; auto|]. apply IH.
Qed.

Lemma lookup_all_wp Fault l : forall s,
  wp Fault Reply false eq any_step (lookup_all svc l)
    (fun rs ab s' => ab = false /\ s' = s /\ map fst rs = l /\
       forall x, x ∈ rs -> match snd x with
         | Ok r => exists resp, Reply (user_request (fst (fst x))) resp /\ recipient_reply (fst (fst x)) resp = Ok r
         | Err _ => True
         end) false s.
Proof using.
  induction l as [|[addr reward] l IH]; intros s; cbn [lookup_all].
  - wp_norm. split; [reflexivity|]. split; [reflexivity|]. split; [reflexivity|]. intros x Hx. inversion Hx.
  - rewrite wp_bind. eapply wp_mono; [|apply lookup_recipient_wp]. intros r ab s1 (-> & -> & Hr).
    rewrite wp_bind. eapply wp_mono; [|apply IH]. intros rs ab s1 (-> & -> & Hm & Hrs). wp_norm.
    split; [reflexivity|]. split; [reflexivity|]. split; [cbn; rewrite Hm; reflexivity|].
    intros x [->|Hx]%elem_of_cons; [exact Hr|apply Hrs, Hx].
Qed.

(** Without errors every lookup has a recipient. *)
Lemma lookup_successes_all rs : lookup_errors rs = [] ->
  map (fun e => (rr_workerAddr e, rr_reward e)) (lookup_successes rs) = map fst rs /\
  forall e, e ∈ lookup_successes rs -> exists x, x ∈ rs /\ fst (fst x) = rr_workerAddr e /\ snd x = Ok (rr_recipient e).
Proof using.
  induction rs as [|[[addr reward] [r|e]] rs IH]; intros H; [split; [reflexivity|intros e He; inversion He]| |discriminate].
  destruct (IH H) as [H1 H2]. split; [cbn; f_equal; exact H1|].
  intros e He. change (lookup_successes ((addr, reward, Ok r) :: rs)) with (mkRecipientResult addr r reward :: lookup_successes rs) in He.
  apply elem_of_cons in He as [->|He]; [exists (addr, reward, Ok r); split; [left|split; reflexivity]|].
  destruct (H2 e He) as (x & Hx & E). exists x. split; [right; exact Hx|exact E].
Qed.

(** The eligible workers with their recipients. *)
Definition resolves (eligible : list (string * Z)) (l : list recipientResult) : Prop :=
  map (fun e => (rr_workerAddr e, rr_reward e)) l = eligible /\ forall e, e ∈ l -> paid_to (rr_workerAddr e) (rr_recipient e).

Lemma resolve_recipients_wp Fault eligible s :
  wp Fault Reply false eq any_step (resolve_recipients svc eligible)
    (fun r ab s' => ab = false /\ s' = s /\ match r with Ok l => resolves eligible l | Err _ => True end) false s.
Proof using.
  unfold resolve_recipients, resolves, paid_to. destruct (isTestnet svc) eqn:Et.
  - wp_norm. split; [reflexivity|]. split; [reflexivity|]. split.
    + rewrite map_map. rewrite <- (map_id eligible) at 2. apply map_ext. intros [addr reward]. reflexivity.
    + intros e He. apply elem_of_map in He as ([addr reward] & -> & _). reflexivity.
  - rewrite wp_bind. eapply wp_mono; [|apply lookup_all_wp]. intros rs ab s1 (-> & -> & Hm & Hrs).
    rewrite wp_Range. intros errs Herrs. destruct errs as [|e errs]; [|wp_norm; auto].
    apply Permutation_nil_l in Herrs. destruct (lookup_successes_all rs (eq_sym Herrs)) as [H1 H2].
    wp_norm. split; [reflexivity|]. split; [reflexivity|]. split; [rewrite H1; exact Hm|].
    intros e He. destruct (H2 e He) as (x & Hx & Ew & Ex). specialize (Hrs x Hx). rewrite Ex, Ew in Hrs.
    destruct Hrs as (resp & Hresp & Hr). apply recipient_reply_payee in Hr as (u & -> & Hr). eauto.
Qed.
End Recipients.

(** ** Rewards by recipient *)

Definition for_recipient (k : string) (e : recipientResult) : bool := bool_decide (rr_recipient e = k).

(** The rewards of one recipient. *)
Definition owed (k : string) (l : list recipientResult) : Z := sum_by rr_reward (List.filter (for_recipient k) l).

Lemma owed_snoc k l e : owed k (l ++ [e]) = owed k l + (if for_recipient k e then rr_reward e else 0).
Proof.
  unfold owed. rewrite List.filter_app, sum_by_app. cbn. destruct (for_recipient k e); cbn; lia.
Qed.

Lemma owed_bounds k l : (forall e, e ∈ l -> 0 < rr_reward e) -> 0 <= owed k l <= sum_by rr_reward l.
Proof.
  intros H. unfold owed. split.
  - apply sum_by_nonneg. intros e He. apply elem_of_filter_bool in He as [_ He]. specialize (H e He). lia.
  - induction l as [|e l IH]; [reflexivity|]. cbn. assert (0 < rr_reward e) by (apply H; left).
    assert (sum_by rr_reward (List.filter (for_recipient k) l) <= sum_by rr_reward l)
      by (apply IH; intros e' He'; apply H; right; exact He').
    destruct (for_recipient k e); cbn; lia.
Qed.

Lemma recipient_rewards l : (forall e, e ∈ l -> 0 < rr_reward e) -> sum_by rr_reward l < 2 ^ 63 ->
  (forall k, fold_left add_reward l ∅ !! k = if existsb (for_recipient k) l then Some (owed k l) else None) /\
  total id (fold_left add_reward l ∅) = sum_by rr_reward l.
Proof.
  induction l as [|e l IH] using rev_ind; intros Hpos Hb; [split; [reflexivity|apply total_empty]|].
  rewrite sum_by_app in *. cbn [sum_by] in *.
  assert (forall e', e' ∈ l -> 0 < rr_reward e') as Hl by (intros e' He'; apply Hpos, elem_of_app; left; exact He').
  assert (0 < rr_reward e) as He by (apply Hpos, elem_of_app; right; left).
  destruct (IH Hl ltac:(lia)) as [H1 H2]. rewrite fold_left_app. cbn [fold_left].
  set (m := fold_left add_reward l ∅) in *. unfold add_reward.
  assert (default 0 (m !! rr_recipient e) = owed (rr_recipient e) l) as Hd.
  { rewrite H1. destruct (existsb _ l) eqn:E; [reflexivity|]. cbn. unfold owed. rewrite filter_none; [reflexivity|].
    apply existsb_false, E. }
  pose proof (owed_bounds (rr_recipient e) l Hl). rewrite Hd, wrap64_id by lia. split.
  - intros k. rewrite existsb_app, owed_snoc. cbn [existsb]. unfold for_recipient at 2 3. rewrite orb_false_r.
    destruct (decide (rr_recipient e = k)) as [<-|Hne].
    + rewrite lookup_insert_eq, bool_decide_eq_true_2, orb_true_r by reflexivity. reflexivity.
    + rewrite lookup_insert_ne, bool_decide_eq_false_2, orb_false_r, H1 by exact Hne.
      destruct (existsb _ l); [f_equal; lia|reflexivity].
  - rewrite total_insert, H2. destruct (m !! rr_recipient e) as [r|]; cbn in Hd |- *; unfold id; lia.
Qed.

(** The positive rewards. *)
Lemma positive_sum (l : list (string * Z)) :
  sum_by snd (List.filter (fun e => 0 <? snd e) l) = sum_by (fun e => Z.max 0 (snd e)) l.
Proof.
  induction l as [|[k r] l IH]; [reflexivity|]. cbn [List.filter snd sum_by].
  destruct (Z.ltb_spec 0 r); cbn [sum_by snd]; lia.
Qed.

Lemma eligible_sum (rewards : gmap string Z) entries : entries ≡ₚ map_to_list rewards ->
  sum_by snd (List.filter (fun e => 0 <? snd e) entries) = total (Z.max 0) rewards.
Proof. intros Hp. rewrite positive_sum. apply sum_by_perm, Hp. Qed.

(** ** The stored claims *)

Section Tree.
Context {P : Postgres} {Reply : forall req, Response req -> Prop}.
Variable Keccak256 : list byte -> list byte.
Variable BytesToHash : list byte -> Hash.
Variable HexToAddress : string -> Address.
Hypothesis Keccak256_length : forall x, length (Keccak256 x) = 32%nat.
Hypothesis BytesToHash_id : forall b, length b = 32%nat -> BytesToHash b = b.
Variable svc : SettlementService.

Abbreviation paid_to := (paid_to (Reply := Reply)).
Abbreviation resolves := (resolves (Reply := Reply) svc).
Abbreviation leaf_of := (leaf_of HexToAddress).
Abbreviation HashLeaf := (HashLeaf Keccak256 BytesToHash).

(** A stored claim of [amount] for [recipient]: its leaf hash is the leaf's,
    and its stored proof is the hexadecimal form of one that verifies. *)
Definition claim_ok (root : Hash) (epochDate : Z) (info : string * Z) (m : MerkleProofRow) : Prop :=
  (m_EpochDate m, m_Recipient m, m_Amount m, m_Claimed m) = (date_of epochDate, fst info, snd info, false) /\
  m_LeafHash m = HashToHex (HashLeaf (leaf_of info)) /\
  exists proof, m_Proof m = ProofToHex proof /\ Verify Keccak256 BytesToHash proof root (HashLeaf (leaf_of info)) = true.

Lemma save_proof_wp Fault epochDate leaves tree info s : NewTree Keccak256 BytesToHash leaves = Ok tree ->
  wp Fault Reply false eq any_step (save_proof Keccak256 BytesToHash HexToAddress epochDate tree info)
    (fun r ab s' => match r with
       | Ok _ => ab = false /\ exists m, claim_ok (Root tree) epochDate info m /\
           is_Some (find_epoch epochDate (db s)) /\
           s' = {| s with db := {| (db s) with merkle_proofs := merkle_proofs (db s) ++ [m] |} |}
       | Err _ => True
       end) false s.
Proof using BytesToHash_id Keccak256_length.
  intros Ht. unfold save_proof. destruct (Proof _ _ tree (leaf_of info)) as [proof|e] eqn:Hp; [|wp_norm; exact I].
  unfold SaveMerkleProof. wp_statement; [wp_norm; exact I|]. unfold insert_proof. cbn [m_EpochDate].
  destruct (find_epoch epochDate (db s)) as [ep|] eqn:Hep; [|wp_norm; exact I].
  destruct (existsb _ _); cbn [fst snd wrap_error]; [exact I|]. split; [reflexivity|]. eexists. split; [|split; [eauto|reflexivity]].
  split; [reflexivity|]. split; [reflexivity|]. exists proof. split; [reflexivity|].
  exact (Proof_verifies Keccak256 BytesToHash Keccak256_length BytesToHash_id leaves tree (leaf_of info) proof Ht Hp).
Qed.

Lemma save_proofs_wp Fault epochDate leaves tree infos s : NewTree Keccak256 BytesToHash leaves = Ok tree ->
  wp Fault Reply false eq any_step (for_each infos (save_proof Keccak256 BytesToHash HexToAddress epochDate tree))
    (fun r ab s' => match r with
       | Ok _ => ab = false /\ exists rows, Forall2 (claim_ok (Root tree) epochDate) infos rows /\
           (infos <> [] -> is_Some (find_epoch epochDate (db s))) /\
           s' = {| s with db := {| (db s) with merkle_proofs := merkle_proofs (db s) ++ rows |} |}
       | Err _ => True
       end) false s.
Proof using BytesToHash_id Keccak256_length.
  intros Ht. apply (wp_for_each _ _ eq any_step (save_proof Keccak256 BytesToHash HexToAddress epochDate tree)
    (fun pre s' => exists rows, Forall2 (claim_ok (Root tree) epochDate) pre rows /\
       (pre <> [] -> is_Some (find_epoch epochDate (db s))) /\
       s' = {| s with db := {| (db s) with merkle_proofs := merkle_proofs (db s) ++ rows |} |}) (fun _ _ => True) infos).
  - intros pre info post s1 _ (rows & Hrows & _ & ->). eapply wp_mono; [|apply (save_proof_wp _ _ leaves tree info _ Ht)].
    intros [u|e] ab s2; [|auto]. intros (-> & m & Hm & Hep & ->). split; [reflexivity|].
    exists (rows ++ [m]). split; [apply Forall2_app; auto|]. split; [auto|]. cbn. rewrite <- app_assoc. reflexivity.
  - exists []. split; [constructor|]. split; [congruence|]. rewrite app_nil_r. destruct s as [[] mm]. reflexivity.
Qed.

(** Noting the recipients touches the rewards table only. *)
Definition only_rewards (s s' : St) : Prop :=
  exists rs, s' = {| s with db := {| (db s) with worker_epoch_rewards := rs |} |}.

Lemma set_recipients_wp Fault epochDate l s :
  wp Fault Reply false eq any_step
    (for_each l (fun e => wrapped "set recipient" (SetWorkerEpochRecipient epochDate (rr_workerAddr e) (rr_recipient e))))
    (fun r ab s' => match r with Ok _ => ab = false /\ only_rewards s s' | Err _ => True end) false s.
Proof using.
  apply (wp_for_each _ _ eq any_step _ (fun _ s' => only_rewards s s') (fun _ _ => True) l).
  - intros pre e post s1 _ [rs ->]. unfold SetWorkerEpochRecipient. wp_statement; [exact I|].
    split; [reflexivity|]. eexists. reflexivity.
  - exists (worker_epoch_rewards (db s)). destruct s as [[] m]. reflexivity.
Qed.

(** What is claimed: for each recipient of the eligible workers, one claim of
    all their rewards. *)
Definition claims_of (rewards : gmap string Z) (resolved : list recipientResult) (rows : list MerkleProofRow) : Prop :=
  map (fun e => (rr_workerAddr e, rr_reward e)) resolved ≡ₚ List.filter (fun e => 0 <? snd e) (map_to_list rewards) /\
  (forall e, e ∈ resolved -> paid_to svc (rr_workerAddr e) (rr_recipient e) /\ exists m, m ∈ rows /\ m_Recipient m = rr_recipient e) /\
  NoDup (map m_Recipient rows) /\
  (forall m, m ∈ rows -> m_Amount m = owed (m_Recipient m) resolved /\ 0 < m_Amount m) /\
  sum_by m_Amount rows = total (Z.max 0) rewards.

(** The root is stored with the epoch and every claim has a proof for it. *)
Definition provable (epochDate : Z) (rows : list MerkleProofRow) (d : DB) : Prop :=
  rows = [] \/ exists root, (find_epoch epochDate d ≫= e_MerkleRoot) = Some (HashToHex root) /\
    forall m, m ∈ rows -> claim_ok root epochDate (m_Recipient m, m_Amount m) m.

Definition claims_settled (epochDate : Z) (rewards : gmap string Z) (before after : list MerkleProofRow) (d : DB) : Prop :=
  exists resolved rows, after = before ++ rows /\ claims_of rewards resolved rows /\ provable epochDate rows d.

Lemma claim_ok_info root epochDate infos rows : Forall2 (claim_ok root epochDate) infos rows ->
  map m_Recipient rows = map fst infos /\ map m_Amount rows = map snd infos /\
  forall m, m ∈ rows -> (m_Recipient m, m_Amount m) ∈ infos /\ claim_ok root epochDate (m_Recipient m, m_Amount m) m.
Proof using.
  induction 1 as [|info m infos rows Hok _ (IH1 & IH2 & IH3)];
    [split; [reflexivity|]; split; [reflexivity|]; intros m Hm; inversion Hm|].
  pose proof Hok as ([= E1 E2 E3 E4] & _). cbn [map]. rewrite E2, E3, IH1, IH2. split; [reflexivity|]. split; [reflexivity|].
  assert (info = (m_Recipient m, m_Amount m)) as Ei by (destruct info; cbn in *; congruence).
  intros m' [->|Hm']%elem_of_cons.
  - rewrite <- Ei. split; [left|exact Hok].
  - destruct (IH3 m' Hm') as [H1 H2]. split; [right; exact H1|exact H2].
Qed.

Lemma claims_of_rows rewards entries resolved infos rows root epochDate :
  entries ≡ₚ map_to_list rewards -> total (Z.max 0) rewards < 2 ^ 63 ->
  resolves (List.filter (fun e => 0 <? snd e) entries) resolved ->
  infos ≡ₚ map_to_list (fold_left add_reward resolved ∅) ->
  Forall2 (claim_ok root epochDate) infos rows -> claims_of rewards resolved rows.
Proof using.
  intros Hent Hb [Hres Hlow] Hinf Hrows. destruct (claim_ok_info _ _ _ _ Hrows) as (Hrec & Ham & Hin).
  assert (sum_by rr_reward resolved = total (Z.max 0) rewards) as Hsum.
  { rewrite <- (eligible_sum rewards entries Hent), <- Hres, sum_by_map. reflexivity. }
  assert (forall e, e ∈ resolved -> 0 < rr_reward e) as Hpos.
  { intros e He. assert ((rr_workerAddr e, rr_reward e) ∈ List.filter (fun e => 0 <? snd e) entries) as H
      by (rewrite <- Hres; apply elem_of_map; eauto).
    apply elem_of_filter_bool in H as [H _]. apply Z.ltb_lt in H. exact H. }
  destruct (recipient_rewards resolved Hpos ltac:(lia)) as [Hlook Htot].
  set (m := fold_left add_reward resolved ∅) in *.
  assert (forall k v, (k, v) ∈ infos <-> existsb (for_recipient k) resolved = true /\ v = owed k resolved) as Hinfo.
  { intros k v. rewrite Hinf, elem_of_map_to_list, Hlook. destruct (existsb _ resolved); split; intros H;
      [injection H as <-; auto|destruct H as [_ ->]; reflexivity|discriminate|destruct H; discriminate]. }
  split; [|split; [|split; [|split]]].
  - rewrite Hres, Hent. reflexivity.
  - intros e He. split; [apply Hlow, He|].
    assert (existsb (for_recipient (rr_recipient e)) resolved = true) as Hex
      by (apply existsb_true; exists e; split; [exact He|apply bool_decide_eq_true_2; reflexivity]).
    assert (rr_recipient e ∈ map fst infos) as H
      by (apply elem_of_map; exists (rr_recipient e, owed (rr_recipient e) resolved); split; [reflexivity|apply Hinfo; auto]).
    rewrite <- Hrec in H. apply elem_of_map in H as (row & E & Hrow). exists row. auto.
  - rewrite Hrec, Hinf. apply NoDup_fst_map_to_list.
  - intros row Hrow. destruct (Hin row Hrow) as [H _]. apply Hinfo in H as [Hex ->]. split; [reflexivity|].
    apply existsb_true in Hex as (e & He & Hk). unfold owed.
    assert (e ∈ List.filter (for_recipient (m_Recipient row)) resolved) as Hf by (apply elem_of_filter_bool; auto).
    destruct (List.filter _ resolved) as [|e0 l] eqn:El; [inversion Hf|]. cbn.
    assert (forall x, x ∈ e0 :: l -> 0 < rr_reward x) as Hall
      by (intros x Hx; rewrite <- El in Hx; apply elem_of_filter_bool in Hx as [_ Hx]; apply Hpos, Hx).
    pose proof (Hall e0 ltac:(left)). assert (0 <= sum_by rr_reward l); [|lia].
    apply sum_by_nonneg. intros x Hx. specialize (Hall x ltac:(right; exact Hx)). lia.
  - transitivity (sum_by id (map m_Amount rows)); [rewrite sum_by_map; reflexivity|].
    rewrite Ham, sum_by_map, <- Hsum, <- Htot. unfold total. rewrite (sum_by_perm _ _ _ Hinf). reflexivity.
Qed.

Lemma set_root_found epochDate root d : is_Some (find_epoch epochDate d) ->
  find_epoch epochDate (update_epochs epochDate (fun e => {| e with e_MerkleRoot := Some root |}) d) ≫= e_MerkleRoot = Some root.
Proof using.
  unfold find_epoch, update_epochs, update_rows. cbn [epochs]. induction (epochs d) as [|e l IH]; [intros [? H]; discriminate|].
  cbn [map List.find]. destruct (e_EpochDate e =? date_of epochDate) eqn:E; cbn [e_EpochDate]; rewrite E; [reflexivity|exact IH].
Qed.

Lemma buildMerkleTree_wp Fault epochDate rewards s : total (Z.max 0) rewards < 2 ^ 63 -> is_Some (find_epoch epochDate (db s)) ->
  wp Fault Reply false eq any_step (buildMerkleTree Keccak256 BytesToHash HexToAddress svc epochDate rewards)
    (fun r ab s' => match r with
       | Ok _ => ab = false /\ claims_settled epochDate rewards (merkle_proofs (db s)) (merkle_proofs (db s')) (db s')
       | Err _ => True
       end) false s.
Proof using BytesToHash_id Keccak256_length.
  intros Hb Hep. unfold buildMerkleTree. rewrite wp_Range. intros entries Hent. cbv zeta.
  rewrite wp_bind_ok. eapply wp_mono; [|apply resolve_recipients_wp]. intros [resolved|e] ab s1 (-> & -> & Hres); [|exact I].
  rewrite wp_bind_ok. eapply wp_mono; [|apply set_recipients_wp]. intros [u|e] ab s1; [|auto]. intros [-> [rs ->]].
  rewrite wp_Range. intros infos Hinf. destruct infos as [|info0 infos].
  { wp_norm. split; [reflexivity|]. exists resolved, []. split; [rewrite app_nil_r; reflexivity|]. split; [|left; reflexivity].
    apply (claims_of_rows rewards entries resolved [] [] zeroHash epochDate Hent Hb Hres Hinf). constructor. }
  destruct (NewTree _ _ _) as [tree|e] eqn:Ht; [|wp_norm; exact I].
  unfold SetEpochMerkleRoot. wp_statement; [exact I|].
  eapply wp_mono; [|apply (save_proofs_wp _ epochDate _ tree (info0 :: infos) _ Ht)].
  intros [u1|e] ab s2; [|auto]. intros (-> & rows & Hrows & _ & ->). split; [reflexivity|]. exists resolved, rows.
  split; [reflexivity|]. split; [exact (claims_of_rows _ _ _ _ _ _ _ Hent Hb Hres Hinf Hrows)|].
  right. exists (Root tree). split; [|intros m Hm; apply (claim_ok_info _ _ _ _ Hrows), Hm].
  apply (set_root_found epochDate (HashToHex (Root tree)) {| (db s) with worker_epoch_rewards := rs |}). exact Hep.
Qed.
End Tree.

(** ** The whole settlement *)

(** Neither the claims nor the epochs change. *)
Definition same_claims (d d' : DB) : Prop := merkle_proofs d' = merkle_proofs d /\ epochs d' = epochs d.

#[export] Instance same_claims_preorder : PreOrder same_claims.
Proof.
  split; [intros d; split; reflexivity|]. intros d1 d2 d3 [H1 H2] [K1 K2]. split; congruence.
Qed.

(** The claims and the stored roots do not change. *)
Definition keeps_claims (d d' : DB) : Prop :=
  merkle_proofs d' = merkle_proofs d /\
  forall t, find_epoch t d' ≫= e_MerkleRoot = find_epoch t d ≫= e_MerkleRoot.

#[export] Instance keeps_claims_preorder : PreOrder keeps_claims.
Proof.
  split; [intros d; split; reflexivity|]. intros d1 d2 d3 [H1 H2] [K1 K2]. split; [congruence|].
  intros t. rewrite K2. apply H2.
Qed.

Section Frames.
Context {P : Postgres} {Reply : forall req, Response req -> Prop}.

(** An UPDATE of an epoch that leaves its date and root alone. *)
Lemma update_epochs_keeps t (u : Epoch -> Epoch) d :
  (forall e, e_EpochDate (u e) = e_EpochDate e /\ e_MerkleRoot (u e) = e_MerkleRoot e) -> keeps_claims d (update_epochs t u d).
Proof using.
  intros Hu. split; [reflexivity|]. intros t'. unfold find_epoch, update_epochs, update_rows. cbn [epochs].
  induction (epochs d) as [|e l IH]; [reflexivity|]. cbn [map List.find].
  assert (e_EpochDate (if e_EpochDate e =? date_of t then u e else e) = e_EpochDate e) as ->
    by (destruct (_ =? date_of t); [apply Hu|reflexivity]).
  destruct (e_EpochDate e =? date_of t'); [|exact IH]. cbn.
  destruct (_ =? date_of t); [apply Hu|reflexivity].
Qed.

Ltac stays := wp_norm; split; reflexivity.

(** Publishing on chain, which is what the server installs. *)
Lemma PublishMerkleRoot_keeps Fault key sign method h2h h2a oc t s :
  wp Fault Reply false eq any_step (PublishMerkleRoot key sign method h2h h2a oc t)
    (fun _ ab s' => ab = false /\ keeps_claims (db s) (db s')) false s.
Proof using.
  unfold PublishMerkleRoot. destruct (_ || _); [stays|]. unfold GetEpochMerkleRoot.
  wp_statement; [stays|]. destruct (bool_decide _); [stays|].
  wp_norm. rewrite wp_Call. intros resp _. wp_norm. destruct resp; cbn [wrap_error]; [|stays].
  destruct (key _) as [from|]; [|stays]. destruct (packSetMerkleRoot _ _ _) as [data|]; [|stays].
  wp_norm. rewrite wp_Call. intros nonce _. wp_norm. destruct nonce as [nonce|]; cbn [wrap_error]; [|stays].
  wp_norm. rewrite wp_Call. intros gas _. wp_norm. destruct gas as [gas|]; cbn [wrap_error]; [|stays].
  destruct (sign _ _ _); [|stays]. wp_norm. rewrite wp_Call. intros sent _. wp_norm.
  destruct sent; cbn [wrap_error]; [|stays]. wp_norm. rewrite wp_Call. intros polls _. wp_norm.
  destruct (waitForReceipt polls) as [success|]; cbn [wrap_error]; [|stays]. destruct (negb success); [stays|].
  unfold SetEpochPublished. wp_statement; [stays|]. wp_norm. split; [reflexivity|].
  apply update_epochs_keeps. auto.
Qed.

Lemma save_rewards_keeps Fault rs s :
  wp Fault Reply false eq any_step (BatchSaveWorkerEpochRewards rs)
    (fun r ab s' => match r with Ok _ => ab = false /\ same_claims (db s) (db s') | Err _ => True end) false s.
Proof using.
  assert (forall rs d d', insert_rewards rs d = Ok d' -> same_claims d d') as Hins.
  { intros rs0. induction rs0 as [|r rs0 IH]; intros d d'; cbn [insert_rewards]; [intros [= <-]; reflexivity|].
    destruct (insert_reward r d) as [d1|e] eqn:E; [|discriminate]. intros H. transitivity d1; [|apply IH, H].
    revert E. unfold insert_reward. repeat (case_goal; try discriminate). intros [= <-]. split; reflexivity. }
  apply (wp_for_each _ _ eq any_step _ (fun _ s' => same_claims (db s) (db s')) (fun _ _ => True) (batches rs)).
  - intros pre b post s1 _ H1. rewrite wp_exec. intros s2 <-. split; [exact (fun _ _ => I)|]. intros env. split; [exact I|].
    unfold insert_rewards_stmt. destruct (insert_rewards b (db s1)) as [d'|e] eqn:E; [|exact I].
    split; [reflexivity|]. etransitivity; [exact H1|]. cbn. exact (Hins b _ _ E).
  - reflexivity.
Qed.

Lemma judge_keeps Fault composites minScore qs s :
  wp Fault Reply false eq any_step (for_each qs (judge_benchmark composites minScore))
    (fun r ab s' => match r with Ok _ => ab = false /\ same_claims (db s) (db s') | Err _ => True end) false s.
Proof using.
  apply (wp_for_each _ _ eq any_step _ (fun _ s' => same_claims (db s) (db s')) (fun _ _ => True) qs); [|reflexivity].
  intros pre q post s1 _ H1. unfold judge_benchmark. destruct (q_Score q <? 4); [wp_norm; auto|].
  unfold CountInvalidReports. wp_statement; [exact I|]. destruct (_ >? 1); [wp_norm; auto|].
  destruct (fltb _ _); [wp_norm; auto|]. unfold MarkBenchmark. wp_statement; [exact I|]. wp_statement; [exact I|].
  unfold update_bs. destruct (forallb _ _); cbn [fst snd wrap_error violates]; [|exact I]. split; [reflexivity|].
  etransitivity; [exact H1|]. split; reflexivity.
Qed.
End Frames.

(** What an environment answers. *)
Definition answers_of (E : ServerEnv) (req : Request) (resp : Response req) : Prop := exists n, reply E n req = resp.

Lemma respects_answers E : alone E -> respects any_fault (answers_of E) eq E.
Proof. intros (H1 & H2 & _). split; [exact H1|]. split; [exact H2|]. intros n req. exists n. reflexivity. Qed.

Section Settled.
Context {P : Postgres}.
Variable Keccak256 : list byte -> list byte.
Variable BytesToHash : list byte -> Hash.
Variable HexToAddress : string -> Address.
Hypothesis Keccak256_length : forall x, length (Keccak256 x) = 32%nat.
Hypothesis BytesToHash_id : forall b, length b = 32%nat -> BytesToHash b = b.
Variable svc : SettlementService.
(** What the service promises of its publication. *)
Hypothesis publish_keeps : forall f Fault (Reply : forall req, Response req -> Prop) t s, st_Onchain svc = Some f ->
  wp Fault Reply false eq any_step (f t) (fun _ ab s' => ab = false /\ keeps_claims (db s) (db s')) false s.

Abbreviation Settle := (Settle Keccak256 BytesToHash HexToAddress svc).
Abbreviation provable := (provable Keccak256 BytesToHash HexToAddress).

Section AnyReply.
Context {Reply : forall req, Response req -> Prop}.

Abbreviation claims_settled := (claims_settled (Reply := Reply) Keccak256 BytesToHash HexToAddress svc).

(** What a settlement of the day [t] reads: the questions scored that day, and
    their finished assignments. *)
Definition day_questions (t : Z) (d : DB) : list Question :=
  scored_questions_in t (t + 24 * Hour)
    {| d with questions := update_rows (fun q => scored_in t (t + 24 * Hour) q && q_Benchmark q)
                             (fun q => {| q with q_Benchmark := false |}) (questions d) |}.
Definition day_assignments (t : Z) (d : DB) : list Assignment :=
  scored_assignments_for (map q_QuestionID (day_questions t d)) d.
Definition day_rewards (t : Z) (d : DB) : gmap string Z :=
  finalReward (sc_MinTasks (st_cfg svc)) <$>
    epoch_stats (sc_TotalReward (st_cfg svc)) (day_questions t d) (day_assignments t d).

(** The claims of other days. *)
Definition other_claims (t : Z) (d : DB) : list MerkleProofRow :=
  List.filter (fun m => negb (m_EpochDate m =? date_of t)) (merkle_proofs d).

(** After the settlement of the day [t]. *)
Definition settled (t : Z) (d d' : DB) : Prop :=
  if bool_decide (day_questions t d = []) then merkle_proofs d' = other_claims t d
  else claims_settled t (day_rewards t d) (other_claims t d) (merkle_proofs d') d'.

Lemma upsert_epoch_found t total d : is_Some (find_epoch t (snd (upsert_epoch t total d))).
Proof using.
  unfold upsert_epoch. destruct (find_epoch t d) as [e|] eqn:E; cbn [snd].
  - unfold find_epoch, update_epochs, update_rows in *. cbn [epochs]. induction (epochs d) as [|x l IH]; [discriminate|].
    cbn [map List.find] in *. destruct (e_EpochDate x =? date_of t) eqn:Ex; cbn [e_EpochDate].
    + rewrite Z.eqb_refl. eauto.
    + rewrite Ex. apply IH, E.
  - unfold find_epoch in *. cbn [epochs]. rewrite find_app, E. cbn. rewrite Z.eqb_refl. eauto.
Qed.

Lemma claims_kept t rewards before d1 d2 : keeps_claims d1 d2 ->
  claims_settled t rewards before (merkle_proofs d1) d1 -> claims_settled t rewards before (merkle_proofs d2) d2.
Proof using.
  intros [Hm Hr] (resolved & rows & Ha & Hc & Hp). exists resolved, rows. split; [congruence|]. split; [exact Hc|].
  destruct Hp as [->|(root & Hroot & Hok)]; [left; reflexivity|]. right. exists root. rewrite Hr. auto.
Qed.

(** The end of [Settle], after the claims. *)
Lemma settle_end_wp Fault t n s :
  wp Fault Reply false eq any_step
    (finish_settlement svc t n)
    (fun r ab s' => match r with Ok _ => keeps_claims (db s) (db s') | Err _ => True end) false s.
Proof using publish_keeps.
  unfold finish_settlement, FinishEpoch. wp_statement; [exact I|]. destruct (int4 n); cbn [fst snd wrap_error violates]; [|exact I].
  unfold ResetAllEpochViolations. wp_statement; [exact I|].
  match goal with |- wp _ _ _ _ _ _ _ _ ?s2 => assert (keeps_claims (db s) (db s2)) as H end.
  { cbn [db]. etransitivity; [apply (update_epochs_keeps t (fun e => {| e with e_TotalScored := n; e_SettledAt := Some (sql_now env) |})); auto|].
    split; reflexivity. }
  destruct (st_Onchain svc) as [f|] eqn:Ef; [|wp_norm; exact H]. destruct (negb (isTestnet svc)); [|wp_norm; exact H].
  wp_norm. eapply wp_mono; [|apply (publish_keeps f Fault Reply t _ eq_refl)].
  intros u ab s2 [_ H2]. wp_norm. etransitivity; [exact H|exact H2].
Qed.

(** [Settle] from the list of the day's questions on. *)
Lemma settle_questions_wp Fault t s : is_Some (find_epoch t (db s)) ->
  let qs := scored_questions_in t (t + 24 * Hour) (db s) in
  let rewards := finalReward (sc_MinTasks (st_cfg svc)) <$> epoch_stats (sc_TotalReward (st_cfg svc)) qs
                   (scored_assignments_for (map q_QuestionID qs) (db s)) in
  (qs <> [] -> total (Z.max 0) rewards < 2 ^ 63) ->
  wp Fault Reply false eq any_step
    (let? questions := wrapped "list questions" (ListScoredQuestionsInRange t (t + 24 * Hour)) in
     let totalQuestions := Z.of_nat (length questions) in
     if totalQuestions =? 0 then wrapped "finish epoch" (FinishEpoch t 0)
     else
       let? assignments := wrapped "list assignments"
         (ListScoredAssignmentsForQuestions (map q_QuestionID questions)) in
       let baseReward := base_reward (sc_TotalReward (st_cfg svc)) totalQuestions in
       let stats := aggregate (ask_pool baseReward) (ans_pool baseReward) questions assignments in
       Range (map_to_list stats) (fun entries =>
       wrapped "batch save rewards"
         (BatchSaveWorkerEpochRewards (map (reward_of t (sc_MinTasks (st_cfg svc))) entries)) ;;?
       for_each questions (judge_benchmark (composite <$> stats) (sc_BenchmarkMinScore (st_cfg svc))) ;;?
       wrapped "build merkle tree" (buildMerkleTree Keccak256 BytesToHash HexToAddress svc t
         (finalReward (sc_MinTasks (st_cfg svc)) <$> stats)) ;;?
       finish_settlement svc t totalQuestions))
    (fun r ab s' => match r with
       | Ok _ => if bool_decide (qs = []) then merkle_proofs (db s') = merkle_proofs (db s)
                 else claims_settled t rewards (merkle_proofs (db s)) (merkle_proofs (db s')) (db s')
       | Err _ => True
       end) false s.
Proof using BytesToHash_id Keccak256_length publish_keeps.
  intros Hep qs rewards Hb. unfold ListScoredQuestionsInRange. wp_statement; [exact I|]. fold qs. cbv zeta.
  destruct (Z.eqb_spec (Z.of_nat (length qs)) 0) as [E|E].
  { assert (qs = []) as Eq by (destruct qs; [reflexivity|discriminate]). rewrite bool_decide_eq_true_2 by exact Eq.
    unfold FinishEpoch. wp_statement; [exact I|]. cbn [fst snd int4]. reflexivity. }
  assert (qs <> []) as Hne by (intros Eq; rewrite Eq in E; apply E; reflexivity).
  rewrite bool_decide_eq_false_2 by exact Hne.
  assert (forall Q, (forall env : SqlEnv, Q (Ok (scored_assignments_for (map q_QuestionID qs) (db s))) false s) ->
    (forall e, Q (Err e) false s) ->
    wp Fault Reply false eq any_step (ListScoredAssignmentsForQuestions (map q_QuestionID qs)) Q false s) as Hlist.
  { intros Q HQ He. destruct qs as [|q0 qs0]; [congruence|]. unfold ListScoredAssignmentsForQuestions. cbn [map].
    rewrite wp_query. intros s1 <-. split; [intros m _; apply He|]. intros env1. split; [exact I|]. apply HQ, env1. }
  wp_norm. apply Hlist; [intros _; cbn [wrap_error]|intros e; exact I].
  rewrite wp_Range. intros entries Hent. fold (epoch_stats (sc_TotalReward (st_cfg svc)) qs (scored_assignments_for (map q_QuestionID qs) (db s))).
  wp_norm. eapply wp_mono; [|apply save_rewards_keeps]. intros [u|e] ab s1; [|intros _; exact I]. intros [-> [H1 H1e]]. cbn [wrap_error].
  wp_norm. eapply wp_mono; [|apply judge_keeps]. intros [u1|e] ab s2; [|intros _; exact I]. intros [-> [H2 H2e]].
  wp_norm. eapply wp_mono; [|apply (buildMerkleTree_wp _ _ _ Keccak256_length BytesToHash_id svc Fault t rewards s2 (Hb Hne))].
  2: { unfold find_epoch in *. rewrite H2e, H1e. exact Hep. }
  intros [u2|e] ab s3; [|intros _; exact I]. intros [-> H3]. cbn [wrap_error].
  eapply wp_mono; [|apply settle_end_wp]. intros [u3|e] ab s4; [|auto]. intros H4.
  rewrite H2, H1 in H3. exact (claims_kept t rewards _ _ _ H4 H3).
Qed.

Lemma upsert_epoch_tables t total d : let d' := snd (upsert_epoch t total d) in
  questions d' = questions d /\ assignments d' = assignments d /\ merkle_proofs d' = merkle_proofs d.
Proof using. unfold upsert_epoch. destruct (find_epoch t d); repeat split. Qed.

Lemma Settle_wp Fault t s : (day_questions t (db s) <> [] -> total (Z.max 0) (day_rewards t (db s)) < 2 ^ 63) ->
  wp Fault Reply false eq any_step (Settle t)
    (fun r ab s' => match r with Ok _ => settled t (db s) (db s') | Err _ => True end) false s.
Proof using BytesToHash_id Keccak256_length publish_keeps.
  intros Hb. unfold Settlement.Settle. cbv zeta. unfold CreateOrResetEpoch. wp_statement; [exact I|].
  pose proof (upsert_epoch_found t (sc_TotalReward (st_cfg svc)) (db s)) as Hfound.
  pose proof (upsert_epoch_tables t (sc_TotalReward (st_cfg svc)) (db s)) as (Hq & Ha & Hm).
  assert (exists ep, fst (upsert_epoch t (sc_TotalReward (st_cfg svc)) (db s)) = Ok ep) as [ep ->]
    by (unfold upsert_epoch; destruct (find_epoch t (db s)); eexists; reflexivity).
  set (d1 := snd (upsert_epoch t (sc_TotalReward (st_cfg svc)) (db s))) in *. cbn [wrap_error].
  unfold DeleteEpochMerkleProofs. wp_statement; [exact I|].
  unfold DeleteEpochRewards. wp_statement; [exact I|].
  unfold ResetBenchmarkFlags. wp_statement; [exact I|]. cbn [db].
  match goal with |- wp _ _ _ _ _ _ _ _ ?s4 => set (s1 := s4) end.
  assert (scored_questions_in t (t + 24 * Hour) (db s1) = day_questions t (db s)) as Eqs
    by (subst s1; unfold day_questions, scored_questions_in; cbn [db questions]; rewrite Hq; reflexivity).
  assert (scored_assignments_for (map q_QuestionID (day_questions t (db s))) (db s1) = day_assignments t (db s)) as Eas
    by (subst s1; unfold day_assignments, scored_assignments_for; cbn [db assignments]; rewrite Ha; reflexivity).
  assert (merkle_proofs (db s1) = other_claims t (db s)) as Emp
    by (subst s1; unfold other_claims; cbn [db merkle_proofs]; rewrite Hm; reflexivity).
  pose proof (settle_questions_wp Fault t s1 Hfound) as H. cbv zeta in H. rewrite Eqs, Eas in H. specialize (H Hb).
  eapply wp_mono; [|exact H]. intros [u|e] ab s2; [|auto]. unfold settled, day_rewards. rewrite Emp. auto.
Qed.

End AnyReply.

(** What a successful run of [Settle] has established, with the answers that
    RootNet gives in this run. *)
Lemma Settle_settled E t s s' : alone E ->
  0 <= sc_TotalReward (st_cfg svc) < 2 ^ 37 ->
  good_epoch (day_questions t (db s)) (day_assignments t (db s)) ->
  Z.of_nat (length (day_questions t (db s))) * (1 + Z.of_nat (length (day_assignments t (db s)))) < 2 ^ 50 ->
  run_top E (Settle t) s = (Ok tt, s') ->
  settled (Reply := answers_of E) t (db s) (db s') /\
  (day_questions t (db s) <> [] -> total (Z.max 0) (day_rewards t (db s)) <= sc_TotalReward (st_cfg svc)).
Proof using BytesToHash_id Keccak256_length publish_keeps.
  intros HE HT Hgood Hsize Er.
  assert (day_questions t (db s) <> [] -> total (Z.max 0) (day_rewards t (db s)) <= sc_TotalReward (st_cfg svc)) as Htotal.
  { intros Hne. destruct (epoch_rewards _ (sc_MinTasks (st_cfg svc)) _ _ HT Hne Hgood Hsize) as (_ & Hpos & Hle).
    unfold day_rewards. rewrite total_fmap. etransitivity; [|apply Hle]. apply total_mono.
    intros k ms Hk. specialize (Hpos k ms Hk). lia. }
  split; [|exact Htotal].
  apply (run_wp any_fault (answers_of E) eq any_step E (Settle t)
    (fun r s' => match r with Ok _ => settled (Reply := answers_of E) t (db s) (db s') | Err _ => True end) s (Ok tt) s'
    (respects_answers E HE)); [|exact Er].
  eapply wp_mono; [|apply Settle_wp]; [|intros Hne; specialize (Htotal Hne); lia]. intros r ab s1 H1. exact H1.
Qed.

(** C1: what a successful settlement of a day leaves to be claimed.  The claims
    of the day are exactly those of this run (an earlier one's are replaced),
    each belongs to one recipient, is the sum of the positive final rewards of
    the workers whose recipient it is, and is stored with a proof that verifies
    against the Merkle root stored with the epoch; together they are at most
    the epoch's TotalReward.  The recipient of a worker is the worker itself on
    a test net, and otherwise the address that RootNet has answered for that
    worker, or the worker where there is none.  This holds whatever fails on
    the way, for any order of map iteration and any replies of RootNet and the
    chain, as long as ([good_epoch]) the stored shares of the day's questions
    are at most one whole and those of each question's answers add up to at
    most one whole, TotalReward is below 2^37 and the day's questions and
    assignments are few enough for exact sums. *)
Theorem Settle_claims E t s s' : alone E ->
  0 <= sc_TotalReward (st_cfg svc) < 2 ^ 37 ->
  good_epoch (day_questions t (db s)) (day_assignments t (db s)) ->
  Z.of_nat (length (day_questions t (db s))) * (1 + Z.of_nat (length (day_assignments t (db s)))) < 2 ^ 50 ->
  run_top E (Settle t) s = (Ok tt, s') ->
  exists resolved rows, merkle_proofs (db s') = other_claims t (db s) ++ rows /\
    (day_questions t (db s) <> [] -> claims_of (Reply := answers_of E) svc (day_rewards t (db s)) resolved rows) /\
    provable t rows (db s') /\
    sum_by m_Amount rows <= sc_TotalReward (st_cfg svc).
Proof using BytesToHash_id Keccak256_length publish_keeps.
  intros HE HT Hgood Hsize Er. destruct (Settle_settled E t s s' HE HT Hgood Hsize Er) as [Hs Htotal].
  unfold settled in Hs. destruct (bool_decide (day_questions t (db s) = [])) eqn:E0.
  - exists [], []. apply bool_decide_eq_true_1 in E0. rewrite app_nil_r. split; [exact Hs|]. split; [congruence|].
    split; [left; reflexivity|]. cbn. lia.
  - apply bool_decide_eq_false_1 in E0. destruct Hs as (resolved & rows & Hrows & Hc & Hp). exists resolved, rows.
    split; [exact Hrows|]. split; [auto|]. split; [exact Hp|]. destruct Hc as (_ & _ & _ & _ & ->). apply Htotal, E0.
Qed.

(** The claims of other days are not found under this day. *)
Lemma find_claim t d rows r m : NoDup (map m_Recipient rows) -> m ∈ rows -> m_Recipient m = r ->
  m_EpochDate m = date_of t ->
  List.find (same_proof t r) (other_claims t d ++ rows) = Some m.
Proof using.
  intros Hnd Hm Hr Hday. rewrite find_app. assert (List.find (same_proof t r) (other_claims t d) = None) as ->.
  { apply find_none_elem. intros x Hx. apply elem_of_filter_bool in Hx as [Hx _]. unfold same_proof.
    destruct (m_EpochDate x =? date_of t); [discriminate|reflexivity]. }
  apply (find_unique m_Recipient); [exact Hnd|exact Hm| |].
  - unfold same_proof. rewrite Hday, Hr, Z.eqb_refl, bool_decide_eq_true_2 by reflexivity. reflexivity.
  - intros x Hx. unfold same_proof in Hx. bool_props. congruence.
Qed.

Lemma owed_at_least l e : (forall e, e ∈ l -> 0 < rr_reward e) -> e ∈ l -> rr_reward e <= owed (rr_recipient e) l.
Proof using.
  intros Hpos He. unfold owed. assert (e ∈ List.filter (for_recipient (rr_recipient e)) l) as Hf
    by (apply elem_of_filter_bool; split; [apply bool_decide_eq_true_2; reflexivity|exact He]).
  apply list_elem_of_split in Hf as (l1 & l2 & E). rewrite E, sum_by_app. cbn [sum_by].
  assert (forall x, x ∈ l1 ++ e :: l2 -> 0 <= rr_reward x) as Hx.
  { intros x Hx. rewrite <- E in Hx. apply elem_of_filter_bool in Hx as [_ Hx]. specialize (Hpos x Hx). lia. }
  assert (0 <= sum_by rr_reward l1) by (apply sum_by_nonneg; intros x H1; apply Hx, elem_of_app; left; exact H1).
  assert (0 <= sum_by rr_reward l2) by (apply sum_by_nonneg; intros x H1; apply Hx, elem_of_app; right; right; exact H1).
  lia.
Qed.

(** The reply of the API for a claim that is found. *)
Lemma HandleClaim_found E t s recipient m root : undisturbed E -> common_day t -> lower recipient -> recipient <> ""%string ->
  List.find (same_proof t recipient) (merkle_proofs (db s)) = Some m -> m_EpochDate m = date_of t ->
  (find_epoch t (db s) ≫= e_MerkleRoot) = Some root ->
  run_top E (HandleClaim recipient (FormatDate t)) s =
    (writeJSON StatusOK (mkClaimView (FormatDate t) (m_Recipient m) (m_Amount m) (m_LeafHash m) (m_Proof m) root (m_Claimed m)), s).
Proof using.
  intros HE Hday Hlow Hne Hm Hdate Hroot. pose proof (alone_still E (undisturbed_alone E HE)) as Hi.
  pose proof (undisturbed_no_fault E HE) as Hf.
  unfold HandleClaim, GetMerkleProof, GetEpochMerkleRoot. rewrite Hlow, bool_decide_eq_false_2 by exact Hne.
  rewrite ParseDate_FormatDate by exact Hday. unfold run_top. rewrite run_bind, run_query, Hf by exact Hi. cbn [wrap_error].
  unfold same_proof in *. rewrite date_of_idem, Hm. rewrite run_bind, run_query, Hf by exact Hi.
  unfold find_epoch in *. rewrite date_of_idem. cbn [wrap_error run fst]. unfold claim_view. rewrite Hdate, FormatDate_day.
  destruct (List.find _ (epochs (db s))) as [e|]; [|discriminate]. cbn in Hroot. rewrite Hroot. reflexivity.
Qed.

(** C2: what a settlement leaves can be claimed: after a successful settlement
    of a day, every worker with a positive final reward is paid at its
    recipient (itself on a test net, otherwise the address RootNet has answered
    for it, or itself where there is none): the public API answers a request
    for that recipient's claim of that day with an amount of at least that
    reward, the Merkle root that is stored with the epoch, the hash of the leaf
    of this recipient and amount, and a proof of this leaf that verifies against
    that root. *)
Theorem claims_served E E' t s s' : alone E -> undisturbed E' -> common_day t ->
  0 <= sc_TotalReward (st_cfg svc) < 2 ^ 37 ->
  good_epoch (day_questions t (db s)) (day_assignments t (db s)) ->
  Z.of_nat (length (day_questions t (db s))) * (1 + Z.of_nat (length (day_assignments t (db s)))) < 2 ^ 50 ->
  run_top E (Settle t) s = (Ok tt, s') -> day_questions t (db s) <> [] ->
  forall worker reward, worker <> ""%string -> day_rewards t (db s) !! worker = Some reward -> 0 < reward ->
  exists recipient amount proof root,
    let leaf := HashLeaf Keccak256 BytesToHash (leaf_of HexToAddress (recipient, amount)) in
    paid_to svc (Reply := answers_of E) worker recipient /\ reward <= amount /\
    (find_epoch t (db s') ≫= e_MerkleRoot) = Some (HashToHex root) /\
    Verify Keccak256 BytesToHash proof root leaf = true /\
    run_top E' (HandleClaim recipient (FormatDate t)) s' =
      (writeJSON StatusOK (mkClaimView (FormatDate t) recipient amount (HashToHex leaf) (ProofToHex proof) (HashToHex root) false), s').
Proof using BytesToHash_id Keccak256_length publish_keeps.
  intros HE HE' Hday HT Hgood Hsize Er Hne worker reward Hname Hw Hpos.
  destruct (Settle_settled E t s s' HE HT Hgood Hsize Er) as [Hs _]. unfold settled in Hs.
  rewrite bool_decide_eq_false_2 in Hs by exact Hne. destruct Hs as (resolved & rows & Hrows & Hc & Hp).
  destruct Hc as (Hperm & Hres & Hnd & Hamount & _).
  assert (forall e, e ∈ resolved -> 0 < rr_reward e) as Hrpos.
  { intros e He. assert ((rr_workerAddr e, rr_reward e) ∈ List.filter (fun e => 0 <? snd e) (map_to_list (day_rewards t (db s)))) as H
      by (rewrite <- Hperm; apply elem_of_map; eauto). apply elem_of_filter_bool in H as [H _]. cbn in H. lia. }
  assert ((worker, reward) ∈ map (fun e => (rr_workerAddr e, rr_reward e)) resolved) as He.
  { rewrite Hperm. apply elem_of_filter_bool. split; [apply Z.ltb_lt, Hpos|apply elem_of_map_to_list, Hw]. }
  apply elem_of_map in He as (e & [= -> ->] & He). destruct (Hres e He) as (Hpaid & m & Hm & Hmr).
  destruct (Hamount m Hm) as [Ha _]. rewrite Hmr in Ha.
  destruct Hp as [->|(root & Hroot & Hclaims)]; [inversion Hm|].
  destruct (Hclaims m Hm) as ([= Hd Hcl] & Hleaf & proof & Hproof & Hv). rewrite Hmr in Hleaf, Hv.
  exists (rr_recipient e), (m_Amount m), proof, root. cbv zeta.
  split; [exact Hpaid|]. split; [rewrite Ha; apply owed_at_least; assumption|]. split; [exact Hroot|]. split; [exact Hv|].
  rewrite (HandleClaim_found E' t s' (rr_recipient e) m (HashToHex root)); try assumption.
  - rewrite Hmr, Hleaf, Hproof, Hcl. reflexivity.
  - exact (paid_to_lower svc _ _ Hpaid).
  - exact (paid_to_nonempty svc _ _ Hname Hpaid).
  - rewrite Hrows. apply find_claim; assumption.
Qed.
End Settled.

(** ** A settlement *)

Definition settle_db : DB :=
  mkDB (map (fun w => mkWorker w None 0 None 0) ["alice"; "bob"; "carol"; "dave"]%string) [toy_bs]
    toy_epoch_questions toy_epoch_assignments [] []
    [mkMerkleProofRow 0 "alice" 999999 "" [] false] [] 3 7.
Definition settle_state : St := mkState settle_db no_timers.
Definition settle_service : SettlementService :=
  mkSettlementService (mkSettlementConfig 1000000 2 (of_ratio 6 10)) None (NewRootNetClient "http://rootnet") None.

(** RootNet knows carol and dave under one recipient, the others have none. *)
Definition rootnet_reply (req : Request) : Response req :=
  match req with
  | HttpUser url => Ok (200, Ok (mkUserResponse "" (if bool_decide (url = "http://rootnet/api/users/carol"%string) then "0xAB"
                                                    else if bool_decide (url = "http://rootnet/api/users/dave"%string) then "0xab"
                                                    else ""%string)))
  | HttpCheck url => refuse (HttpCheck url)
  | DialContext url => refuse (DialContext url)
  | PendingNonceAt a => refuse (PendingNonceAt a)
  | SuggestGasPrice => refuse SuggestGasPrice
  | SendTransaction a b c d => refuse (SendTransaction a b c d)
  | TransactionReceipts => refuse TransactionReceipts
  end.
Definition toy_padded (r : string) : Address := replicate 12 x00 ++ take 20 (bytes_of_string r ++ replicate 20 x00).
Definition settle_run : result unit * St :=
  run_top (still_env (3 * Hour) 0 rootnet_reply)
    (Settle toy_hash id toy_padded settle_service 0) settle_state.

Example settle_claims :
  (fst settle_run, map (fun m => (m_Recipient m, m_Amount m)) (merkle_proofs (db (snd settle_run)))) =
  (Ok tt, [("alice", 261099); ("bob", 83333); ("0xab", 183323)]%string).
Proof. vm_compute. reflexivity. Qed.

Lemma Settle_claims_witness : exists resolved rows,
  merkle_proofs (db (snd settle_run)) = rows /\ length rows = 3%nat /\
  claims_of (Reply := answers_of (still_env (3 * Hour) 0 rootnet_reply)) settle_service (day_rewards settle_service 0 settle_db) resolved rows /\
  sum_by m_Amount rows <= 1000000.
Proof.
  destruct settle_run as [r s'] eqn:Er.
  assert (r = Ok tt) as -> by (change r with (fst (r, s')); rewrite <- Er; vm_compute; reflexivity).
  assert (length (merkle_proofs (db s')) = 3%nat) as Hlen.
  { change s' with (snd (@Ok unit tt, s')). rewrite <- Er. vm_compute. reflexivity. }
  destruct (Settle_claims toy_hash id toy_padded
    toy_hash_length (fun b _ => eq_refl) settle_service ltac:(intros f Fault Reply t s0 H; discriminate H)
    (still_env (3 * Hour) 0 rootnet_reply) 0 settle_state s') as (resolved & rows & Hrows & Hc & _ & Hsum).
  - apply undisturbed_alone, still_undisturbed.
  - split; vm_compute; [discriminate|reflexivity].
  - apply good_epoch_computed. vm_compute. reflexivity.
  - vm_compute. reflexivity.
  - exact Er.
  - exists resolved, rows. assert (merkle_proofs (db s') = rows) as <- by (rewrite Hrows; reflexivity).
    split; [reflexivity|]. split; [exact Hlen|]. split; [apply Hc; vm_compute; discriminate|exact Hsum].
Defined.

(** Dave claims what he and carol have earned, at the address that RootNet has
    answered for him: he has earned 44440 of it. *)
Lemma claims_served_witness : exists amount proof root,
  let leaf := HashLeaf toy_hash id (leaf_of toy_padded ("0xab"%string, amount)) in
  44440 <= amount /\ Verify toy_hash id proof root leaf = true /\
  run_top (still_env 0 0 refuse) (HandleClaim "0xab" "1970-01-01") (snd settle_run) =
     (writeJSON StatusOK (mkClaimView "1970-01-01" "0xab" amount (HashToHex leaf) (ProofToHex proof) (HashToHex root) false),
      snd settle_run).
Proof.
  destruct settle_run as [r s'] eqn:Er.
  assert (r = Ok tt) as -> by (change r with (fst (r, s')); rewrite <- Er; vm_compute; reflexivity).
  destruct (claims_served toy_hash id toy_padded toy_hash_length (fun b _ => eq_refl) settle_service
    ltac:(intros f Fault Reply t s0 H; discriminate H) (still_env (3 * Hour) 0 rootnet_reply) (still_env 0 0 refuse) 0 settle_state s')
    with (worker := "dave"%string) (reward := 44440)
    as (recipient & amount & proof & root & (u & [n Hu] & Hr) & Hle & _ & Hv & Hclaim).
  - apply undisturbed_alone, still_undisturbed.
  - apply still_undisturbed.
  - split; vm_compute; [discriminate|reflexivity].
  - split; vm_compute; [discriminate|reflexivity].
  - apply good_epoch_computed. vm_compute. reflexivity.
  - vm_compute. reflexivity.
  - exact Er.
  - vm_compute. discriminate.
  - discriminate.
  - vm_compute. reflexivity.
  - reflexivity.
  - exists amount, proof, root. assert (recipient = "0xab"%string) as <-; [|auto].
    rewrite Hr. vm_compute in Hu. injection Hu as <-. reflexivity.
Defined.
