(* ===== verification/System.v ===== *)
(** * The server: all goroutines together

    The requests, timers, scoring goroutines and settlement of
    [src/cmd/benchmarkd/main.go] run at the same time on one database and one
    timer table.  A configuration is the programs that are under way and the
    shared state; a step is one effect of one of them, the arrival of a
    request, a goroutine or timer that starts, or a crash of the process, after
    which memory is empty and the database is as the last effect left it.  Each
    effect may fail, and the choices of SQL, of map iteration and of the other
    services are arbitrary.

    The requests are those of [Server.serve]: every route with its
    authentication; the others are the start and the rounds of the scheduler.

    Theorems: [wp] is kept by the steps of a program and of its environment,
    hence programs that are [safe] make every reachable state keep the
    invariant and evolve ([reachable_ok]); for the server, whatever the
    interleaving: a worker holds one claimed assignment at most, a reply and a
    time-out exclude each other, replies and results of questions are written
    once. *)

From S2P Require Import Prelude Float64 GoLang Json Merkle Model Prog Tables Store StoreQuestion StoreEpoch StoreQueries Lifecycle Config Scoring Timer Poll Answer QuestionService RootNet Http Auth HandlersWorker Onchain Settlement Server.
#[local] Open Scope Z_scope.
#[local] Open Scope prog_scope.

(** ** Steps *)

(** How a transaction may end: its result and the state it leaves, from the
    state it began in. *)
Definition tx_outcome {X} (body : Prg (result X)) (s : St) (r : result X) (s' : St) : Prop :=
  exists (E : ServerEnv) n r1 s1 pos, run (quiet E) true body (mkPos n false) s = (r1, s1, pos) /\
    let rolled_back := {| s1 with db := db s |} in
    match r1 with
    | Err e => r = Err e /\ s' = rolled_back
    | Ok x =>
        if aborted pos then r = Err (Failure "failed transaction") /\ s' = rolled_back
        else (r = Ok x /\ s' = s1) \/ (exists msg, r = Err (Failure msg) /\ s' = rolled_back)
    end.

(** One effect of a program. *)
Inductive effect {A} : Prg A -> St -> Prg A -> St -> Prop :=
| effect_now k t s : effect (Now k) s (k t) s
| effect_range {X} (l l' : list X) k s : l' ≡ₚ l -> effect (Range l k) s (k l') s
| effect_sql {X} (st : stmt X) k env s :
    effect (Sql st k) s (k (fst (st env (db s)))) {| s with db := snd (st env (db s)) |}
| effect_sql_fails {X} (st : stmt X) k msg s : effect (Sql st k) s (k (Err (Failure msg))) s
| effect_tx {X} (body : Prg (result X)) k s r s' :
    tx_outcome body s r s' -> effect (Tx body k) s (k r) s'
| effect_tx_fails {X} (body : Prg (result X)) k msg s :
    effect (Tx body k) s (k (Err (Wrapped "begin tx" (Failure msg)))) s
| effect_atomic {X} (f : Timers -> X * Timers) k s :
    effect (Atomic f k) s (k (fst (f (mem s)))) {| s with mem := snd (f (mem s)) |}
| effect_call req k resp s : effect (Call req k) s (k resp) s.

Section Goroutines.
(** What a request may run, and what a started goroutine runs. *)
Variable entry : Prg unit -> Prop.
Variable task : Task -> Prg unit -> Prop.

(** The programs under way, by a number that each is given when it starts. *)
Definition Pool : Type := nat -> option (Prg unit).
Definition set_goroutine (i : nat) (p : Prg unit) (ps : Pool) : Pool :=
  fun j => if (j =? i)%nat then Some p else ps j.
Definition Configuration : Type := Pool * St.

Inductive step : Configuration -> Configuration -> Prop :=
| step_enter i p ps s : ps i = None -> entry p -> step (ps, s) (set_goroutine i p ps, s)
| step_effect i p p' ps s s' : ps i = Some p -> effect p s p' s' -> step (ps, s) (set_goroutine i p' ps, s')
| step_spawned i t p ts1 ts2 ps s : ps i = None -> spawned (mem s) = ts1 ++ t :: ts2 -> task t p ->
    step (ps, s) (set_goroutine i p ps, {| s with mem := {| (mem s) with spawned := ts1 ++ ts2 |} |})
| step_fire i n fire t p ps s : ps i = None -> pending (mem s) !! n = Some (fire, t) -> task t p ->
    step (ps, s) (set_goroutine i p ps, {| s with mem := {| (mem s) with pending := delete n (pending (mem s)) |} |})
| step_crash ps s : step (ps, s) (fun _ => None, {| s with mem := no_timers |}).

(** Any number of steps. *)
Inductive steps : Configuration -> Configuration -> Prop :=
| steps_refl c : steps c c
| steps_cons c1 c2 c3 : step c1 c2 -> steps c2 c3 -> steps c1 c3.
End Goroutines.

(** ** Reasoning about all programs at once *)

(** A transaction's end satisfies what its rule asks of it. *)
Lemma tx_outcome_wp {X} (body : Prg (result X)) s r s' (G : St -> St -> Prop) (K : result X -> bool -> St -> Prop) :
  G s s -> tx_outcome body s r s' ->
  wp any_fault any_reply true eq any_step body (fun r ab1 s1 => mem s1 = mem s /\
    match r with
    | Err e => K (Err e) false s
    | Ok x =>
        if ab1 then K (Err (Failure "failed transaction")) false s
        else (forall msg, any_fault msg -> K (Err (Failure msg)) false s) /\ G s s1 /\ K (Ok x) false s1
    end) false s ->
  G s s' /\ K r false s'.
Proof.
  intros Hrefl (E & n & r1 & s1 & pos & Hrun & H) Hwp.
  assert (respects any_fault any_reply eq (quiet E)) as HE by (repeat split).
  pose proof (wp_run_from any_fault any_reply eq any_step (quiet E) body true _ (mkPos n false) s HE Hwp) as H1.
  rewrite Hrun in H1. destruct H1 as [Hm H1].
  assert ({| s1 with db := db s |} = s) as Es by (destruct s1, s; cbn in *; congruence).
  rewrite Es in H. destruct r1 as [x|e]; [|destruct H as [-> ->]; auto].
  destruct (aborted pos); [destruct H as [-> ->]; auto|].
  destruct H1 as (Hc & HG & HK). destruct H as [[-> ->]|(msg & -> & ->)]; [auto|].
  split; [exact Hrefl | apply Hc; exact I].
Qed.

(** An effect is in the guarantee, and leaves a program that still keeps it. *)
Lemma effect_wp {A} (R G : St -> St -> Prop) (p p' : Prg A) s s' Q :
  (forall s, R s s) -> (forall s, G s s) -> effect p s p' s' ->
  wp any_fault any_reply false R G p Q false s ->
  G s s' /\ wp any_fault any_reply false R G p' Q false s'.
Proof.
  intros HR HG Hstep. destruct Hstep as [k t s|X l l' k s Hl|X st k env s|X st k msg s|X body k s r s' Hout|X body k msg s|X f k s|req k resp s].
  - rewrite wp_Now. auto.
  - rewrite wp_Range. auto.
  - intros H. destruct (H s (HR s)) as [_ Hn]. apply (Hn env I).
  - intros H. destruct (H s (HR s)) as [Hf _]. split; [apply HG | apply Hf; exact I].
  - rewrite wp_Tx. intros H. destruct (H s (HR s)) as [_ Hb].
    apply (tx_outcome_wp body s r s' G (fun r ab s => wp any_fault any_reply false R G (k r) Q ab s) (HG s) Hout Hb).
  - rewrite wp_Tx. intros H. destruct (H s (HR s)) as [Hf _]. split; [apply HG | apply Hf; exact I].
  - rewrite wp_Atomic. intros H. apply (H s (HR s)).
  - rewrite wp_Call. intros H. split; [apply HG | apply H; exact I].
Qed.

(** ** Runs as steps

    A run of one program, alone, is a sequence of its effects. *)

Inductive effects {A} : Prg A -> St -> Prg A -> St -> Prop :=
| effects_refl p s : effects p s p s
| effects_cons p1 s1 p2 s2 p3 s3 : effect p1 s1 p2 s2 -> effects p2 s2 p3 s3 -> effects p1 s1 p3 s3.

Lemma run_effects {A} (E : ServerEnv) (p : Prg A) : forall n s,
  let '(a, s', _) := run (quiet E) false p (mkPos n false) s in effects p s (Ret a) s'.
Proof.
  induction p as [A a|A k IH|A X l k IH|A X st k IH|A X body _ k IH|A X f k IH|A req k IH]; intros n s; cbn [run].
  - apply effects_refl.
  - specialize (IH (clock (quiet E) n) (S n) s). unfold next_pos. cbn in *.
    destruct (run _ _ _ _ _) as [[a s'] pos']. eapply effects_cons; [apply effect_now|exact IH].
  - specialize (IH (permute (map_order E n) l) (S n) s). unfold next_pos. cbn in *.
    destruct (run _ _ _ _ _) as [[a s'] pos']. eapply effects_cons; [apply effect_range, permute_perm|exact IH].
  - cbn [interfere quiet tick]. unfold run_stmt. cbn [aborted tick next_pos].
    destruct (fault (quiet E) n) as [msg|].
    + specialize (IH (Err (Failure msg)) (S n) s). destruct s as [d m]. cbn in *.
      destruct (run _ _ _ _ _) as [[a s'] pos']. eapply effects_cons; [apply effect_sql_fails|exact IH].
    + set (env := sql_env (quiet E) n). destruct (st env (db s)) as [r d'] eqn:Est.
      specialize (IH r (S n) {| s with db := d' |}). pose proof (effect_sql st k env s) as Hstep. rewrite Est in Hstep.
      destruct r as [x|e]; cbn in *; destruct (run _ _ _ _ _) as [[a s'] pos']; eapply effects_cons; eassumption.
  - cbn [interfere quiet tick]. destruct (fault (quiet E) n) as [msg|] eqn:Ef.
    + specialize (IH (Err (Wrapped "begin tx" (Failure msg))) (S n) s). cbn in *.
      destruct (run _ _ _ _ _) as [[a s'] pos']. eapply effects_cons; [apply effect_tx_fails|exact IH].
    + destruct (run (quiet (quiet E)) true body _ s) as [[r1 s1] pos1] eqn:Eb.
      assert (forall r s2, (let rolled_back := {| s1 with db := db s |} in
        match r1 with
        | Err e => r = Err e /\ s2 = rolled_back
        | Ok x => if aborted pos1 then r = Err (Failure "failed transaction") /\ s2 = rolled_back
                  else (r = Ok x /\ s2 = s1) \/ (exists msg, r = Err (Failure msg) /\ s2 = rolled_back)
        end) -> let '(a, s', _) := run (quiet E) false (k r) (mkPos (S (tick pos1)) false) s2 in
                effects (Tx body k) s (Ret a) s') as Hend.
      { intros r s2 H. specialize (IH r (S (tick pos1)) s2). destruct (run _ _ _ _ _) as [[a s'] pos'].
        eapply effects_cons; [|exact IH]. apply effect_tx. exists E, (S n), r1, s1, pos1. auto. }
      destruct r1 as [x|e]; [|apply Hend; auto].
      destruct (aborted pos1); [apply Hend; auto|].
      destruct (fault (quiet E) (tick pos1)) as [msg|]; apply Hend; eauto.
  - cbn [interfere quiet tick]. destruct (f (mem s)) as [x m] eqn:Ef.
    specialize (IH x (S n) {| s with mem := m |}). pose proof (effect_atomic f k s) as Hstep. rewrite Ef in Hstep. cbn in *.
    destruct (run _ _ _ _ _) as [[a s'] pos']. eapply effects_cons; eassumption.
  - specialize (IH (reply E n req) (S n) s). unfold next_pos. cbn in *.
    destruct (run _ _ _ _ _) as [[a s'] pos']. eapply effects_cons; [apply effect_call|exact IH].
Qed.

Section Served.
Variable entry : Prg unit -> Prop.
Variable task : Task -> Prg unit -> Prop.

Lemma steps_trans c1 c2 c3 : steps entry task c1 c2 -> steps entry task c2 c3 -> steps entry task c1 c3.
Proof using. induction 1 as [c|c1 c c2 H H1 IH]; intros H2; [exact H2|]. eapply steps_cons; [exact H|apply IH, H2]. Qed.

Lemma effects_steps i p s p' s' : effects p s p' s' -> forall ps, ps i = Some p ->
  exists ps', steps entry task (ps, s) (ps', s') /\ forall j, j <> i -> ps' j = ps j.
Proof using.
  induction 1 as [p s|p1 s1 p2 s2 p3 s3 H1 _ IH]; intros ps Hi; [exists ps; split; [apply steps_refl|auto]|].
  destruct (IH (set_goroutine i p2 ps)) as (ps' & Hs & Hj); [unfold set_goroutine; rewrite Nat.eqb_refl; reflexivity|].
  exists ps'. split; [eapply steps_cons; [apply step_effect with (1 := Hi) (2 := H1)|exact Hs]|].
  intros j Hne. rewrite Hj by exact Hne. unfold set_goroutine. apply Nat.eqb_neq in Hne. rewrite Hne. reflexivity.
Qed.

(** A program that runs to its end without interference, from its start. *)
Lemma run_steps i p (E : ServerEnv) ps0 s0 ps s : steps entry task (ps0, s0) (set_goroutine i p ps, s) ->
  exists ps', steps entry task (ps0, s0) (ps', snd (run_top (quiet E) p s)) /\ forall j, j <> i -> ps' j = ps j.
Proof using.
  intros H0. pose proof (run_effects E p 0 s) as H. unfold run_top.
  destruct (run (quiet E) false p (mkPos 0 false) s) as [[a s'] pos].
  destruct (effects_steps i p s (Ret a) s' H (set_goroutine i p ps)) as (ps' & Hs & Hj);
    [unfold set_goroutine; rewrite Nat.eqb_refl; reflexivity|].
  exists ps'. split; [eapply steps_trans; eassumption|].
  intros j Hne. rewrite Hj by exact Hne. unfold set_goroutine. apply Nat.eqb_neq in Hne. rewrite Hne. reflexivity.
Qed.

Lemma entry_steps i p (E : ServerEnv) ps s : entry p -> ps i = None ->
  exists ps', steps entry task (ps, s) (ps', snd (run_top (quiet E) p s)) /\ forall j, j <> i -> ps' j = ps j.
Proof using.
  intros Hp Hi. apply (run_steps i p E ps s ps s). eapply steps_cons; [apply (step_enter entry task i p ps s Hi Hp)|apply steps_refl].
Qed.

Lemma fire_steps i n fire t p (E : ServerEnv) ps s : ps i = None -> pending (mem s) !! n = Some (fire, t) -> task t p ->
  exists ps', steps entry task (ps, s)
    (ps', snd (run_top (quiet E) p {| s with mem := {| (mem s) with pending := delete n (pending (mem s)) |} |})) /\
    forall j, j <> i -> ps' j = ps j.
Proof using.
  intros Hi Hn Ht. apply (run_steps i p E ps s ps). eapply steps_cons; [apply (step_fire entry task i n fire t p ps s Hi Hn Ht)|apply steps_refl].
Qed.
End Served.

Section Reachable.
Variable entry : Prg unit -> Prop.
Variable task : Task -> Prg unit -> Prop.
Hypothesis entry_safe : forall p, entry p -> safe p.
Hypothesis task_safe : forall t p, task t p -> safe p.

(** Every program under way keeps the relation. *)
Definition keeps (p : Prg unit) (s : St) : Prop :=
  wp any_fault any_reply false RG RG p (fun _ _ _ => True) false s.
Definition ok (c : Configuration) : Prop := inv (db (snd c)) /\ forall i p, fst c i = Some p -> keeps p (snd c).

Lemma safe_keeps (p : Prg unit) s : safe p -> inv (db s) -> keeps p s.
Proof using. intros Hp Hs. eapply wp_mono; [|exact (Hp s Hs)]. auto. Qed.

Lemma keeps_later p s s' : RG s s' -> keeps p s -> keeps p s'.
Proof using. intros Hr. apply wp_rely; [|auto|exact Hr]. intros s1 s2 s3 H1 H2. etransitivity; eassumption. Qed.

(** One program changed or started, the others as they were. *)
Lemma ok_set i p ps s s' : ok (ps, s) -> RG s s' -> keeps p s' -> ok (set_goroutine i p ps, s').
Proof using.
  intros [Hinv Hps] HR Hp. split; [apply HR, Hinv|]. cbn [fst snd]. intros j q. unfold set_goroutine.
  destruct (j =? i)%nat; [intros [= <-]; exact Hp|]. intros Hq. apply (keeps_later q s s' HR), (Hps j), Hq.
Qed.

Lemma RG_mem s m : RG s {| s with mem := m |}.
Proof using. unfold RG. cbn. reflexivity. Qed.

Lemma step_ok c c' : step entry task c c' -> ok c -> ok c' /\ RG (snd c) (snd c').
Proof using entry_safe task_safe.
  intros Hstep Hok. pose proof Hok as [Hinv Hps].
  destruct Hstep as [i p ps s _ Hp|i p p' ps s s' Hi Heff|i t p ts1 ts2 ps s _ _ Ht|i n fire t p ps s _ _ Ht|ps s];
    cbn [fst snd] in *.
  - split; [|reflexivity]. apply (ok_set _ _ _ s); [exact Hok|reflexivity|]. apply safe_keeps; auto.
  - assert (RG s s' /\ keeps p' s') as [HG Hp'].
    { apply (effect_wp RG RG p p' s s'); [reflexivity|reflexivity|exact Heff|apply (Hps i), Hi]. }
    split; [|exact HG]. apply (ok_set _ _ _ s); assumption.
  - split; [|apply RG_mem]. apply (ok_set _ _ _ s); [exact Hok|apply RG_mem|].
    apply safe_keeps; [eapply task_safe, Ht|exact Hinv].
  - split; [|apply RG_mem]. apply (ok_set _ _ _ s); [exact Hok|apply RG_mem|].
    apply safe_keeps; [eapply task_safe, Ht|exact Hinv].
  - split; [|apply RG_mem]. split; [exact Hinv|]. intros i p Hp. discriminate Hp.
Qed.

Lemma steps_ok c c' : steps entry task c c' -> ok c -> ok c' /\ RG (snd c) (snd c').
Proof using entry_safe task_safe.
  intros Hsteps. induction Hsteps as [c|c c1 c' Hstep Hsteps IH]; intros Hok; [split; [exact Hok|reflexivity]|].
  destruct (step_ok c c1 Hstep Hok) as [H1 HR1]. destruct (IH H1) as [H2 HR2].
  split; [exact H2|]. etransitivity; eassumption.
Qed.

(** From a database that satisfies the invariant and no program under way. *)
Lemma reachable_ok s0 c c' : inv (db s0) -> steps entry task (fun _ => None, s0) c -> steps entry task c c' ->
  inv (db (snd c')) /\ evolves (db (snd c)) (db (snd c')).
Proof using entry_safe task_safe.
  intros Hinv H1 H2. assert (ok (fun _ => None, s0)) as H0 by (split; [exact Hinv|intros i p Hp; discriminate Hp]).
  destruct (steps_ok _ _ H1 H0) as [Hc _]. destruct (steps_ok _ _ H2 Hc) as [[Hc' _] HR].
  split; [exact Hc' | apply HR].
Qed.
End Reachable.

(** ** The server *)

Section Server.
Context {P : Postgres} {N : PostgresNumeric}.
Variable Keccak256 : list byte -> list byte.
Variable BytesToHash : list byte -> Hash.
Variable HexToAddress : string -> Address.
Variable PublicKey : Type.
Variable SigToPub : list byte -> list byte -> result PublicKey.
Variable PubkeyToAddress : PublicKey -> Address.
Variable IsHexAddress : string -> bool.
Variable Address_Hex : Address -> string.
Variable key_address : string -> result Address.
Variable sign_ok : Z -> Z -> Z -> result unit.
Variable setMerkleRoot : AbiMethod.
Variable ethHexToHash : string -> Hash.
Variable pq_float : float64 -> string.

Definition ignore {A} (p : Prg A) : Prg unit := bind p (fun _ => Ret tt).

Abbreviation serve := (serve Keccak256 BytesToHash HexToAddress PublicKey SigToPub PubkeyToAddress IsHexAddress Address_Hex
  key_address sign_ok setMerkleRoot ethHexToHash pq_float).
Abbreviation scheduler_round := (scheduler_round Keccak256 BytesToHash HexToAddress key_address sign_ok setMerkleRoot ethHexToHash).

(** What the server runs: its start, any request to any route, and rounds of
    the settlement scheduler, each under any settings and configuration (an
    administrator may change the configuration between two requests). *)
Inductive server_entry : Prg unit -> Prop :=
| enter_startup token : server_entry (ignore (startup token))
| enter_request settings rt r : server_entry (ignore (serve settings rt r))
| enter_scheduler settings rt : server_entry (scheduler_round settings rt).

Inductive server_task : Task -> Prg unit -> Prop :=
| task_runs tm t : server_task t (run_task tm t).

Lemma ignore_safe {A} (p : Prg A) : safe p -> safe (ignore p).
Proof using. intros Hp. apply safe_bind; [exact Hp|]. intros a. apply safe_Ret. Qed.

Lemma startup_safe token : safe (startup token).
Proof using. unfold startup, Load, ListConfig. prove_safe. apply RecoverOnStartup_safe. Qed.

Lemma server_entry_safe p : server_entry p -> safe p.
Proof using P.
  intros [token|settings rt r|settings rt].
  - apply ignore_safe, startup_safe.
  - apply ignore_safe, serve_safe.
  - unfold Server.scheduler_round. prove_safe. apply settle_safe.
Qed.

Lemma server_task_safe t p : server_task t p -> safe p.
Proof using. intros [tm t0]. apply run_task_safe. Qed.

Abbreviation server_steps := (steps server_entry server_task).
(** The server just started on a database. *)
Definition started (d : DB) : Configuration := (fun _ => None, mkState d no_timers).

Lemma server_reachable d c c' : inv d -> server_steps (started d) c -> server_steps c c' ->
  inv (db (snd c')) /\ evolves (db (snd c)) (db (snd c')).
Proof using P.
  apply (reachable_ok server_entry server_task server_entry_safe server_task_safe (mkState d no_timers)).
Qed.

(** C16: whatever the interleaving of requests, timers, scoring, settlement,
    failures and crashes: a worker never has two claimed assignments, ids stay
    unique, every replied assignment carries a judgment, which scoring relies
    on, and an assignment is never scored before its question. *)
Theorem server_invariant d c : inv d -> server_steps (started d) c ->
  (forall w, count_if (fun a => is_claimed a && of_worker w a) (assignments (db (snd c))) <= 1) /\
  NoDup (map a_AssignmentID (assignments (db (snd c)))) /\
  (forall id, replied_to id (db (snd c)) <> [] -> wf_replied (replied_to id (db (snd c)))) /\
  (forall a, a ∈ assignments (db (snd c)) -> a_Status a = AssignmentStatusScored ->
     exists q, find_question (a_QuestionID a) (db (snd c)) = Some q /\ q_Status q = QuestionStatusScored).
Proof using P.
  intros Hd Hc. destruct (server_reachable d c c Hd Hc (steps_refl _ _ c)) as [Hinv _].
  split; [apply Hinv|]. split; [apply Hinv|]. split; [intros id Hne; exact (listed_wf id _ _ Hinv (reflexivity _) Hne)|].
  intros a Ha Hs. destruct Hinv as (_ & _ & _ & _ & _ & _ & H).
  destruct (H a Ha) as (q & Hq & Hsc); [apply bool_decide_eq_true_2, Hs|].
  exists q. split; [exact Hq|]. apply bool_decide_eq_true_1 in Hsc. exact Hsc.
Qed.

(** C3: a reply and a time-out exclude each other, for good: an assignment that
    was timed out in some reachable state is timed out in all later ones and
    never receives a reply; one that was replied keeps its reply and is later
    replied or scored; a scored one stays scored.  Question, worker and
    deadline of an assignment never change. *)
Theorem reply_or_timeout d c c' id a : inv d -> server_steps (started d) c -> server_steps c c' ->
  find_assignment id (db (snd c)) = Some a ->
  exists a', find_assignment id (db (snd c')) = Some a' /\
    (a_QuestionID a', a_Worker a', a_ReplyDDL a') = (a_QuestionID a, a_Worker a, a_ReplyDDL a) /\
    match a_Status a with
    | AssignmentStatusClaimed => True
    | AssignmentStatusTimedOut => a_Status a' = AssignmentStatusTimedOut
    | AssignmentStatusReplied => a_Status a' = AssignmentStatusReplied \/ a_Status a' = AssignmentStatusScored
    | AssignmentStatusScored => a_Status a' = AssignmentStatusScored
    end /\
    (is_claimed a = false ->
       (a_ReplyValid a', a_ReplyAnswer a', a_RepliedAt a') = (a_ReplyValid a, a_ReplyAnswer a, a_RepliedAt a)).
Proof using P.
  intros Hd Hc Hc' Ha. destruct (server_reachable d c c' Hd Hc Hc') as [_ [Hev _]].
  destruct (Hev id a Ha) as (a' & Ha' & H1 & H2 & H3 & H4 & H5 & H6 & H7).
  exists a'. split; [exact Ha'|]. split; [congruence|]. split.
  - destruct (a_Status a), (a_Status a'); cbv in H6; (congruence || auto).
  - intros Hcl. unfold is_claimed in Hcl. apply bool_decide_eq_false_1 in Hcl.
    destruct (H7 Hcl) as (-> & -> & ->). reflexivity.
Qed.

(** C18: a question is scored once: however many scoring goroutines run, its
    status, score, share, pass rate and time of scoring never change after the
    first of them has written them. *)
Theorem question_scored_once d c c' id q : inv d -> server_steps (started d) c -> server_steps c c' ->
  find_question id (db (snd c)) = Some q -> q_Status q = QuestionStatusScored ->
  exists q', find_question id (db (snd c')) = Some q' /\
    (q_Status q', q_Score q', q_Share q', q_PassRate q', q_ScoredAt q') =
    (q_Status q, q_Score q, q_Share q, q_PassRate q, q_ScoredAt q) /\
    (q_Question q', q_Answer q', q_Questioner q', q_MinHash q') = (q_Question q, q_Answer q, q_Questioner q, q_MinHash q).
Proof using P.
  intros Hd Hc Hc' Hq Hs. destruct (server_reachable d c c' Hd Hc Hc') as [_ [_ Hev]].
  destruct (Hev id q Hq) as (q' & Hq' & H1 & H2 & H3 & H4 & H5 & H6 & H7 & H8).
  exists q'. split; [exact Hq'|]. destruct (H8 Hs) as (-> & -> & -> & -> & ->). rewrite Hs, H3, H4, H5, H6. auto.
Qed.
End Server.

(** ** A run of the server

    An assignment is claimed; the server starts and arms its timer; the timer
    fires and times the assignment out; the answer that arrives afterwards is
    refused. *)

Definition toy_claim : Assignment :=
  mkAssignment 1 1 toy_worker AssignmentStatusClaimed (10 * Second) None None None fzero 0 0.
Definition toy_db : DB :=
  mkDB [mkWorker "asker" None 0 None 0; mkWorker toy_worker None 0 None 0] [toy_bs] [toy_question] [toy_claim] [] [] [] [] 2 2.
Definition toy_runtime : RuntimeConfig := load_config [].
Definition toy_timer_manager : TimerManager := timerMgr toy_settings toy_runtime.
Definition toy_answer : HttpRequest :=
  toy_request "POST" "/api/v1/answers" "12" (quoted "{'question_id': 1, 'valid': true, 'answer': '4'}").

Lemma toy_db_inv : inv toy_db.
Proof.
  split; [apply (bool_decide_eq_true_1 _); vm_compute; reflexivity|]. split.
  { intros a Ha. apply list_elem_of_singleton in Ha as ->. reflexivity. }
  split; [apply (bool_decide_eq_true_1 _); vm_compute; reflexivity|]. split.
  { intros q Hq. apply list_elem_of_singleton in Hq as ->. reflexivity. }
  split.
  - intros w. cbn. rewrite count_if_cons. change (count_if _ []) with 0. destruct (_ && _); lia.
  - split; intros a Ha; apply list_elem_of_singleton in Ha as ->; discriminate.
Qed.

(** The states after the three programs. *)
Definition at_time (t : Z) : ServerEnv := still_env t 0 refuse.
Definition toy_recovered : St :=
  snd (run_top (quiet (at_time 0)) (ignore (startup "secret")) (mkState toy_db no_timers)).
Definition toy_fired : St :=
  snd (run_top (quiet (at_time (11 * Second))) (run_task toy_timer_manager (timeout_task toy_claim))
    {| toy_recovered with mem := {| (mem toy_recovered) with pending := delete 0%nat (pending (mem toy_recovered)) |} |}).
Definition toy_answered : St :=
  snd (run_top (quiet (at_time (12 * Second))) (ignore (toy_serve toy_settings toy_runtime toy_answer)) toy_fired).
Definition toy_statuses (s : St) : list AssignmentStatus := map a_Status (assignments (db s)).

Example toy_run : map toy_statuses [toy_recovered; toy_fired; toy_answered] =
  [[AssignmentStatusClaimed]; [AssignmentStatusTimedOut]; [AssignmentStatusTimedOut]].
Proof. vm_compute. reflexivity. Qed.

(** The parameters do not matter here. *)
Abbreviation toy_entry := (server_entry toy_hash id toy_hex_to_address (list byte) toy_sig_to_pub id (fun _ => true) toy_address_hex
  (fun _ => Err (Failure "no key")) (fun _ _ _ => Ok tt) no_abi (fun _ => []) (fun _ => ""%string)).

Lemma toy_reach : exists ps1 ps2,
  steps toy_entry server_task (started toy_db) (ps1, toy_fired) /\
  steps toy_entry server_task (ps1, toy_fired) (ps2, toy_answered).
Proof.
  destruct (entry_steps toy_entry server_task 0 _ (at_time 0) (fun _ => None) (mkState toy_db no_timers)
    (enter_startup _ _ _ _ _ _ _ _ _ _ _ _ _ "secret") eq_refl) as (ps0 & H0 & Hj0).
  assert (pending (mem toy_recovered) !! 0%nat = Some (10 * Second, timeout_task toy_claim)) as Hp
    by (vm_compute; reflexivity).
  destruct (fire_steps toy_entry server_task 1 0 _ _ _ (at_time (11 * Second)) ps0 toy_recovered
    (Hj0 1%nat ltac:(discriminate)) Hp (task_runs toy_timer_manager _)) as (ps1 & H1 & Hj1).
  assert (ps1 2%nat = None) as H2i by (rewrite Hj1, Hj0 by discriminate; reflexivity).
  destruct (entry_steps toy_entry server_task 2 _ (at_time (12 * Second)) ps1 toy_fired
    (enter_request _ _ _ _ _ _ _ _ _ _ _ _ _ toy_settings toy_runtime toy_answer) H2i) as (ps2 & H2 & _).
  exists ps1, ps2. split; [|exact H2]. eapply steps_trans; [exact H0|exact H1].
Qed.


Lemma reply_or_timeout_witness : exists a a',
  find_assignment 1 (db toy_fired) = Some a /\ a_Status a = AssignmentStatusTimedOut /\
  find_assignment 1 (db toy_answered) = Some a' /\ a_Status a' = AssignmentStatusTimedOut.
Proof.
  destruct toy_reach as (ps1 & ps2 & H1 & H2).
  destruct (find_assignment 1 (db toy_fired)) as [a|] eqn:Ha; [|vm_compute in Ha; discriminate].
  assert (a_Status a = AssignmentStatusTimedOut) as Hst by (vm_compute in Ha; injection Ha as <-; reflexivity).
  edestruct (reply_or_timeout _ _ _ _ _ _ _ _ _ _ _ _ _ toy_db (ps1, toy_fired) (ps2, toy_answered) 1 a toy_db_inv H1 H2 Ha)
    as (a' & Ha' & _ & Hs & _).
  exists a, a'. rewrite Hst in Hs. auto.
Defined.

(** Two replies are enough here, and have arrived: the server scores the
    question when it starts, and again when it is restarted. *)
Definition toy_two_db : DB :=
  {| (db toy_state) with system_config := [mkConfigEntry "question.required_answers" "2" "" 0] |}.
Definition toy_two_state : St := mkState toy_two_db no_timers.
Definition toy_scored (t : Z) (s : St) : St := snd (run_top (quiet (at_time t)) (ignore (startup "secret")) s).

Lemma toy_two_inv : inv toy_two_db.
Proof. apply (rg_other_tables (db toy_state) toy_two_db); try reflexivity. apply toy_state_inv. Qed.

Lemma server_invariant_witness : exists a q, a ∈ assignments (db (toy_scored 7 toy_two_state)) /\
  a_Status a = AssignmentStatusScored /\ find_question (a_QuestionID a) (db (toy_scored 7 toy_two_state)) = Some q /\
  q_Status q = QuestionStatusScored.
Proof.
  destruct (entry_steps toy_entry server_task 0 _ (at_time 7) (fun _ => None) toy_two_state
    (enter_startup _ _ _ _ _ _ _ _ _ _ _ _ _ "secret") eq_refl) as (ps1 & H1 & _).
  destruct (server_invariant _ _ _ _ _ _ _ _ _ _ _ _ _ toy_two_db (ps1, toy_scored 7 toy_two_state) toy_two_inv H1) as (_ & _ & _ & H).
  destruct (assignments (db (toy_scored 7 toy_two_state))) as [|a l] eqn:E; [vm_compute in E; discriminate|].
  assert (a_Status a = AssignmentStatusScored) as Hs by (vm_compute in E; injection E as <- _; reflexivity).
  assert (a ∈ assignments (db (toy_scored 7 toy_two_state))) as Ha by (rewrite E; left).
  destruct (H a Ha Hs) as (q & Hq & Hqs). exists a, q. repeat (split; [assumption || left|]). exact Hqs.
Defined.

Lemma question_scored_once_witness : exists q q',
  find_question 1 (db (toy_scored 7 toy_two_state)) = Some q /\ q_Status q = QuestionStatusScored /\
  find_question 1 (db (toy_scored 8 (toy_scored 7 toy_two_state))) = Some q' /\ q_ScoredAt q' = q_ScoredAt q.
Proof.
  destruct (entry_steps toy_entry server_task 0 _ (at_time 7) (fun _ => None) toy_two_state
    (enter_startup _ _ _ _ _ _ _ _ _ _ _ _ _ "secret") eq_refl) as (ps1 & H1 & Hj).
  destruct (entry_steps toy_entry server_task 1 _ (at_time 8) ps1 (toy_scored 7 toy_two_state)
    (enter_startup _ _ _ _ _ _ _ _ _ _ _ _ _ "secret") (Hj 1%nat ltac:(discriminate))) as (ps2 & H2 & _).
  destruct (find_question 1 (db (toy_scored 7 toy_two_state))) as [q|] eqn:Hq; [|vm_compute in Hq; discriminate].
  assert (q_Status q = QuestionStatusScored) as Hs by (vm_compute in Hq; injection Hq as <-; reflexivity).
  edestruct (question_scored_once _ _ _ _ _ _ _ _ _ _ _ _ _ toy_two_db (ps1, toy_scored 7 toy_two_state) (ps2, toy_scored 8 (toy_scored 7 toy_two_state))
    1 q toy_two_inv H1 H2 Hq Hs) as (q' & Hq' & E & _).
  exists q, q'. injection E as _ _ _ _ E. auto.
Defined.

(** ** Timers that are never stopped *)

(** The worker polls twice while its claim is in time, then answers. *)
Definition repoll_service : PollService := mkPollService DefaultPollConfig None (Some StartReplyTimer).
Definition repoll_state : St :=
  snd (run_top (at_time (3 * Second)) (SubmitAnswer (Some server_on_answer) (mkSubmitAnswerRequest 1 true "4" toy_worker))
    (snd (run_top (at_time (2 * Second)) (PollOnline repoll_service toy_worker)
      (snd (run_top (at_time (1 * Second)) (PollOnline repoll_service toy_worker) (mkState toy_db no_timers)))))).

(** Every poll that returns the same claim arms one more timer and forgets
    the earlier one without stopping it: after the answer is accepted, and its
    timer cancelled, a timer for the answered assignment is still pending. *)
Theorem repoll_leaks_timer :
  map a_Status (assignments (db repoll_state)) = [AssignmentStatusReplied] /\
  timers (mem repoll_state) !! 1 = None /\
  pending (mem repoll_state) !! 0%nat = Some (10 * Second, timeout_task toy_claim).
Proof. vm_compute. auto. Qed.
