(* ===== verification/Shutdown.v ===== *)
(** * The process: start, signals, graceful shutdown

    Models [main] and [run] of [src/cmd/benchmarkd/main.go] around the server:
    what it reads from the environment and the start up to listening
    ([run_start]), and the life of the process: the recovery at the start,
    listening, the interrupt, [settlementStop], [scoreWg.Wait] and
    [srv.Shutdown].  The outcomes of opening the database are given by the
    [Host].

    A process is its phase, the kinds of its goroutines and a configuration of
    [System]; its steps are those of [System] that the phase allows. That the
    wait returns ([Waited]) and that the listener is closed ([Draining]) are two
    steps, with requests arriving in between. [scoreWg] counts the goroutines
    that the callback of [SubmitAnswer] starts: its counter is not a number here
    but what it counts, the scoring checks started and not finished; the
    scoring of a time-out is not among them. That [Add] next to a concurrent
    [Wait] may panic is left out.

    Theorems: a clean exit has waited for the scoring checks that answers had
    started, and for the requests ([clean_exit_waits]); when no request is under
    way at the end of the wait and none follows, no check of an answer is lost
    ([idle_shutdown_loses_nothing]); but requests go on after the wait, and what
    they start is killed: an answer can be accepted and its question marked as
    scored, and nobody gets a score ([shutdown_loses_scores]). However the
    process ends, the database is in the invariant of [Lifecycle]
    ([shutdown_keeps_inv]). *)

From S2P Require Import Prelude Float64 GoLang Json Merkle Model Prog Tables Store StoreQuestion StoreEpoch StoreQueries Lifecycle Config Scoring Timer Poll Answer QuestionService RootNet Http Auth HandlersWorker Onchain Settlement Server System.
#[local] Open Scope Z_scope.
#[local] Open Scope prog_scope.

(** ** The environment *)

(** [envOr]; [getenv] is [os.Getenv]. *)
Definition envOr (getenv : string -> string) (key fallback : string) : string :=
  let v := getenv key in
  if negb (bool_decide (v = ""%string)) then v else fallback.

(** The administrator's token: from the environment, or 24 random bytes. *)
Definition run_adminToken (getenv : string -> string) (random : list byte) : string :=
  let adminToken := envOr getenv "ADMIN_TOKEN" "" in
  if bool_decide (adminToken = ""%string) then string_of_bytes (hex_encode (take 24 random)) else adminToken.

(** What [run] is given: the environment, a random source, and the outcomes of
    [sql.Open] on the data source and of [db.Ping]. *)
Record Host := mkHost {
  Getenv : string -> string;
  rand_bytes : list byte;
  sql_Open : string -> result unit;
  db_Ping : result unit
}.

(** [run] until it listens: the address, the token and the configuration that
    it serves with. *)
Definition run_start (h : Host) : Prg (result (string * (Settings * RuntimeConfig))) :=
  let dsn := envOr (Getenv h) "DATABASE_URL" "host=localhost dbname=benchmark sslmode=disable" in
  let adminToken := run_adminToken (Getenv h) (rand_bytes h) in
  let addr := envOr (Getenv h) "LISTEN_ADDR" ":8080" in
  match sql_Open h dsn with
  | Err e => Ret (Err (Wrapped "open database" e))
  | Ok _ =>
      match db_Ping h with
      | Err e => Ret (Err (Wrapped "ping database" e))
      | Ok _ => let? served := startup adminToken in Ret (Ok (addr, served))
      end
  end.

(** [main]: the exit code of what [run] returns. *)
Definition main_exit {A} (r : result A) : Z := match r with Ok _ => 0 | Err _ => 1 end.

(** Without a database the server does not start, and touches nothing. *)
Lemma run_start_without_database E h s e :
  sql_Open h (envOr (Getenv h) "DATABASE_URL" "host=localhost dbname=benchmark sslmode=disable") = Err e \/ db_Ping h = Err e ->
  exists e', run_top E (run_start h) s = (Err e', s) /\ main_exit (@Err unit e') = 1.
Proof.
  unfold run_start. intros H. destruct (sql_Open h _) as [u|e0]; [|eexists; split; reflexivity].
  destruct H as [H|H]; [discriminate H|]. rewrite H. eexists. split; reflexivity.
Qed.

(** ** Programs that start no scoring checks *)

Fixpoint starts_no_scoring {A} (p : Prg A) : Prop :=
  match p with
  | Ret _ => True
  | Now k => forall t, starts_no_scoring (k t)
  | Range l k => forall l', starts_no_scoring (k l')
  | Sql _ k => forall r, starts_no_scoring (k r)
  | Tx body k => no_atomic body /\ forall r, starts_no_scoring (k r)
  | Atomic f k =>
      (forall m q, TryScoreTask q ∈ spawned (snd (f m)) -> TryScoreTask q ∈ spawned m) /\ forall x, starts_no_scoring (k x)
  | Call req k => forall r, starts_no_scoring (k r)
  end.

Lemma no_atomic_starts_no_scoring {A} (p : Prg A) : no_atomic p -> starts_no_scoring p.
Proof. induction p; cbn; try tauto; auto. intros [H1 H2]. auto. Qed.

Lemma starts_no_scoring_bind {A B} (p : Prg A) (f : A -> Prg B) :
  starts_no_scoring p -> (forall a, starts_no_scoring (f a)) -> starts_no_scoring (bind p f).
Proof. induction p; cbn; auto; intros [H1 H2] Hf; auto. Qed.

Lemma starts_no_scoring_for_all {X} (l : list X) (f : X -> Prg unit) :
  (forall x, starts_no_scoring (f x)) -> starts_no_scoring (for_all l f).
Proof. intros H. induction l as [|x l IH]; [exact I|]. apply starts_no_scoring_bind; auto. Qed.

Lemma starts_no_scoring_effect {A} (p : Prg A) s p' s' : effect p s p' s' -> starts_no_scoring p ->
  starts_no_scoring p' /\ forall q, TryScoreTask q ∈ spawned (mem s') -> TryScoreTask q ∈ spawned (mem s).
Proof.
  intros H. destruct H as [k t s|X l l' k s Hl|X st k env s|X st k msg s|X body k s r s' Hout|X body k msg s|X f k s|req k resp s];
    cbn [starts_no_scoring]; intros Hp; try (split; [apply Hp|auto]; fail).
  - destruct Hp as [Hb Hk]. split; [apply Hk|]. intros q. enough (any_step s s' /\ mem s' = mem s) as [_ ->] by auto.
    apply (tx_outcome_wp body s r s' any_step (fun _ _ s2 => mem s2 = mem s) I Hout).
    eapply wp_mono; [|apply (wp_memory any_fault any_reply true body false s Hb)]. intros x ab s1 [Hm _]. split; [exact Hm|].
    destruct x; [destruct ab|]; [reflexivity|split; [reflexivity|split; [exact I|exact Hm]]|reflexivity].
  - destruct Hp as [Hf Hk]. split; [apply Hk|]. intros q. apply Hf.
Qed.

(** ** The life of the process *)

Inductive ProcessPhase :=
| Starting                (* until RecoverOnStartup has returned *)
| Serving                 (* until the interrupt *)
| Stopping                (* the scheduler is stopped; in scoreWg.Wait *)
| Waited                  (* scoreWg.Wait has returned, and the listener is still open *)
| Draining                (* srv.Shutdown has closed the listener: no new requests *)
| Exited (clean : bool).  (* run has returned nil, or an error or worse *)

#[export] Instance phase_eq_dec : EqDecision ProcessPhase.
Proof. solve_decision. Defined.

Inductive Kind := StartupRun | RequestRun | ScoringRun | TimerRun | SchedulerRun.

Definition kind_of_task (t : Task) : Kind :=
  match t with
  | HandleTimeout _ _ _ => TimerRun
  | TryScoreTask _ => ScoringRun
  end.

Record Process := mkProcess {
  pr_phase : ProcessPhase;
  pr_kinds : nat -> option Kind;
  pr_conf : Configuration
}.

Definition live (ph : ProcessPhase) : bool := match ph with Exited _ => false | _ => true end.
Definition accepting (ph : ProcessPhase) : bool := match ph with Serving | Stopping | Waited => true | _ => false end.
(* the goroutine of the scheduler: its timer may have fired just before the stop *)
Definition scheduling (ph : ProcessPhase) : bool := match ph with Starting | Exited _ => false | _ => true end.
Definition after_wait (ph : ProcessPhase) : bool := match ph with Waited | Draining => true | _ => false end.

Definition set_kind (i : nat) (k : Kind) (ks : nat -> option Kind) : nat -> option Kind :=
  fun j => if (j =? i)%nat then Some k else ks j.

(** All goroutines of a kind have returned. *)
Definition finished (k : Kind) (pr : Process) : Prop :=
  forall i p, pr_kinds pr i = Some k -> fst (pr_conf pr) i = Some p -> p = Ret tt.

(** The counter of [scoreWg] is zero. *)
Definition scoreWg_zero (pr : Process) : Prop :=
  finished ScoringRun pr /\ forall q, TryScoreTask q ∉ spawned (mem (snd (pr_conf pr))).

Section Process.
Variable startup_entry : Prg unit -> Prop.
Variable request_entry : Prg unit -> Prop.
Variable scheduler_entry : Prg unit -> Prop.
Variable task : Task -> Prg unit -> Prop.

Inductive process_step : Process -> Process -> Prop :=
(* run up to RecoverOnStartup, and then ListenAndServe; a start that fails
   exits, which is among the ways of being killed *)
| process_start i p ks ps s : ks = (fun _ => None) -> ps i = None -> startup_entry p ->
    process_step (mkProcess Starting ks (ps, s)) (mkProcess Starting (set_kind i StartupRun ks) (set_goroutine i p ps, s))
| process_listen i ks ps s : ks i = Some StartupRun -> ps i = Some (Ret tt) ->
    process_step (mkProcess Starting ks (ps, s)) (mkProcess Serving ks (ps, s))
(* requests, and rounds of the scheduler *)
| process_request i p ph ks ps s : accepting ph = true -> ks i = None -> ps i = None -> request_entry p ->
    process_step (mkProcess ph ks (ps, s)) (mkProcess ph (set_kind i RequestRun ks) (set_goroutine i p ps, s))
| process_round i p ph ks ps s : scheduling ph = true -> ks i = None -> ps i = None -> scheduler_entry p ->
    process_step (mkProcess ph ks (ps, s)) (mkProcess ph (set_kind i SchedulerRun ks) (set_goroutine i p ps, s))
(* goroutines and timers go on in every phase *)
| process_effect i p p' ph ks ps s s' : live ph = true -> ps i = Some p -> effect p s p' s' ->
    process_step (mkProcess ph ks (ps, s)) (mkProcess ph ks (set_goroutine i p' ps, s'))
| process_spawned i t p ts1 ts2 ph ks ps s : live ph = true -> ks i = None -> ps i = None ->
    spawned (mem s) = ts1 ++ t :: ts2 -> task t p ->
    process_step (mkProcess ph ks (ps, s))
      (mkProcess ph (set_kind i (kind_of_task t) ks)
         (set_goroutine i p ps, {| s with mem := {| (mem s) with spawned := ts1 ++ ts2 |} |}))
| process_fire i n fire t p ph ks ps s : live ph = true -> ks i = None -> ps i = None ->
    pending (mem s) !! n = Some (fire, t) -> task t p ->
    process_step (mkProcess ph ks (ps, s))
      (mkProcess ph (set_kind i TimerRun ks)
         (set_goroutine i p ps, {| s with mem := {| (mem s) with pending := delete n (pending (mem s)) |} |}))
(* the interrupt and settlementStop; scoreWg.Wait returns; srv.Shutdown closes
   the listener, and returns when the requests are done *)
| process_signal ks c : process_step (mkProcess Serving ks c) (mkProcess Stopping ks c)
| process_waited ks c : scoreWg_zero (mkProcess Stopping ks c) ->
    process_step (mkProcess Stopping ks c) (mkProcess Waited ks c)
| process_close ks c : process_step (mkProcess Waited ks c) (mkProcess Draining ks c)
| process_exit ks ps s : finished RequestRun (mkProcess Draining ks (ps, s)) ->
    process_step (mkProcess Draining ks (ps, s)) (mkProcess (Exited true) ks (fun _ => None, {| s with mem := no_timers |}))
(* the five seconds of Shutdown are over, or an error, or a crash *)
| process_killed ph ks ps s : live ph = true ->
    process_step (mkProcess ph ks (ps, s)) (mkProcess (Exited false) ks (fun _ => None, {| s with mem := no_timers |})).

Definition process_steps : relation Process := rtc process_step.

Lemma process_steps_trans pr1 pr2 pr3 : process_steps pr1 pr2 -> process_steps pr2 pr3 -> process_steps pr1 pr3.
Proof using. intros H H2. induction H as [|pr pr' pr'' H1 _ IH]; [exact H2|]. eapply rtc_l; [exact H1|exact (IH H2)]. Qed.

Lemma process_steps_one pr1 pr2 : process_step pr1 pr2 -> process_steps pr1 pr2.
Proof using. intros H. eapply rtc_l; [exact H|apply rtc_refl]. Qed.

(** Induction on the last step. *)
Lemma process_steps_ind_r pr (Q : Process -> Prop) : Q pr ->
  (forall pr1 pr2, process_steps pr pr1 -> process_step pr1 pr2 -> Q pr1 -> Q pr2) -> forall pr', process_steps pr pr' -> Q pr'.
Proof using.
  intros H0 Hs. assert (forall pr1 pr2, process_steps pr1 pr2 -> process_steps pr pr1 -> Q pr1 -> Q pr2) as Hind.
  { induction 1 as [|pr1 pr2 pr3 H1 _ IH]; intros Hp Hq; [exact Hq|]. apply IH; [|exact (Hs pr1 pr2 Hp H1 Hq)].
    exact (process_steps_trans _ _ _ Hp (process_steps_one _ _ H1)). }
  intros pr' H. exact (Hind pr pr' H (rtc_refl _ _) H0).
Qed.

(** A process begins on a database. *)
Definition launched (d : DB) : Process := mkProcess Starting (fun _ => None) (fun _ => None, mkState d no_timers).

(** ** A process is the server of [System] *)

Definition process_entry (p : Prg unit) : Prop := startup_entry p \/ request_entry p \/ scheduler_entry p.

Lemma process_step_simulated pr pr' : process_step pr pr' ->
  pr_conf pr' = pr_conf pr \/ step process_entry task (pr_conf pr) (pr_conf pr').
Proof using.
  unfold process_entry. intros H. destruct H; cbn [pr_conf]; auto; right.
  - apply step_enter; auto.
  - apply step_enter; auto.
  - apply step_enter; auto.
  - eapply step_effect; eassumption.
  - eapply step_spawned; eassumption.
  - eapply step_fire; eassumption.
  - apply step_crash.
  - apply step_crash.
Qed.

Lemma process_steps_simulated pr pr' : process_steps pr pr' -> steps process_entry task (pr_conf pr) (pr_conf pr').
Proof using.
  intros H. induction H as [pr|pr pr1 pr2 H1 _ IH]; [apply steps_refl|].
  destruct (process_step_simulated pr pr1 H1) as [<-|Hs]; [exact IH|]. eapply steps_cons; eassumption.
Qed.

(** ** What the wait covers *)

(** Every goroutine with a kind is in the pool. *)
Definition known (pr : Process) : Prop := forall i k, live (pr_phase pr) = true -> pr_kinds pr i = Some k -> is_Some (fst (pr_conf pr) i).

Lemma set_kind_cases i k ks j k' : set_kind i k ks j = Some k' -> (j = i /\ k' = k) \/ (j <> i /\ ks j = Some k').
Proof using. unfold set_kind. destruct (Nat.eqb_spec j i); [intros [= <-]; auto|auto]. Qed.

Lemma set_goroutine_cases i p (ps : Pool) j p' : set_goroutine i p ps j = Some p' -> (j = i /\ p' = p) \/ (j <> i /\ ps j = Some p').
Proof using. unfold set_goroutine. destruct (Nat.eqb_spec j i); [intros [= <-]; auto|auto]. Qed.

Lemma set_goroutine_some i p (ps : Pool) j : is_Some (ps j) -> is_Some (set_goroutine i p ps j).
Proof using. unfold set_goroutine. destruct (j =? i)%nat; eauto. Qed.

Lemma known_start i k p ph ks ps s s' : known (mkProcess ph ks (ps, s)) ->
  known (mkProcess ph (set_kind i k ks) (set_goroutine i p ps, s')).
Proof using.
  intros H j k' Hl Hj. cbn in *. apply set_kind_cases in Hj as [[-> _]|[_ Hj]].
  - unfold set_goroutine. rewrite Nat.eqb_refl. eauto.
  - apply set_goroutine_some. exact (H j k' Hl Hj).
Qed.

Lemma known_step pr pr' : process_step pr pr' -> known pr -> known pr'.
Proof using.
  intros H Hk. destruct H; try (apply (known_start _ _ _ _ _ _ s), Hk); intros j k Hl Hj; cbn in *; try discriminate.
  all: first [exact (Hk j k eq_refl Hj)|apply set_goroutine_some; exact (Hk j k Hl Hj)].
Qed.

Lemma known_steps pr pr' : process_steps pr pr' -> known pr -> known pr'.
Proof using. induction 1 as [|pr pr1 pr2 H1 _ IH]; intros Hk; [exact Hk|]. exact (IH (known_step pr pr1 H1 Hk)). Qed.

Lemma no_effect_of_ret (a : unit) s p' s' : ~ effect (Ret a) s p' s'.
Proof using. intros H. inversion H. Qed.

(** A goroutine that has returned stays as it is, and kinds stay. *)
Lemma returned_stays pr pr' i k : process_step pr pr' -> pr_kinds pr i = Some k ->
  pr_kinds pr' i = Some k /\
  (live (pr_phase pr') = true -> fst (pr_conf pr) i = Some (Ret tt) -> fst (pr_conf pr') i = Some (Ret tt)).
Proof using.
  intros H Hi. destruct H; cbn in *; try (split; [exact Hi|auto; discriminate]).
  { subst ks. discriminate. }
  all: try (assert (i <> i0) as Hne by congruence; unfold set_kind, set_goroutine;
            rewrite (proj2 (Nat.eqb_neq i i0) Hne); auto).
  split; [exact Hi|]. intros _ Hr. unfold set_goroutine. destruct (Nat.eqb_spec i i0) as [->|_]; [|exact Hr].
  assert (p = Ret tt) as -> by congruence. destruct (no_effect_of_ret tt s p' s' H1).
Qed.

Lemma kinds_stay pr pr' i k : process_steps pr pr' -> pr_kinds pr i = Some k -> pr_kinds pr' i = Some k.
Proof using.
  induction 1 as [|pr pr1 pr2 H1 _ IH]; intros Hi; [exact Hi|]. exact (IH (proj1 (returned_stays pr pr1 i k H1 Hi))).
Qed.

(** A goroutine that is waited for has returned when the counter is zero. *)
Lemma waited_for pr mid i : known pr -> process_steps pr mid -> live (pr_phase mid) = true -> scoreWg_zero mid ->
  pr_kinds pr i = Some ScoringRun -> fst (pr_conf mid) i = Some (Ret tt).
Proof using.
  intros Hk H Hl [Hf _] Hi. pose proof (kinds_stay pr mid i ScoringRun H Hi) as Hi'.
  destruct (known_steps pr mid H Hk i ScoringRun Hl Hi') as [p Hp]. rewrite Hp, (Hf i p Hi' Hp). reflexivity.
Qed.

(** A state in which the wait has just ended. *)
Definition wait_ended (pr mid : Process) : Prop := process_steps pr mid /\ pr_phase mid = Waited /\ scoreWg_zero mid.

(** How far a process has got from [pr]: once after the wait, it has been in
    a state in which the wait had just ended; and before a clean exit its
    requests were done. *)
Definition shut_down (pr pr' : Process) : Prop :=
  (after_wait (pr_phase pr') = true -> exists mid, wait_ended pr mid /\ process_steps mid pr') /\
  (pr_phase pr' = Exited true -> exists mid last, wait_ended pr mid /\ process_steps mid last /\
     pr_phase last = Draining /\ finished RequestRun last /\ db (snd (pr_conf pr')) = db (snd (pr_conf last))).

Lemma exited_stuck pr pr' : process_step pr pr' -> live (pr_phase pr) = true.
Proof using. intros H. destruct H; cbn; auto. all: destruct ph; auto; discriminate. Qed.

Lemma shut_down_step pr pr1 pr2 : process_steps pr pr1 -> process_step pr1 pr2 -> shut_down pr pr1 -> shut_down pr pr2.
Proof using.
  intros H H1 [Hw _]. pose proof (process_steps_trans _ _ _ H (process_steps_one _ _ H1)) as H2.
  assert (after_wait (pr_phase pr1) = true -> exists mid, wait_ended pr mid /\ process_steps mid pr2) as Hthen.
  { intros Ha. destruct (Hw Ha) as (mid & Hm & Hs). exists mid. split; [exact Hm|]. exact (process_steps_trans _ _ _ Hs (process_steps_one _ _ H1)). }
  split.
  - intros Ha. destruct (after_wait (pr_phase pr1)) eqn:E; [exact (Hthen eq_refl)|]. exists pr2. split; [|apply rtc_refl].
    split; [exact H2|]. destruct H1; cbn in *; try congruence. split; [reflexivity|assumption].
  - intros He. pose proof (exited_stuck _ _ H1) as Hl. destruct H1; cbn in He, Hl; subst; try discriminate.
    destruct (Hw eq_refl) as (mid & Hm & Hs). exists mid. eexists. split; [exact Hm|]. split; [exact Hs|].
    split; [reflexivity|]. split; [eassumption|reflexivity].
Qed.

Lemma shut_down_steps pr pr' : after_wait (pr_phase pr) = false -> live (pr_phase pr) = true -> process_steps pr pr' -> shut_down pr pr'.
Proof using.
  intros Ha Hl. apply process_steps_ind_r; [split; intros E; [congruence|rewrite E in Hl; discriminate]|apply shut_down_step].
Qed.

(** ** What is not waited for *)

Hypothesis startup_quiet : forall p, startup_entry p -> starts_no_scoring p.
Hypothesis scheduler_quiet : forall p, scheduler_entry p -> starts_no_scoring p.
Hypothesis task_quiet : forall t p, task t p -> starts_no_scoring p.

(** Only requests start scoring checks. *)
Definition others_quiet (pr : Process) : Prop :=
  forall i p, fst (pr_conf pr) i = Some p -> pr_kinds pr i <> Some RequestRun -> starts_no_scoring p.

Lemma others_quiet_start i k p ph ks ps s s' : others_quiet (mkProcess ph ks (ps, s)) -> (k <> RequestRun -> starts_no_scoring p) ->
  others_quiet (mkProcess ph (set_kind i k ks) (set_goroutine i p ps, s')).
Proof using.
  intros H Hp j p' Hj Hk. cbn in *. unfold set_kind in Hk. apply set_goroutine_cases in Hj as [[-> ->]|[Hne Hj]].
  - rewrite Nat.eqb_refl in Hk. apply Hp. congruence.
  - rewrite (proj2 (Nat.eqb_neq j i) Hne) in Hk. exact (H j p' Hj Hk).
Qed.

Lemma others_quiet_step pr pr' : process_step pr pr' -> others_quiet pr -> others_quiet pr'.
Proof using startup_quiet scheduler_quiet task_quiet.
  intros H Hq. destruct H; try exact Hq; try (intros j p' Hj; discriminate Hj);
    try (apply (others_quiet_start _ _ _ _ _ _ s _ Hq); intros Hne; first [solve [eauto]|destruct (Hne eq_refl)]).
  - intros j p'' Hj Hk. cbn in *. apply set_goroutine_cases in Hj as [[-> ->]|[_ Hj]]; [|exact (Hq j p'' Hj Hk)].
    exact (proj1 (starts_no_scoring_effect p s p' s' H1 (Hq i p H0 Hk))).
Qed.

Lemma others_quiet_steps pr pr' : process_steps pr pr' -> others_quiet pr -> others_quiet pr'.
Proof using startup_quiet scheduler_quiet task_quiet.
  induction 1 as [|pr pr1 pr2 H1 _ IH]; intros Hq; [exact Hq|]. exact (IH (others_quiet_step pr pr1 H1 Hq)).
Qed.

(** No new request arrives. *)
Hypothesis no_requests : forall p, ~ request_entry p.

(** With no request under way, the counter stays zero after the wait. *)
Definition idle (pr : Process) : Prop :=
  others_quiet pr /\ after_wait (pr_phase pr) = true /\ finished RequestRun pr /\ scoreWg_zero pr.

Lemma idle_start i k p ph ks ps s s' : k = TimerRun \/ k = SchedulerRun -> finished RequestRun (mkProcess ph ks (ps, s)) ->
  scoreWg_zero (mkProcess ph ks (ps, s)) -> (forall q, TryScoreTask q ∈ spawned (mem s') -> TryScoreTask q ∈ spawned (mem s)) ->
  finished RequestRun (mkProcess ph (set_kind i k ks) (set_goroutine i p ps, s')) /\
  scoreWg_zero (mkProcess ph (set_kind i k ks) (set_goroutine i p ps, s')).
Proof using.
  intros Hk Hr [Hs Hsp] Hsub. split; [|split; [|intros q Hin; exact (Hsp q (Hsub q Hin))]].
  all: intros j p' Hj Hp; cbn in *; apply set_kind_cases in Hj as [[_ E]|[Hne Hj]]; [destruct Hk; congruence|];
    apply set_goroutine_cases in Hp as [[-> _]|[_ Hp]]; [congruence|].
  - exact (Hr j p' Hj Hp).
  - exact (Hs j p' Hj Hp).
Qed.

Lemma idle_step pr pr' : process_step pr pr' -> live (pr_phase pr') = true -> idle pr -> idle pr'.
Proof using startup_quiet scheduler_quiet task_quiet no_requests.
  intros H Hl (Hq & Ha & Hi). split; [exact (others_quiet_step pr pr' H Hq)|]. revert Hl Ha Hi.
  destruct H; cbn [pr_phase after_wait]; intros Hl Ha Hi; try discriminate; try (split; [exact Ha|]); auto.
  - destruct (no_requests p); assumption.
  - destruct Hi as [Hr Hz]. apply (idle_start _ _ _ _ _ _ s); auto.
  - destruct Hi as (Hr & Hs & Hsp). cbn in *.
    assert (forall k, k = RequestRun \/ k = ScoringRun -> ks i = Some k -> p = Ret tt) as Hret
      by (intros k [->| ->] Hk; [apply (Hr i p Hk H0)|apply (Hs i p Hk H0)]).
    assert (forall k, k = RequestRun \/ k = ScoringRun -> ks i <> Some k) as Hother.
    { intros k Hk Hki. rewrite (Hret k Hk Hki) in H1. exact (no_effect_of_ret tt s p' s' H1). }
    split; [|split].
    + intros j p'' Hj Hp. cbn in *. apply set_goroutine_cases in Hp as [[-> _]|[_ Hp]]; [destruct (Hother _ (or_introl eq_refl) Hj)|].
      exact (Hr j p'' Hj Hp).
    + intros j p'' Hj Hp. cbn in *. apply set_goroutine_cases in Hp as [[-> _]|[_ Hp]]; [destruct (Hother _ (or_intror eq_refl) Hj)|].
      exact (Hs j p'' Hj Hp).
    + intros q Hin. apply (Hsp q). apply (starts_no_scoring_effect p s p' s' H1); [|exact Hin].
      apply (Hq i p H0), Hother. auto.
  - destruct Hi as [Hr Hz]. assert (kind_of_task t = TimerRun) as ->.
    { destruct t as [a b w|q]; [reflexivity|]. destruct Hz as [_ Hsp]. destruct (Hsp q). cbn. rewrite H2. apply elem_of_app. right. left. }
    apply (idle_start _ _ _ _ _ _ s); auto. intros q Hin. cbn in Hin. rewrite H2.
    apply elem_of_app in Hin as [Hin|Hin]; apply elem_of_app; [auto|]. right. right. exact Hin.
  - destruct Hi as [Hr Hz]. apply (idle_start _ _ _ _ _ _ s); auto.
Qed.

Lemma idle_steps pr pr' : process_steps pr pr' -> live (pr_phase pr') = true -> idle pr -> idle pr'.
Proof using startup_quiet scheduler_quiet task_quiet no_requests.
  intros H Hl Hi. revert pr' H Hl. refine (process_steps_ind_r pr _ (fun _ => Hi) _). intros pr1 pr2 _ H1 IH Hl.
  exact (idle_step pr1 pr2 H1 Hl (IH (exited_stuck pr1 pr2 H1))).
Qed.
End Process.

(** ** The server's process *)

Section Server.
Context {P : Postgres} {N : PostgresNumeric}.
Variable Keccak256 : list byte -> list byte.
Variable BytesToHash : list byte -> Hash.
Variable HexToAddress : string -> Address.
Variable PublicKey : Type.
Variable SigToPub : list byte -> list byte -> result PublicKey.
Variable PubkeyToAddress : PublicKey -> Address.
Variable IsHexAddress : string -> bool.
Variable Address_Hex : Address -> string.
Variable key_address : string -> result Address.
Variable sign_ok : Z -> Z -> Z -> result unit.
Variable setMerkleRoot : AbiMethod.
Variable ethHexToHash : string -> Hash.
Variable pq_float : float64 -> string.

(** The parts of [System.server_entry]. *)
Definition run_startup (p : Prg unit) : Prop := exists h, p = ignore (run_start h).
Definition run_request (p : Prg unit) : Prop := exists settings rt r,
  p = ignore (serve Keccak256 BytesToHash HexToAddress PublicKey SigToPub PubkeyToAddress IsHexAddress Address_Hex
    key_address sign_ok setMerkleRoot ethHexToHash pq_float settings rt r).
Definition run_round (p : Prg unit) : Prop := exists settings rt,
  p = scheduler_round Keccak256 BytesToHash HexToAddress key_address sign_ok setMerkleRoot ethHexToHash settings rt.

Abbreviation server_process_steps := (process_steps run_startup run_request run_round server_task).

Lemma run_start_safe h : safe (run_start h).
Proof using.
  unfold run_start. destruct (sql_Open h _); [|apply safe_Ret]. destruct (db_Ping h); [|apply safe_Ret].
  apply safe_bind_ok; [apply startup_safe|]. intros served. apply safe_Ret.
Qed.

Lemma process_entry_safe p : process_entry run_startup run_request run_round p -> safe p.
Proof using P.
  intros [[h ->]|H]; [apply ignore_safe, run_start_safe|].
  apply (server_entry_safe Keccak256 BytesToHash HexToAddress PublicKey SigToPub PubkeyToAddress IsHexAddress Address_Hex
    key_address sign_ok setMerkleRoot ethHexToHash pq_float).
  destruct H as [(settings & rt & r & ->)|(settings & rt & ->)]; constructor.
Qed.

(** Whenever and however the process ends, the database that it leaves is in
    the invariant, and its rows have only moved forward since the start. *)
Theorem shutdown_keeps_inv d pr : inv d -> server_process_steps (launched d) pr ->
  inv (db (snd (pr_conf pr))) /\ evolves d (db (snd (pr_conf pr))).
Proof using P.
  intros Hd H. apply process_steps_simulated in H.
  apply (reachable_ok _ server_task process_entry_safe server_task_safe (mkState d no_timers) _ _ Hd (steps_refl _ _ _) H).
Qed.

(** *** The others start no scoring checks *)

Lemma startup_starts_no_scoring p : run_startup p -> starts_no_scoring p.
Proof using.
  intros [h ->]. apply starts_no_scoring_bind; [|intros r; exact I]. unfold run_start.
  destruct (sql_Open h _) as [u1|e1]; [|exact I]. destruct (db_Ping h) as [u2|e2]; [|exact I].
  apply starts_no_scoring_bind; [|intros []; exact I]. unfold startup, Load, ListConfig.
  apply starts_no_scoring_bind; [apply no_atomic_starts_no_scoring; repeat no_atomic_step|]. intros loaded.
  apply starts_no_scoring_bind; [|intros []; exact I]. unfold wrapped. apply starts_no_scoring_bind; [|intros r; exact I].
  unfold RecoverOnStartup. apply starts_no_scoring_bind; [intros r; exact I|]. intros [rows|e]; [|exact I].
  apply starts_no_scoring_bind.
  - apply starts_no_scoring_for_all. intros a t. unfold recover_timer, StartReplyTimer.
    assert (forall m q, TryScoreTask q ∈ spawned (snd (spawn (timeout_task a) m)) -> TryScoreTask q ∈ spawned m) as Hspawn
      by (intros m q Hin; apply elem_of_cons in Hin as [Hin|Hin]; [discriminate Hin|exact Hin]).
    destruct (After t (a_ReplyDDL a)); [split; [exact Hspawn|intros x; exact I]|]. intros now.
    destruct (_ <=? 0); [split; [exact Hspawn|intros x; exact I]|]. split; [auto|]. intros n. split; [auto|]. intros x. exact I.
  - intros _. apply starts_no_scoring_bind; [intros r; exact I|]. intros [qs|e]; [|exact I].
    apply starts_no_scoring_bind; [|intros x; exact I]. apply starts_no_scoring_for_all. intros q.
    apply no_atomic_starts_no_scoring, no_atomic_TryScore.
Qed.

Lemma task_starts_no_scoring t p : server_task t p -> starts_no_scoring p.
Proof using.
  intros [tm [a q w|q]]; cbn [run_task]; [|apply no_atomic_starts_no_scoring, no_atomic_TryScore].
  split; [auto|]. intros x. apply no_atomic_starts_no_scoring. unfold GetAssignment, TimeoutAssignment. repeat no_atomic_step.
  apply no_atomic_TryScore.
Qed.

Lemma no_atomic_lookup_recipient svc n w : no_atomic (lookup_recipient svc n w).
Proof using. induction n as [|n IH]; [exact I|]. intros r. cbn. destruct (recipient_reply w r), n; first [exact I|exact IH]. Qed.

Lemma no_atomic_lookup_all svc l : no_atomic (lookup_all svc l).
Proof using.
  induction l as [|[w r] l IH]; [exact I|]. apply no_atomic_bind; [apply no_atomic_lookup_recipient|]. intros x.
  apply no_atomic_bind; [exact IH|]. intros y. exact I.
Qed.

Lemma round_starts_no_scoring p : run_round p -> starts_no_scoring p.
Proof using.
  intros (settings & rt & ->). apply no_atomic_starts_no_scoring. intros now now2. unfold settle, Settle, finish_settlement, buildMerkleTree, resolve_recipients,
    save_proof, judge_benchmark, CreateOrResetEpoch, DeleteEpochMerkleProofs, DeleteEpochRewards, ResetBenchmarkFlags,
    ListScoredQuestionsInRange, FinishEpoch, ListScoredAssignmentsForQuestions, BatchSaveWorkerEpochRewards, ResetAllEpochViolations,
    SetEpochMerkleRoot, SetWorkerEpochRecipient, SaveMerkleProof, CountInvalidReports, MarkBenchmark. cbn [st_Onchain settlementSvc].
  repeat no_atomic_step; try apply no_atomic_lookup_all.
  unfold publish, PublishMerkleRoot, GetEpochMerkleRoot, SetEpochPublished. repeat no_atomic_step.
Qed.

(** C17: a clean exit has waited.  Whenever a process that has been launched on
    some database, and whose wait has not ended yet, comes to exit without an
    error, then it has been in a state in which [scoreWg.Wait] had just
    returned and the listener was still open, where every goroutine that an
    answer had started until now to score its question had returned; and at
    the exit all requests have been answered, also those that came during and
    after the wait, and the database is as they leave it. *)
Theorem clean_exit_waits d pr pr' : server_process_steps (launched d) pr ->
  after_wait (pr_phase pr) = false -> live (pr_phase pr) = true ->
  server_process_steps pr pr' -> pr_phase pr' = Exited true ->
  exists mid last, server_process_steps pr mid /\ server_process_steps mid last /\
    pr_phase mid = Waited /\ (forall q, TryScoreTask q ∉ spawned (mem (snd (pr_conf mid)))) /\
    (forall i, pr_kinds pr i = Some ScoringRun -> fst (pr_conf mid) i = Some (Ret tt)) /\
    pr_phase last = Draining /\
    (forall i, pr_kinds last i = Some RequestRun -> fst (pr_conf last) i = Some (Ret tt)) /\
    db (snd (pr_conf pr')) = db (snd (pr_conf last)).
Proof using P.
  intros H0 Ha Hl H He. destruct (shut_down_steps _ _ _ _ pr pr' Ha Hl H) as [_ Hx].
  destruct (Hx He) as (mid & last & (H1 & Hm & Hz) & H2 & Hd & Hr & H3). exists mid, last.
  assert (known pr) as Hk by (apply (known_steps _ _ _ _ _ _ H0); intros j k _ Hj; discriminate Hj).
  assert (known last) as Hkl by exact (known_steps _ _ _ _ _ _ (process_steps_trans _ _ _ _ _ _ _ H1 H2) Hk).
  split; [exact H1|]. split; [exact H2|]. split; [exact Hm|]. split; [apply Hz|]. split; [|split; [exact Hd|split]].
  - intros i. apply (waited_for _ _ _ _ pr mid i Hk H1); [rewrite Hm; reflexivity|exact Hz].
  - intros i Hi. destruct (Hkl i RequestRun) as [p Hp]; [rewrite Hd; reflexivity|exact Hi|]. rewrite Hp, (Hr i p Hi Hp). reflexivity.
  - exact H3.
Qed.

(** C21: an idle shutdown loses no answer.  When no request is under way at the
    end of the wait, and none arrives from then on, no scoring check of an
    answer is lost: until the exit, none is started or under way.  (A time-out
    that fires meanwhile may score too, and is neither counted nor waited
    for.) *)
Theorem idle_shutdown_loses_nothing d pr pr1 pr2 : server_process_steps (launched d) pr ->
  pr_phase pr = Stopping -> finished RequestRun pr ->
  process_step run_startup run_request run_round server_task pr pr1 -> pr_phase pr1 = Waited ->
  process_steps run_startup (fun _ => False) run_round server_task pr1 pr2 -> live (pr_phase pr2) = true ->
  after_wait (pr_phase pr2) = true /\ finished RequestRun pr2 /\ scoreWg_zero pr2.
Proof using P.
  intros H0 Hs Hf H1 Hw H2 Hl.
  assert (others_quiet pr1) as Hq.
  { apply (others_quiet_step run_startup run_request run_round server_task startup_starts_no_scoring round_starts_no_scoring
      task_starts_no_scoring pr pr1 H1).
    apply (others_quiet_steps run_startup run_request run_round server_task startup_starts_no_scoring round_starts_no_scoring
      task_starts_no_scoring _ _ H0). intros i p Hp. discriminate Hp. }
  apply (idle_steps run_startup (fun _ => False) run_round server_task startup_starts_no_scoring round_starts_no_scoring
    task_starts_no_scoring (fun _ F => F) pr1 pr2 H2 Hl).
  split; [exact Hq|]. rewrite Hw. split; [reflexivity|].
  destruct H1; cbn in Hs, Hw; subst; try discriminate. split; assumption.
Qed.
End Server.

(** ** A shutdown that loses scores *)

(** The first effects of a program that nothing disturbs, at most [n]. *)
Fixpoint first_effects {A} (n : nat) (E : ServerEnv) (p : Prg A) (s : St) : Prg A * St :=
  match n with
  | O => (p, s)
  | S n =>
      match p with
      | Ret a => (Ret a, s)
      | Now k => first_effects n E (k (clock E n)) s
      | Range l k => first_effects n E (k l) s
      | Sql st k => let '(r, d) := st (sql_env E n) (db s) in first_effects n E (k r) {| s with db := d |}
      | Tx body k => (Tx body k, s)
      | Atomic f k => let '(x, m) := f (mem s) in first_effects n E (k x) {| s with mem := m |}
      | Call req k => first_effects n E (k (reply E n req)) s
      end
  end.

Lemma first_effects_effects {A} n E (p : Prg A) s : effects p s (fst (first_effects n E p s)) (snd (first_effects n E p s)).
Proof.
  revert p s. induction n as [|n IH]; intros p s; [apply effects_refl|].
  destruct p as [a|k|X l k|X st k|X body k|X f k|req k]; cbn [first_effects]; try apply effects_refl.
  - eapply effects_cons; [apply effect_now|apply IH].
  - eapply effects_cons; [apply effect_range; reflexivity|apply IH].
  - pose proof (effect_sql st k (sql_env E n) s) as H. destruct (st _ _) as [r d]. eapply effects_cons; [exact H|apply IH].
  - pose proof (effect_atomic f k s) as H. destruct (f _) as [x m]. eapply effects_cons; [exact H|apply IH].
  - eapply effects_cons; [apply effect_call|apply IH].
Qed.

Lemma effects_process_steps startup_entry request_entry scheduler_entry task i p s p' s' ph ks : effects p s p' s' ->
  live ph = true -> forall ps : Pool, ps i = Some p ->
  exists ps' : Pool, process_steps startup_entry request_entry scheduler_entry task (mkProcess ph ks (ps, s)) (mkProcess ph ks (ps', s')) /\
    ps' i = Some p' /\ forall j, j <> i -> ps' j = ps j.
Proof.
  intros H Hl. induction H as [p s|p1 s1 p2 s2 p3 s3 H1 _ IH]; intros ps Hi; [exists ps; split; [apply rtc_refl|auto]|].
  destruct (IH (set_goroutine i p2 ps)) as (ps' & Hs & Hp & Hj); [unfold set_goroutine; rewrite Nat.eqb_refl; reflexivity|].
  exists ps'. split; [|split; [exact Hp|]].
  - eapply rtc_l; [eapply process_effect; eassumption|exact Hs].
  - intros j Hne. rewrite Hj by exact Hne. unfold set_goroutine. rewrite (proj2 (Nat.eqb_neq j i) Hne). reflexivity.
Qed.

(** One answer is enough. The answer arrives with the interrupt. *)
Definition lost_db : DB := {| toy_db with system_config := [mkConfigEntry "question.required_answers" "1" "" 0] |}.
Definition lost_runtime : RuntimeConfig := load_config (system_config lost_db).
Definition lost_request : Prg unit := ignore (toy_serve toy_settings lost_runtime toy_answer).
Definition lost_host : Host :=
  mkHost (fun key => if bool_decide (key = "ADMIN_TOKEN"%string) then "secret" else ""%string) [] (fun _ => Ok tt) (Ok tt).
Definition lost_started : St := snd (run_top (quiet (at_time Second)) (ignore (run_start lost_host)) (mkState lost_db no_timers)).
Definition lost_answered : St := snd (run_top (quiet (at_time (5 * Second))) lost_request lost_started).
Definition lost_scoring (n : nat) : Prg unit * St :=
  first_effects n (at_time (5 * Second)) (run_task (timerMgr toy_settings lost_runtime) (TryScoreTask 1))
    {| lost_answered with mem := {| (mem lost_answered) with spawned := [] |} |}.

Abbreviation toy_request_run := (run_request toy_hash id toy_hex_to_address (list byte) toy_sig_to_pub id (fun _ => true) toy_address_hex
  (fun _ => Err (Failure "no key")) (fun _ _ _ => Ok tt) no_abi (fun _ => []) (fun _ => ""%string)).
Abbreviation toy_round := (run_round toy_hash id toy_hex_to_address (fun _ => Err (Failure "no key")) (fun _ _ _ => Ok tt)
  no_abi (fun _ => [])).
Abbreviation toy_process_steps := (process_steps run_startup toy_request_run toy_round server_task).

(** A goroutine that runs to its end, alone. *)
Lemma run_process_steps startup_entry request_entry scheduler_entry task i p E s ph ks (ps : Pool) : live ph = true -> ps i = Some p ->
  exists ps' : Pool, process_steps startup_entry request_entry scheduler_entry task (mkProcess ph ks (ps, s))
      (mkProcess ph ks (ps', snd (run_top (quiet E) p s))) /\ ps' i = Some (Ret tt) /\ forall j, j <> i -> ps' j = ps j.
Proof.
  intros Hl Hi. pose proof (run_effects E p 0 s) as H. unfold run_top. destruct (run (quiet E) false p (mkPos 0 false) s) as [[[] s'] pos].
  exact (effects_process_steps _ _ _ _ i p s (Ret tt) s' ph ks H Hl ps Hi).
Qed.

(** The kinds of the goroutines, by their numbers. *)
Definition lost_kinds : list Kind := [StartupRun; RequestRun; ScoringRun].

(** Up to the interrupt: the server has started, a request has arrived. *)
Lemma lost_serving : exists ps ks, toy_process_steps (launched lost_db) (mkProcess Stopping ks (ps, lost_started)) /\
  (forall i, ks i = lookup i (take 2 lost_kinds)) /\ ps 1%nat = Some lost_request /\ forall i, (1 < i)%nat -> ps i = None.
Proof.
  set (no := fun _ : nat => @None (Prg unit)).
  destruct (run_process_steps run_startup toy_request_run toy_round server_task 0 (ignore (run_start lost_host)) (at_time Second) (mkState lost_db no_timers)
    Starting (set_kind 0 StartupRun (fun _ => None)) (set_goroutine 0 (ignore (run_start lost_host)) no) eq_refl eq_refl) as (ps & H1 & Hret & Hps).
  exists (set_goroutine 1 lost_request ps), (set_kind 1 RequestRun (set_kind 0 StartupRun (fun _ => None))). split; [|split; [|split]].
  - eapply rtc_l; [apply (process_start _ _ _ _ 0 (ignore (run_start lost_host))); [reflexivity|reflexivity|eexists; reflexivity]|].
    apply (process_steps_trans _ _ _ _ _ _ _ H1). eapply rtc_l; [apply (process_listen _ _ _ _ 0); [reflexivity|exact Hret]|].
    eapply rtc_l; [apply (process_request _ _ _ _ 1 lost_request); [reflexivity|reflexivity|apply Hps; discriminate|]|].
    { exists toy_settings, lost_runtime, toy_answer. reflexivity. }
    eapply rtc_l; [apply process_signal|apply rtc_refl].
  - intros [|[|i]]; reflexivity.
  - reflexivity.
  - intros i Hi. unfold set_goroutine. rewrite (proj2 (Nat.eqb_neq i 1)) by lia. rewrite Hps by lia.
    unfold set_goroutine. rewrite (proj2 (Nat.eqb_neq i 0)) by lia. reflexivity.
Qed.

(** The request runs to its end and its scoring check begins, in [Stopping] or
    in [Draining]. *)
Definition lost_check : Prg unit := run_task (timerMgr toy_settings lost_runtime) (TryScoreTask 1).
Definition lost_unspawned : St := {| lost_answered with mem := {| (mem lost_answered) with spawned := [] |} |}.

Lemma lost_checking ph ks (ps : Pool) : live ph = true -> (forall i, ks i = lookup i (take 2 lost_kinds)) ->
  ps 1%nat = Some lost_request -> (forall i, (1 < i)%nat -> ps i = None) ->
  exists ps2 : Pool, toy_process_steps (mkProcess ph ks (ps, lost_started))
      (mkProcess ph (set_kind 2 ScoringRun ks) (set_goroutine 2 lost_check ps2, lost_unspawned)) /\ ps2 1%nat = Some (Ret tt).
Proof.
  intros Hph Hks H1r Hps.
  destruct (run_process_steps run_startup toy_request_run toy_round server_task 1 lost_request (at_time (5 * Second)) lost_started ph ks ps Hph H1r)
    as (ps2 & H2 & H2r & Hps2).
  exists ps2. split; [|exact H2r]. apply (process_steps_trans _ _ _ _ _ _ _ H2).
  assert (spawned (mem lost_answered) = [] ++ TryScoreTask 1 :: []) as Hsp by (vm_compute; reflexivity).
  eapply rtc_l; [apply (process_spawned _ _ _ _ 2 (TryScoreTask 1) lost_check [] []); [exact Hph|rewrite Hks; reflexivity| |exact Hsp|]|apply rtc_refl].
  - rewrite Hps2, Hps by lia. reflexivity.
  - exact (task_runs (timerMgr toy_settings lost_runtime) (TryScoreTask 1)).
Qed.

(** Only goroutine 1 is a request. *)
Lemma lost_requests ks (ps : Pool) ph s : (forall i, ks i = lookup i (take 2 lost_kinds)) -> ps 1%nat = Some (Ret tt) ->
  finished RequestRun (mkProcess ph (set_kind 2 ScoringRun ks) (ps, s)).
Proof.
  intros Hks H1 i p Hi Hp. cbn in Hi, Hp. apply set_kind_cases in Hi as [[_ Hi]|[Hne Hi]]; [discriminate|].
  rewrite Hks in Hi. destruct i as [|[|i]]; [discriminate| |discriminate Hi]. congruence.
Qed.

Lemma lost_no_scoring ks (ps : Pool) : (forall i, ks i = lookup i (take 2 lost_kinds)) ->
  scoreWg_zero (mkProcess Stopping ks (ps, lost_started)).
Proof.
  intros Hks. split; [intros i p Hi; cbn in Hi; rewrite Hks in Hi; destruct i as [|[|i]]; discriminate Hi|].
  intros q Hin. vm_compute in Hin. inversion Hin.
Qed.

(** C37: the server is interrupted while an answer is on its way. No scoring
    check is under way, so the wait ends at once; the answer is accepted, its
    scoring check starts and marks the question as scored; then Shutdown
    returns, since the request is done, and the process exits without an error.
    The reply stays without a score, and the next start leaves it at that. *)
Theorem shutdown_loses_scores : exists pr, toy_process_steps (launched lost_db) pr /\ pr_phase pr = Exited true /\
  map q_Status (questions (db (snd (pr_conf pr)))) = [QuestionStatusScored] /\
  map a_Status (assignments (db (snd (pr_conf pr)))) = [AssignmentStatusReplied] /\
  map a_Status (assignments (db (toy_scored 60 (snd (pr_conf pr))))) = [AssignmentStatusReplied].
Proof.
  destruct lost_serving as (ps & ks & H1 & Hks & H1r & Hps).
  destruct (lost_checking Draining ks ps eq_refl Hks H1r Hps) as (ps2 & H2 & H2r).
  destruct (effects_process_steps run_startup toy_request_run toy_round server_task 2 lost_check _ _ _ Draining (set_kind 2 ScoringRun ks)
    (first_effects_effects 6 (at_time (5 * Second)) lost_check lost_unspawned) eq_refl (set_goroutine 2 lost_check ps2) eq_refl)
    as (ps3 & H3 & _ & Hps3).
  exists (mkProcess (Exited true) (set_kind 2 ScoringRun ks) (fun _ => None, {| (snd (lost_scoring 6)) with mem := no_timers |})).
  split; [|split; [reflexivity|split; [|split]; vm_compute; reflexivity]].
  apply (process_steps_trans _ _ _ _ _ _ _ H1). eapply rtc_l; [apply process_waited, lost_no_scoring, Hks|].
  eapply rtc_l; [apply process_close|].
  apply (process_steps_trans _ _ _ _ _ _ _ H2), (process_steps_trans _ _ _ _ _ _ _ H3).
  eapply rtc_l; [apply process_exit|apply rtc_refl]. apply lost_requests; [exact Hks|].
  rewrite Hps3 by discriminate. exact H2r.
Qed.

(** ** The same answer, before the end of the wait *)

Lemma lost_db_inv : inv lost_db.
Proof. apply (rg_other_tables toy_db lost_db); try reflexivity. apply toy_db_inv. Qed.

Definition lost_scored : St := snd (run_top (quiet (at_time (5 * Second))) lost_check lost_unspawned).

(** The check is waited for. *)
Lemma waited_run : exists ks (ps2 ps3 : Pool),
  let checking := mkProcess Stopping ks (set_goroutine 2 lost_check ps2, lost_unspawned) in
  let checked := mkProcess Stopping ks (ps3, lost_scored) in
  toy_process_steps (launched lost_db) checking /\ toy_process_steps checking checked /\
  ks 2%nat = Some ScoringRun /\ finished RequestRun checked /\ scoreWg_zero checked.
Proof.
  destruct lost_serving as (ps & ks & H1 & Hks & H1r & Hps).
  destruct (lost_checking Stopping ks ps eq_refl Hks H1r Hps) as (ps2 & H2 & H2r).
  destruct (run_process_steps run_startup toy_request_run toy_round server_task 2 lost_check (at_time (5 * Second)) lost_unspawned
    Stopping (set_kind 2 ScoringRun ks) (set_goroutine 2 lost_check ps2) eq_refl eq_refl) as (ps3 & H3 & H3r & Hps3).
  exists (set_kind 2 ScoringRun ks), ps2, ps3. split; [|split; [|split; [|split; [|split]]]].
  - apply (process_steps_trans _ _ _ _ _ _ _ H1 H2).
  - exact H3.
  - reflexivity.
  - apply lost_requests; [exact Hks|]. rewrite Hps3 by discriminate. exact H2r.
  - intros i p Hi Hp. cbn in Hi, Hp. apply set_kind_cases in Hi as [[-> _]|[_ Hi]]; [congruence|].
    rewrite Hks in Hi. destruct i as [|[|i]]; discriminate Hi.
  - intros q Hin. vm_compute in Hin. inversion Hin.
Qed.

(** ... to a clean exit. *)
Lemma clean_exit_waits_witness : exists (mid : Process), pr_phase mid = Waited /\ fst (pr_conf mid) 2%nat = Some (Ret tt).
Proof.
  destruct waited_run as (ks & ps2 & ps3 & H1 & H2 & Hk & Hr & Hz).
  destruct (clean_exit_waits _ _ _ _ _ _ _ _ _ _ _ _ _ lost_db _
    (mkProcess (Exited true) ks (fun _ => None, {| lost_scored with mem := no_timers |})) H1 eq_refl eq_refl) as (mid & last & _ & _ & Hm & _ & Hi & _).
  - apply (process_steps_trans _ _ _ _ _ _ _ H2). eapply rtc_l; [apply process_waited, Hz|].
    eapply rtc_l; [apply process_close|]. eapply rtc_l; [apply process_exit, Hr|apply rtc_refl].
  - reflexivity.
  - exists mid. split; [exact Hm|exact (Hi 2%nat Hk)].
Defined.

Lemma idle_shutdown_loses_nothing_witness : exists ks (ps : Pool), scoreWg_zero (mkProcess Draining ks (ps, lost_scored)).
Proof.
  destruct waited_run as (ks & ps2 & ps3 & H1 & H2 & Hk & Hr & Hz). exists ks, ps3.
  eapply (idle_shutdown_loses_nothing _ _ _ _ _ _ _ _ _ _ _ _ _ lost_db (mkProcess Stopping ks (ps3, lost_scored))
    (mkProcess Waited ks (ps3, lost_scored)) _ (process_steps_trans _ _ _ _ _ _ _ H1 H2) eq_refl Hr); [|reflexivity| |reflexivity].
  - apply process_waited, Hz.
  - eapply rtc_l; [apply process_close|apply rtc_refl].
Defined.

(** The token is never empty: "Bearer " alone opens nothing. *)
Lemma run_adminToken_nonempty getenv random : (0 < length random)%nat -> run_adminToken getenv random <> ""%string.
Proof.
  intros Hr. unfold run_adminToken. case_bool_decide; [|assumption]. intros E. apply (f_equal bytes_of_string) in E.
  rewrite bytes_of_string_of_bytes in E. apply (f_equal length) in E. rewrite length_hex_encode, length_take in E. change (length (bytes_of_string ""%string)) with 0%nat in E. lia.
Qed.
